(** * bulk_csv_editor: the streaming search / replace engine

    A shallow embedding of the three server routes that make up the
    engine,

    - [src/app/api/csv/process/route.ts]  (simple and advanced search,
      with optional replacement),
    - the replace route (selective replay of a prior search result),
    - [lib/file-processor] (persisting artifacts, bundling, download
      locators),
    - the headers, upload and download routes, with Node's [path]
      functions as far as the routes use them,

    together with the properties the design document states about them,
    and further properties of the code (the modules from [CsvFacts]
    on).

    Conventions of the embedding.

    - A JS string is a [string]; its characters are read as code units
      below 256 (Latin-1), which fixes what [toLowerCase] and [trim] do.
    - A parsed CSV row (a JS object with string values) is an association
      list in [Object.keys] order; [row[k]] is the first binding of [k].
    - [undefined] is [None].
    - The JS runtime's regular expression engine, the CSV parser and
      serializer (papaparse), and the byte acquisition of a file are
      collaborators: they are fields of an environment record [Env].
    - The handler's mutable state (the stats counters, the event channel,
      the tmp directory and the clock) is threaded through a state monad
      with exceptions; state changes made before a [throw] survive it, as
      they do in JS. *)

From Stdlib Require Import String Ascii List Bool Arith ZArith Lia.
From Stdlib Require Import Decimal DecimalString.
Import ListNotations.
Open Scope string_scope.
Open Scope list_scope.
Open Scope nat_scope.

Set Implicit Arguments.

(* ================================================================== *)
(** * JavaScript values and built-ins used by the routes *)
(* ================================================================== *)

Module JS.

(** [a ?? b] on an optional string. *)
Definition nullish (o : option string) (d : string) : string :=
  match o with
  | Some v => v
  | None => d
  end.

(** [a || b] on an optional string: the empty string is falsy too. *)
Definition falsy_or (o : option string) (d : string) : string :=
  match o with
  | Some EmptyString => d
  | Some v => v
  | None => d
  end.

(** Truthiness of a string. *)
Definition truthy (s : string) : bool :=
  match s with
  | EmptyString => false
  | String _ _ => true
  end.

(** [oldValue !== newValue] *)
Definition strict_neq (a b : string) : bool := negb (String.eqb a b).

(** ** [String.prototype.toLowerCase] on Latin-1 code units *)

Definition isUpper (n : nat) : bool :=
  ((65 <=? n) && (n <=? 90))
  || ((192 <=? n) && (n <=? 222) && negb (n =? 215)).

Definition toLowerCase_char (c : ascii) : ascii :=
  let n := nat_of_ascii c in
  if isUpper n then ascii_of_nat (n + 32) else c.

Fixpoint toLowerCase (s : string) : string :=
  match s with
  | EmptyString => EmptyString
  | String c t => String (toLowerCase_char c) (toLowerCase t)
  end.

(** ** [String.prototype.trim] *)

Definition isWhiteSpace (c : ascii) : bool :=
  let n := nat_of_ascii c in
  (n =? 9) || (n =? 10) || (n =? 11) || (n =? 12) || (n =? 13)
  || (n =? 32) || (n =? 160).

Fixpoint trimStart (s : string) : string :=
  match s with
  | EmptyString => EmptyString
  | String c t => if isWhiteSpace c then trimStart t else s
  end.

Fixpoint trimEnd (s : string) : string :=
  match s with
  | EmptyString => EmptyString
  | String c t =>
      match trimEnd t with
      | EmptyString =>
          if isWhiteSpace c then EmptyString else String c EmptyString
      | t' => String c t'
      end
  end.

Definition trim (s : string) : string := trimEnd (trimStart s).

(** ** [startsWith], [endsWith], [includes] *)

Definition startsWith (hay needle : string) : bool := String.prefix needle hay.

Definition endsWith (hay needle : string) : bool :=
  let lh := String.length hay in
  let ln := String.length needle in
  (ln <=? lh) && String.eqb (String.substring (lh - ln) ln hay) needle.

Fixpoint includes (hay needle : string) : bool :=
  String.prefix needle hay
  || match hay with
     | EmptyString => false
     | String _ t => includes t needle
     end.

(** [Array.prototype.includes] on an array of strings. *)
Definition arr_includes (a : list string) (x : string) : bool :=
  existsb (String.eqb x) a.

(** [Array.prototype.join] *)
Fixpoint join (sep : string) (a : list string) : string :=
  match a with
  | [] => EmptyString
  | [x] => x
  | x :: rest => (x ++ sep ++ join sep rest)%string
  end.

(** [Array.from(new Set(a))]: first occurrences, in order. *)
Fixpoint dedup_from (seen : list string) (a : list string) : list string :=
  match a with
  | [] => []
  | x :: rest =>
      if arr_includes seen x then dedup_from seen rest
      else x :: dedup_from (seen ++ [x]) rest
  end.

Definition uniq (a : list string) : list string := dedup_from [] a.

(** ** Regular expressions

    The engine is the runtime's.  [re_syntax_error p] is the message of
    the [SyntaxError] that [new RegExp(p, flags)] throws, if it throws;
    [re_exec p i s k] is the end position of the leftmost match of
    pattern [p] (ignoring case when [i]) in [s] starting the search at
    position [k], if there is one. *)

Record RegExpEngine : Type := {
  re_syntax_error : string -> option string;
  re_exec : string -> bool -> string -> nat -> option nat
}.

(** A [RegExp] object: its source, its flags and the mutable
    [lastIndex]. *)
Record RegExp : Type := {
  source : string;
  ignoreCase : bool;
  global : bool;
  lastIndex : nat
}.

Definition has_flag (c : ascii) (flags : string) : bool :=
  existsb (Ascii.eqb c) (list_ascii_of_string flags).

(** [new RegExp(pattern, flags)] *)
Definition RegExp_new (E : RegExpEngine) (pattern flags : string)
  : string + RegExp :=
  match re_syntax_error E pattern with
  | Some msg => inl msg
  | None =>
      inr {| source := pattern;
             ignoreCase := has_flag "i" flags;
             global := has_flag "g" flags;
             lastIndex := 0 |}
  end.

Definition set_lastIndex (re : RegExp) (k : nat) : RegExp :=
  {| source := source re; ignoreCase := ignoreCase re;
     global := global re; lastIndex := k |}.

(** [re.test(s)]: a global expression searches from [lastIndex] and
    moves it; any other searches from 0 and leaves it alone. *)
Definition RegExp_test (E : RegExpEngine) (re : RegExp) (s : string)
  : bool * RegExp :=
  if global re then
    match re_exec E (source re) (ignoreCase re) s (lastIndex re) with
    | Some e => (true, set_lastIndex re e)
    | None => (false, set_lastIndex re 0)
    end
  else
    match re_exec E (source re) (ignoreCase re) s 0 with
    | Some _ => (true, re)
    | None => (false, re)
    end.

End JS.

(* ================================================================== *)
(** * Parsed rows *)
(* ================================================================== *)

Module Csv.

(** [Record<string, string>] in key order. *)
Definition Row : Type := list (string * string).

(** [row[k]] *)
Fixpoint get (row : Row) (k : string) : option string :=
  match row with
  | [] => None
  | (k', v) :: rest => if String.eqb k' k then Some v else get rest k
  end.

(** [row[k] = v]: overwrite in place, or add the key at the end. *)
Fixpoint set (row : Row) (k v : string) : Row :=
  match row with
  | [] => [(k, v)]
  | (k', v') :: rest =>
      if String.eqb k' k then (k', v) :: rest
      else (k', v') :: set rest k v
  end.

(** [Object.keys(row)] *)
Definition keys (row : Row) : list string := map fst row.

(** [Array.from(new Set(Object.keys(rows[0] || {}).map(h => h.trim()).filter(h => h)))] *)
Definition headersOf (rows : list Row) : list string :=
  let rawHeaders := keys (hd [] rows) in
  JS.uniq (filter JS.truthy (map JS.trim rawHeaders)).

End Csv.

(* ================================================================== *)
(** * Field matcher and row predicate (advanced mode) *)
(* ================================================================== *)

Module Matcher.

Import JS Csv.

Inductive MatchMode : Type :=
  | Contains | Equals | Regex | StartsWith | EndsWith.

Inductive AdvancedLogic : Type := AND | OR.

Record FieldSearchCondition : Type := {
  field : string;
  value : string;
  mode : option MatchMode
}.

Record AdvancedSearchConfig : Type := {
  conditions : list FieldSearchCondition;
  logic : option AdvancedLogic;
  caseSensitive : option bool
}.

Definition or_default {A} (o : option A) (d : A) : A :=
  match o with
  | Some a => a
  | None => d
  end.

Section WithEngine.

Variable E : RegExpEngine.

(** [buildFieldMatcher]; [inl msg] is the [SyntaxError] of an invalid
    pattern. *)
Definition buildFieldMatcher (cond : FieldSearchCondition)
    (globalCaseSensitive : bool) : string + (string -> bool) :=
  let caseSensitive := globalCaseSensitive in
  let mode := or_default (mode cond) Contains in
  match mode with
  | Regex =>
      let flags := if caseSensitive then "" else "i" in
      match RegExp_new E (value cond) flags with
      | inl msg => inl msg
      | inr re => inr (fun raw => fst (RegExp_test E re raw))
      end
  | _ =>
      let needle :=
        if caseSensitive then value cond else toLowerCase (value cond) in
      inr (fun raw =>
             let hay := if caseSensitive then raw else toLowerCase raw in
             match mode with
             | Equals => String.eqb hay needle
             | StartsWith => startsWith hay needle
             | EndsWith => endsWith hay needle
             | _ => includes hay needle
             end)
  end.

(** [activeConds.map(c => ({cond: c, match: buildFieldMatcher(c, cs)}))];
    the first invalid pattern throws. *)
Fixpoint buildMatchers (cs : bool) (conds : list FieldSearchCondition)
  : string + list (FieldSearchCondition * (string -> bool)) :=
  match conds with
  | [] => inr []
  | c :: rest =>
      match buildFieldMatcher c cs with
      | inl msg => inl msg
      | inr m =>
          match buildMatchers cs rest with
          | inl msg => inl msg
          | inr ms => inr ((c, m) :: ms)
          end
      end
  end.

(** The AND loop: leaves at the first missing field or failed matcher. *)
Fixpoint andLoop (row : Row) (headers : list string)
    (fieldMatchers : list (FieldSearchCondition * (string -> bool)))
    (matchedFields : list string) : bool * list string :=
  match fieldMatchers with
  | [] => (true, matchedFields)
  | (cond, mtch) :: rest =>
      if negb (arr_includes headers (field cond)) then (false, [])
      else
        let raw := nullish (get row (field cond)) "" in
        if negb (mtch raw) then (false, [])
        else andLoop row headers rest (matchedFields ++ [field cond])
  end.

(** The OR loop: runs to the end, with [any] and [matchedFields]. *)
Fixpoint orLoop (row : Row) (headers : list string)
    (fieldMatchers : list (FieldSearchCondition * (string -> bool)))
    (any : bool) (matchedFields : list string) : bool * list string :=
  match fieldMatchers with
  | [] => (any, matchedFields)
  | (cond, mtch) :: rest =>
      if negb (arr_includes headers (field cond))
      then orLoop row headers rest any matchedFields
      else
        let raw := nullish (get row (field cond)) "" in
        if mtch raw
        then orLoop row headers rest true (matchedFields ++ [field cond])
        else orLoop row headers rest any matchedFields
  end.

Definition isActive (c : FieldSearchCondition) : bool :=
  truthy (value c) && strict_neq (trim (value c)) "".

(** [rowMatchesAdvanced]: [(matches, matchedFields)], or the thrown
    message. *)
Definition rowMatchesAdvanced (row : Row) (headers : list string)
    (advanced : AdvancedSearchConfig) : string + (bool * list string) :=
  let logic := or_default (logic advanced) AND in
  let caseSensitive := or_default (caseSensitive advanced) false in
  let activeConds := filter isActive (conditions advanced) in
  if length activeConds =? 0 then inr (true, [])
  else
    match buildMatchers caseSensitive activeConds with
    | inl msg => inl msg
    | inr fieldMatchers =>
        match logic with
        | AND => inr (andLoop row headers fieldMatchers [])
        | OR =>
            let '(any, matchedFields) :=
              orLoop row headers fieldMatchers false [] in
            inr (any, if any then matchedFields else [])
        end
    end.

(** ** The evaluator as the design document words it *)

(** A blank value: nothing is left of it after trimming. *)
Definition blank (v : string) : bool := String.eqb (trim v) "".

(** The field matcher's verdict on one cell. *)
Definition accepts (cs : bool) (c : FieldSearchCondition) (cell : string)
  : bool :=
  match or_default (mode c) Contains with
  | Regex =>
      match re_exec E (value c) (negb cs) cell 0 with
      | Some _ => true
      | None => false
      end
  | Equals =>
      if cs then String.eqb cell (value c)
      else String.eqb (toLowerCase cell) (toLowerCase (value c))
  | StartsWith =>
      if cs then startsWith cell (value c)
      else startsWith (toLowerCase cell) (toLowerCase (value c))
  | EndsWith =>
      if cs then endsWith cell (value c)
      else endsWith (toLowerCase cell) (toLowerCase (value c))
  | Contains =>
      if cs then includes cell (value c)
      else includes (toLowerCase cell) (toLowerCase (value c))
  end.

(** A condition holds of a row: its field is a header and its matcher
    accepts the row's cell. *)
Definition holds (cs : bool) (row : Row) (headers : list string)
    (c : FieldSearchCondition) : bool :=
  arr_includes headers (field c)
  && accepts cs c (nullish (get row (field c)) "").

(** The configuration error: the first active regex condition whose
    pattern does not compile. *)
Fixpoint patternError (conds : list FieldSearchCondition) : option string :=
  match conds with
  | [] => None
  | c :: rest =>
      match or_default (mode c) Contains, re_syntax_error E (value c) with
      | Regex, Some msg => Some msg
      | _, _ => patternError rest
      end
  end.

Definition reference (row : Row) (headers : list string)
    (advanced : AdvancedSearchConfig) : bool * list string :=
  let cs := or_default (caseSensitive advanced) false in
  let active :=
    filter (fun c => negb (blank (value c))) (conditions advanced) in
  match active with
  | [] => (true, [])
  | _ :: _ =>
      match or_default (logic advanced) AND with
      | AND =>
          if forallb (holds cs row headers) active
          then (true, map field active)
          else (false, [])
      | OR =>
          let contributing := filter (holds cs row headers) active in
          (existsb (holds cs row headers) active, map field contributing)
      end
  end.

End WithEngine.

End Matcher.

(* ================================================================== *)
(** * Paths, download locators and the tmp directory (lib/file-processor) *)
(* ================================================================== *)

Module FileProcessor.

Import JS.

(** [s.split('/')] *)
Fixpoint split_slash (s : string) : list string :=
  match s with
  | EmptyString => [EmptyString]
  | String c t =>
      if Ascii.eqb c "/"
      then EmptyString :: split_slash t
      else match split_slash t with
           | [] => [String c EmptyString]
           | seg :: segs => String c seg :: segs
           end
  end.

(** [path.basename(p)]: the last non-empty segment. *)
Definition basename (p : string) : string :=
  last (filter truthy (split_slash p)) EmptyString.

(** [path.join(dir, leaf)] for a normalized [dir] and a [leaf] that is a
    single segment, the only way the routes call it. *)
Definition path_join (dir leaf : string) : string :=
  (dir ++ "/" ++ leaf)%string.

Fixpoint drop_prefix (p s : string) : option string :=
  match p, s with
  | EmptyString, _ => Some s
  | String a p', String b s' =>
      if Ascii.eqb a b then drop_prefix p' s' else None
  | String _ _, EmptyString => None
  end.

(** [path.relative(dir, p)] for a [p] below [dir], the only way
    [getDownloadUrl] is called; any other [p] is left as it is. *)
Definition path_relative (dir p : string) : string :=
  match drop_prefix (dir ++ "/")%string p with
  | Some leaf => leaf
  | None => p
  end.

Definition isAlnum (n : nat) : bool :=
  ((48 <=? n) && (n <=? 57)) || ((65 <=? n) && (n <=? 90))
  || ((97 <=? n) && (n <=? 122)).

Definition hexDigit (n : nat) : ascii :=
  if n <? 10 then ascii_of_nat (48 + n) else ascii_of_nat (55 + n).

Definition percent (n : nat) : string :=
  String "%" (String (hexDigit (n / 16)) (String (hexDigit (n mod 16))
      EmptyString)).

(** [encodeURIComponent]: unreserved characters stay, every other code
    unit is written as the percent-escapes of its UTF-8 bytes. *)
Definition encodeChar (c : ascii) : string :=
  let n := nat_of_ascii c in
  if isAlnum n
     || existsb (Nat.eqb n) [45; 95; 46; 33; 126; 42; 39; 40; 41]
  then String c EmptyString
  else if n <? 128 then percent n
  else (percent (192 + n / 64) ++ percent (128 + n mod 64))%string.

Fixpoint encodeURIComponent (s : string) : string :=
  match s with
  | EmptyString => EmptyString
  | String c t => (encodeChar c ++ encodeURIComponent t)%string
  end.

(** [filename.replace(/[^a-zA-Z0-9.-]/g, '_')] *)
Definition safeChar (c : ascii) : ascii :=
  let n := nat_of_ascii c in
  if isAlnum n || (n =? 46) || (n =? 45) then c else "_"%char.

Fixpoint safeName (s : string) : string :=
  match s with
  | EmptyString => EmptyString
  | String c t => String (safeChar c) (safeName t)
  end.

(** [`${timestamp}`] *)
Definition decimal (n : nat) : string := NilZero.string_of_uint (Nat.to_uint n).

(** What the tmp directory holds under a path. *)
#[warnings="-register-all"]
Inductive FileContent : Type :=
  | Text (content : string)
  | Archive (entries : list (string * FileContent)).

Definition FileSystem : Type := list (string * FileContent).

Fixpoint readFile (fs : FileSystem) (p : string) : option FileContent :=
  match fs with
  | [] => None
  | (p', c) :: rest => if String.eqb p' p then Some c else readFile rest p
  end.

Definition writeFile (fs : FileSystem) (p : string) (c : FileContent)
  : FileSystem := (p, c) :: fs.

(** The tmp directory and the readings [Date.now()] will give. *)
Record World : Type := {
  fs : FileSystem;
  clock : list nat
}.

Definition Date_now (w : World) : nat * World :=
  (hd 0 (clock w), {| fs := fs w; clock := tl (clock w) |}).

Section WithTmpDir.

(** [path.join(process.cwd(), 'tmp')] *)
Variable TMP_DIR : string.

(** The archive library: handed each entry's name and what its path
    holds ([None]: no such file), it gives the archive's entries, or
    fails. *)
Variable archiver :
  list (string * option FileContent) -> string + list (string * FileContent).

(** [saveProcessedFile]: the path written. *)
Definition saveProcessedFile (filename content : string) (w : World)
  : string * World :=
  let '(timestamp, w1) := Date_now w in
  let safeFilename := safeName filename in
  let filePath :=
    path_join TMP_DIR (decimal timestamp ++ "_" ++ safeFilename)%string in
  (filePath, {| fs := writeFile (fs w1) filePath (Text content);
                clock := clock w1 |}).

(** [createZipFile]: the archive's path, or the archive's error. *)
Definition createZipFile (files : list (string * string)) (w : World)
  : (string + string) * World :=
  let '(timestamp, w1) := Date_now w in
  let zipPath :=
    path_join TMP_DIR ("processed_" ++ decimal timestamp ++ ".zip")%string in
  match archiver
          (map (fun f => (fst f, readFile (fs w1) (snd f))) files) with
  | inl err => (inl err, w1)
  | inr entries =>
      (inr zipPath,
       {| fs := writeFile (fs w1) zipPath (Archive entries);
          clock := clock w1 |})
  end.

(** [getDownloadUrl] *)
Definition getDownloadUrl (filePath : string) : string :=
  let relativePath := path_relative TMP_DIR filePath in
  ("/api/download?file=" ++ encodeURIComponent relativePath)%string.

End WithTmpDir.

(** The archive library's treatment of a path that does not exist: the
    entry is dropped with a warning, the archive is still written. *)
Fixpoint archiveExisting (entries : list (string * option FileContent))
  : list (string * FileContent) :=
  match entries with
  | [] => []
  | (n, Some c) :: rest => (n, c) :: archiveExisting rest
  | (_, None) :: rest => archiveExisting rest
  end.

Definition archiverSkipMissing
    (entries : list (string * option FileContent))
  : string + list (string * FileContent) :=
  inr (archiveExisting entries).

End FileProcessor.

(* ================================================================== *)
(** * Request state: stats, the event channel, output records *)
(* ================================================================== *)

Module Pipeline.

Import JS Csv Matcher FileProcessor.

Record ProcessStats : Type := {
  totalFiles : nat;
  processedFiles : nat;
  totalRows : nat;
  processedRows : nat;
  totalMatches : nat;
  totalReplacements : nat;
  currentFile : option string;
  currentFileRows : option nat;
  currentFileMatches : option nat
}.

Definition initStats (nFiles : nat) : ProcessStats :=
  {| totalFiles := nFiles; processedFiles := 0; totalRows := 0;
     processedRows := 0; totalMatches := 0; totalReplacements := 0;
     currentFile := None; currentFileRows := None;
     currentFileMatches := None |}.

Definition incProcessedFiles (s : ProcessStats) : ProcessStats :=
  {| totalFiles := totalFiles s; processedFiles := S (processedFiles s);
     totalRows := totalRows s; processedRows := processedRows s;
     totalMatches := totalMatches s; totalReplacements := totalReplacements s;
     currentFile := currentFile s; currentFileRows := currentFileRows s;
     currentFileMatches := currentFileMatches s |}.

Definition addTotalRows (n : nat) (s : ProcessStats) : ProcessStats :=
  {| totalFiles := totalFiles s; processedFiles := processedFiles s;
     totalRows := totalRows s + n; processedRows := processedRows s;
     totalMatches := totalMatches s; totalReplacements := totalReplacements s;
     currentFile := currentFile s; currentFileRows := currentFileRows s;
     currentFileMatches := currentFileMatches s |}.

Definition incProcessedRows (s : ProcessStats) : ProcessStats :=
  {| totalFiles := totalFiles s; processedFiles := processedFiles s;
     totalRows := totalRows s; processedRows := S (processedRows s);
     totalMatches := totalMatches s; totalReplacements := totalReplacements s;
     currentFile := currentFile s; currentFileRows := currentFileRows s;
     currentFileMatches := currentFileMatches s |}.

Definition incTotalMatches (s : ProcessStats) : ProcessStats :=
  {| totalFiles := totalFiles s; processedFiles := processedFiles s;
     totalRows := totalRows s; processedRows := processedRows s;
     totalMatches := S (totalMatches s);
     totalReplacements := totalReplacements s;
     currentFile := currentFile s; currentFileRows := currentFileRows s;
     currentFileMatches := currentFileMatches s |}.

Definition incTotalReplacements (s : ProcessStats) : ProcessStats :=
  {| totalFiles := totalFiles s; processedFiles := processedFiles s;
     totalRows := totalRows s; processedRows := processedRows s;
     totalMatches := totalMatches s;
     totalReplacements := S (totalReplacements s);
     currentFile := currentFile s; currentFileRows := currentFileRows s;
     currentFileMatches := currentFileMatches s |}.

Definition setCurrent (f : option string) (r m : option nat)
    (s : ProcessStats) : ProcessStats :=
  {| totalFiles := totalFiles s; processedFiles := processedFiles s;
     totalRows := totalRows s; processedRows := processedRows s;
     totalMatches := totalMatches s; totalReplacements := totalReplacements s;
     currentFile := f; currentFileRows := r; currentFileMatches := m |}.

Record RowChange : Type := {
  ch_field : string;
  oldValue : string;
  newValue : string
}.

Record OutputFileRecord : Type := {
  originalPath : string;
  newPath : option string
}.

(** The stats object of the [complete] event; the simple search leaves
    [processedRows] out of it. *)
Record CompleteStats : Type := {
  c_totalFiles : nat;
  c_processedFiles : nat;
  c_totalRows : nat;
  c_processedRows : option nat;
  c_totalMatches : nat;
  c_totalReplacements : nat
}.

Inductive Event : Type :=
  | EvRequestError (message : string)
  | EvFileError (filename : string) (error : string)
  | EvTopError (error : string)
  | EvFileStart (filename : string) (path : string)
  | EvFileInfo (filename : string) (totalRows : nat) (fields : nat)
  | EvRowProcessed (filename filePath : string) (rowIndex totalRows : nat)
      (matches : list RowChange)
  | EvStats (snapshot : ProcessStats)
  | EvFileComplete (filename : string) (matchesCount replacementsCount : nat)
      (newPath : option string)
  | EvComplete (outputFiles : option (list OutputFileRecord))
      (downloadUrl : option string) (isZip : bool) (stats : CompleteStats).

(** Everything a request handler mutates. *)
Record St : Type := {
  stats : ProcessStats;
  events : list Event;
  outputFiles : list OutputFileRecord;
  world : World
}.

(** ** The handler monad: state, and exceptions that keep the state *)

Definition M (A : Type) : Type := St -> (string + A) * St.

Definition ret {A} (a : A) : M A := fun st => (inr a, st).

Definition bind {A B} (m : M A) (k : A -> M B) : M B :=
  fun st =>
    match m st with
    | (inl e, st') => (inl e, st')
    | (inr a, st') => k a st'
    end.

Definition throw {A} (msg : string) : M A := fun st => (inl msg, st).

Definition try_catch {A} (m : M A) (handler : string -> M A) : M A :=
  fun st =>
    match m st with
    | (inl e, st') => handler e st'
    | (inr a, st') => (inr a, st')
    end.

Definition liftE {A} (r : string + A) : M A :=
  match r with
  | inl e => throw e
  | inr a => ret a
  end.

Declare Scope handler_scope.
Delimit Scope handler_scope with handler.
Notation "x <- m ;; k" := (bind m (fun x => k))
  (at level 61, m at next level, right associativity) : handler_scope.
Notation "m ;; k" := (bind m (fun _ => k))
  (at level 61, right associativity) : handler_scope.
Open Scope handler_scope.

Definition sendEvent (e : Event) : M unit :=
  fun st =>
    (inr tt, {| stats := stats st; events := events st ++ [e];
                outputFiles := outputFiles st; world := world st |}).

Definition modStats (f : ProcessStats -> ProcessStats) : M unit :=
  fun st =>
    (inr tt, {| stats := f (stats st); events := events st;
                outputFiles := outputFiles st; world := world st |}).

Definition getStats : M ProcessStats := fun st => (inr (stats st), st).

Definition getOutputFiles : M (list OutputFileRecord) :=
  fun st => (inr (outputFiles st), st).

Definition pushOutput (o : OutputFileRecord) : M unit :=
  fun st =>
    (inr tt, {| stats := stats st; events := events st;
                outputFiles := outputFiles st ++ [o]; world := world st |}).

(** Run a computation on the tmp directory and the clock. *)
Definition onWorld {A} (f : World -> A * World) : M A :=
  fun st =>
    let '(a, w) := f (world st) in
    (inr a, {| stats := stats st; events := events st;
               outputFiles := outputFiles st; world := w |}).

(** [for (const x of xs) body(x)] *)
Fixpoint forEach {A} (xs : list A) (body : A -> M unit) : M unit :=
  match xs with
  | [] => ret tt
  | x :: rest => body x ;; forEach rest body
  end.

(** ** Collaborators *)

Record ParseResult : Type := {
  data : list Row;
  errors : list string
}.

Record Env : Type := {
  engine : RegExpEngine;
  (** the bytes behind a locator, or the error of the retrieval *)
  fetchText : string -> string + string;
  (** [Papa.parse(text, {header: true, skipEmptyLines: true, ...})] *)
  Papa_parse : string -> ParseResult;
  (** [Papa.unparse(rows, {header: true})] *)
  Papa_unparse : list Row -> string;
  TMP_DIR : string;
  archiver :
    list (string * option FileContent) -> string + list (string * FileContent)
}.

(* ================================================================== *)
(** * Steps shared by the three routes *)
(* ================================================================== *)

Section WithEnv.

Variable env : Env.

(** Resolve the text of a file from its [url]; a file without one is
    refused. *)
Definition acquire (url : option string) : M string :=
  match url with
  | Some u =>
      if truthy u then liftE (fetchText env u)
      else throw "File must have a url"
  | None => throw "File must have a url"
  end.

Definition parseErrorsMessage (errs : list string) : string :=
  ("CSV parsing errors: " ++ join ", " errs)%string.

(** [fileName.replace(/\.csv$/i, '')] *)
Definition stripCsv (fileName : string) : string :=
  if endsWith (toLowerCase fileName) ".csv"
  then String.substring 0 (String.length fileName - 4) fileName
  else fileName.

(** [`${nameWithoutExt}_replaced.csv`] from the file's path *)
Definition replacedFileName (filePath : string) : string :=
  let pathParts := split_slash filePath in
  let popped := last pathParts EmptyString in
  let fileName := if truthy popped then popped else "file.csv" in
  let nameWithoutExt := stripCsv fileName in
  (nameWithoutExt ++ "_replaced.csv")%string.

(** Serialize the retained rows, save them, and give the locator. *)
Definition persist (filePath : string) (processedRows : list Row)
  : M string :=
  let newCsv := Papa_unparse env processedRows in
  saved <- onWorld (saveProcessedFile (TMP_DIR env)
                      (replacedFileName filePath) newCsv) ;;
  ret (getDownloadUrl (TMP_DIR env) saved).

(** [outputFiles.filter(f => f.newPath)] *)
Definition hasOutput (f : OutputFileRecord) : bool :=
  match newPath f with
  | Some p => truthy p
  | None => false
  end.

(** What is handed to [createZipFile] for one output record:
    [{filename: path.basename(f.newPath), filePath: path.join(cwd, 'tmp',
    path.basename(f.newPath))}]. *)
Definition zipEntry (f : OutputFileRecord) : string * string :=
  let b := basename (nullish (newPath f) "") in
  (b, path_join (TMP_DIR env) b).

(** The closing stage, the same in the three routes: one archive for
    several outputs, the single output's own locator for one. *)
Definition bundle : M (option string * bool) :=
  outs <- getOutputFiles ;;
  let filesWithOutput := filter hasOutput outs in
  if 1 <? length filesWithOutput then
    let filesToZip := map zipEntry filesWithOutput in
    try_catch
      (r <- onWorld (createZipFile (TMP_DIR env) (archiver env) filesToZip) ;;
       zipPath <- liftE r ;;
       ret (Some (getDownloadUrl (TMP_DIR env) zipPath), true))
      (fun _ => ret (None, false))
  else if length filesWithOutput =? 1 then
    ret (newPath (hd {| originalPath := ""; newPath := None |} filesWithOutput),
         false)
  else ret (None, false).

Definition completeStats (withProcessedRows : bool) (s : ProcessStats)
  : CompleteStats :=
  {| c_totalFiles := totalFiles s;
     c_processedFiles := processedFiles s;
     c_totalRows := totalRows s;
     c_processedRows :=
       if withProcessedRows then Some (processedRows s) else None;
     c_totalMatches := totalMatches s;
     c_totalReplacements := totalReplacements s |}.

Definition sendComplete (withOutputFiles withProcessedRows : bool) : M unit :=
  r <- bundle ;;
  s <- getStats ;;
  outs <- getOutputFiles ;;
  sendEvent (EvComplete (if withOutputFiles then Some outs else None)
               (fst r) (snd r) (completeStats withProcessedRows s)).

(** The periodic snapshot: every tenth row and the file's last row. *)
Definition progress (i total : nat) : M unit :=
  if ((i + 1) mod 10 =? 0) || (i =? total - 1)
  then s <- getStats ;; sendEvent (EvStats s)
  else ret tt.

(** What a row loop accumulates for its file. *)
Record ScanAcc : Type := {
  processedRowsOut : list Row;
  fileMatches : nat;
  fileReplacements : nat
}.

Definition emptyScan : ScanAcc :=
  {| processedRowsOut := []; fileMatches := 0; fileReplacements := 0 |}.

Definition pushRow (row : Row) (acc : ScanAcc) : ScanAcc :=
  {| processedRowsOut := processedRowsOut acc ++ [row];
     fileMatches := fileMatches acc;
     fileReplacements := fileReplacements acc |}.

Definition countMatch (acc : ScanAcc) : ScanAcc :=
  {| processedRowsOut := processedRowsOut acc;
     fileMatches := S (fileMatches acc);
     fileReplacements := fileReplacements acc |}.

Definition countReplacement (acc : ScanAcc) : ScanAcc :=
  {| processedRowsOut := processedRowsOut acc;
     fileMatches := fileMatches acc;
     fileReplacements := S (fileReplacements acc) |}.

Definition change (f old new : string) : RowChange :=
  {| ch_field := f; oldValue := old; newValue := new |}.

(* ================================================================== *)
(** * The search route, simple mode (process/route.ts, [POST]) *)
(* ================================================================== *)

Record FileDescriptor : Type := {
  path : string;
  name : string;
  url : option string
}.

Record ProcessRequest : Type := {
  files : list FileDescriptor;
  searchTerm : option string;
  replaceTerm : option string;
  selectedFields : list string;
  showOnlyMatches : bool;
  rq_caseSensitive : option bool;
  wholeWord : option bool;
  useRegex : option bool;
  advanced : option AdvancedSearchConfig;
  replaceTargetField : option string;
  replaceValue : option string
}.

(** The characters of [/[.*+?^${}()|[\]\\]/]. *)
Definition isRegexSpecial (c : ascii) : bool :=
  existsb (Nat.eqb (nat_of_ascii c))
    [46; 42; 43; 63; 94; 36; 123; 125; 40; 41; 124; 91; 93; 92].

(** [searchTerm.replace(/[.*+?^${}()|[\]\\]/g, '\\$&')] *)
Fixpoint escapeRegExp (s : string) : string :=
  match s with
  | EmptyString => EmptyString
  | String c t =>
      if isRegexSpecial c
      then String (ascii_of_nat 92) (String c (escapeRegExp t))
      else String c (escapeRegExp t)
  end.

Definition wordBoundary : string := String (ascii_of_nat 92) "b".

(** The pattern and the flags given to [new RegExp]. *)
Definition buildSearch (searchTerm : string)
    (useRegex wholeWord caseSensitive : bool) : string * string :=
  if useRegex then
    (if wholeWord
     then (wordBoundary ++ "(" ++ searchTerm ++ ")" ++ wordBoundary)%string
     else searchTerm,
     if caseSensitive then "g" else "gi")
  else
    let escaped := escapeRegExp searchTerm in
    (if wholeWord
     then (wordBoundary ++ escaped ++ wordBoundary)%string
     else escaped,
     if caseSensitive then "g" else "gi").

(** [replaceTerm !== undefined && replaceTerm !== ''] *)
Definition isReplaceModeSimple (replaceTerm : option string) : bool :=
  match replaceTerm with
  | Some t => strict_neq t ""
  | None => false
  end.

Section SimpleScan.

Variable showOnly : bool.
Variable replaceTerm_ : option string.
Variables searchFields replaceFields : list string.
Variable file : FileDescriptor.
Variable total : nat.

(** [searchFields.map(field => (row[field] ?? '').toString()).join(' ')] *)
Definition rowText (row : Row) : string :=
  join " " (map (fun field => nullish (get row field) "") searchFields).

(** [searchRegex.lastIndex = 0; searchRegex.test(rowText)] *)
Definition rowMatched (re : RegExp) (row : Row) : bool * RegExp :=
  RegExp_test (engine env) (set_lastIndex re 0) (rowText row).

(** Search-only mode: which fields match on their own. *)
Fixpoint attributeFields (fields : list string) (row : Row) (re : RegExp)
    (rowMatches : list RowChange) : list RowChange * RegExp :=
  match fields with
  | [] => (rowMatches, re)
  | field :: rest =>
      let value := falsy_or (get row field) "" in
      let '(hit, re1) := RegExp_test (engine env) (set_lastIndex re 0) value in
      attributeFields rest row re1
        (if hit then rowMatches ++ [change field value value] else rowMatches)
  end.

(** Replace mode: overwrite every target field of a matched row. *)
Fixpoint overwriteFields (fields : list string) (newValue : string)
    (row : Row) (rowMatches : list RowChange) (acc : ScanAcc)
  : M (Row * list RowChange * ScanAcc) :=
  match fields with
  | [] => ret (row, rowMatches, acc)
  | field :: rest =>
      let oldValue := falsy_or (get row field) "" in
      if strict_neq newValue oldValue then
        modStats incTotalReplacements ;;
        overwriteFields rest newValue (set row field newValue)
          (rowMatches ++ [change field oldValue newValue])
          (countReplacement acc)
      else overwriteFields rest newValue row rowMatches acc
  end.

(** The body of the row loop at index [i]. *)
Definition simpleRow (i : nat) (row : Row) (re : RegExp) (acc : ScanAcc)
  : M (ScanAcc * RegExp) :=
  let '(matched, re1) := rowMatched re row in
  if negb matched then
    let acc1 := if negb showOnly then pushRow row acc else acc in
    modStats incProcessedRows ;;
    progress i total ;;
    ret (acc1, re1)
  else
    let acc1 := countMatch acc in
    modStats incTotalMatches ;;
    r <- (if negb (isReplaceModeSimple replaceTerm_) then
            let '(rowMatches, re2) := attributeFields searchFields row re1 [] in
            ret (row, rowMatches, acc1, re2)
          else
            x <- overwriteFields replaceFields (nullish replaceTerm_ "")
                   row [] acc1 ;;
            ret (x, re1)) ;;
    let '(row', rowMatches, acc2, re2) := r in
    let acc3 :=
      if negb showOnly || matched then pushRow row' acc2 else acc2 in
    modStats incProcessedRows ;;
    (if 0 <? length rowMatches
     then sendEvent (EvRowProcessed (name file) (path file) (i + 1) total
                       rowMatches)
     else ret tt) ;;
    progress i total ;;
    ret (acc3, re2).

(** [for (let i = 0; i < rows.length; i++)], from index [i] on. *)
Fixpoint simpleRows (rows : list Row) (i : nat) (re : RegExp)
    (acc : ScanAcc) : M (ScanAcc * RegExp) :=
  match rows with
  | [] => ret (acc, re)
  | row :: rest =>
      r <- simpleRow i row re acc ;;
      simpleRows rest (S i) (snd r) (fst r)
  end.

End SimpleScan.

(** The fields a simple replacement writes. *)
Definition replaceFieldsOf (selected headers : list string) : list string :=
  if arr_includes selected "All" || (length selected =? 0)
  then headers
  else filter (fun f => arr_includes headers f) selected.

(** One file of the simple search, once its rows are parsed. *)
Definition simpleParsed (body : ProcessRequest) (term : string)
    (file : FileDescriptor) (rows : list Row) : M unit :=
  let headers := headersOf rows in
  modStats (fun s =>
              setCurrent (currentFile s) (Some (length rows))
                (currentFileMatches s) (addTotalRows (length rows) s)) ;;
  let replaceFields := replaceFieldsOf (selectedFields body) headers in
  let searchFields := headers in
  let '(searchPattern, searchFlags) :=
    buildSearch term (or_default (useRegex body) false)
      (or_default (wholeWord body) false)
      (or_default (rq_caseSensitive body) false) in
  searchRegex <- liftE (RegExp_new (engine env) searchPattern searchFlags) ;;
  sendEvent (EvFileInfo (name file) (length rows) (length searchFields)) ;;
  r <- simpleRows (showOnlyMatches body) (replaceTerm body) searchFields
         replaceFields file (length rows) rows 0 searchRegex emptyScan ;;
  let acc := fst r in
  modStats (fun s =>
              setCurrent (currentFile s) (currentFileRows s)
                (Some (fileMatches acc)) s) ;;
  np <- (if isReplaceModeSimple (replaceTerm body)
         then p <- persist (path file) (processedRowsOut acc) ;; ret (Some p)
         else ret None) ;;
  pushOutput {| originalPath := path file; newPath := np |} ;;
  modStats (fun s =>
              setCurrent None (currentFileRows s) (currentFileMatches s)
                (incProcessedFiles s)) ;;
  sendEvent (EvFileComplete (name file) (fileMatches acc)
               (fileReplacements acc) np) ;;
  s <- getStats ;;
  sendEvent (EvStats s).

(** One file of the simple search: anything thrown is turned into an
    [error] event and the batch goes on. *)
Definition simpleFile (body : ProcessRequest) (term : string)
    (file : FileDescriptor) : M unit :=
  try_catch
    (modStats (setCurrent (Some (name file)) (Some 0) (Some 0)) ;;
     sendEvent (EvFileStart (name file) (path file)) ;;
     text <- acquire (url file) ;;
     let parseResult := Papa_parse env text in
     if 0 <? length (errors parseResult)
     then sendEvent (EvFileError (name file)
                       (parseErrorsMessage (errors parseResult)))
     else simpleParsed body term file (data parseResult))
    (fun msg => sendEvent (EvFileError (name file) msg)).

(* ================================================================== *)
(** * The search route, advanced mode ([processFilesWithAdvancedSearch]) *)
(* ================================================================== *)

(** [!!(replaceTargetField && replaceValue !== undefined)] *)
Definition isReplaceModeAdvanced (replaceTargetField replaceValue : option
    string)
  : bool :=
  match replaceTargetField with
  | Some f =>
      truthy f && match replaceValue with Some _ => true | None => false end
  | None => false
  end.

Section AdvancedScan.

Variable adv : AdvancedSearchConfig.
Variables target value_ : option string.
Variable showOnly : bool.
Variable headers : list string.
Variable file : FileDescriptor.
Variable total : nat.

(** [isReplaceMode && replaceTargetField && headers.includes(replaceTargetField)] *)
Definition writesTarget : bool :=
  isReplaceModeAdvanced target value_
  && truthy (nullish target "")
  && arr_includes headers (nullish target "").

(** The body of the row loop at index [i]. *)
Definition advancedRow (i : nat) (row : Row) (acc : ScanAcc) : M ScanAcc :=
  r <- liftE (rowMatchesAdvanced (engine env) row headers adv) ;;
  let '(rowMatchesFlag, matchedFields) := r in
  if negb rowMatchesFlag then
    let acc1 := if negb showOnly then pushRow row acc else acc in
    modStats incProcessedRows ;;
    progress i total ;;
    ret acc1
  else
    let acc1 := countMatch acc in
    modStats incTotalMatches ;;
    x <- (if writesTarget then
            let field := nullish target "" in
            let oldValue := nullish (get row field) "" in
            let newValue := nullish value_ "" in
            if strict_neq newValue oldValue then
              modStats incTotalReplacements ;;
              ret (set row field newValue,
                   [change field oldValue newValue],
                   countReplacement acc1)
            else ret (row, [], acc1)
          else
            ret (row,
                 map (fun field =>
                        let value := nullish (get row field) "" in
                        change field value value) matchedFields,
                 acc1)) ;;
    let '(row', rowMatchesEvents, acc2) := x in
    let acc3 :=
      if negb showOnly || (0 <? length rowMatchesEvents)
      then pushRow row' acc2 else acc2 in
    modStats incProcessedRows ;;
    (if 0 <? length rowMatchesEvents
     then sendEvent (EvRowProcessed (name file) (path file) (i + 1) total
                       rowMatchesEvents)
     else ret tt) ;;
    progress i total ;;
    ret acc3.

Fixpoint advancedRows (rows : list Row) (i : nat) (acc : ScanAcc)
  : M ScanAcc :=
  match rows with
  | [] => ret acc
  | row :: rest =>
      acc1 <- advancedRow i row acc ;;
      advancedRows rest (S i) acc1
  end.

End AdvancedScan.

(** One file of the advanced search, once its rows are parsed. *)
Definition advancedParsed (adv : AdvancedSearchConfig)
    (target value_ : option string) (showOnly : bool)
    (file : FileDescriptor) (rows : list Row) : M unit :=
  let headers := headersOf rows in
  modStats (fun s =>
              setCurrent (currentFile s) (Some (length rows))
                (currentFileMatches s) (addTotalRows (length rows) s)) ;;
  sendEvent (EvFileInfo (name file) (length rows) (length headers)) ;;
  acc <- advancedRows adv target value_ showOnly headers file (length rows)
           rows 0 emptyScan ;;
  modStats (fun s =>
              setCurrent (currentFile s) (currentFileRows s)
                (Some (fileMatches acc)) s) ;;
  np <- (if isReplaceModeAdvanced target value_
         then p <- persist (path file) (processedRowsOut acc) ;; ret (Some p)
         else ret None) ;;
  pushOutput {| originalPath := path file; newPath := np |} ;;
  modStats (fun s =>
              setCurrent None (currentFileRows s) (currentFileMatches s)
                (incProcessedFiles s)) ;;
  sendEvent (EvFileComplete (name file) (fileMatches acc)
               (fileReplacements acc) np) ;;
  s <- getStats ;;
  sendEvent (EvStats s).

Definition advancedFile (adv : AdvancedSearchConfig)
    (target value_ : option string) (showOnly : bool)
    (file : FileDescriptor) : M unit :=
  try_catch
    (modStats (setCurrent (Some (name file)) (Some 0) (Some 0)) ;;
     sendEvent (EvFileStart (name file) (path file)) ;;
     text <- acquire (url file) ;;
     let parseResult := Papa_parse env text in
     if 0 <? length (errors parseResult)
     then sendEvent (EvFileError (name file)
                       (parseErrorsMessage (errors parseResult)))
     else advancedParsed adv target value_ showOnly file (data parseResult))
    (fun msg => sendEvent (EvFileError (name file) msg)).

Definition processFilesWithAdvancedSearch (files_ : list FileDescriptor)
    (adv : AdvancedSearchConfig) (target value_ : option string)
    (showOnly : bool) : M unit :=
  forEach files_ (advancedFile adv target value_ showOnly) ;;
  sendComplete true true.

(** [advanced && Array.isArray(advanced.conditions) && advanced.conditions.length > 0] *)
Definition useAdvanced (body : ProcessRequest) : option AdvancedSearchConfig :=
  match advanced body with
  | Some a => if 0 <? length (conditions a) then Some a else None
  | None => None
  end.

(** The search route's handler. *)
Definition POST_process (body : ProcessRequest) : M unit :=
  try_catch
    (if length (files body) =? 0
     then sendEvent (EvRequestError "Files are required")
     else
       modStats (fun _ => initStats (length (files body))) ;;
       match useAdvanced body with
       | Some a =>
           processFilesWithAdvancedSearch (files body) a
             (replaceTargetField body) (replaceValue body)
             (showOnlyMatches body)
       | None =>
           match searchTerm body with
           | Some term =>
               if truthy term then
                 forEach (files body) (simpleFile body term) ;;
                 sendComplete true false
               else sendEvent
                      (EvRequestError "Search term is required in simple mode")
           | None =>
               sendEvent
                 (EvRequestError "Search term is required in simple mode")
           end
       end)
    (fun msg => sendEvent (EvTopError msg)).

(* ================================================================== *)
(** * The replace route: selective replay of a search result *)
(* ================================================================== *)

Record SearchResultRow : Type := {
  rowIndex : Z;
  fields : Row
}.

Record SearchResult : Type := {
  filename : string;
  sr_path : string;
  sr_rows : list SearchResultRow
}.

(** An operation as it arrives: the value may be missing. *)
Record RawOperation : Type := {
  raw_field : string;
  raw_value : option string
}.

Record ReplaceOperation : Type := {
  op_field : string;
  op_value : string
}.

Record ReplaceRequest : Type := {
  searchResults : list SearchResult;
  selectedFiles : list FileDescriptor;
  rp_replaceTargetField : option string;
  rp_replaceValue : option string;
  replaceOperations : list RawOperation
}.

(** The operations loop of the validation: the first operation without
    a field or without a value ends the request. *)
Fixpoint validateOperations (ops : list RawOperation)
  : string + list ReplaceOperation :=
  match ops with
  | [] => inr []
  | op :: rest =>
      if negb (truthy (raw_field op))
      then inl "All replace operations must have a field specified"
      else
        match raw_value op with
        | None =>
            inl
                "All replace operations must have a value specified (empty string is allowed)"
        | Some v =>
            match validateOperations rest with
            | inl msg => inl msg
            | inr ops' => inr ({| op_field := raw_field op; op_value := v |}
                :: ops')
            end
        end
  end.

(** The operations of a request, in the new or the old format. *)
Definition operationsOf (req : ReplaceRequest)
  : string + list ReplaceOperation :=
  if 0 <? length (replaceOperations req)
  then validateOperations (replaceOperations req)
  else
    match rp_replaceTargetField req with
    | Some f =>
        if truthy f then
          match rp_replaceValue req with
          | None => inl
              "Replace value must be provided (empty string is allowed)"
          | Some v =>
              validateOperations [{| raw_field := f; raw_value := Some v |}]
          end
        else inl
            "Either replaceOperations or replaceTargetField must be provided"
    | None => inl
        "Either replaceOperations or replaceTargetField must be provided"
    end.

(** [filesMap.set(path, result)] on an insertion-ordered map. *)
Fixpoint mapSet (m : list (string * SearchResult)) (k : string)
    (v : SearchResult) : list (string * SearchResult) :=
  match m with
  | [] => [(k, v)]
  | (k', v') :: rest =>
      if String.eqb k' k then (k', v) :: rest else (k', v') :: mapSet rest k v
  end.

(** The results that have rows, keyed by path. *)
Definition groupByPath (results : list SearchResult)
  : list (string * SearchResult) :=
  fold_left
    (fun m result =>
       if 0 <? length (sr_rows result) then mapSet m (sr_path result) result
       else m)
    results [].

(** The locator the bytes are read from: the original file's [url] when
    the caller sent one for this result, else the result's path. *)
Definition actualFilePath (selected : list FileDescriptor)
    (filePath : string) (searchResult : SearchResult) : string :=
  match find (fun f =>
                String.eqb (name f) (filename searchResult)
                || String.eqb (path f) filePath
                || String.eqb (path f) (sr_path searchResult)) selected with
  | Some originalFile =>
      match url originalFile with
      | Some u => if truthy u then u else filePath
      | None => filePath
      end
  | None => filePath
  end.

Section ReplayScan.

Variable operations : list ReplaceOperation.
Variable headers : list string.
Variable searchResult : SearchResult.
Variable filePath : string.
Variable total : nat.

(** [new Set(searchResult.rows.map(r => r.rowIndex - 1))] *)
Definition rowsToReplace : list Z :=
  map (fun r => (rowIndex r - 1)%Z) (sr_rows searchResult).

(** [rowsToReplace.has(i)] *)
Definition selected (i : nat) : bool :=
  existsb (Z.eqb (Z.of_nat i)) rowsToReplace.

(** [for (const op of operations)] on one selected row. *)
Fixpoint applyOperations (ops : list ReplaceOperation) (row : Row)
    (rowMatchesEvents : list RowChange) (acc : ScanAcc)
  : M (Row * list RowChange * ScanAcc) :=
  match ops with
  | [] => ret (row, rowMatchesEvents, acc)
  | op :: rest =>
      if negb (arr_includes headers (op_field op))
      then applyOperations rest row rowMatchesEvents acc
      else
        let oldValue := nullish (get row (op_field op)) "" in
        let newValue := op_value op in
        if strict_neq oldValue newValue then
          modStats incTotalReplacements ;;
          applyOperations rest (set row (op_field op) newValue)
            (rowMatchesEvents ++ [change (op_field op) oldValue newValue])
            (countReplacement acc)
        else applyOperations rest row rowMatchesEvents acc
  end.

(** The body of the row loop at index [i]. *)
Definition replayRow (i : nat) (row : Row) (acc : ScanAcc) : M ScanAcc :=
  x <- (if selected i then applyOperations operations row [] acc
        else ret (row, [], acc)) ;;
  let '(row', rowMatchesEvents, acc1) := x in
  let acc2 := pushRow row' acc1 in
  modStats incProcessedRows ;;
  (if 0 <? length rowMatchesEvents
   then sendEvent (EvRowProcessed (filename searchResult) filePath (i + 1)
                     total rowMatchesEvents)
   else ret tt) ;;
  progress i total ;;
  ret acc2.

Fixpoint replayRows (rows : list Row) (i : nat) (acc : ScanAcc)
  : M ScanAcc :=
  match rows with
  | [] => ret acc
  | row :: rest =>
      acc1 <- replayRow i row acc ;;
      replayRows rest (S i) acc1
  end.

End ReplayScan.

(** [operations.map(op => op.field).filter(field => !headers.includes(field))] *)
Definition invalidFields (operations : list ReplaceOperation)
    (headers : list string) : list string :=
  filter (fun field => negb (arr_includes headers field))
    (map op_field operations).

(** One file of the replay, once its rows are parsed. *)
Definition replayParsed (operations : list ReplaceOperation)
    (filePath : string) (searchResult : SearchResult) (rows : list Row)
  : M unit :=
  let headers := headersOf rows in
  modStats (addTotalRows (length rows)) ;;
  let invalid := invalidFields operations headers in
  if 0 <? length invalid then
    sendEvent (EvFileError (filename searchResult)
                 ("Fields not found in CSV headers: " ++ join ", "
                     invalid)%string)
  else
    sendEvent (EvFileInfo (filename searchResult) (length rows)
                 (length operations)) ;;
    acc <- replayRows operations headers searchResult filePath (length rows)
             rows 0 emptyScan ;;
    np <- (if 0 <? fileReplacements acc then
             p <- persist filePath (processedRowsOut acc) ;;
             modStats incProcessedFiles ;;
             ret (Some p)
           else ret None) ;;
    pushOutput {| originalPath := filePath; newPath := np |} ;;
    modStats (fun s =>
                setCurrent None (currentFileRows s) (currentFileMatches s) s) ;;
    sendEvent (EvFileComplete (filename searchResult) (fileReplacements acc)
                 (fileReplacements acc) np) ;;
    s <- getStats ;;
    sendEvent (EvStats s).

Definition replayFile (selected_ : list FileDescriptor)
    (operations : list ReplaceOperation)
    (entry : string * SearchResult) : M unit :=
  let '(filePath, searchResult) := entry in
  try_catch
    (modStats (fun s =>
                 setCurrent (Some (filename searchResult)) (currentFileRows s)
                   (currentFileMatches s) s) ;;
     sendEvent (EvFileStart (filename searchResult) filePath) ;;
     text <- liftE (fetchText env
                      (actualFilePath selected_ filePath searchResult)) ;;
     let parseResult := Papa_parse env text in
     if 0 <? length (errors parseResult)
     then sendEvent (EvFileError (filename searchResult)
                       (parseErrorsMessage (errors parseResult)))
     else replayParsed operations filePath searchResult (data parseResult))
    (fun msg => sendEvent (EvFileError (filename searchResult) msg)).

(** The replace route's handler. *)
Definition POST_replace (req : ReplaceRequest) : M unit :=
  try_catch
    (if length (searchResults req) =? 0
     then sendEvent (EvRequestError "No search results provided")
     else
       match operationsOf req with
       | inl msg => sendEvent (EvRequestError msg)
       | inr operations =>
           let filesMap := groupByPath (searchResults req) in
           if length filesMap =? 0
           then sendEvent (EvRequestError "No files with matching rows found")
           else
             modStats (fun _ => initStats (length filesMap)) ;;
             forEach filesMap (replayFile (selectedFiles req) operations) ;;
             sendComplete false true
       end)
    (fun msg => sendEvent (EvTopError msg)).

End WithEnv.

(** A request starts with no events, no output records and zeroed
    counters; what it leaves is the event sequence and the tmp
    directory. *)
Definition freshSt (w : World) : St :=
  {| stats := initStats 0; events := []; outputFiles := []; world := w |}.

Definition handle (m : M unit) (w : World) : St := snd (m (freshSt w)).

End Pipeline.

(* ================================================================== *)
(** * A concrete environment, for running the routes on examples *)
(* ================================================================== *)

Module Demo.

Import JS Csv Matcher FileProcessor Pipeline.

(** ** A regular expression engine for literal patterns

    It knows the patterns [escapeRegExp] produces: plain characters and
    escaped characters.  An unescaped special character is reported as a
    syntax error. *)

Fixpoint unescape (p : string) : option string :=
  match p with
  | EmptyString => Some EmptyString
  | String c t =>
      if Nat.eqb (nat_of_ascii c) 92 then
        match t with
        | EmptyString => None
        | String c' t' =>
            match unescape t' with
            | Some r => Some (String c' r)
            | None => None
            end
        end
      else if isRegexSpecial c then None
      else match unescape t with
           | Some r => Some (String c r)
           | None => None
           end
  end.

(** End of the leftmost occurrence of [lit] in [s], positions counted
    from [pos]. *)
Fixpoint findFrom (lit s : string) (pos : nat) : option nat :=
  if String.prefix lit s then Some (pos + String.length lit)
  else match s with
       | EmptyString => None
       | String _ t => findFrom lit t (S pos)
       end.

Fixpoint dropChars (k : nat) (s : string) : option string :=
  match k, s with
  | 0, _ => Some s
  | S k', String _ t => dropChars k' t
  | S _, EmptyString => None
  end.

Definition literalEngine : RegExpEngine :=
  {| re_syntax_error := fun p =>
       match unescape p with
       | Some _ => None
       | None => Some "Invalid regular expression"
       end;
     re_exec := fun p i s k =>
       match unescape p, dropChars k s with
       | Some lit, Some rest =>
           if i then findFrom (toLowerCase lit) (toLowerCase rest) k
           else findFrom lit rest k
       | _, _ => None
       end |}.

(** ** A parser and a serializer for unquoted comma-separated text *)

Definition nl : string := String (ascii_of_nat 10) EmptyString.

Fixpoint splitOn (sep : ascii) (s : string) : list string :=
  match s with
  | EmptyString => [EmptyString]
  | String c t =>
      if Ascii.eqb c sep then EmptyString :: splitOn sep t
      else match splitOn sep t with
           | [] => [String c EmptyString]
           | seg :: segs => String c seg :: segs
           end
  end.

Definition parseLine (header : list string) (line : string) : Row :=
  combine header (splitOn "," line).

Definition demoParse (text : string) : ParseResult :=
  match filter truthy (splitOn (ascii_of_nat 10) text) with
  | [] => {| data := []; errors := [] |}
  | h :: ls =>
      let header := map trim (splitOn "," h) in
      if existsb (fun l => negb (length (splitOn "," l) =? length header)) ls
      then {| data := map (parseLine header) ls;
              errors := ["Too few or too many fields"] |}
      else {| data := map (parseLine header) ls; errors := [] |}
  end.

Definition demoUnparse (rows : list Row) : string :=
  join nl (join "," (keys (hd [] rows)) :: map (fun r => join "," (map snd r))
      rows).

(** Text of a file from its lines. *)
Definition lines (ls : list string) : string := join nl ls.

(** The files behind the locators of the examples. *)
Definition demoFetch (store : list (string * string)) (u : string)
  : string + string :=
  match find (fun e => String.eqb (fst e) u) store with
  | Some e => inr (snd e)
  | None => inl "ENOENT: no such file or directory"
  end.

Definition demoEnv (store : list (string * string)) : Env :=
  {| engine := literalEngine;
     fetchText := demoFetch store;
     Papa_parse := demoParse;
     Papa_unparse := demoUnparse;
     TMP_DIR := "/srv/app/tmp";
     archiver := archiverSkipMissing |}.

Definition emptyWorld (times : list nat) : World :=
  {| fs := []; clock := times |}.

Definition people : string :=
  lines ["name,state"; "Ann,NY"; "Bob,CA"; "Cy,New York"].

Definition orders : string :=
  lines ["id,state"; "1,NY"; "2,TX"].

Definition store : list (string * string) :=
  [("/api/download?file=1_people.csv", people);
   ("/api/download?file=2_orders.csv", orders)].

Definition peopleFile : FileDescriptor :=
  {| path := "/srv/app/tmp/1_people.csv"; name := "people.csv";
     url := Some "/api/download?file=1_people.csv" |}.

Definition ordersFile : FileDescriptor :=
  {| path := "/srv/app/tmp/2_orders.csv"; name := "orders.csv";
     url := Some "/api/download?file=2_orders.csv" |}.

(** A search result on the people file, and a replay request. *)
Definition peopleResult (indices : list Z) : SearchResult :=
  {| filename := "people.csv"; sr_path := "/srv/app/tmp/1_people.csv";
     sr_rows := map (fun k => {| rowIndex := k; fields := [] |}) indices |}.

Definition ordersResult (indices : list Z) : SearchResult :=
  {| filename := "orders.csv"; sr_path := "/srv/app/tmp/2_orders.csv";
     sr_rows := map (fun k => {| rowIndex := k; fields := [] |}) indices |}.

Definition replayRequest (results : list SearchResult)
    (ops : list (string * string)) : ReplaceRequest :=
  {| searchResults := results;
     selectedFiles := [peopleFile; ordersFile];
     rp_replaceTargetField := None;
     rp_replaceValue := None;
     replaceOperations :=
       map (fun o => {| raw_field := fst o; raw_value := Some (snd o) |}) ops
           |}.

(** Rows whose state starts with N, to be normalized to New York, only
    the matches kept. *)
Definition startsWithN : AdvancedSearchConfig :=
  {| conditions :=
       [{| field := "state"; value := "N"; mode := Some StartsWith |}];
     logic := Some AND; caseSensitive := Some true |}.

Definition normalizeRequest : ProcessRequest :=
  {| files := [peopleFile]; searchTerm := None; replaceTerm := None;
     selectedFields := []; showOnlyMatches := true;
     rq_caseSensitive := None; wholeWord := None; useRegex := None;
     advanced := Some startsWithN;
     replaceTargetField := Some "state"; replaceValue := Some "New York" |}.

(** Scenario A: a search for NY, no replacement. *)
Definition searchRequest (replaceTerm_ : option string) : ProcessRequest :=
  {| files := [peopleFile]; searchTerm := Some "NY"; replaceTerm :=
      replaceTerm_;
     selectedFields := []; showOnlyMatches := false;
     rq_caseSensitive := Some false; wholeWord := None; useRegex := None;
     advanced := None; replaceTargetField := None; replaceValue := None |}.

End Demo.

(* ================================================================== *)
(** * The vocabulary of the properties

    What the theorems below speak about: the effect of a stretch of a
    handler on the request state, and, for each row loop, what it makes
    of a row (is the row matched, what does it become, which change
    records does it report, is it retained), told as functions of the
    row alone. *)
(* ================================================================== *)

Module Spec.

Import JS Csv Matcher FileProcessor Pipeline.

Definition isStats (e : Event) : bool :=
  match e with
  | EvStats _ => true
  | _ => false
  end.

(** The events of a stretch, the periodic snapshots left out. *)
Definition signal (evs : list Event) : list Event :=
  filter (fun e => negb (isStats e)) evs.

(** The change records carried by the row events of a stretch. *)
Fixpoint changesOf (evs : list Event) : list RowChange :=
  match evs with
  | [] => []
  | EvRowProcessed _ _ _ _ m :: rest => m ++ changesOf rest
  | _ :: rest => changesOf rest
  end.

Record Delta : Type := {
  d_rows : nat;
  d_matches : nat;
  d_repl : nat;
  d_events : list Event
}.

Definition dzero : Delta :=
  {| d_rows := 0; d_matches := 0; d_repl := 0; d_events := [] |}.

Definition dplus (a b : Delta) : Delta :=
  {| d_rows := d_rows a + d_rows b;
     d_matches := d_matches a + d_matches b;
     d_repl := d_repl a + d_repl b;
     d_events := d_events a ++ d_events b |}.

(** [Effect st st' d]: from [st] to [st'] the counters grew by [d], the
    events [d_events d] were sent (and snapshots), and nothing else
    changed: no output record, no file, no file counted. *)
Definition Effect (st st' : St) (d : Delta) : Prop :=
  outputFiles st' = outputFiles st
  /\ world st' = world st
  /\ totalFiles (stats st') = totalFiles (stats st)
  /\ processedFiles (stats st') = processedFiles (stats st)
  /\ totalRows (stats st') = totalRows (stats st)
  /\ processedRows (stats st') = processedRows (stats st) + d_rows d
  /\ totalMatches (stats st') = totalMatches (stats st) + d_matches d
  /\ totalReplacements (stats st') = totalReplacements (stats st) + d_repl d
  /\ exists evs, events st' = events st ++ evs /\ signal evs = d_events d.

(** [Runs m st a st' d]: [m] returns [a] without throwing, with effect
    [d]. *)
Definition Runs {A} (m : M A) (st : St) (a : A) (st' : St) (d : Delta)
  : Prop :=
  m st = (inr a, st') /\ Effect st st' d.

(** The row event of a row, sent when it has change records. *)
Definition rowEvent (fname fpath : string) (i total : nat)
    (changes : list RowChange) : list Event :=
  if 0 <? length changes
  then [EvRowProcessed fname fpath (i + 1) total changes]
  else [].

Definition isRowEvent (e : Event) : Prop :=
  match e with
  | EvRowProcessed _ _ _ _ _ => True
  | _ => False
  end.

(** The accumulator after [outs] more retained rows, [dm] more matches
    and [dr] more replacements. *)
Definition grow (acc : ScanAcc) (outs : list Row) (dm dr : nat) : ScanAcc :=
  {| processedRowsOut := processedRowsOut acc ++ outs;
     fileMatches := fileMatches acc + dm;
     fileReplacements := fileReplacements acc + dr |}.

Definition countTrue (b : bool) : nat := if b then 1 else 0.

Section MatcherSpec.

Variable E : RegExpEngine.

(** A built matcher paired with its condition computes [accepts]. *)
Definition matcherFor (cs : bool) (c : FieldSearchCondition)
    (cm : FieldSearchCondition * (string -> bool)) : Prop :=
  fst cm = c /\ forall raw, snd cm raw = accepts E cs c raw.

End MatcherSpec.

(** A row is eligible when its 0-based offset is [rowIndex - 1] for one
    of the rows of the search result. *)
Definition eligible (searchResult : SearchResult) (i : nat) : Prop :=
  exists r, In r (sr_rows searchResult) /\ Z.of_nat i = (rowIndex r - 1)%Z.

(** One row under the operations: the row afterwards, and a change
    record for each write that found a different value.  Only a field
    the file has is written. *)
Fixpoint writeOps (headers : list string) (ops : list ReplaceOperation)
    (row : Row) : Row * list RowChange :=
  match ops with
  | [] => (row, [])
  | op :: rest =>
      let old := nullish (get row (op_field op)) "" in
      if arr_includes headers (op_field op) && strict_neq old (op_value op)
      then
        let r := writeOps headers rest (set row (op_field op) (op_value op)) in
        (fst r, change (op_field op) old (op_value op) :: snd r)
      else writeOps headers rest row
  end.

(** The value of the last operation that names [f]. *)
Fixpoint lastValue (ops : list ReplaceOperation) (f : string)
  : option string :=
  match ops with
  | [] => None
  | op :: rest =>
      match lastValue rest f with
      | Some v => Some v
      | None => if String.eqb (op_field op) f then Some (op_value op) else None
      end
  end.

Section ReplaySpec.

Variable operations : list ReplaceOperation.
Variable headers : list string.
Variable searchResult : SearchResult.
Variable filePath : string.
Variable total : nat.

(** What the loop does with the row at offset [i]. *)
Definition rewriteRow (i : nat) (row : Row) : Row * list RowChange :=
  if selected searchResult i then writeOps headers operations row
  else (row, []).

(** The rows the loop retains, its change records in number, and its
    row events, from offset [i] on. *)
Fixpoint replayOut (i : nat) (rows : list Row) : list Row :=
  match rows with
  | [] => []
  | row :: rest => fst (rewriteRow i row) :: replayOut (S i) rest
  end.

Fixpoint replayCount (i : nat) (rows : list Row) : nat :=
  match rows with
  | [] => 0
  | row :: rest => length (snd (rewriteRow i row)) + replayCount (S i) rest
  end.

Fixpoint replayEvents (i : nat) (rows : list Row) : list Event :=
  match rows with
  | [] => []
  | row :: rest =>
      rowEvent (filename searchResult) filePath i total
        (snd (rewriteRow i row))
      ++ replayEvents (S i) rest
  end.

End ReplaySpec.

Section AdvancedSpec.

Variable env : Env.
Variable adv : AdvancedSearchConfig.
Variables target value_ : option string.
Variable showOnly : bool.
Variable headers : list string.
Variable file : FileDescriptor.
Variable total : nat.

(** The active conditions of the configuration. *)
Definition activeOf : list FieldSearchCondition :=
  filter (fun c => negb (blank (value c))) (conditions adv).

(** The row satisfies the row predicate. *)
Definition advMatched (row : Row) : bool :=
  fst (reference (engine env) row headers adv).

(** A matched row afterwards, and the change records it reports: the
    target written when the file has it, the matched fields attributed
    otherwise. *)
Definition advRewrite (row : Row) : Row * list RowChange :=
  if writesTarget target value_ headers then
    let field := nullish target "" in
    let oldValue := nullish (get row field) "" in
    let newValue := nullish value_ "" in
    if strict_neq newValue oldValue
    then (set row field newValue, [change field oldValue newValue])
    else (row, [])
  else
    (row,
     map (fun f => change f (nullish (get row f) "") (nullish (get row f) ""))
       (snd (reference (engine env) row headers adv))).

(** Replacements made in a row. *)
Definition advReplaced (row : Row) : nat :=
  if advMatched row && writesTarget target value_ headers
  then length (snd (advRewrite row))
  else 0.

(** What the loop retains of a row. *)
Definition advKept (row : Row) : list Row :=
  if advMatched row then
    if negb showOnly || (0 <? length (snd (advRewrite row)))
    then [fst (advRewrite row)] else []
  else
    if negb showOnly then [row] else [].

Definition advRowEvents (i : nat) (row : Row) : list Event :=
  if advMatched row
  then rowEvent (name file) (path file) i total (snd (advRewrite row))
  else [].

Fixpoint advOut (rows : list Row) : list Row :=
  match rows with
  | [] => []
  | row :: rest => advKept row ++ advOut rest
  end.

Fixpoint advCount (rows : list Row) : nat :=
  match rows with
  | [] => 0
  | row :: rest => advReplaced row + advCount rest
  end.

Fixpoint advEvents (i : nat) (rows : list Row) : list Event :=
  match rows with
  | [] => []
  | row :: rest => advRowEvents i row ++ advEvents (S i) rest
  end.

Fixpoint advMatches (rows : list Row) : nat :=
  match rows with
  | [] => 0
  | row :: rest => countTrue (advMatched row) + advMatches rest
  end.

End AdvancedSpec.

Section TargetSpec.

Variable env : Env.
Variable adv : AdvancedSearchConfig.
Variables target value_ : option string.
Variable headers : list string.

(** The matched rows whose target cell is not the replacement value
    yet. *)
Definition toReplace (row : Row) : bool :=
  advMatched env adv headers row
  && strict_neq (nullish value_ "") (nullish (get row (nullish target "")) "").

End TargetSpec.

Section SimpleSpec.

Variable env : Env.
Variable showOnly : bool.
Variable replaceTerm_ : option string.
Variables searchFields replaceFields : list string.
Variable file : FileDescriptor.
Variable total : nat.
Variable pattern : string.
Variable insensitive : bool.

(** A [RegExp] object of the search expression, in whatever state
    earlier tests left it. *)
Definition compiledAs (re : RegExp) : Prop :=
  source re = pattern /\ ignoreCase re = insensitive /\ global re = true.

(** The pattern matches a text, searched from its start. *)
Definition found (text : string) : bool :=
  match re_exec (engine env) pattern insensitive text 0 with
  | Some _ => true
  | None => false
  end.

(** The row predicate of the simple mode. *)
Definition simpleMatched (row : Row) : bool :=
  found (join " " (map (fun field => nullish (get row field) "") searchFields)).

(** Search-only mode: the fields that match on their own. *)
Fixpoint attribution (fields : list string) (row : Row) : list RowChange :=
  match fields with
  | [] => []
  | f :: rest =>
      let v := falsy_or (get row f) "" in
      if found v then change f v v :: attribution rest row
      else attribution rest row
  end.

(** Replace mode: the row after the writes, and a change record for
    each write that found a different value. *)
Fixpoint overwrite (fields : list string) (newValue : string) (row : Row)
  : Row * list RowChange :=
  match fields with
  | [] => (row, [])
  | f :: rest =>
      let old := falsy_or (get row f) "" in
      if strict_neq newValue old then
        let r := overwrite rest newValue (set row f newValue) in
        (fst r, change f old newValue :: snd r)
      else overwrite rest newValue row
  end.

Definition simpleRewrite (row : Row) : Row * list RowChange :=
  if negb (isReplaceModeSimple replaceTerm_)
  then (row, attribution searchFields row)
  else overwrite replaceFields (nullish replaceTerm_ "") row.

Definition simpleReplaced (row : Row) : nat :=
  if simpleMatched row && isReplaceModeSimple replaceTerm_
  then length (snd (simpleRewrite row))
  else 0.

Definition simpleKept (row : Row) : list Row :=
  if simpleMatched row then [fst (simpleRewrite row)]
  else if negb showOnly then [row] else [].

Definition simpleRowEvents (i : nat) (row : Row) : list Event :=
  if simpleMatched row
  then rowEvent (name file) (path file) i total (snd (simpleRewrite row))
  else [].

(** The expression object after the row's tests. *)
Definition simpleRe (re : RegExp) (row : Row) : RegExp :=
  let re1 := snd (rowMatched env searchFields re row) in
  if fst (rowMatched env searchFields re row)
     && negb (isReplaceModeSimple replaceTerm_)
  then snd (attributeFields env searchFields row re1 [])
  else re1.

Fixpoint simpleOut (rows : list Row) : list Row :=
  match rows with
  | [] => []
  | row :: rest => simpleKept row ++ simpleOut rest
  end.

Fixpoint simpleCount (rows : list Row) : nat :=
  match rows with
  | [] => 0
  | row :: rest => simpleReplaced row + simpleCount rest
  end.

Fixpoint simpleMatches (rows : list Row) : nat :=
  match rows with
  | [] => 0
  | row :: rest => countTrue (simpleMatched row) + simpleMatches rest
  end.

Fixpoint simpleEvents (i : nat) (rows : list Row) : list Event :=
  match rows with
  | [] => []
  | row :: rest => simpleRowEvents i row ++ simpleEvents (S i) rest
  end.

Fixpoint simpleReAfter (re : RegExp) (rows : list Row) : RegExp :=
  match rows with
  | [] => re
  | row :: rest => simpleReAfter (simpleRe re row) rest
  end.

End SimpleSpec.

Section SimpleFileSpec.

Variable env : Env.
Variable body : ProcessRequest.
Variable term : string.
Variable file : FileDescriptor.
Variable rows : list Row.

Definition cs : bool := or_default (rq_caseSensitive body) false.

Definition searchPattern : string :=
  fst (buildSearch term (or_default (useRegex body) false)
         (or_default (wholeWord body) false) cs).

Definition fieldsToReplace : list string :=
  replaceFieldsOf (selectedFields body) (headersOf rows).

End SimpleFileSpec.

(** The characters that have a meaning of their own in a regular
    expression: the backslash, the anchors, the dot, the bar, the
    quantifiers, and the three pairs of brackets. *)
Definition specialCharacters : string := "\^$.|?*+()[]{}".

Definition isSpecial (c : ascii) : bool :=
  existsb (Ascii.eqb c) (list_ascii_of_string specialCharacters).

(** A character as it is written in a pattern that means it literally:
    after a backslash when it is special, as it is otherwise. *)
Definition escapedChar (c : ascii) : string :=
  if isSpecial c then String "\"%char (String c EmptyString)
  else String c EmptyString.

(** The term with its special characters escaped. *)
Definition escaped (term : string) : string :=
  String.concat "" (map escapedChar (list_ascii_of_string term)).

(** A pattern read back: every backslash is dropped and the character
    after it is kept, whatever it is. *)
Fixpoint dropEscapes (pattern : string) : string :=
  match pattern with
  | EmptyString => EmptyString
  | String a t =>
      if Ascii.eqb a "\"%char then
        match t with
        | EmptyString => EmptyString
        | String b rest => String b (dropEscapes rest)
        end
      else String a (dropEscapes t)
  end.

(** The search pattern as the design document words it: the term,
    escaped unless it is a regular expression, between word boundaries
    when whole words are asked for (a regular expression is grouped
    first). *)
Definition compiledPattern (term : string) (useRegex wholeWord : bool)
  : string :=
  let body := if useRegex then term else escaped term in
  if wholeWord then
    if useRegex then ("\b(" ++ body ++ ")\b")%string
    else ("\b" ++ body ++ "\b")%string
  else body.

(** The row text: every header's cell, in header order, joined by one
    space. *)
Definition joinedCells (headers : list string) (row : Row) : string :=
  join " " (map (fun h => nullish (get row h) "") headers).

(** A string without a slash. *)
Fixpoint noSlash (s : string) : bool :=
  match s with
  | EmptyString => true
  | String c t => negb (Ascii.eqb c "/") && noSlash t
  end.

(** An event of a pure search: a row event reports unchanged values
    only, a file completes without replacement and without locator, the
    batch completes without download. *)
Definition quietEvent (e : Event) : Prop :=
  match e with
  | EvRowProcessed _ _ _ _ m => Forall (fun c => oldValue c = newValue c) m
  | EvFileComplete _ _ r np => r = 0 /\ np = None
  | EvComplete _ d z _ => d = None /\ z = false
  | _ => True
  end.

(** From [st] to [st'] nothing was written or replaced: the tmp
    directory and the clock are as they were, the replacement counter
    did not move, the new output records have no locator and the new
    events are quiet. *)
Definition Quiet (st st' : St) : Prop :=
  world st' = world st
  /\ totalReplacements (stats st') = totalReplacements (stats st)
  /\ (exists outs, outputFiles st' = outputFiles st ++ outs
                   /\ Forall (fun o => newPath o = None) outs)
  /\ (exists evs, events st' = events st ++ evs /\ Forall quietEvent evs).

(** The request asks for a replacement, in the mode it runs in. *)
Definition requestReplaces (body : ProcessRequest) : bool :=
  match useAdvanced body with
  | Some _ =>
      isReplaceModeAdvanced (replaceTargetField body) (replaceValue body)
  | None => isReplaceModeSimple (replaceTerm body)
  end.

End Spec.

(* ================================================================== *)
(** * Node's [path] module on POSIX, as far as the routes use it *)
(* ================================================================== *)

Module Path.

Import JS FileProcessor.

(** [normalizeString]: the segments kept so far are a stack, its top
    first.  An empty segment and [.] are passed over; [..] removes the
    segment on top unless that is [..] itself or there is none, and is
    then kept only when the path may climb above its start. *)
Fixpoint pushSegments (allowAboveRoot : bool) (stack segs : list string)
  : list string :=
  match segs with
  | [] => stack
  | seg :: rest =>
      if String.eqb seg "" || String.eqb seg "."
      then pushSegments allowAboveRoot stack rest
      else if String.eqb seg ".." then
        match stack with
        | top :: below =>
            if String.eqb top ".."
            then pushSegments allowAboveRoot
                   (if allowAboveRoot then ".." :: stack else stack) rest
            else pushSegments allowAboveRoot below rest
        | [] =>
            pushSegments allowAboveRoot
              (if allowAboveRoot then [".."] else []) rest
        end
      else pushSegments allowAboveRoot (seg :: stack) rest
  end.

Definition normalizeString (path : string) (allowAboveRoot : bool) : string :=
  join "/" (List.rev (pushSegments allowAboveRoot [] (split_slash path))).

(** [path.normalize] *)
Definition normalize (path : string) : string :=
  if String.length path =? 0 then "."
  else
    let isAbsolute := startsWith path "/" in
    let trailingSeparator := endsWith path "/" in
    let res := normalizeString path (negb isAbsolute) in
    if String.length res =? 0 then
      if isAbsolute then "/" else if trailingSeparator then "./" else "."
    else
      let res1 := if trailingSeparator then (res ++ "/")%string else res in
      if isAbsolute then ("/" ++ res1)%string else res1.

(** [path.join(...args)]: the non-empty arguments, joined by a slash
    and normalized. *)
Definition join (args : list string) : string :=
  match filter truthy args with
  | [] => "."
  | parts => normalize (JS.join "/" parts)
  end.

(** [p.replace(/^(\.\.(\/|\\|$))+/, '')]: the leading run of [..]
    each followed by a slash, a backslash or the end. *)
Fixpoint stripParents (p : string) : string :=
  match p with
  | String a (String b rest) =>
      if Ascii.eqb a "." && Ascii.eqb b "." then
        match rest with
        | EmptyString => EmptyString
        | String c t =>
            if Ascii.eqb c "/" || Ascii.eqb c (ascii_of_nat 92)
            then stripParents t
            else p
        end
      else p
  | _ => p
  end.

(** The file a [file] parameter names:
    [path.join(process.cwd(), 'tmp', safePath)], with [safePath] the
    normalized parameter without its leading [..] segments. *)
Definition tmpDir (cwd : string) : string := join [cwd; "tmp"].

Definition safePathOf (fileParam : string) : string :=
  stripParents (normalize fileParam).

End Path.

(* ================================================================== *)
(** * The download and upload routes *)
(* ================================================================== *)

Module Transfer.

Import JS FileProcessor Path.

(** What [fs/promises] answers about the disk: whether [access]
    resolves, the buffer [readFile] gives or the message of its error,
    and the size [stat] reports. *)
Record Disk : Type := {
  access : string -> bool;
  readBuffer : string -> string + FileContent;
  statSize : string -> string + nat
}.

(** [NextResponse.json({ error }, { status })], or the file with its
    [Content-Type], [Content-Disposition] and [Content-Length]. *)
Inductive Response : Type :=
  | JsonError (status : nat) (error : string)
  | Attachment (body : FileContent)
      (contentType contentDisposition contentLength : string).

Definition quote : string := String (ascii_of_nat 34) EmptyString.

Section WithCwd.

(** [process.cwd()] *)
Variable cwd : string.

(** The download route's handler; [fileParam] is
    [searchParams.get('file')]. *)
Definition GET (disk : Disk) (fileParam : option string) : Response :=
  let TMP_DIR := tmpDir cwd in
  match fileParam with
  | None => JsonError 400 "File parameter is required"
  | Some fileParam =>
      if negb (truthy fileParam)
      then JsonError 400 "File parameter is required"
      else
        let safePath := stripParents (normalize fileParam) in
        let filePath := Path.join [TMP_DIR; safePath] in
        if negb (startsWith filePath TMP_DIR)
        then JsonError 400 "Invalid file path"
        else if negb (access disk filePath)
        then JsonError 404 "File not found"
        else
          match readBuffer disk filePath with
          | inl message => JsonError 500 message
          | inr fileBuffer =>
              match statSize disk filePath with
              | inl message => JsonError 500 message
              | inr size =>
                  let filename := basename filePath in
                  let contentType :=
                    if endsWith filename ".zip" then "application/zip"
                    else "text/csv" in
                  Attachment fileBuffer contentType
                    ("attachment; filename=" ++ quote ++ filename ++ quote)
                    (decimal size)
              end
          end
  end.

(** The [file] entry of the form: its name and its bytes read as
    UTF-8. *)
Record UploadedFile : Type := {
  uf_name : string;
  uf_text : string
}.

Inductive UploadResponse : Type :=
  | UploadError (status : nat) (error : string)
  | UploadOk (filename path url : string).

(** The upload route's handler. *)
Definition POST_upload (file : option UploadedFile) (w : World)
  : UploadResponse * World :=
  let TMP_DIR := tmpDir cwd in
  match file with
  | None => (UploadError 400 "No file provided", w)
  | Some file =>
      if negb (endsWith (toLowerCase (uf_name file)) ".csv")
      then (UploadError 400 "File must be a CSV file", w)
      else
        let content := uf_text file in
        let '(timestamp, w1) := Date_now w in
        let safeFilename := safeName (uf_name file) in
        let filePath :=
          Path.join [TMP_DIR; (decimal timestamp ++ "_" ++ safeFilename)%string]
        in
        (UploadOk (uf_name file) filePath (getDownloadUrl TMP_DIR filePath),
         {| fs := writeFile (fs w1) filePath (Text content);
            clock := clock w1 |})
  end.

End WithCwd.

End Transfer.

(* ================================================================== *)
(** * The headers route (headers/route.ts, [POST]) *)
(* ================================================================== *)

Module Headers.

Import JS Pipeline.

(** [text.split('\n')] *)
Fixpoint split_newline (s : string) : list string :=
  match s with
  | EmptyString => [EmptyString]
  | String c t =>
      if Ascii.eqb c (ascii_of_nat 10)
      then EmptyString :: split_newline t
      else match split_newline t with
           | [] => [String c EmptyString]
           | seg :: segs => String c seg :: segs
           end
  end.

(** [Array.prototype.sort()] with no comparator: ascending code units.
    The sort is stable; an insertion sort is one. *)
Fixpoint insertSorted (x : string) (sorted : list string) : list string :=
  match sorted with
  | [] => [x]
  | y :: rest =>
      if String.leb x y then x :: sorted else y :: insertSorted x rest
  end.

Definition sort (a : list string) : list string :=
  fold_right insertSorted [] a.

(** Each element is strictly below the next one. *)
Fixpoint ascending (a : list string) : bool :=
  match a with
  | x :: ((y :: _) as rest) => String.ltb x y && ascending rest
  | _ => true
  end.

Inductive Response : Type :=
  | HeadersError (status : nat) (error : string)
  | HeadersOk (headers : list string).

Section WithParser.

(** the bytes behind a locator, or the error of the retrieval *)
Variable fetchText : string -> string + string.

(** [Papa.parse(sample, {header: true, skipEmptyLines: false,
    transformHeader, preview: 1}).meta.fields] *)
Variable Papa_fields : string -> option (list string).

Definition textOf (file : FileDescriptor) : string + string :=
  match url file with
  | Some u =>
      if truthy u then fetchText u else inl "File must have a url"
  | None => inl "File must have a url"
  end.

(** The header line and one data row. *)
Definition sampleText (text : string) : string :=
  let lines := firstn 2 (split_newline text) in
  join (String (ascii_of_nat 10) EmptyString) lines.

Definition uniqueFields (fields : list string) : list string :=
  uniq (map trim
          (filter (fun field => truthy field && truthy (trim field)) fields)).

(** [items.forEach(x => set.add(x))] on a set kept in insertion order *)
Definition addAll (set items : list string) : list string :=
  set ++ dedup_from set items.

(** One turn of the loop over the files; a file that fails leaves the
    set as it is. *)
Definition extractHeaders (allHeaders : list string) (file : FileDescriptor)
  : list string :=
  match textOf file with
  | inl _ => allHeaders
  | inr text =>
      match Papa_fields (sampleText text) with
      | Some fields =>
          if 0 <? length fields
          then addAll allHeaders (uniqueFields fields)
          else allHeaders
      | None => allHeaders
      end
  end.

Definition POST (files : list FileDescriptor) : Response :=
  if length files =? 0 then HeadersError 400 "No files provided"
  else HeadersOk (sort (fold_left extractHeaders files [])).

(** [file] can be read and its first line names the column [h]. *)
Definition Offers (file : FileDescriptor) (h : string) : Prop :=
  exists text fields field,
    textOf file = inr text
    /\ Papa_fields (sampleText text) = Some fields
    /\ In field fields /\ trim field = h /\ h <> "".

End WithParser.

End Headers.

(* ================================================================== *)
(** * The vocabulary of the further properties *)
(* ================================================================== *)

Module Properties.

Import JS Csv Matcher FileProcessor Pipeline Spec.
Import Path Transfer.

(** ** Conditions and configurations with one part replaced *)

(** The condition [c] under another mode. *)
Definition withMode (c : FieldSearchCondition) (m : option MatchMode)
  : FieldSearchCondition :=
  {| field := field c; value := value c; mode := m |}.

(** The configuration [a] under another logic. *)
Definition withLogic (a : AdvancedSearchConfig) (l : option AdvancedLogic)
  : AdvancedSearchConfig :=
  {| conditions := conditions a; logic := l;
     caseSensitive := caseSensitive a |}.

(** ** The replace request *)

(** An operation as the request carries it. *)
Definition rawOf (o : ReplaceOperation) : RawOperation :=
  {| raw_field := op_field o; raw_value := Some (op_value o) |}.

(** A search result that names rows. *)
Definition hasRows (r : SearchResult) : Prop := sr_rows r <> [].

(** One turn of the grouping loop. *)
Definition groupStep (m : list (string * SearchResult)) (result : SearchResult)
  : list (string * SearchResult) :=
  if 0 <? length (sr_rows result) then mapSet m (sr_path result) result
  else m.

(** ** Segments of a path *)

(** A segment that names something: not empty, not [.], not [..]. *)
Definition isName (s : string) : bool :=
  negb (String.eqb s "" || String.eqb s "." || String.eqb s "..").

(** A segment other than [..]. *)
Definition notParent (s : string) : bool := negb (String.eqb s "..").

(** With climbing, names sit on top of a run of [..]. *)
Definition Climbing (stack : list string) : Prop :=
  exists names k, stack = names ++ repeat ".." k /\ forallb isName names = true.

(** What [normalize] makes of a stack of an absolute path. *)
Definition render (stack : list string) (trailing : bool) : string :=
  match stack with
  | [] => "/"
  | _ =>
      ("/" ++ JS.join "/" (List.rev stack)
       ++ (if trailing then "/" else ""))%string
  end.

(** The stack of [path.join(cwd, 'tmp')]. *)
Definition tmpStack (cwd : string) : list string :=
  "tmp" :: pushSegments false [] (split_slash cwd).

(** [p] is the directory or lies below it. *)
Definition Within (dir p : string) : Prop :=
  p = dir \/ startsWith p (dir ++ "/") = true.

(** Parents first: a run of [..], then segments that are not [..]. *)
Definition LeadingParents (segs : list string) : Prop :=
  exists k rest, segs = repeat ".." k ++ rest /\ forallb notParent rest = true.

(** ** Names of artifacts and the disk *)

(** The characters [saveProcessedFile] lets through, and the digits of
    its timestamp: letters, digits, dot, hyphen, underscore. *)
Definition isPlainChar (c : ascii) : bool :=
  let n := nat_of_ascii c in
  isAlnum n || (n =? 46) || (n =? 45) || (n =? 95).

Fixpoint isPlain (s : string) : bool :=
  match s with
  | EmptyString => true
  | String c t => isPlainChar c && isPlain t
  end.

(** The disk holds the files of the model, each with the size
    [byteLength] gives its content. *)
Definition Reflects (byteLength : FileContent -> nat) (disk : Disk)
    (files : FileSystem) : Prop :=
  forall p c,
    readFile files p = Some c ->
    access disk p = true
    /\ readBuffer disk p = inr c
    /\ statSize disk p = inr (byteLength c).

(** The leaf of an artifact: the timestamp, an underscore, the safe
    name. *)
Definition leafOf (timestamp : nat) (filename : string) : string :=
  (decimal timestamp ++ "_" ++ safeName filename)%string.

(** A decimal digit. *)
Definition isDigit (c : ascii) : bool :=
  let n := nat_of_ascii c in (48 <=? n) && (n <=? 57).

(** A size for the contents of the model: the length of a text, the
    number of entries of an archive. *)
Definition sizeOf (c : FileContent) : nat :=
  match c with
  | Text content => String.length content
  | Archive entries => length entries
  end.

(** The disk that holds the files of the model and nothing else. *)
Definition diskOf (files : FileSystem) : Disk :=
  {| access := fun p =>
       match readFile files p with
       | Some _ => true
       | None => false
       end;
     readBuffer := fun p =>
       match readFile files p with
       | Some c => inr c
       | None => inl "ENOENT: no such file or directory"
       end;
     statSize := fun p =>
       match readFile files p with
       | Some c => inr (sizeOf c)
       | None => inl "ENOENT: no such file or directory"
       end |}.

(** ** Relations between the states of a handler *)

(** [Keeps R m]: from any state, whether [m] returns or throws, the
    state it leaves is related by [R] to the state it started in. *)
Definition Keeps {A} (R : St -> St -> Prop) (m : M A) : Prop :=
  forall st, R st (snd (m st)).

(** A path directly inside [dir]. *)
Definition Inside (dir p : string) : Prop :=
  exists leaf, p = (dir ++ "/" ++ leaf)%string /\ noSlash leaf = true.

(** From [st] to [st'] no file outside [dir] changed and no file
    disappeared. *)
Definition WritesInside (dir : string) (st st' : St) : Prop :=
  (forall p, ~ Inside dir p ->
             readFile (fs (world st')) p = readFile (fs (world st)) p)
  /\ (forall p, readFile (fs (world st)) p <> None ->
                readFile (fs (world st')) p <> None).

(** A stats update of a file handler: the file total stays, no counter
    goes down. *)
Definition StatsStep (s s' : ProcessStats) : Prop :=
  totalFiles s' = totalFiles s
  /\ processedFiles s <= processedFiles s'
  /\ totalRows s <= totalRows s'
  /\ processedRows s <= processedRows s'
  /\ totalMatches s <= totalMatches s'
  /\ totalReplacements s <= totalReplacements s'.

(** ** The shape of an event stream *)

(** The row counters of a file: rows counted as processed were counted
    as total before, and matches as processed rows. *)
Definition RowsStep (s s' : ProcessStats) : Prop :=
  processedRows s' + totalRows s <= totalRows s' + processedRows s
  /\ totalMatches s' + processedRows s <= processedRows s' + totalMatches s.

(** Row events of the file [fname] at [fpath]: each with a row number
    above [lo], the one before it, and within [total], and with at
    least one change record. *)
Fixpoint rowsAfter (fname fpath : string) (total lo : nat)
    (evs : list Event) : Prop :=
  match evs with
  | [] => True
  | EvRowProcessed f p k t changes :: rest =>
      f = fname /\ p = fpath /\ t = total /\ lo < k <= total
      /\ changes <> [] /\ rowsAfter fname fpath total k rest
  | _ => False
  end.

(** Events of the scan of a file: none, or the file's info and then
    its row events, in ascending order of the row numbers, which start
    at 1 and stay within the total the info announces. *)
Definition Scanned (fname fpath : string) (middle : list Event) : Prop :=
  match middle with
  | [] => True
  | EvFileInfo f total _ :: rowEvents =>
      f = fname /\ rowsAfter fname fpath total 0 rowEvents
  | _ => False
  end.

(** The event that closes a file, and the output record that goes with
    it: a completion with its record, or an error without. *)
Definition Closes (fname fpath : string) (e : Event)
    (outs : list OutputFileRecord) : Prop :=
  match e with
  | EvFileComplete f _ _ np =>
      f = fname /\ outs = [{| originalPath := fpath; newPath := np |}]
  | EvFileError f _ => f = fname /\ outs = []
  | _ => False
  end.

(** The events of one file, snapshots left out: its start, the events
    of its scan, the event that closes it. *)
Definition Segment (fname fpath : string) (seg : list Event)
    (outs : list OutputFileRecord) : Prop :=
  exists middle closing,
    seg = EvFileStart fname fpath :: middle ++ [closing]
    /\ Scanned fname fpath middle
    /\ Closes fname fpath closing outs.

(** One segment per file, in the order of the files. *)
Inductive Batch : list (string * string) -> list Event ->
                  list OutputFileRecord -> Prop :=
  | Batch_nil : Batch [] [] []
  | Batch_cons (f : string * string) (rest : list (string * string))
      (seg evs : list Event) (outs outs' : list OutputFileRecord) :
      Segment (fst f) (snd f) seg outs ->
      Batch rest evs outs' ->
      Batch (f :: rest) (seg ++ evs) (outs ++ outs').

(** An output record with an artifact. *)
Definition saved (o : OutputFileRecord) : bool :=
  match newPath o with
  | Some _ => true
  | None => false
  end.

(** What the handling of files leaves: their segments, their output
    records, and counters that agree with them. *)
Definition Handled (counted : OutputFileRecord -> bool)
    (files_ : list (string * string)) (st st' : St) : Prop :=
  exists evs outs,
    events st' = events st ++ evs
    /\ Batch files_ (signal evs) outs
    /\ outputFiles st' = outputFiles st ++ outs
    /\ processedFiles (stats st')
       = processedFiles (stats st) + length (filter counted outs)
    /\ totalFiles (stats st') = totalFiles (stats st)
    /\ RowsStep (stats st) (stats st').

(** [StatsStep] on the counters of two states. *)
Definition StatsGrow (st st' : St) : Prop := StatsStep (stats st) (stats st').

(** The state the files are handled from. *)
Definition started (n : nat) (w : World) : St :=
  {| stats := initStats n; events := []; outputFiles := []; world := w |}.

(** The request is taken on: advanced conditions are there, or a
    search term is. *)
Definition searchable (body : ProcessRequest) : bool :=
  match useAdvanced body with
  | Some _ => true
  | None => truthy (nullish (searchTerm body) "")
  end.

(** Name and path of each file of a search request. *)
Definition fileKeys (files_ : list FileDescriptor) : list (string * string) :=
  map (fun f => (name f, path f)) files_.

(** Name and path of each group of a replay. *)
Definition replayKeys (filesMap : list (string * SearchResult))
  : list (string * string) :=
  map (fun e => (filename (snd e), fst e)) filesMap.

(** Counters that agree with one another. *)
Definition Consistent (s : ProcessStats) : Prop :=
  processedFiles s <= totalFiles s
  /\ processedRows s <= totalRows s
  /\ totalMatches s <= processedRows s.

(** The summary the closing event carries is that of the counters. *)
Definition Reports (evs : list Event) (s : ProcessStats) : Prop :=
  match last evs (EvStats s) with
  | EvComplete _ _ _ summary =>
      c_totalFiles summary = totalFiles s
      /\ c_processedFiles summary = processedFiles s
      /\ c_totalRows summary = totalRows s
      /\ c_totalMatches summary = totalMatches s
      /\ c_totalReplacements summary = totalReplacements s
      /\ (forall p, c_processedRows summary = Some p -> p = processedRows s)
  | _ => True
  end.

(** ** Snapshots *)

(** The snapshots among the events, in the order they were sent. *)
Fixpoint snapshots (evs : list Event) : list ProcessStats :=
  match evs with
  | [] => []
  | EvStats s :: rest => s :: snapshots rest
  | _ :: rest => snapshots rest
  end.

(** [Chain lo l hi]: from the counters [lo] through the snapshots [l]
    to the counters [hi], every step is a [StatsStep]. *)
Fixpoint Chain (lo : ProcessStats) (l : list ProcessStats)
    (hi : ProcessStats) : Prop :=
  match l with
  | [] => StatsStep lo hi
  | s :: rest => StatsStep lo s /\ Chain s rest hi
  end.

(** From [st] to [st'] events were added, and the snapshots among them
    lead from the counters of [st] to those of [st']. *)
Definition Progress (st st' : St) : Prop :=
  exists evs,
    events st' = events st ++ evs
    /\ Chain (stats st) (snapshots evs) (stats st').

(** ** The loop of the advanced search on a file it does not write *)

(** The evaluator's verdict says that the row matches. *)
Definition saysMatch (verdict : string + bool * list string) : bool :=
  match verdict with
  | inr (true, _) => true
  | _ => false
  end.

(** The change records that attribute a match to fields: for each
    field, its cell as old and as new value. *)
Definition attributionOf (row : Row) (fields : list string)
  : list RowChange :=
  map (fun f => change f (nullish (get row f) "") (nullish (get row f) ""))
    fields.

(** What the loop retains of a row it does not write: the row as it is;
    under [showOnlyMatches] only if it matched and fields were
    attributed. *)
Definition retainedUnwritten (showOnly : bool)
    (verdict : string + bool * list string) (row : Row) : list Row :=
  match verdict with
  | inr (true, fields) =>
      if showOnly && (length fields =? 0) then [] else [row]
  | _ => if showOnly then [] else [row]
  end.

End Properties.

(* ================================================================== *)
(** * The advanced evaluator meets its reference definition *)
(* ================================================================== *)

Module MatcherFacts.

Import JS Csv Matcher.
Import Spec.

Lemma isActive_not_blank (c : FieldSearchCondition) :
  isActive c = negb (blank (value c)).
Proof.
  unfold isActive, blank, strict_neq.
  destruct (value c) as [|a v]; reflexivity.
Qed.

Lemma filter_ext_eq {A} (f g : A -> bool) (l : list A) :
  (forall x, f x = g x) -> filter f l = filter g l.
Proof.
  intros H; induction l as [|x l IH]; simpl; [reflexivity|].
  rewrite H, IH; reflexivity.
Qed.

Lemma existsb_false_filter {A} (f : A -> bool) (l : list A) :
  existsb f l = false -> filter f l = [].
Proof.
  induction l as [|x l IH]; simpl; [reflexivity|].
  destruct (f x); simpl; [discriminate | exact IH].
Qed.

Section WithEngine.

Variable E : RegExpEngine.

Lemma buildFieldMatcher_accepts (cs : bool) (c : FieldSearchCondition) :
  match buildFieldMatcher E c cs with
  | inl msg =>
      or_default (mode c) Contains = Regex
      /\ re_syntax_error E (value c) = Some msg
  | inr m =>
      (or_default (mode c) Contains = Regex -> re_syntax_error E (value c) =
          None)
      /\ forall raw, m raw = accepts E cs c raw
  end.
Proof.
  unfold buildFieldMatcher, accepts.
  destruct (or_default (mode c) Contains) eqn:Hm.
  - split; [discriminate|]. intros raw. destruct cs; reflexivity.
  - split; [discriminate|]. intros raw. destruct cs; reflexivity.
  - unfold RegExp_new.
    destruct (re_syntax_error E (value c)) as [msg|] eqn:Hs.
    + split; reflexivity.
    + split; [reflexivity|]. intros raw.
      unfold RegExp_test. destruct cs; simpl;
        destruct (re_exec E (value c) _ raw 0); reflexivity.
  - split; [discriminate|]. intros raw. destruct cs; reflexivity.
  - split; [discriminate|]. intros raw. destruct cs; reflexivity.
Qed.

Lemma buildMatchers_spec (cs : bool) (conds : list FieldSearchCondition) :
  match buildMatchers E cs conds with
  | inl msg => patternError E conds = Some msg
  | inr ms => patternError E conds = None /\ Forall2 (matcherFor E cs) conds ms
  end.
Proof.
  induction conds as [|c rest IH]; simpl.
  - split; [reflexivity | constructor].
  - pose proof (buildFieldMatcher_accepts cs c) as Hc.
    destruct (buildFieldMatcher E c cs) as [msg|m].
    + destruct Hc as [Hm Hs]. rewrite Hm, Hs. reflexivity.
    + destruct Hc as [Hvalid Hacc].
      assert (Hskip : match or_default (mode c) Contains,
                            re_syntax_error E (value c) with
                      | Regex, Some msg => Some msg
                      | _, _ => patternError E rest
                      end = patternError E rest).
      { destruct (or_default (mode c) Contains); try reflexivity.
        rewrite Hvalid; reflexivity. }
      rewrite Hskip.
      destruct (buildMatchers E cs rest) as [msg|ms].
      * exact IH.
      * destruct IH as [Hn Hall]. split; [exact Hn|].
        constructor; [split; [reflexivity | exact Hacc] | exact Hall].
Qed.

Lemma andLoop_spec (cs : bool) (row : Row) (headers : list string)
    (conds : list FieldSearchCondition)
    (ms : list (FieldSearchCondition * (string -> bool))) :
  Forall2 (matcherFor E cs) conds ms ->
  forall acc,
    andLoop row headers ms acc =
    if forallb (holds E cs row headers) conds
    then (true, acc ++ map field conds)
    else (false, []).
Proof.
  induction 1 as [|c [c' m] conds ms [Hc Hm] _ IH]; intros acc; simpl.
  - rewrite app_nil_r; reflexivity.
  - simpl in Hc, Hm; subst c'. unfold holds at 1.
    destruct (arr_includes headers (field c)); simpl; [|reflexivity].
    rewrite Hm.
    destruct (accepts E cs c (nullish (get row (field c)) "")); simpl;
      [|reflexivity].
    rewrite IH, <- app_assoc; reflexivity.
Qed.

Lemma orLoop_spec (cs : bool) (row : Row) (headers : list string)
    (conds : list FieldSearchCondition)
    (ms : list (FieldSearchCondition * (string -> bool))) :
  Forall2 (matcherFor E cs) conds ms ->
  forall any acc,
    orLoop row headers ms any acc =
    (any || existsb (holds E cs row headers) conds,
     acc ++ map field (filter (holds E cs row headers) conds)).
Proof.
  induction 1 as [|c [c' m] conds ms [Hc Hm] _ IH]; intros any acc; simpl.
  - rewrite orb_false_r, app_nil_r; reflexivity.
  - simpl in Hc, Hm; subst c'. unfold holds at 1 3.
    destruct (arr_includes headers (field c)); simpl.
    + rewrite Hm.
      destruct (accepts E cs c (nullish (get row (field c)) "")); simpl.
      * rewrite IH, <- app_assoc, orb_true_r; reflexivity.
      * rewrite IH; reflexivity.
    + rewrite IH; reflexivity.
Qed.

(** The evaluator computes the reference, or throws the first pattern
    error. *)
Lemma rowMatchesAdvanced_eval
    (row : Row) (headers : list string) (advanced : AdvancedSearchConfig) :
  rowMatchesAdvanced E row headers advanced =
  match patternError E
          (filter (fun c => negb (blank (value c))) (conditions advanced)) with
  | Some msg => inl msg
  | None => inr (reference E row headers advanced)
  end.
Proof.
  unfold rowMatchesAdvanced, reference.
  rewrite (filter_ext_eq isActive (fun c => negb (blank (value c)))
             (conditions advanced) isActive_not_blank).
  set (active := filter (fun c => negb (blank (value c))) (conditions
      advanced)).
  destruct active as [|c0 rest] eqn:Hact; [reflexivity|].
  change (length (c0 :: rest) =? 0) with false. cbv iota.
  pose proof (buildMatchers_spec
                (or_default (caseSensitive advanced) false) (c0 :: rest)) as Hb.
  destruct (buildMatchers E (or_default (caseSensitive advanced) false)
              (c0 :: rest)) as [msg|ms].
  - rewrite Hb; reflexivity.
  - destruct Hb as [Hnone Hall]. rewrite Hnone.
    destruct (or_default (logic advanced) AND).
    + rewrite (andLoop_spec row headers Hall []). reflexivity.
    + rewrite (orLoop_spec row headers Hall false []).
      rewrite orb_false_l, app_nil_l. cbv beta iota.
      destruct (existsb (holds E (or_default (caseSensitive advanced) false)
                           row headers) (c0 :: rest)) eqn:Hex.
      * reflexivity.
      * rewrite (existsb_false_filter _ _ Hex). reflexivity.
Qed.

Lemma holds_iff (cs : bool) (row : Row) (headers : list string)
    (c : FieldSearchCondition) :
  holds E cs row headers c = true <->
  In (field c) headers
  /\ accepts E cs c (nullish (get row (field c)) "") = true.
Proof.
  unfold holds. rewrite andb_true_iff.
  unfold arr_includes. rewrite existsb_exists. split.
  - intros [[x [Hx He]] Ha]. apply String.eqb_eq in He. subst x. auto.
  - intros [Hin Ha]. split; [|exact Ha].
    exists (field c). split; [exact Hin | apply String.eqb_refl].
Qed.

(** C2.  For every row, header list and advanced configuration,
    [rowMatchesAdvanced] is the reference evaluator, and the reference
    evaluator is what its words say.  Blank-valued conditions are left
    out of the active set; an empty active set gives (true, []).  With
    patterns that compile: under AND the row matches iff every active
    condition's field is a header and its matcher accepts the cell,
    matchedFields are then the active conditions' fields, and a
    condition on a missing field, like a rejected cell, gives
    (false, []); under OR conditions on missing fields are passed over,
    the row matches iff some active condition on a present field
    accepts, and matchedFields are exactly the fields of the conditions
    that did (none when the row does not match).  The only other outcome
    is the thrown error of the first active regex condition whose
    pattern is invalid. *)
Theorem rowMatchesAdvanced_reference
    (row : Row) (headers : list string) (advanced : AdvancedSearchConfig) :
  let active :=
    filter (fun c => negb (blank (value c))) (conditions advanced) in
  let cs := or_default (caseSensitive advanced) false in
  let ok := fun c =>
    In (field c) headers
    /\ accepts E cs c (nullish (get row (field c)) "") = true in
  rowMatchesAdvanced E row headers advanced
  = match patternError E active with
    | Some msg => inl msg
    | None => inr (reference E row headers advanced)
    end
  /\ (active = [] -> rowMatchesAdvanced E row headers advanced = inr (true, []))
  /\ (patternError E active = None -> active <> [] ->
      exists matches matchedFields,
        rowMatchesAdvanced E row headers advanced
        = inr (matches, matchedFields)
        /\ (or_default (logic advanced) AND = AND ->
            (matches = true <-> forall c, In c active -> ok c)
            /\ (matches = true -> matchedFields = map field active)
            /\ (matches = false -> matchedFields = [])
            /\ ((exists c, In c active /\ ~ In (field c) headers) ->
                matches = false))
        /\ (or_default (logic advanced) AND = OR ->
            (matches = true <-> exists c, In c active /\ ok c)
            /\ (forall f, In f matchedFields <->
                          exists c, In c active /\ ok c /\ field c = f)
            /\ matchedFields = map field (filter (holds E cs row headers) active)
            /\ (matches = false -> matchedFields = []))).
Proof.
  intros active cs ok.
  pose proof (rowMatchesAdvanced_eval row headers advanced) as Heval.
  fold active in Heval.
  split; [exact Heval|]. split.
  - intros Hnil. rewrite Heval, Hnil. simpl.
    unfold reference. fold active. rewrite Hnil. reflexivity.
  - intros Hok Hne. rewrite Heval, Hok.
    unfold reference. fold active. fold cs.
    destruct active as [|c0 rest] eqn:Hact; [contradiction|].
    destruct (or_default (logic advanced) AND).
    + (* AND *)
      destruct (forallb (holds E cs row headers) (c0 :: rest)) eqn:Hall.
      * eexists _, _. split; [reflexivity|]. split; [|discriminate].
        intros _. split; [|split; [|split]].
        -- split; [|reflexivity]. intros _ c Hc.
           apply holds_iff. rewrite forallb_forall in Hall. apply Hall, Hc.
        -- reflexivity.
        -- discriminate.
        -- intros (c & Hc & Hmiss). exfalso. apply Hmiss.
           rewrite forallb_forall in Hall.
           apply (proj1 (holds_iff cs row headers c)). apply Hall, Hc.
      * eexists _, _. split; [reflexivity|]. split; [|discriminate].
        intros _. split; [|split; [|split]].
        -- split; [discriminate|]. intros H. exfalso.
           assert (Ht : forallb (holds E cs row headers) (c0 :: rest) = true).
           { apply forallb_forall. intros c Hc. apply holds_iff. apply H, Hc. }
           rewrite Ht in Hall. discriminate.
        -- discriminate.
        -- reflexivity.
        -- reflexivity.
    + (* OR *)
      eexists _, _. split; [reflexivity|]. split; [discriminate|].
      intros _. split; [|split; [|split]].
      * rewrite existsb_exists. split.
        -- intros (c & Hc & Hh). exists c. split; [exact Hc|].
           apply holds_iff. exact Hh.
        -- intros (c & Hc & Hh). exists c. split; [exact Hc|].
           apply holds_iff. exact Hh.
      * intros f. rewrite in_map_iff. split.
        -- intros (c & Hf & Hc). apply filter_In in Hc. destruct Hc as [Hc Hh].
           exists c. split; [exact Hc|]. split; [apply holds_iff; exact Hh|].
           exact Hf.
        -- intros (c & Hc & Hh & Hf). exists c. split; [exact Hf|].
           apply filter_In. split; [exact Hc | apply holds_iff; exact Hh].
      * reflexivity.
      * intros Hex. rewrite (existsb_false_filter _ _ Hex). reflexivity.
Qed.

End WithEngine.

End MatcherFacts.

(* ================================================================== *)
(** * What a stretch of a handler does to the request state *)
(* ================================================================== *)

Module Effects.

Import JS Csv Matcher FileProcessor Pipeline.
Import Spec.

Lemma signal_app (a b : list Event) : signal (a ++ b) = signal a ++ signal b.
Proof. unfold signal. apply filter_app. Qed.

Lemma changesOf_app (a b : list Event) :
  changesOf (a ++ b) = changesOf a ++ changesOf b.
Proof.
  induction a as [|e a IH]; simpl; [reflexivity|].
  destruct e; simpl; try exact IH.
  rewrite IH, app_assoc; reflexivity.
Qed.

Lemma effect_refl (st : St) : Effect st st dzero.
Proof.
  unfold Effect, dzero; simpl.
  repeat split; try lia.
  exists []. rewrite app_nil_r. split; reflexivity.
Qed.

Lemma effect_trans (st0 st1 st2 : St) (d1 d2 : Delta) :
  Effect st0 st1 d1 -> Effect st1 st2 d2 -> Effect st0 st2 (dplus d1 d2).
Proof.
  unfold Effect, dplus; simpl.
  intros (Ho1 & Hw1 & Ht1 & Hp1 & Hr1 & Hpr1 & Hm1 & Hrp1 & evs1 & He1 & Hs1)
         (Ho2 & Hw2 & Ht2 & Hp2 & Hr2 & Hpr2 & Hm2 & Hrp2 & evs2 & He2 & Hs2).
  repeat split; try congruence; try lia.
  exists (evs1 ++ evs2). split.
  - rewrite He2, He1, app_assoc; reflexivity.
  - rewrite signal_app, Hs1, Hs2; reflexivity.
Qed.

Lemma runs_ret {A} (a : A) (st : St) : Runs (ret a) st a st dzero.
Proof. split; [reflexivity | apply effect_refl]. Qed.

Lemma runs_bind {A B} (m : M A) (k : A -> M B) (st st1 st2 : St)
    (a : A) (b : B) (d1 d2 : Delta) :
  Runs m st a st1 d1 -> Runs (k a) st1 b st2 d2 ->
  Runs (bind m k) st b st2 (dplus d1 d2).
Proof.
  intros [Hm E1] [Hk E2]. split.
  - unfold bind. rewrite Hm. exact Hk.
  - eapply effect_trans; eassumption.
Qed.

(** Sequencing two stretches that run from every state. *)
Lemma runs_bind_ex {A B} (m : M A) (k : A -> M B) (st : St)
    (a : A) (b : B) (d1 d2 d : Delta) :
  (exists st1, Runs m st a st1 d1) ->
  (forall st1, exists st2, Runs (k a) st1 b st2 d2) ->
  d = dplus d1 d2 ->
  exists st2, Runs (bind m k) st b st2 d.
Proof.
  intros [st1 H1] H2 ->. destruct (H2 st1) as [st2 H2'].
  exists st2. eapply runs_bind; eassumption.
Qed.

Lemma runs_ret_ex {A} (a a' : A) (st : St) (d : Delta) :
  a = a' -> d = dzero -> exists st', Runs (ret a) st a' st' d.
Proof. intros -> ->. exists st. apply runs_ret. Qed.

Lemma runs_conv {A} (m : M A) (st : St) (a a' : A) (d d' : Delta) :
  (exists st', Runs m st a st' d) -> a = a' -> d = d' ->
  exists st', Runs m st a' st' d'.
Proof. intros H -> ->. exact H. Qed.

Lemma bind_inr {A B} (m : M A) (k : A -> M B) (st st1 : St) (a : A) :
  m st = (inr a, st1) -> bind m k st = k a st1.
Proof. intros H. unfold bind. rewrite H. reflexivity. Qed.

Lemma bind_inl {A B} (m : M A) (k : A -> M B) (st st1 : St) (e : string) :
  m st = (inl e, st1) -> bind m k st = (inl e, st1).
Proof. intros H. unfold bind. rewrite H. reflexivity. Qed.

Lemma runs_bind_ret {A B} (a : A) (k : A -> M B) (st : St) (b : B)
    (d : Delta) :
  (exists st', Runs (k a) st b st' d) ->
  exists st', Runs (bind (ret a) k) st b st' d.
Proof. intros H. exact H. Qed.

(** A run with the same result and a delta equal to the stated one. *)
Lemma runs_eq {A} (m : M A) (st st' : St) (a a' : A) (d d' : Delta) :
  Runs m st a st' d -> a = a' -> d = d' -> Runs m st a' st' d'.
Proof. intros H -> ->. exact H. Qed.

Lemma runs_sendStats (s : ProcessStats) (st : St) :
  exists st', Runs (sendEvent (EvStats s)) st tt st' dzero.
Proof.
  eexists. split; [reflexivity|].
  unfold Effect, dzero; simpl. repeat split; try lia.
  exists [EvStats s]. split; reflexivity.
Qed.

Lemma runs_sendEvent (e : Event) (st : St) :
  isStats e = false ->
  exists st',
    Runs (sendEvent e) st tt st'
      {| d_rows := 0; d_matches := 0; d_repl := 0; d_events := [e] |}.
Proof.
  intros He. eexists. split; [reflexivity|].
  unfold Effect; simpl. repeat split; try lia.
  exists [e]. split; [reflexivity|].
  unfold signal; simpl. rewrite He. reflexivity.
Qed.

Lemma runs_incProcessedRows (st : St) :
  exists st',
    Runs (modStats incProcessedRows) st tt st'
      {| d_rows := 1; d_matches := 0; d_repl := 0; d_events := [] |}.
Proof.
  eexists. split; [reflexivity|].
  unfold Effect; simpl. repeat split; try lia.
  exists []. rewrite app_nil_r. split; reflexivity.
Qed.

Lemma runs_incTotalMatches (st : St) :
  exists st',
    Runs (modStats incTotalMatches) st tt st'
      {| d_rows := 0; d_matches := 1; d_repl := 0; d_events := [] |}.
Proof.
  eexists. split; [reflexivity|].
  unfold Effect; simpl. repeat split; try lia.
  exists []. rewrite app_nil_r. split; reflexivity.
Qed.

Lemma runs_incTotalReplacements (st : St) :
  exists st',
    Runs (modStats incTotalReplacements) st tt st'
      {| d_rows := 0; d_matches := 0; d_repl := 1; d_events := [] |}.
Proof.
  eexists. split; [reflexivity|].
  unfold Effect; simpl. repeat split; try lia.
  exists []. rewrite app_nil_r. split; reflexivity.
Qed.

Lemma runs_progress (i total : nat) (st : St) :
  exists st', Runs (progress i total) st tt st' dzero.
Proof.
  unfold progress.
  destruct (((i + 1) mod 10 =? 0) || (i =? total - 1)).
  - destruct (runs_sendStats (stats st) st) as [st' H].
    exists st'. destruct H as [H E]. split; [|exact E].
    unfold bind, getStats. exact H.
  - exists st. apply runs_ret.
Qed.

Lemma changesOf_signal (evs : list Event) :
  changesOf (signal evs) = changesOf evs.
Proof.
  induction evs as [|e evs IH]; simpl; [reflexivity|].
  destruct e; simpl; rewrite ?IH; reflexivity.
Qed.

(** Running the straight-line tail of a handler. *)
Ltac run_tail :=
  repeat (erewrite bind_inr by reflexivity);
  cbn [stats events outputFiles world fs clock].

Lemma signal_cons_keep (e : Event) (evs : list Event) :
  isStats e = false -> signal (e :: evs) = e :: signal evs.
Proof. intros H. unfold signal; simpl. rewrite H. reflexivity. Qed.

Lemma signal_cons_stats (s : ProcessStats) (evs : list Event) :
  signal (EvStats s :: evs) = signal evs.
Proof. reflexivity. Qed.

Lemma runs_rowEvent (fname fpath : string) (i total : nat)
    (changes : list RowChange) (st : St) :
  exists st',
    Runs (if 0 <? length changes
          then sendEvent (EvRowProcessed fname fpath (i + 1) total changes)
          else ret tt) st tt st'
      {| d_rows := 0; d_matches := 0; d_repl := 0;
         d_events := rowEvent fname fpath i total changes |}.
Proof.
  unfold rowEvent. destruct (0 <? length changes).
  - apply runs_sendEvent. reflexivity.
  - exists st. apply runs_ret.
Qed.

Lemma changesOf_rowEvent (fname fpath : string) (i total : nat)
    (changes : list RowChange) :
  changesOf (rowEvent fname fpath i total changes) = changes.
Proof.
  unfold rowEvent. destruct changes as [|c cs]; simpl; [reflexivity|].
  rewrite app_nil_r. reflexivity.
Qed.

Lemma in_signal (e : Event) (evs : list Event) :
  In e (signal evs) <-> In e evs /\ isStats e = false.
Proof.
  unfold signal. rewrite filter_In, negb_true_iff. reflexivity.
Qed.

Lemma rowEvent_isRowEvent (fname fpath : string) (i total : nat)
    (changes : list RowChange) (e : Event) :
  In e (rowEvent fname fpath i total changes) -> isRowEvent e.
Proof.
  unfold rowEvent. destruct (0 <? length changes); [|contradiction].
  intros [<-|[]]. exact I.
Qed.

Lemma Forall_changesOf_app (P : RowChange -> Prop) (a b : list Event) :
  Forall P (changesOf a) -> Forall P (changesOf b) ->
  Forall P (changesOf (a ++ b)).
Proof. intros Ha Hb. rewrite changesOf_app. apply Forall_app. auto. Qed.

(** A file handler turns whatever its body throws into an event. *)
Lemma try_catch_total (m : M unit) (fn : string) (st : St) :
  exists st',
    try_catch m (fun msg => sendEvent (EvFileError fn msg)) st = (inr tt, st').
Proof.
  unfold try_catch. destruct (m st) as [[e|[]] st1]; eexists; reflexivity.
Qed.

End Effects.

(* ================================================================== *)
(** * Accumulators of the row loops *)
(* ================================================================== *)

Module Scan.

Import JS Csv FileProcessor Pipeline.
Import Spec.

Lemma grow_nothing (acc : ScanAcc) : grow acc [] 0 0 = acc.
Proof.
  destruct acc; unfold grow; simpl.
  rewrite app_nil_r, !Nat.add_0_r. reflexivity.
Qed.

Lemma grow_grow (acc : ScanAcc) (o1 o2 : list Row) (m1 m2 r1 r2 : nat) :
  grow (grow acc o1 m1 r1) o2 m2 r2 = grow acc (o1 ++ o2) (m1 + m2) (r1 + r2).
Proof.
  unfold grow; simpl. rewrite <- app_assoc, !Nat.add_assoc. reflexivity.
Qed.

Lemma pushRow_grow (row : Row) (acc : ScanAcc) :
  pushRow row acc = grow acc [row] 0 0.
Proof. unfold pushRow, grow. rewrite !Nat.add_0_r. reflexivity. Qed.

Lemma countMatch_grow (acc : ScanAcc) : countMatch acc = grow acc [] 1 0.
Proof.
  unfold countMatch, grow.
  rewrite app_nil_r, Nat.add_0_r, Nat.add_1_r. reflexivity.
Qed.

Lemma countReplacement_grow (acc : ScanAcc) :
  countReplacement acc = grow acc [] 0 1.
Proof.
  unfold countReplacement, grow.
  rewrite app_nil_r, Nat.add_0_r, Nat.add_1_r. reflexivity.
Qed.

Lemma grow_emptyScan (outs : list Row) (dm dr : nat) :
  grow emptyScan outs dm dr =
  {| processedRowsOut := outs; fileMatches := dm; fileReplacements := dr |}.
Proof. reflexivity. Qed.

(** Equalities between accumulators. *)
Ltac acc_eq :=
  rewrite ?pushRow_grow, ?countMatch_grow, ?countReplacement_grow, ?grow_grow;
  cbn [app Nat.add]; rewrite ?Nat.add_0_r; reflexivity.

(** ** Rows as maps *)

Lemma get_set_same (row : Row) (k v : string) : get (set row k v) k = Some v.
Proof.
  induction row as [|[k' v'] row IH]; simpl.
  - rewrite String.eqb_refl. reflexivity.
  - destruct (String.eqb k' k) eqn:Hk; simpl; rewrite Hk; [reflexivity | exact
      IH].
Qed.

Lemma get_set_other (row : Row) (k k' v : string) :
  k <> k' -> get (set row k v) k' = get row k'.
Proof.
  intros Hne. induction row as [|[k0 v0] row IH]; simpl.
  - destruct (String.eqb k k') eqn:Hk; [|reflexivity].
    apply String.eqb_eq in Hk. contradiction.
  - destruct (String.eqb k0 k) eqn:Hk; simpl.
    + apply String.eqb_eq in Hk. subst k0.
      destruct (String.eqb k k') eqn:Hk'; [|reflexivity].
      apply String.eqb_eq in Hk'. contradiction.
    + rewrite IH. reflexivity.
Qed.

Lemma strict_neq_true (a b : string) : strict_neq a b = true <-> a <> b.
Proof.
  unfold strict_neq. rewrite negb_true_iff. split.
  - intros H Heq. subst. rewrite String.eqb_refl in H. discriminate.
  - intros H. destruct (String.eqb a b) eqn:E; [|reflexivity].
    apply String.eqb_eq in E. contradiction.
Qed.

Lemma strict_neq_false (a b : string) : strict_neq a b = false <-> a = b.
Proof.
  unfold strict_neq. rewrite negb_false_iff. apply String.eqb_eq.
Qed.

Lemma arr_includes_In (a : list string) (x : string) :
  arr_includes a x = true <-> In x a.
Proof.
  unfold arr_includes. rewrite existsb_exists. split.
  - intros [y [Hy He]]. apply String.eqb_eq in He. subst. exact Hy.
  - intros H. exists x. split; [exact H | apply String.eqb_refl].
Qed.

Lemma readFile_writeFile (files : FileSystem) (p : string) (c : FileContent) :
  readFile (writeFile files p c) p = Some c.
Proof. unfold writeFile; simpl. rewrite String.eqb_refl. reflexivity. Qed.

End Scan.

(* ================================================================== *)
(** * The replay: which rows are touched, and how *)
(* ================================================================== *)

Module ReplayFacts.

Import JS Csv Matcher FileProcessor Pipeline Effects Scan.
Import Spec.

Lemma writeOps_unnamed (headers : list string) (ops : list ReplaceOperation)
    (row : Row) (f : string) :
  lastValue ops f = None ->
  get (fst (writeOps headers ops row)) f = get row f.
Proof.
  revert row. induction ops as [|op rest IH]; intros row Hn; simpl in *.
  - reflexivity.
  - destruct (lastValue rest f) eqn:Hl; [discriminate|].
    destruct (String.eqb (op_field op) f) eqn:Hf; [discriminate|].
    destruct (arr_includes headers (op_field op)
              && strict_neq (nullish (get row (op_field op)) "") (op_value op)).
    + simpl. rewrite IH by reflexivity. apply get_set_other.
      intros Heq. rewrite Heq, String.eqb_refl in Hf. discriminate.
    + apply IH. reflexivity.
Qed.

Lemma writeOps_named (headers : list string) (ops : list ReplaceOperation)
    (row : Row) (f v : string) :
  In f headers ->
  lastValue ops f = Some v ->
  nullish (get (fst (writeOps headers ops row)) f) "" = v.
Proof.
  intros Hin. revert row. induction ops as [|op rest IH]; intros row Hl; simpl
      in *.
  - discriminate.
  - destruct (lastValue rest f) as [v'|] eqn:Hr.
    + inversion Hl; subst v'.
      destruct (arr_includes headers (op_field op)
                && strict_neq (nullish (get row (op_field op)) "") (op_value
                    op));
        simpl; apply IH; reflexivity.
    + destruct (String.eqb (op_field op) f) eqn:Hf; [|discriminate].
      apply String.eqb_eq in Hf. inversion Hl; subst.
      apply arr_includes_In in Hin. rewrite Hin. simpl.
      destruct (strict_neq (nullish (get row (op_field op)) "") (op_value op))
        eqn:Hs; simpl.
      * rewrite writeOps_unnamed by exact Hr.
        rewrite get_set_same. reflexivity.
      * rewrite writeOps_unnamed by exact Hr.
        apply strict_neq_false in Hs. exact Hs.
Qed.

Lemma writeOps_changes (headers : list string) (ops : list ReplaceOperation)
    (row : Row) (c : RowChange) :
  In c (snd (writeOps headers ops row)) ->
  oldValue c <> newValue c
  /\ In (ch_field c) headers
  /\ exists op, In op ops /\ op_field op = ch_field c
                /\ op_value op = newValue c.
Proof.
  revert row. induction ops as [|op rest IH]; intros row Hc; simpl in *.
  - contradiction.
  - destruct (arr_includes headers (op_field op)) eqn:Hh; simpl in Hc.
    + destruct (strict_neq (nullish (get row (op_field op)) "") (op_value op))
        eqn:Hs; simpl in Hc.
      * destruct Hc as [Hc|Hc].
        -- subst c. simpl. split; [apply strict_neq_true; exact Hs|].
           split; [apply arr_includes_In; exact Hh|].
           exists op. auto.
        -- destruct (IH _ Hc) as (H1 & H2 & op' & H3 & H4).
           split; [exact H1|]. split; [exact H2|]. exists op'. auto.
      * destruct (IH _ Hc) as (H1 & H2 & op' & H3 & H4).
        split; [exact H1|]. split; [exact H2|]. exists op'. auto.
    + destruct (IH _ Hc) as (H1 & H2 & op' & H3 & H4).
      split; [exact H1|]. split; [exact H2|]. exists op'. auto.
Qed.

(** No change record: the row is left as it was. *)
Lemma writeOps_no_change (headers : list string) (ops : list ReplaceOperation)
    (row : Row) :
  snd (writeOps headers ops row) = [] -> fst (writeOps headers ops row) = row.
Proof.
  revert row. induction ops as [|op rest IH]; intros row Hc; simpl in *.
  - reflexivity.
  - destruct (arr_includes headers (op_field op)
              && strict_neq (nullish (get row (op_field op)) "") (op_value op)).
    + simpl in Hc. discriminate.
    + apply IH. exact Hc.
Qed.

Section Loop.

Variable operations : list ReplaceOperation.
Variable headers : list string.
Variable searchResult : SearchResult.
Variable filePath : string.
Variable total : nat.

Lemma selected_eligible (i : nat) :
  selected searchResult i = true <-> eligible searchResult i.
Proof.
  unfold selected, rowsToReplace, eligible. rewrite existsb_exists. split.
  - intros [z [Hz He]]. apply in_map_iff in Hz. destruct Hz as [r [Hr Hin]].
    exists r. split; [exact Hin|]. apply Z.eqb_eq in He. congruence.
  - intros [r [Hin He]]. exists (rowIndex r - 1)%Z. split.
    + apply in_map_iff. exists r. split; [reflexivity | exact Hin].
    + apply Z.eqb_eq. exact He.
Qed.

Lemma applyOperations_runs (ops : list ReplaceOperation) :
  forall (row : Row) (evs : list RowChange) (acc : ScanAcc) (st : St),
  exists st',
    Runs (applyOperations headers ops row evs acc) st
      (fst (writeOps headers ops row),
       evs ++ snd (writeOps headers ops row),
       grow acc [] 0 (length (snd (writeOps headers ops row))))
      st'
      {| d_rows := 0; d_matches := 0;
         d_repl := length (snd (writeOps headers ops row));
         d_events := [] |}.
Proof.
  induction ops as [|op rest IH]; intros row evs acc st; simpl.
  - apply runs_ret_ex; [|reflexivity].
    rewrite app_nil_r, grow_nothing. reflexivity.
  - destruct (arr_includes headers (op_field op)); simpl.
    + destruct (strict_neq (nullish (get row (op_field op)) "") (op_value op));
        simpl.
      * eapply runs_conv.
        { eapply runs_bind_ex;
            [apply runs_incTotalReplacements | intros st1; apply IH
            | reflexivity]. }
        { rewrite <- app_assoc, countReplacement_grow, grow_grow.
          reflexivity. }
        { reflexivity. }
      * apply IH.
    + apply IH.
Qed.

Lemma replayRow_runs (i : nat) (row : Row) (acc : ScanAcc) (st : St) :
  exists st',
    Runs (replayRow operations headers searchResult filePath total i row acc)
      st
      (grow acc [fst (rewriteRow operations headers searchResult i row)] 0
          (length (snd (rewriteRow operations headers searchResult i row))))
      st'
      {| d_rows := 1; d_matches := 0;
         d_repl := length (snd (rewriteRow operations headers searchResult i
             row));
         d_events := rowEvent (filename searchResult) filePath i total
                       (snd (rewriteRow operations headers searchResult i
                           row)) |}.
Proof.
  unfold replayRow, rewriteRow.
  destruct (selected searchResult i).
  - eapply runs_conv.
    { eapply runs_bind_ex;
        [apply (applyOperations_runs operations row [] acc) | | reflexivity].
      intros st1. cbv beta iota.
      eapply runs_bind_ex; [apply runs_incProcessedRows | | reflexivity].
      intros st2.
      eapply runs_bind_ex; [apply runs_rowEvent | | reflexivity].
      intros st3.
      eapply runs_bind_ex; [apply runs_progress | | reflexivity].
      intros st4. apply runs_ret_ex; reflexivity. }
    { rewrite pushRow_grow, grow_grow. simpl. rewrite !Nat.add_0_r.
      reflexivity. }
    { unfold dplus, dzero; simpl. rewrite !Nat.add_0_r, !app_nil_r.
      reflexivity. }
  - eapply runs_conv.
    { eapply runs_bind_ex; [apply runs_ret_ex; reflexivity | | reflexivity].
      intros st1. cbv beta iota.
      eapply runs_bind_ex; [apply runs_incProcessedRows | | reflexivity].
      intros st2.
      eapply runs_bind_ex;
        [apply (runs_rowEvent (filename searchResult) filePath i total [])
        | | reflexivity].
      intros st3.
      eapply runs_bind_ex; [apply runs_progress | | reflexivity].
      intros st4. apply runs_ret_ex; reflexivity. }
    { rewrite pushRow_grow. reflexivity. }
    { reflexivity. }
Qed.

Lemma replayRows_runs (rows : list Row) :
  forall (i : nat) (acc : ScanAcc) (st : St),
  exists st',
    Runs (replayRows operations headers searchResult filePath total rows i acc)
      st
      (grow acc (replayOut operations headers searchResult i rows) 0
          (replayCount operations headers searchResult i rows))
      st'
      {| d_rows := length rows; d_matches := 0;
         d_repl := (replayCount operations headers searchResult) i rows;
         d_events := (replayEvents operations headers searchResult filePath
             total) i rows |}.
Proof.
  induction rows as [|row rest IH]; intros i acc st; simpl.
  - apply runs_ret_ex; [|reflexivity]. rewrite grow_nothing. reflexivity.
  - eapply runs_conv.
    { eapply runs_bind_ex;
        [apply replayRow_runs | intros st1; apply IH | reflexivity]. }
    { rewrite grow_grow. reflexivity. }
    { reflexivity. }
Qed.

Lemma replayCount_changes (rows : list Row) (i : nat) :
  length (changesOf (replayEvents operations headers searchResult filePath
      total i rows)) = (replayCount operations headers searchResult) i rows.
Proof.
  revert i. induction rows as [|row rest IH]; intros i; simpl; [reflexivity|].
  rewrite changesOf_app, changesOf_rowEvent, length_app, IH. reflexivity.
Qed.

Lemma replayOut_length (rows : list Row) (i : nat) :
  length (replayOut operations headers searchResult i rows) = length rows.
Proof.
  revert i. induction rows as [|row rest IH]; intros i; simpl;
    [reflexivity | rewrite IH; reflexivity].
Qed.

Lemma replayOut_nth (rows : list Row) (i k : nat) :
  nth_error (replayOut operations headers searchResult i rows) k =
  option_map (fun row => fst (rewriteRow operations headers searchResult (i +
      k) row)) (nth_error rows k).
Proof.
  revert i k. induction rows as [|row rest IH]; intros i k; simpl.
  - destruct k; reflexivity.
  - destruct k as [|k]; simpl.
    + rewrite Nat.add_0_r. reflexivity.
    + rewrite IH. rewrite Nat.add_succ_r. reflexivity.
Qed.

Lemma replayEvents_In (rows : list Row) (i : nat) (e : Event) :
  In e (replayEvents operations headers searchResult filePath total i rows) <->
  exists k row,
    nth_error rows k = Some row
    /\ In e (rowEvent (filename searchResult) filePath (i + k) total
               (snd (rewriteRow operations headers searchResult (i + k) row))).
Proof.
  revert i. induction rows as [|row rest IH]; intros i; simpl.
  - split; [contradiction|]. intros [k [r [Hk _]]]. destruct k; discriminate.
  - rewrite in_app_iff, IH. split.
    + intros [H|[k [r [Hk H]]]].
      * exists 0, row. rewrite Nat.add_0_r. split; [reflexivity | exact H].
      * exists (S k), r. rewrite Nat.add_succ_r. split; [exact Hk | exact H].
    + intros [k [r [Hk H]]]. destruct k as [|k]; simpl in Hk.
      * inversion Hk; subst r. rewrite Nat.add_0_r in H. left; exact H.
      * right. exists k, r. rewrite Nat.add_succ_r in H.
        split; [exact Hk | exact H].
Qed.

End Loop.

(** C3.  In the replay, the row loop of a file never throws and
    retains one row per parsed row, in order.  A row whose 0-based offset
    is not [rowIndex - 1] for a row of the search result comes out
    identical and sends no row event; no predicate is involved, only this
    membership.  A row whose offset is selected is rewritten by the
    operations: a field no operation names keeps its value, a field of
    the file named by an operation ends with the value of the last
    operation naming it, and the row's event carries one change record
    per write that found a different value, each going from that old
    value to the operation's value.  The file's replacement count is the
    number of change records sent. *)
Theorem replay_rewrites_exactly_the_selected_rows
    (operations : list ReplaceOperation) (headers : list string)
    (searchResult : SearchResult) (filePath : string) (total : nat)
    (rows : list Row) (st : St) :
  exists acc' st' d,
    Runs (replayRows operations headers searchResult filePath total rows 0
            emptyScan) st acc' st' d
    /\ length (processedRowsOut acc') = length rows
    /\ fileReplacements acc' = length (changesOf (d_events d))
    /\ forall i row,
         nth_error rows i = Some row ->
         exists row' changes,
           nth_error (processedRowsOut acc') i = Some row'
           /\ (forall cs,
                 In (EvRowProcessed (filename searchResult) filePath (i + 1)
                       total cs) (d_events d)
                 <-> cs = changes /\ changes <> [])
           /\ (~ eligible searchResult i -> row' = row /\ changes = [])
           /\ (eligible searchResult i ->
                 (row', changes) = writeOps headers operations row
                 /\ (forall f, lastValue operations f = None ->
                               get row' f = get row f)
                 /\ (forall f v, In f headers ->
                                 lastValue operations f = Some v ->
                                 nullish (get row' f) "" = v)
                 /\ (forall c, In c changes ->
                       oldValue c <> newValue c
                       /\ In (ch_field c) headers
                       /\ exists op, In op operations
                                     /\ op_field op = ch_field c
                                     /\ op_value op = newValue c)).
Proof.
  destruct (replayRows_runs operations headers searchResult filePath total
              rows 0 emptyScan st) as [st' Hrun].
  eexists _, st', _. split; [exact Hrun|].
  simpl.
  split; [apply replayOut_length|].
  split; [symmetry; apply replayCount_changes|].
  intros i row Hrow.
  exists (fst (rewriteRow operations headers searchResult i row)),
         (snd (rewriteRow operations headers searchResult i row)).
  split.
  { rewrite replayOut_nth, Hrow. reflexivity. }
  split.
  { intros cs. rewrite replayEvents_In. split.
    - intros [k [r [Hk Hin]]]. simpl in Hin. unfold rowEvent in Hin.
      destruct (0 <? length (snd (rewriteRow operations headers searchResult
                                     k r))) eqn:Hlen; [|contradiction].
      destruct Hin as [Heq|[]]. inversion Heq as [[Hidx Hcs]].
      assert (k = i) by lia. subst k.
      rewrite Hrow in Hk. inversion Hk; subst r.
      split; [reflexivity|].
      intros Hnil. rewrite Hnil in Hlen. discriminate.
    - intros [-> Hne]. exists i, row. split; [exact Hrow|].
      simpl. unfold rowEvent.
      destruct (snd (rewriteRow operations headers searchResult i row));
        [contradiction | left; reflexivity]. }
  split.
  { intros Hnot. unfold rewriteRow.
    destruct (selected searchResult i) eqn:Hsel.
    - apply selected_eligible in Hsel. contradiction.
    - split; reflexivity. }
  intros Hel. apply selected_eligible in Hel.
  unfold rewriteRow. rewrite Hel.
  split; [symmetry; apply surjective_pairing|].
  split; [intros f Hf; apply writeOps_unnamed; exact Hf|].
  split; [intros f v Hin Hf; apply writeOps_named; assumption|].
  intros c Hc. apply writeOps_changes in Hc. exact Hc.
Qed.

Lemma invalidFields_In (operations : list ReplaceOperation)
    (headers : list string) (f : string) :
  In f (invalidFields operations headers) <->
  exists op, In op operations /\ op_field op = f /\ ~ In f headers.
Proof.
  unfold invalidFields. rewrite filter_In, in_map_iff. split.
  - intros [[op [Hf Hin]] Hneg]. exists op. repeat split; try assumption.
    intros Hh. apply arr_includes_In in Hh. rewrite Hh in Hneg. discriminate.
  - intros [op [Hin [Hf Hneg]]]. split; [exists op; auto|].
    destruct (arr_includes headers f) eqn:Hh; [|reflexivity].
    apply arr_includes_In in Hh. contradiction.
Qed.

Lemma invalidFields_some (operations : list ReplaceOperation)
    (headers : list string) :
  (exists op, In op operations /\ ~ In (op_field op) headers) ->
  (0 <? length (invalidFields operations headers)) = true.
Proof.
  intros [op [Hin Hneg]].
  assert (H : In (op_field op) (invalidFields operations headers)).
  { apply invalidFields_In. exists op. auto. }
  destruct (invalidFields operations headers); [contradiction | reflexivity].
Qed.

Lemma invalidFields_none (operations : list ReplaceOperation)
    (headers : list string) :
  (forall op, In op operations -> In (op_field op) headers) ->
  (0 <? length (invalidFields operations headers)) = false.
Proof.
  intros Hall.
  destruct (invalidFields operations headers) as [|f l] eqn:Hi; [reflexivity|].
  assert (H : In f (invalidFields operations headers))
    by (rewrite Hi; left; reflexivity).
  apply invalidFields_In in H. destruct H as [op [Hin [Hf Hneg]]].
  subst f. exfalso. apply Hneg, Hall, Hin.
Qed.

(** One file of the replay, once parsed: either a field is missing and
    the file is given up with one error event, or the rows are scanned
    and the file is saved and counted when, and only when, a value
    changed. *)
Lemma replayParsed_outcome (env : Env) (operations : list ReplaceOperation)
    (filePath : string) (searchResult : SearchResult) (rows : list Row)
    (st : St) :
  exists st' evs,
    replayParsed env operations filePath searchResult rows st = (inr tt, st')
    /\ events st' = events st ++ evs
    /\ ((exists op, In op operations /\ ~ In (op_field op) (headersOf rows)) ->
        evs = [EvFileError (filename searchResult)
                 ("Fields not found in CSV headers: "
                  ++ join ", " (invalidFields operations (headersOf
                      rows)))%string]
        /\ outputFiles st' = outputFiles st
        /\ world st' = world st
        /\ processedFiles (stats st') = processedFiles (stats st)
        /\ processedRows (stats st') = processedRows (stats st)
        /\ totalReplacements (stats st') = totalReplacements (stats st))
    /\ ((forall op, In op operations -> In (op_field op) (headersOf rows)) ->
        let n := length (changesOf evs) in
        exists np,
          outputFiles st' =
            outputFiles st ++ [{| originalPath := filePath; newPath := np |}]
          /\ In (EvFileComplete (filename searchResult) n n np) evs
          /\ totalReplacements (stats st') = totalReplacements (stats st) + n
          /\ (n = 0 ->
              np = None /\ world st' = world st
              /\ processedFiles (stats st') = processedFiles (stats st))
          /\ (0 < n ->
              processedFiles (stats st') = S (processedFiles (stats st))
              /\ exists saved content,
                   np = Some (getDownloadUrl (TMP_DIR env) saved)
                   /\ readFile (fs (world st')) saved = Some (Text content))).
Proof.
  unfold replayParsed.
  erewrite bind_inr by reflexivity.
  destruct (0 <? length (invalidFields operations (headersOf rows))) eqn:Hinv.
  - (* a field is missing: the file is given up *)
    eexists _, _. split; [reflexivity|].
    cbn [stats events outputFiles world].
    split; [reflexivity|]. split.
    + intros _. repeat split; reflexivity.
    + intros Hall. rewrite (invalidFields_none _ _ Hall) in Hinv. discriminate.
  - (* every field is there: the rows are scanned *)
    erewrite bind_inr by reflexivity.
    cbn [stats events outputFiles world].
    match goal with
    | |- exists _ _, bind (replayRows ?o ?h ?s ?f ?t ?r 0 emptyScan) _ ?st1 =
        _ /\ _ =>
        destruct (replayRows_runs o h s f t r 0 emptyScan st1)
          as [st2 [Hrun Heff]]
    end.
    erewrite bind_inr by exact Hrun.
    destruct Heff as (Ho & Hw & _ & Hpf & _ & _ & _ & Hrp & evs & Hev & Hsig).
    cbn [stats events outputFiles world d_repl d_events addTotalRows
         processedFiles totalReplacements] in Ho, Hw, Hpf, Hrp, Hev, Hsig.
    cbn [fileReplacements processedRowsOut grow emptyScan Nat.add app].
    assert (Hcount : length (changesOf evs) =
                     replayCount operations (headersOf rows) searchResult 0
                         rows).
    { rewrite <- changesOf_signal, Hsig. apply replayCount_changes. }
    destruct (0 <? replayCount operations (headersOf rows) searchResult 0 rows)
      eqn:Hn.
    + unfold persist, onWorld, saveProcessedFile, Date_now.
      erewrite bind_inr.
      2:{ erewrite bind_inr.
          2:{ erewrite bind_inr by reflexivity. reflexivity. }
          run_tail. reflexivity. }
      run_tail. unfold sendEvent. cbn [stats events outputFiles world].
      eexists _, _. split; [reflexivity|].
      cbn [stats events outputFiles world].
      split.
      { rewrite Hev, <- !app_assoc. reflexivity. }
      split.
      { intros Hex. rewrite (invalidFields_some _ _ Hex) in Hinv.
          discriminate. }
      intros _.
      rewrite !changesOf_app. cbn [changesOf].
      rewrite ?app_nil_l, ?app_nil_r, Hcount.
      eexists. split; [rewrite Ho; reflexivity|].
      split.
      { rewrite ?in_app_iff. cbn [In]. auto 10. }
      split; [cbn; exact Hrp|].
      split.
      { intros Hz. rewrite Hz in Hn. discriminate. }
      intros _. split; [cbn; rewrite Hpf; reflexivity|].
      eexists _, _. split; [reflexivity|].
      cbn [fs]. apply readFile_writeFile.
    + run_tail. unfold sendEvent. cbn [stats events outputFiles world].
      eexists _, _. split; [reflexivity|].
      cbn [stats events outputFiles world].
      split.
      { rewrite Hev, <- !app_assoc. reflexivity. }
      split.
      { intros Hex. rewrite (invalidFields_some _ _ Hex) in Hinv.
          discriminate. }
      intros _.
      rewrite !changesOf_app. cbn [changesOf].
      rewrite ?app_nil_l, ?app_nil_r, Hcount.
      exists None. split; [rewrite Ho; reflexivity|].
      split.
      { rewrite ?in_app_iff. cbn [In]. auto 10. }
      split; [cbn; exact Hrp|].
      split.
      { intros _. split; [reflexivity|]. split; [exact Hw | cbn; exact Hpf]. }
      intros Hpos. apply Nat.ltb_ge in Hn. lia.
Qed.

Lemma replayEvents_changes (operations : list ReplaceOperation)
    (headers : list string) (searchResult : SearchResult) (filePath : string)
    (total : nat) (rows : list Row) (i : nat) (c : RowChange) :
  In c (changesOf (replayEvents operations headers searchResult filePath total
                     i rows)) ->
  exists row, In row rows /\ In c (snd (writeOps headers operations row)).
Proof.
  revert i. induction rows as [|row rest IH]; intros i; simpl; [contradiction|].
  rewrite changesOf_app, changesOf_rowEvent, in_app_iff. intros [H|H].
  - exists row. split; [left; reflexivity|].
    unfold rewriteRow in H. destruct (selected searchResult i); [exact H|].
    contradiction.
  - destruct (IH _ H) as [r [Hr Hc]]. exists r. split; [right; exact Hr |
      exact Hc].
Qed.

Lemma writeOps_quiet (headers : list string) (ops : list ReplaceOperation)
    (row : Row) :
  snd (writeOps headers ops row) = [] ->
  forall op, In op ops -> In (op_field op) headers ->
             nullish (get row (op_field op)) "" = op_value op.
Proof.
  induction ops as [|o rest IH]; intros Hc op Hin Hh; simpl in *;
      [contradiction|].
  destruct (arr_includes headers (op_field o)) eqn:Ho; simpl in Hc.
  - destruct (strict_neq (nullish (get row (op_field o)) "") (op_value o))
      eqn:Hs;
      simpl in Hc; [discriminate|].
    destruct Hin as [<-|Hin]; [apply strict_neq_false; exact Hs|].
    apply IH; assumption.
  - destruct Hin as [<-|Hin].
    + apply arr_includes_In in Hh. rewrite Hh in Ho. discriminate.
    + apply IH; assumption.
Qed.


End ReplayFacts.

(* ================================================================== *)
(** * The advanced scan, row by row *)
(* ================================================================== *)

Module AdvancedFacts.

Import JS Csv Matcher MatcherFacts FileProcessor Pipeline Effects Scan.
Import Spec.

Section Summary.

Variable env : Env.
Variable adv : AdvancedSearchConfig.
Variables target value_ : option string.
Variable showOnly : bool.
Variable headers : list string.
Variable file : FileDescriptor.
Variable total : nat.

Hypothesis patterns_ok : patternError (engine env) (activeOf adv) = None.

Lemma advancedRow_runs (i : nat) (row : Row) (acc : ScanAcc) (st : St) :
  exists st',
    Runs (advancedRow env adv target value_ showOnly headers file total i
            row acc) st
      (grow acc (advKept env adv target value_ showOnly headers row)
          (countTrue (advMatched env adv headers row)) (advReplaced env adv
          target value_ headers row))
      st'
      {| d_rows := 1; d_matches := countTrue (advMatched env adv headers row);
         d_repl := (advReplaced env adv target value_ headers) row;
         d_events := (advRowEvents env adv target value_ headers file total) i
             row |}.
Proof.
  unfold advancedRow.
  rewrite rowMatchesAdvanced_eval.
  fold (activeOf adv). rewrite patterns_ok. cbn [liftE].
  unfold advKept, advReplaced, advRowEvents, advMatched, advRewrite.
  destruct (reference (engine env) row headers adv) as [flag mf].
  cbn [fst snd].
  apply runs_bind_ret. cbv beta iota.
  destruct flag; cbn [negb andb countTrue].
  - (* the row matches *)
    destruct (writesTarget target value_ headers).
    + destruct (strict_neq (nullish value_ "")
                  (nullish (get row (nullish target "")) "")).
      * eapply runs_conv.
        { eapply runs_bind_ex; [apply runs_incTotalMatches | | reflexivity].
          intros st1.
          eapply runs_bind_ex.
          { eapply runs_bind_ex;
              [apply runs_incTotalReplacements | | reflexivity].
            intros st2. apply runs_ret_ex; reflexivity. }
          2: reflexivity.
          intros st2. cbv beta iota.
          eapply runs_bind_ex; [apply runs_incProcessedRows | | reflexivity].
          intros st3.
          eapply runs_bind_ex; [apply runs_rowEvent | | reflexivity].
          intros st4.
          eapply runs_bind_ex; [apply runs_progress | | reflexivity].
          intros st5. apply runs_ret_ex; reflexivity. }
        { cbn [fst snd length Nat.ltb Nat.leb orb].
          rewrite orb_true_r.
          rewrite pushRow_grow, countReplacement_grow, countMatch_grow,
            !grow_grow. reflexivity. }
        { unfold dplus, dzero. cbn [d_rows d_matches d_repl d_events fst snd].
          rewrite ?app_nil_r, ?app_nil_l. reflexivity. }
      * eapply runs_conv.
        { eapply runs_bind_ex; [apply runs_incTotalMatches | | reflexivity].
          intros st1.
          eapply runs_bind_ex; [apply runs_ret_ex; reflexivity | | reflexivity].
          intros st2. cbv beta iota.
          eapply runs_bind_ex; [apply runs_incProcessedRows | | reflexivity].
          intros st3.
          eapply runs_bind_ex;
            [apply (runs_rowEvent (name file) (path file) i total []) |
            | reflexivity].
          intros st4.
          eapply runs_bind_ex; [apply runs_progress | | reflexivity].
          intros st5. apply runs_ret_ex; reflexivity. }
        { cbn [fst snd length Nat.ltb Nat.leb orb].
          rewrite orb_false_r.
          destruct (negb showOnly).
          - rewrite pushRow_grow, countMatch_grow, !grow_grow. reflexivity.
          - rewrite countMatch_grow. reflexivity. }
        { unfold dplus, dzero. cbn [d_rows d_matches d_repl d_events fst snd].
          reflexivity. }
    + eapply runs_conv.
      { eapply runs_bind_ex; [apply runs_incTotalMatches | | reflexivity].
        intros st1.
        eapply runs_bind_ex; [apply runs_ret_ex; reflexivity | | reflexivity].
        intros st2. cbv beta iota.
        eapply runs_bind_ex; [apply runs_incProcessedRows | | reflexivity].
        intros st3.
        eapply runs_bind_ex; [apply runs_rowEvent | | reflexivity].
        intros st4.
        eapply runs_bind_ex; [apply runs_progress | | reflexivity].
        intros st5. apply runs_ret_ex; reflexivity. }
      { cbn [fst snd].
        match goal with
        | |- context [negb showOnly || ?b] => destruct (negb showOnly || b)
        end.
        - rewrite pushRow_grow, countMatch_grow, !grow_grow. reflexivity.
        - rewrite countMatch_grow. reflexivity. }
      { unfold dplus, dzero. cbn [d_rows d_matches d_repl d_events fst snd].
        rewrite ?app_nil_r, ?app_nil_l. reflexivity. }
  - (* the row does not match *)
    eapply runs_conv.
    { eapply runs_bind_ex; [apply runs_incProcessedRows | | reflexivity].
      intros st1.
      eapply runs_bind_ex; [apply runs_progress | | reflexivity].
      intros st2. apply runs_ret_ex; reflexivity. }
    { destruct (negb showOnly).
      - rewrite pushRow_grow. reflexivity.
      - rewrite grow_nothing. reflexivity. }
    { reflexivity. }
Qed.

Lemma advancedRows_runs (rows : list Row) :
  forall (i : nat) (acc : ScanAcc) (st : St),
  exists st',
    Runs (advancedRows env adv target value_ showOnly headers file total
            rows i acc) st
      (grow acc (advOut env adv target value_ showOnly headers rows)
          (advMatches env adv headers rows) (advCount env adv target value_
          headers rows))
      st'
      {| d_rows := length rows; d_matches := (advMatches env adv headers) rows;
         d_repl := (advCount env adv target value_ headers) rows;
         d_events := (advEvents env adv target value_ headers file total) i
             rows |}.
Proof.
  induction rows as [|row rest IH]; intros i acc st; simpl.
  - apply runs_ret_ex; [|reflexivity]. rewrite grow_nothing. reflexivity.
  - eapply runs_conv.
    { eapply runs_bind_ex;
        [apply advancedRow_runs | intros st1; apply IH | reflexivity]. }
    { rewrite grow_grow. reflexivity. }
    { reflexivity. }
Qed.

End Summary.

(** One file of the advanced search, once parsed and with patterns that
    compile: the rows are scanned, the file is counted, and it is saved
    exactly in replace mode. *)
Lemma advancedParsed_outcome (env : Env) (adv : AdvancedSearchConfig)
    (target value_ : option string) (showOnly : bool)
    (file : FileDescriptor) (rows : list Row) (st : St) :
  patternError (engine env) (activeOf adv) = None \/ rows = [] ->
  exists st' evs np,
    advancedParsed env adv target value_ showOnly file rows st = (inr tt, st')
    /\ events st' = events st ++ evs
    /\ signal evs =
         EvFileInfo (name file) (length rows) (length (headersOf rows))
         :: advEvents env adv target value_ (headersOf rows) file
              (length rows) 0 rows
         ++ [EvFileComplete (name file)
               (advMatches env adv (headersOf rows) rows)
               (advCount env adv target value_ (headersOf rows) rows) np]
    /\ outputFiles st' =
         outputFiles st ++ [{| originalPath := path file; newPath := np |}]
    /\ processedFiles (stats st') = S (processedFiles (stats st))
    /\ totalMatches (stats st') =
         totalMatches (stats st) + advMatches env adv (headersOf rows) rows
    /\ totalReplacements (stats st') =
         totalReplacements (stats st)
         + advCount env adv target value_ (headersOf rows) rows
    /\ (isReplaceModeAdvanced target value_ = false ->
        np = None /\ world st' = world st)
    /\ (isReplaceModeAdvanced target value_ = true ->
        exists saved,
          np = Some (getDownloadUrl (TMP_DIR env) saved)
          /\ readFile (fs (world st')) saved =
               Some (Text (Papa_unparse env
                             (advOut env adv target value_ showOnly
                                (headersOf rows) rows)))).
Proof.
  intros Hok.
  unfold advancedParsed.
  erewrite bind_inr by reflexivity.
  erewrite bind_inr by reflexivity.
  cbn [stats events outputFiles world].
  assert (Hloop : forall st1, exists st2,
             Runs (advancedRows env adv target value_ showOnly
                     (headersOf rows) file (length rows) rows 0 emptyScan) st1
               (grow emptyScan
                  (advOut env adv target value_ showOnly (headersOf rows) rows)
                  (advMatches env adv (headersOf rows) rows)
                  (advCount env adv target value_ (headersOf rows) rows))
               st2
               {| d_rows := length rows;
                  d_matches := advMatches env adv (headersOf rows) rows;
                  d_repl := advCount env adv target value_ (headersOf rows)
                      rows;
                  d_events := advEvents env adv target value_ (headersOf rows)
                                file (length rows) 0 rows |}).
  { intros st1. destruct Hok as [Hok | Hnil].
    - apply advancedRows_runs. exact Hok.
    - rewrite Hnil. simpl. apply runs_ret_ex; reflexivity. }
  match goal with
  | |- exists _ _ _, bind _ _ ?st1 = _ /\ _ =>
      destruct (Hloop st1) as [st2 [Hrun Heff]]
  end.
  erewrite bind_inr by exact Hrun.
  destruct Heff as (Ho & Hw & _ & Hpf & _ & _ & Hm & Hrp & evs & Hev & Hsig).
  cbn [stats events outputFiles world d_repl d_events d_matches addTotalRows
       setCurrent processedFiles totalReplacements totalMatches]
    in Ho, Hw, Hpf, Hm, Hrp, Hev, Hsig.
  cbn [fileReplacements fileMatches processedRowsOut grow emptyScan Nat.add
      app].
  destruct (isReplaceModeAdvanced target value_) eqn:Hmode.
  - unfold persist, onWorld, saveProcessedFile, Date_now.
    erewrite bind_inr by reflexivity. cbn [stats events outputFiles world].
    erewrite bind_inr.
    2:{ erewrite bind_inr.
        2:{ erewrite bind_inr by reflexivity. reflexivity. }
        run_tail. reflexivity. }
    run_tail. unfold sendEvent. cbn [stats events outputFiles world].
    eexists _, _, _. split; [reflexivity|].
    cbn [stats events outputFiles world].
    split; [rewrite Hev, <- !app_assoc; reflexivity|].
    split.
    { rewrite !signal_app, Hsig. reflexivity. }
    split; [rewrite Ho; reflexivity|].
    split; [cbn; rewrite Hpf; reflexivity|].
    split; [cbn; exact Hm|].
    split; [cbn; exact Hrp|].
    split; [discriminate|].
    intros _. eexists. split; [reflexivity|].
    cbn [fs]. apply readFile_writeFile.
  - run_tail. unfold sendEvent. cbn [stats events outputFiles world].
    eexists _, _, _. split; [reflexivity|].
    cbn [stats events outputFiles world].
    split; [rewrite Hev, <- !app_assoc; reflexivity|].
    split.
    { rewrite !signal_app, Hsig. reflexivity. }
    split; [rewrite Ho; reflexivity|].
    split; [cbn; rewrite Hpf; reflexivity|].
    split; [cbn; exact Hm|].
    split; [cbn; exact Hrp|].
    split; [intros _; split; [reflexivity | exact Hw]|].
    discriminate.
Qed.

Lemma advancedRows_throws (env : Env) (adv : AdvancedSearchConfig)
    (target value_ : option string) (showOnly : bool) (headers : list string)
    (file : FileDescriptor) (total : nat) (row : Row) (rest : list Row)
    (i : nat) (acc : ScanAcc) (st : St) (msg : string) :
  patternError (engine env) (activeOf adv) = Some msg ->
  advancedRows env adv target value_ showOnly headers file total
    (row :: rest) i acc st = (inl msg, st).
Proof.
  intros H. simpl. unfold advancedRow.
  rewrite rowMatchesAdvanced_eval. fold (activeOf adv). rewrite H.
  reflexivity.
Qed.

Lemma advancedParsed_throws (env : Env) (adv : AdvancedSearchConfig)
    (target value_ : option string) (showOnly : bool)
    (file : FileDescriptor) (rows : list Row) (st : St) (msg : string) :
  patternError (engine env) (activeOf adv) = Some msg ->
  rows <> [] ->
  exists st',
    advancedParsed env adv target value_ showOnly file rows st = (inl msg, st')
    /\ events st' =
         events st
         ++ [EvFileInfo (name file) (length rows) (length (headersOf rows))]
    /\ outputFiles st' = outputFiles st
    /\ world st' = world st
    /\ processedFiles (stats st') = processedFiles (stats st)
    /\ totalMatches (stats st') = totalMatches (stats st)
    /\ totalReplacements (stats st') = totalReplacements (stats st).
Proof.
  intros Hp Hne. destruct rows as [|row rest]; [contradiction|].
  unfold advancedParsed.
  erewrite bind_inr by reflexivity.
  erewrite bind_inr by reflexivity.
  erewrite bind_inl by (apply advancedRows_throws; exact Hp).
  eexists. split; [reflexivity|].
  cbn. repeat split; reflexivity.
Qed.

Section Absent.

Variable env : Env.
Variable adv : AdvancedSearchConfig.
Variables target value_ : option string.
Variable showOnly : bool.
Variable headers : list string.
Variable file : FileDescriptor.
Variable total : nat.

Lemma writesTarget_absent :
  ~ In (nullish target "") headers -> writesTarget target value_ headers =
      false.
Proof.
  intros H. unfold writesTarget.
  destruct (arr_includes headers (nullish target "")) eqn:Hh.
  - apply arr_includes_In in Hh. contradiction.
  - rewrite andb_false_r. reflexivity.
Qed.

Lemma advEvents_rows (rows : list Row) (i : nat) (e : Event) :
  In e (advEvents env adv target value_ headers file total i rows) ->
  isRowEvent e.
Proof.
  revert i. induction rows as [|row rest IH]; intros i; simpl; [contradiction|].
  rewrite in_app_iff. intros [H|H]; [|eapply IH; exact H].
  unfold advRowEvents in H.
  destruct (advMatched env adv headers row); [|contradiction].
  eapply rowEvent_isRowEvent; exact H.
Qed.

Hypothesis no_write : writesTarget target value_ headers = false.

Lemma advRewrite_attributes (row : Row) :
  fst (advRewrite env adv target value_ headers row) = row
  /\ Forall (fun c => oldValue c = newValue c)
       (snd (advRewrite env adv target value_ headers row)).
Proof.
  unfold advRewrite. rewrite no_write. cbn [fst snd]. split; [reflexivity|].
  apply Forall_forall. intros c Hc. apply in_map_iff in Hc.
  destruct Hc as [f [<- _]]. reflexivity.
Qed.

Lemma advCount_no_write (rows : list Row) :
  advCount env adv target value_ headers rows = 0.
Proof.
  induction rows as [|row rest IH]; simpl; [reflexivity|].
  rewrite IH. unfold advReplaced. rewrite no_write, andb_false_r. reflexivity.
Qed.

Lemma advOut_no_write (rows : list Row) (r : Row) :
  In r (advOut env adv target value_ showOnly headers rows) -> In r rows.
Proof.
  induction rows as [|row rest IH]; simpl; [contradiction|].
  rewrite in_app_iff. intros [H|H]; [left | right; apply IH; exact H].
  unfold advKept in H.
  destruct (advRewrite_attributes row) as [Hrow _].
  rewrite Hrow in H.
  destruct (advMatched env adv headers row).
  - destruct (negb showOnly || _); [|contradiction].
    destruct H as [H|[]]. exact H.
  - destruct (negb showOnly); [|contradiction].
    destruct H as [H|[]]. exact H.
Qed.

Lemma advEvents_no_write (rows : list Row) (i : nat) :
  Forall (fun c => oldValue c = newValue c)
    (changesOf (advEvents env adv target value_ headers file total i rows)).
Proof.
  revert i. induction rows as [|row rest IH]; intros i; simpl; [constructor|].
  apply Forall_changesOf_app; [|apply IH].
  unfold advRowEvents. destruct (advMatched env adv headers row);
      [|constructor].
  rewrite changesOf_rowEvent. apply advRewrite_attributes.
Qed.

End Absent.

(** A parsed file without the target field, scanned with patterns that
    compile: no error, no replacement, attribution records only; the
    file is saved exactly in replace mode, with rows left as parsed. *)
Lemma advancedParsed_absent_target
    (env : Env) (adv : AdvancedSearchConfig) (target value_ : option string)
    (showOnly : bool) (file : FileDescriptor) (rows : list Row) (st : St)
    (Habsent : ~ In (nullish target "") (headersOf rows))
    (Hok : patternError (engine env) (activeOf adv) = None \/ rows = []) :
  exists st' evs matchesCount np,
    advancedParsed env adv target value_ showOnly file rows st = (inr tt, st')
    /\ events st' = events st ++ evs
    /\ (forall fn msg, ~ In (EvFileError fn msg) evs)
    /\ In (EvFileComplete (name file) matchesCount 0 np) evs
    /\ (forall fn m r np', In (EvFileComplete fn m r np') evs ->
                           r = 0 /\ np' = np)
    /\ totalReplacements (stats st') = totalReplacements (stats st)
    /\ Forall (fun c => oldValue c = newValue c) (changesOf evs)
    /\ outputFiles st' =
         outputFiles st ++ [{| originalPath := path file; newPath := np |}]
    /\ (isReplaceModeAdvanced target value_ = false ->
        np = None /\ world st' = world st)
    /\ (isReplaceModeAdvanced target value_ = true ->
        exists saved out,
          np = Some (getDownloadUrl (TMP_DIR env) saved)
          /\ readFile (fs (world st')) saved
             = Some (Text (Papa_unparse env out))
          /\ (forall r, In r out -> In r rows)).
Proof.
  pose proof (writesTarget_absent target value_ (headersOf rows) Habsent) as
      Hnw.
  destruct (@advancedParsed_outcome env adv target value_ showOnly file rows st
              Hok)
    as (st' & evs & np & Hrun & Hev & Hsig & Hout & _ & _ & Hrp & Hsearch
        & Hsave).
  rewrite advCount_no_write in Hsig, Hrp by exact Hnw.
  exists st', evs, (advMatches env adv (headersOf rows) rows), np.
  split; [exact Hrun|]. split; [exact Hev|].
  assert (Hin : forall e, In e evs -> isStats e = false ->
            e = EvFileInfo (name file) (length rows) (length (headersOf rows))
            \/ isRowEvent e
            \/ e = EvFileComplete (name file)
                     (advMatches env adv (headersOf rows) rows) 0 np).
  { intros e He Hs.
    assert (H : In e (signal evs)) by (apply in_signal; auto).
    rewrite Hsig in H. destruct H as [H|H]; [left; auto|].
    apply in_app_iff in H. destruct H as [H|[H|[]]].
    - right; left. eapply advEvents_rows; exact H.
    - right; right; auto. }
  split.
  { intros fn msg He. destruct (Hin _ He eq_refl) as [H|[H|H]];
      [discriminate | exact H | discriminate]. }
  split.
  { assert (H : In (EvFileComplete (name file)
                      (advMatches env adv (headersOf rows) rows) 0 np)
                  (signal evs)).
    { rewrite Hsig. right. apply in_or_app. right. left. reflexivity. }
    apply in_signal in H. apply H. }
  split.
  { intros fn m r np' He. destruct (Hin _ He eq_refl) as [H|[H|H]];
      [discriminate | contradiction | ].
    inversion H; subst. split; reflexivity. }
  split; [rewrite Hrp; lia|].
  split.
  { rewrite <- changesOf_signal, Hsig.
    change (EvFileInfo ?a ?b ?c :: ?l) with ([EvFileInfo a b c] ++ l).
    apply Forall_changesOf_app; [constructor|].
    apply Forall_changesOf_app; [|constructor].
    apply advEvents_no_write. exact Hnw. }
  split; [exact Hout|].
  split; [exact Hsearch|].
  intros Hmode. destruct (Hsave Hmode) as (saved & Hnp & Hfile).
  exists saved, (advOut env adv target value_ showOnly (headersOf rows) rows).
  split; [exact Hnp|]. split; [exact Hfile|].
  intros r Hr. eapply advOut_no_write; eassumption.
Qed.

Section Target.

Variable env : Env.
Variable adv : AdvancedSearchConfig.
Variables target value_ : option string.
Variable headers : list string.
Variable file : FileDescriptor.
Variable total : nat.

Hypothesis writes : writesTarget target value_ headers = true.

Lemma advReplaced_toReplace (row : Row) :
  advReplaced env adv target value_ headers row = countTrue (toReplace env adv
      target value_ headers row).
Proof.
  unfold advReplaced, toReplace, advRewrite. rewrite writes, andb_true_r.
  destruct (advMatched env adv headers row); [|reflexivity].
  destruct (strict_neq (nullish value_ "")
              (nullish (get row (nullish target "")) "")); reflexivity.
Qed.

Lemma advCount_toReplace (rows : list Row) :
  advCount env adv target value_ headers rows = length (filter (toReplace env
      adv target value_ headers) rows).
Proof.
  induction rows as [|row rest IH]; simpl; [reflexivity|].
  rewrite IH, advReplaced_toReplace. destruct (toReplace env adv target value_
      headers row); reflexivity.
Qed.

Lemma advEvents_count (rows : list Row) (i : nat) :
  length (changesOf (advEvents env adv target value_ headers file total i rows))
  = advCount env adv target value_ headers rows.
Proof.
  revert i. induction rows as [|row rest IH]; intros i; simpl; [reflexivity|].
  rewrite changesOf_app, length_app, IH. f_equal.
  unfold advRowEvents, advReplaced. rewrite writes, andb_true_r.
  destruct (advMatched env adv headers row);
    [apply f_equal, changesOf_rowEvent | reflexivity].
Qed.

Lemma advEvents_changes (rows : list Row) (i : nat) (c : RowChange) :
  In c (changesOf (advEvents env adv target value_ headers file total i rows))
      ->
  exists row,
    In row rows /\ (toReplace env adv target value_ headers) row = true
    /\ c = change (nullish target "")
             (nullish (get row (nullish target "")) "") (nullish value_ "").
Proof.
  revert i. induction rows as [|row rest IH]; intros i; simpl; [contradiction|].
  rewrite changesOf_app, in_app_iff. intros [H|H].
  - exists row. split; [left; reflexivity|].
    unfold advRowEvents, advRewrite, toReplace in *. rewrite writes in H.
    destruct (advMatched env adv headers row); [|contradiction].
    rewrite changesOf_rowEvent in H.
    destruct (strict_neq (nullish value_ "")
                (nullish (get row (nullish target "")) "")); simpl in H.
    + destruct H as [<-|[]]. split; reflexivity.
    + contradiction.
  - destruct (IH _ H) as [r [Hr Hc]]. exists r. split; [right; exact Hr |
      exact Hc].
Qed.

End Target.

End AdvancedFacts.

(* ================================================================== *)
(** * The simple scan, row by row *)
(* ================================================================== *)

Module SimpleFacts.

Import JS Csv Matcher FileProcessor Pipeline Effects Scan.
Import Spec.

Section Summary.

Variable env : Env.
Variable showOnly : bool.
Variable replaceTerm_ : option string.
Variables searchFields replaceFields : list string.
Variable file : FileDescriptor.
Variable total : nat.

(** The compiled search expression: its pattern and its case flag. *)
Variable pattern : string.
Variable insensitive : bool.

Lemma test_compiledAs (re : RegExp) (k : nat) (text : string) :
  (compiledAs pattern insensitive) re ->
  fst (RegExp_test (engine env) (set_lastIndex re k) text)
  = match re_exec (engine env) pattern insensitive text k with
    | Some _ => true
    | None => false
    end
  /\ (compiledAs pattern insensitive) (snd (RegExp_test (engine env)
      (set_lastIndex re k) text)).
Proof.
  intros (Hs & Hi & Hg). unfold RegExp_test, set_lastIndex; simpl.
  rewrite Hg, Hs, Hi.
  destruct (re_exec (engine env) pattern insensitive text k);
    simpl; repeat split; assumption.
Qed.

Lemma rowMatched_compiledAs (re : RegExp) (row : Row) :
  (compiledAs pattern insensitive) re ->
  fst (rowMatched env searchFields re row) = (simpleMatched env searchFields
      pattern insensitive) row
  /\ (compiledAs pattern insensitive) (snd (rowMatched env searchFields re
      row)).
Proof.
  intros H. unfold rowMatched, simpleMatched, found, rowText.
  apply test_compiledAs. exact H.
Qed.

Lemma attributeFields_compiledAs (fields : list string) (row : Row) :
  forall (re : RegExp) (acc : list RowChange),
  (compiledAs pattern insensitive) re ->
  fst (attributeFields env fields row re acc) = acc ++ (attribution env
      pattern insensitive) fields row
  /\ (compiledAs pattern insensitive) (snd (attributeFields env fields row re
      acc)).
Proof.
  induction fields as [|f rest IH]; intros re acc Hre; simpl.
  - rewrite app_nil_r. split; [reflexivity | exact Hre].
  - pose proof (test_compiledAs 0 (falsy_or (get row f) "") Hre) as [Ht Hc].
    destruct (RegExp_test (engine env) (set_lastIndex re 0)
                (falsy_or (get row f) "")) as [hit re1].
    simpl in Ht, Hc. unfold found. rewrite <- Ht.
    destruct (IH re1 (if hit then acc ++ [change f (falsy_or (get row f) "")
                                            (falsy_or (get row f) "")]
                      else acc) Hc) as [IH1 IH2].
    split; [|exact IH2].
    rewrite IH1. destruct hit; [rewrite <- app_assoc|]; reflexivity.
Qed.

Lemma simpleRe_compiledAs (re : RegExp) (row : Row) :
  (compiledAs pattern insensitive) re -> (compiledAs pattern insensitive)
      (simpleRe env replaceTerm_ searchFields re row).
Proof.
  intros H. unfold simpleRe.
  destruct (rowMatched_compiledAs row H) as [_ H1].
  destruct (fst (rowMatched env searchFields re row)
            && negb (isReplaceModeSimple replaceTerm_)); [|exact H1].
  apply attributeFields_compiledAs. exact H1.
Qed.

Lemma overwriteFields_runs (fields : list string) (newValue : string) :
  forall (row : Row) (evs : list RowChange) (acc : ScanAcc) (st : St),
  exists st',
    Runs (overwriteFields fields newValue row evs acc) st
      (fst (overwrite fields newValue row),
       evs ++ snd (overwrite fields newValue row),
       grow acc [] 0 (length (snd (overwrite fields newValue row))))
      st'
      {| d_rows := 0; d_matches := 0;
         d_repl := length (snd (overwrite fields newValue row));
         d_events := [] |}.
Proof.
  induction fields as [|f rest IH]; intros row evs acc st; simpl.
  - apply runs_ret_ex; [|reflexivity].
    rewrite app_nil_r, grow_nothing. reflexivity.
  - destruct (strict_neq newValue (falsy_or (get row f) "")); simpl.
    + eapply runs_conv.
      { eapply runs_bind_ex;
          [apply runs_incTotalReplacements | intros st1; apply IH
          | reflexivity]. }
      { rewrite <- app_assoc, countReplacement_grow, grow_grow.
        reflexivity. }
      { reflexivity. }
    + apply IH.
Qed.

Lemma simpleRow_runs (i : nat) (row : Row) (re : RegExp) (acc : ScanAcc)
    (st : St) :
  (compiledAs pattern insensitive) re ->
  exists st',
    Runs (simpleRow env showOnly replaceTerm_ searchFields replaceFields file
            total i row re acc) st
      (grow acc (simpleKept env showOnly replaceTerm_ searchFields
          replaceFields pattern insensitive row) (countTrue (simpleMatched env
          searchFields pattern insensitive row))
         (simpleReplaced env replaceTerm_ searchFields replaceFields pattern
             insensitive row),
       (simpleRe env replaceTerm_ searchFields) re row)
      st'
      {| d_rows := 1; d_matches := countTrue (simpleMatched env searchFields
          pattern insensitive row);
         d_repl := (simpleReplaced env replaceTerm_ searchFields replaceFields
             pattern insensitive) row;
         d_events := (simpleRowEvents env replaceTerm_ searchFields
             replaceFields file total pattern insensitive) i row |}.
Proof.
  intros Hre. unfold simpleRow, simpleRe.
  destruct (rowMatched_compiledAs row Hre) as [Hm Hc].
  destruct (rowMatched env searchFields re row) as [matched re1].
  cbn [fst snd] in Hm, Hc |- *. subst matched.
  unfold simpleKept, simpleReplaced, simpleRowEvents, simpleRewrite.
  destruct (simpleMatched env searchFields pattern insensitive row); cbn [negb
      andb countTrue].
  - (* the row matches *)
    destruct (isReplaceModeSimple replaceTerm_); cbn [negb].
    + eapply runs_conv.
      { eapply runs_bind_ex; [apply runs_incTotalMatches | | reflexivity].
        intros st1.
        eapply runs_bind_ex.
        { eapply runs_bind_ex;
            [apply (overwriteFields_runs replaceFields
                      (nullish replaceTerm_ "") row [] (countMatch acc))
            | | reflexivity].
          intros st2. apply runs_ret_ex; reflexivity. }
        2: reflexivity.
        intros st2. cbv beta iota.
        eapply runs_bind_ex; [apply runs_incProcessedRows | | reflexivity].
        intros st3.
        eapply runs_bind_ex; [apply runs_rowEvent | | reflexivity].
        intros st4.
        eapply runs_bind_ex; [apply runs_progress | | reflexivity].
        intros st5. apply runs_ret_ex; reflexivity. }
      { rewrite orb_true_r. acc_eq. }
      { unfold dplus, dzero. cbn [d_rows d_matches d_repl d_events app].
        rewrite ?app_nil_r, ?Nat.add_0_r. reflexivity. }
    + destruct (attributeFields_compiledAs searchFields row [] Hc) as [Ha _].
      destruct (attributeFields env searchFields row re1 []) as [rm re2].
      cbn [fst snd app] in Ha |- *. subst rm.
      eapply runs_conv.
      { eapply runs_bind_ex; [apply runs_incTotalMatches | | reflexivity].
        intros st1.
        eapply runs_bind_ex; [apply runs_ret_ex; reflexivity | | reflexivity].
        intros st2. cbv beta iota.
        eapply runs_bind_ex; [apply runs_incProcessedRows | | reflexivity].
        intros st3.
        eapply runs_bind_ex; [apply runs_rowEvent | | reflexivity].
        intros st4.
        eapply runs_bind_ex; [apply runs_progress | | reflexivity].
        intros st5. apply runs_ret_ex; reflexivity. }
      { rewrite orb_true_r. acc_eq. }
      { unfold dplus, dzero. cbn [d_rows d_matches d_repl d_events app].
        rewrite ?app_nil_r. reflexivity. }
  - (* the row does not match *)
    eapply runs_conv.
    { eapply runs_bind_ex; [apply runs_incProcessedRows | | reflexivity].
      intros st1.
      eapply runs_bind_ex; [apply runs_progress | | reflexivity].
      intros st2. apply runs_ret_ex; reflexivity. }
    { destruct (negb showOnly).
      - rewrite pushRow_grow. reflexivity.
      - rewrite grow_nothing. reflexivity. }
    { reflexivity. }
Qed.

Lemma simpleReAfter_compiledAs (rows : list Row) :
  forall re, (compiledAs pattern insensitive) re -> (compiledAs pattern
      insensitive) (simpleReAfter env replaceTerm_ searchFields re rows).
Proof.
  induction rows as [|row rest IH]; intros re H; simpl; [exact H|].
  apply IH, simpleRe_compiledAs, H.
Qed.

Lemma simpleRows_runs (rows : list Row) :
  forall (i : nat) (re : RegExp) (acc : ScanAcc) (st : St),
  (compiledAs pattern insensitive) re ->
  exists st',
    Runs (simpleRows env showOnly replaceTerm_ searchFields replaceFields file
            total rows i re acc) st
      (grow acc (simpleOut env showOnly replaceTerm_ searchFields
          replaceFields pattern insensitive rows) (simpleMatches env
          searchFields pattern insensitive rows) (simpleCount env replaceTerm_
          searchFields replaceFields pattern insensitive rows),
       (simpleReAfter env replaceTerm_ searchFields) re rows)
      st'
      {| d_rows := length rows; d_matches := (simpleMatches env searchFields
          pattern insensitive) rows;
         d_repl := (simpleCount env replaceTerm_ searchFields replaceFields
             pattern insensitive) rows;
         d_events := (simpleEvents env replaceTerm_ searchFields replaceFields
             file total pattern insensitive) i rows |}.
Proof.
  induction rows as [|row rest IH]; intros i re acc st Hre; simpl.
  - apply runs_ret_ex; [|reflexivity]. rewrite grow_nothing. reflexivity.
  - eapply runs_conv.
    { eapply runs_bind_ex; [apply simpleRow_runs; exact Hre | | reflexivity].
      intros st1. cbn [fst snd].
      apply IH. apply simpleRe_compiledAs. exact Hre. }
    { rewrite grow_grow. reflexivity. }
    { reflexivity. }
Qed.

End Summary.

(** The expression object [new RegExp] gives for the search. *)
Lemma RegExp_new_search (E : RegExpEngine) (pattern : string)
    (caseSensitive : bool) :
  re_syntax_error E pattern = None ->
  exists re,
    RegExp_new E pattern (if caseSensitive then "g" else "gi") = inr re
    /\ source re = pattern /\ ignoreCase re = negb caseSensitive
    /\ global re = true.
Proof.
  intros H. unfold RegExp_new. rewrite H. eexists. split; [reflexivity|].
  destruct caseSensitive; repeat split; reflexivity.
Qed.

Lemma buildSearch_flags (term : string) (useRegex wholeWord caseSensitive :
    bool) :
  snd (buildSearch term useRegex wholeWord caseSensitive)
  = if caseSensitive then "g" else "gi".
Proof. unfold buildSearch. destruct useRegex; reflexivity. Qed.

Section SimpleFile.

Variable env : Env.
Variable body : ProcessRequest.
Variable term : string.
Variable file : FileDescriptor.
Variable rows : list Row.

Lemma simpleParsed_outcome (st : St) :
  re_syntax_error (engine env) (searchPattern body term) = None ->
  exists st' evs np,
    simpleParsed env body term file rows st = (inr tt, st')
    /\ events st' = events st ++ evs
    /\ signal evs =
         EvFileInfo (name file) (length rows) (length (headersOf rows))
         :: simpleEvents env (replaceTerm body) (headersOf rows)
              (fieldsToReplace body rows) file (length rows) (searchPattern
                  body term) (negb (cs body)) 0 rows
         ++ [EvFileComplete (name file)
               (simpleMatches env (headersOf rows) (searchPattern body term)
                   (negb (cs body)) rows)
               (simpleCount env (replaceTerm body) (headersOf rows)
                  (fieldsToReplace body rows) (searchPattern body term) (negb
                      (cs body)) rows) np]
    /\ outputFiles st' =
         outputFiles st ++ [{| originalPath := path file; newPath := np |}]
    /\ processedFiles (stats st') = S (processedFiles (stats st))
    /\ totalMatches (stats st') =
         totalMatches (stats st)
         + simpleMatches env (headersOf rows) (searchPattern body term) (negb
             (cs body)) rows
    /\ totalReplacements (stats st') =
         totalReplacements (stats st)
         + simpleCount env (replaceTerm body) (headersOf rows)
             (fieldsToReplace body rows) (searchPattern body term) (negb (cs
                 body)) rows
    /\ (isReplaceModeSimple (replaceTerm body) = false ->
        np = None /\ world st' = world st)
    /\ (isReplaceModeSimple (replaceTerm body) = true ->
        exists saved,
          np = Some (getDownloadUrl (TMP_DIR env) saved)
          /\ readFile (fs (world st')) saved =
               Some (Text (Papa_unparse env
                             (simpleOut env (showOnlyMatches body)
                                (replaceTerm body) (headersOf rows)
                                (fieldsToReplace body rows) (searchPattern
                                    body term) (negb (cs body)) rows)))).
Proof.
  intros Hok.
  unfold simpleParsed.
  erewrite bind_inr by reflexivity.
  cbn [stats events outputFiles world].
  fold (cs body).
  rewrite (surjective_pairing (buildSearch term _ _ (cs body))).
  rewrite buildSearch_flags. fold (searchPattern body term).
  destruct (RegExp_new_search (engine env) (searchPattern body term) (cs body)
      Hok)
    as (re0 & Hnew & Hsrc & Hic & Hg).
  rewrite Hnew. cbn [liftE].
  erewrite bind_inr by reflexivity.
  erewrite bind_inr by reflexivity.
  cbn [stats events outputFiles world].
  assert (Hre : compiledAs (searchPattern body term) (negb (cs body)) re0) by
      (repeat split; assumption).
  match goal with
  | |- exists _ _ _, bind _ _ ?st1 = _ /\ _ =>
      destruct (simpleRows_runs env (showOnlyMatches body) (replaceTerm body)
                  (headersOf rows) (fieldsToReplace body rows) file (length
                      rows)
                  rows 0 emptyScan st1 Hre) as [st2 [Hrun Heff]]
  end.
  fold (fieldsToReplace body rows).
  erewrite bind_inr by exact Hrun.
  destruct Heff as (Ho & Hw & _ & Hpf & _ & _ & Hm & Hrp & evs & Hev & Hsig).
  cbn [stats events outputFiles world d_repl d_events d_matches addTotalRows
       setCurrent processedFiles totalReplacements totalMatches]
    in Ho, Hw, Hpf, Hm, Hrp, Hev, Hsig.
  cbn [fst fileReplacements fileMatches processedRowsOut grow emptyScan
       Nat.add app].
  destruct (isReplaceModeSimple (replaceTerm body)) eqn:Hmode.
  - unfold persist, onWorld, saveProcessedFile, Date_now.
    erewrite bind_inr by reflexivity. cbn [stats events outputFiles world].
    erewrite bind_inr.
    2:{ erewrite bind_inr.
        2:{ erewrite bind_inr by reflexivity. reflexivity. }
        run_tail. reflexivity. }
    run_tail. unfold sendEvent. cbn [stats events outputFiles world].
    eexists _, _, _. split; [reflexivity|].
    cbn [stats events outputFiles world].
    split; [rewrite Hev, <- !app_assoc; reflexivity|].
    split.
    { rewrite !signal_app, Hsig. reflexivity. }
    split; [rewrite Ho; reflexivity|].
    split; [cbn; rewrite Hpf; reflexivity|].
    split; [cbn; exact Hm|].
    split; [cbn; exact Hrp|].
    split; [discriminate|].
    intros _. eexists. split; [reflexivity|].
    cbn [fs]. apply readFile_writeFile.
  - run_tail. unfold sendEvent. cbn [stats events outputFiles world].
    eexists _, _, _. split; [reflexivity|].
    cbn [stats events outputFiles world].
    split; [rewrite Hev, <- !app_assoc; reflexivity|].
    split.
    { rewrite !signal_app, Hsig. reflexivity. }
    split; [rewrite Ho; reflexivity|].
    split; [cbn; rewrite Hpf; reflexivity|].
    split; [cbn; exact Hm|].
    split; [cbn; exact Hrp|].
    split; [intros _; split; [reflexivity | exact Hw]|].
    discriminate.
Qed.

Lemma simpleParsed_throws (st : St) (msg : string) :
  re_syntax_error (engine env) (searchPattern body term) = Some msg ->
  exists st',
    simpleParsed env body term file rows st = (inl msg, st')
    /\ events st' = events st
    /\ outputFiles st' = outputFiles st
    /\ world st' = world st
    /\ processedFiles (stats st') = processedFiles (stats st)
    /\ totalMatches (stats st') = totalMatches (stats st)
    /\ totalReplacements (stats st') = totalReplacements (stats st).
Proof.
  intros Hbad.
  unfold simpleParsed.
  erewrite bind_inr by reflexivity.
  fold (cs body).
  rewrite (surjective_pairing (buildSearch term _ _ (cs body))).
  fold (searchPattern body term).
  unfold RegExp_new. rewrite Hbad. cbn [liftE].
  erewrite bind_inl by reflexivity.
  eexists. split; [reflexivity|].
  cbn. repeat split; reflexivity.
Qed.

End SimpleFile.

(** The fourteen characters the route's expression lists are the
    special characters, no more and no less. *)
Lemma isRegexSpecial_isSpecial (c : ascii) : isRegexSpecial c = isSpecial c.
Proof. destruct c as [[] [] [] [] [] [] [] []]; reflexivity. Qed.

Lemma concat_empty_cons (x : string) (l : list string) :
  String.concat "" (x :: l) = (x ++ String.concat "" l)%string.
Proof.
  destruct l as [|y l]; [|reflexivity].
  simpl. induction x as [|c x IH]; simpl; [reflexivity|].
  rewrite <- IH. reflexivity.
Qed.

(** The route's replacement of each special character by a backslash and
    itself gives the escaped term. *)
Lemma escapeRegExp_escaped (term : string) :
  escapeRegExp term = escaped term.
Proof.
  unfold escaped. induction term as [|c t IH]; [reflexivity|].
  cbn [escapeRegExp list_ascii_of_string map].
  rewrite concat_empty_cons, <- IH, isRegexSpecial_isSpecial.
  unfold escapedChar. destruct (isSpecial c); reflexivity.
Qed.

Lemma buildSearch_pattern (term : string) (useRegex wholeWord caseSensitive :
    bool) :
  fst (buildSearch term useRegex wholeWord caseSensitive)
  = compiledPattern term useRegex wholeWord.
Proof.
  unfold buildSearch, compiledPattern.
  destruct useRegex, wholeWord; cbn [fst];
    try rewrite escapeRegExp_escaped; reflexivity.
Qed.

Lemma simpleMatches_filter (env : Env) (headers : list string)
    (pattern : string) (insensitive : bool) (rows : list Row) :
  simpleMatches env headers pattern insensitive rows
  = length (filter (simpleMatched env headers pattern insensitive) rows).
Proof.
  induction rows as [|row rest IH]; simpl; [reflexivity|].
  rewrite IH. destruct (simpleMatched env headers pattern insensitive row);
    reflexivity.
Qed.

(** C1.  In simple mode the expression compiled for a file is the
    user's term, each of its special characters (those of
    [specialCharacters]) written after a backslash when [useRegex] is
    false, between [\b] word boundaries when [wholeWord] is true (a
    regular expression is grouped first), ignoring case exactly when
    [caseSensitive] is false.  Whatever position earlier
    tests left in the expression object, the test of a row answers
    whether that expression matches the one string made of every
    header's cell, in header order, joined by single spaces; the row
    loop never throws, tests each row once, and counts as matches
    exactly the rows so accepted.  When the pattern does not compile,
    [new RegExp] throws its syntax error. *)
Theorem simple_predicate_tests_pattern_on_joined_row
    (env : Env) (term : string) (useRegex wholeWord caseSensitive : bool)
    (showOnly : bool) (replaceTerm_ : option string)
    (headers replaceFields : list string) (file : FileDescriptor)
    (total : nat) :
  let pattern := compiledPattern term useRegex wholeWord in
  let accepts := fun row =>
    match re_exec (engine env) pattern (negb caseSensitive)
            (joinedCells headers row) 0 with
    | Some _ => true
    | None => false
    end in
  match RegExp_new (engine env)
          (fst (buildSearch term useRegex wholeWord caseSensitive))
          (snd (buildSearch term useRegex wholeWord caseSensitive)) with
  | inl msg => re_syntax_error (engine env) pattern = Some msg
  | inr searchRegex =>
      (forall (k : nat) (row : Row),
         fst (rowMatched env headers (set_lastIndex searchRegex k) row)
         = accepts row)
      /\ (forall (rows : list Row) (i : nat) (acc : ScanAcc) (st : St),
          exists acc' re' st' d,
            Runs (simpleRows env showOnly replaceTerm_ headers replaceFields
                    file total rows i searchRegex acc) st (acc', re') st' d
            /\ fileMatches acc' = fileMatches acc + length (filter accepts rows)
            /\ d_matches d = length (filter accepts rows)
            /\ d_rows d = length rows)
  end.
Proof.
  intros pattern accepts.
  rewrite buildSearch_pattern, buildSearch_flags. fold pattern.
  destruct (re_syntax_error (engine env) pattern) as [msg|] eqn:Hs.
  - unfold RegExp_new. rewrite Hs. reflexivity.
  - destruct (RegExp_new_search (engine env) pattern caseSensitive Hs)
      as (re0 & Hnew & Hsrc & Hic & Hg).
    rewrite Hnew.
    assert (Hre : compiledAs pattern (negb caseSensitive) re0)
      by (repeat split; assumption).
    split.
    + intros k row.
      assert (Hk : compiledAs pattern (negb caseSensitive) (set_lastIndex re0
          k))
        by (repeat split; assumption).
      apply (rowMatched_compiledAs env headers row Hk).
    + intros rows i acc st.
      destruct (simpleRows_runs env showOnly replaceTerm_ headers replaceFields
                  file total rows i acc st Hre) as [st' Hrun].
      eexists _, _, st', _. split; [exact Hrun|].
      cbn [fileMatches grow d_matches d_rows].
      rewrite simpleMatches_filter. repeat split; reflexivity.
Qed.

Section Overwrite.

Variable env : Env.
Variable replaceTerm_ : option string.
Variables searchFields replaceFields : list string.
Variable file : FileDescriptor.
Variable total : nat.
Variable pattern : string.
Variable insensitive : bool.

Lemma overwrite_changes (fields : list string) (v : string) (row : Row)
    (c : RowChange) :
  In c (snd (overwrite fields v row)) ->
  oldValue c <> newValue c /\ newValue c = v /\ In (ch_field c) fields.
Proof.
  revert row. induction fields as [|f rest IH]; intros row Hc; simpl in *;
    [contradiction|].
  destruct (strict_neq v (falsy_or (get row f) "")) eqn:Hs; simpl in Hc.
  - destruct Hc as [<-|Hc]; simpl.
    + apply strict_neq_true in Hs. repeat split; auto.
    + destruct (IH _ Hc) as (H1 & H2 & H3). repeat split; auto.
  - destruct (IH _ Hc) as (H1 & H2 & H3). repeat split; auto.
Qed.

Lemma falsy_or_set_same (row : Row) (f v : string) :
  falsy_or (get (set row f v) f) "" = v.
Proof. rewrite get_set_same. destruct v; reflexivity. Qed.

Lemma falsy_or_set_other (row : Row) (f g v : string) :
  f <> g -> falsy_or (get (set row f v) g) "" = falsy_or (get row g) "".
Proof. intros H. rewrite get_set_other by exact H. reflexivity. Qed.

(** After the writes every target field holds the value. *)
Lemma overwrite_recorded (fields : list string) (v : string) (row : Row)
    (f : string) :
  In f fields ->
  falsy_or (get row f) "" <> v ->
  exists c, In c (snd (overwrite fields v row))
            /\ ch_field c = f /\ oldValue c = falsy_or (get row f) "".
Proof.
  revert row. induction fields as [|g rest IH]; intros row Hin Hne; simpl in *;
    [contradiction|].
  destruct (String.eqb g f) eqn:Hgf.
  - apply String.eqb_eq in Hgf. subst g.
    assert (Hs : strict_neq v (falsy_or (get row f) "") = true).
    { apply strict_neq_true. congruence. }
    rewrite Hs. simpl. eexists. split; [left; reflexivity|]. split; reflexivity.
  - assert (Hne' : g <> f).
    { intros ->. rewrite String.eqb_refl in Hgf. discriminate. }
    destruct Hin as [Heq|Hin]; [contradiction|].
    destruct (strict_neq v (falsy_or (get row g) "")); simpl.
    + destruct (IH (set row g v) Hin) as (c & Hc & Hf & Ho).
      { rewrite falsy_or_set_other by exact Hne'. exact Hne. }
      exists c. split; [right; exact Hc|]. split; [exact Hf|].
      rewrite Ho. apply falsy_or_set_other. exact Hne'.
    + apply IH; assumption.
Qed.

Lemma overwrite_unrecorded (fields : list string) (v : string) (row : Row)
    (c : RowChange) :
  In c (snd (overwrite fields v row)) ->
  falsy_or (get row (ch_field c)) "" <> v.
Proof.
  revert row. induction fields as [|g rest IH]; intros row Hc; simpl in *;
    [contradiction|].
  destruct (strict_neq v (falsy_or (get row g) "")) eqn:Hs; simpl in Hc.
  - destruct Hc as [<-|Hc]; simpl.
    + apply strict_neq_true in Hs. congruence.
    + pose proof (IH _ Hc) as H.
      destruct (String.eqb g (ch_field c)) eqn:Hg.
      * apply String.eqb_eq in Hg. subst g.
        rewrite falsy_or_set_same in H. contradiction.
      * rewrite falsy_or_set_other in H; [exact H|].
        intros ->. rewrite String.eqb_refl in Hg. discriminate.
  - apply IH. exact Hc.
Qed.

Hypothesis replacing : isReplaceModeSimple replaceTerm_ = true.

Lemma simpleEvents_count (rows : list Row) (i : nat) :
  length (changesOf (simpleEvents env replaceTerm_ searchFields replaceFields
                       file total pattern insensitive i rows))
  = simpleCount env replaceTerm_ searchFields replaceFields pattern insensitive
      rows.
Proof.
  revert i. induction rows as [|row rest IH]; intros i; simpl; [reflexivity|].
  rewrite changesOf_app, length_app, IH. f_equal.
  unfold simpleRowEvents, simpleReplaced. rewrite replacing, andb_true_r.
  destruct (simpleMatched env searchFields pattern insensitive row);
    [apply f_equal, changesOf_rowEvent | reflexivity].
Qed.

Lemma simpleEvents_changes (rows : list Row) (i : nat) (c : RowChange) :
  In c (changesOf (simpleEvents env replaceTerm_ searchFields replaceFields
                     file total pattern insensitive i rows)) ->
  exists row,
    In row rows
    /\ simpleMatched env searchFields pattern insensitive row = true
    /\ In c (snd (overwrite replaceFields (nullish replaceTerm_ "") row)).
Proof.
  revert i. induction rows as [|row rest IH]; intros i; simpl; [contradiction|].
  rewrite changesOf_app, in_app_iff. intros [H|H].
  - exists row. split; [left; reflexivity|].
    unfold simpleRowEvents, simpleRewrite in H. rewrite replacing in H.
    destruct (simpleMatched env searchFields pattern insensitive row);
      [|contradiction].
    rewrite changesOf_rowEvent in H. split; [reflexivity | exact H].
  - destruct (IH _ H) as [r [Hr Hc]]. exists r. split; [right; exact Hr |
      exact Hc].
Qed.

End Overwrite.


Lemma simpleEvents_records (env : Env) (replaceTerm_ : option string)
    (searchFields replaceFields : list string) (file : FileDescriptor)
    (total : nat) (pattern : string) (insensitive : bool)
    (rows : list Row) (i : nat) (row : Row) (c : RowChange) :
  isReplaceModeSimple replaceTerm_ = true ->
  In row rows ->
  simpleMatched env searchFields pattern insensitive row = true ->
  In c (snd (overwrite replaceFields (nullish replaceTerm_ "") row)) ->
  In c (changesOf (simpleEvents env replaceTerm_ searchFields replaceFields
                     file total pattern insensitive i rows)).
Proof.
  intros Hmode Hin Hm Hc. revert i.
  induction rows as [|r rest IH]; intros i; simpl; [contradiction|].
  rewrite changesOf_app, in_app_iff. destruct Hin as [->|Hin].
  - left. unfold simpleRowEvents, simpleRewrite. rewrite Hm, Hmode.
    rewrite changesOf_rowEvent. exact Hc.
  - right. apply IH. exact Hin.
Qed.

End SimpleFacts.

(* ================================================================== *)
(** * Replacements are counted when, and only when, a value changes *)
(* ================================================================== *)

Module ReplacementFacts.

Import JS Csv Matcher MatcherFacts FileProcessor Pipeline Effects Scan.
Import ReplayFacts AdvancedFacts SimpleFacts.
Import Spec.

(** ** The records of the replay loop *)

(** An operation that finds another value than its own in the row as
    the operations before it left it is recorded, from that value to its
    own. *)
Lemma writeOps_records (headers : list string)
    (before : list ReplaceOperation) (op : ReplaceOperation)
    (after : list ReplaceOperation) :
  forall row,
    In (op_field op) headers ->
    nullish (get (fst (writeOps headers before row)) (op_field op)) ""
    <> op_value op ->
    In (change (op_field op)
          (nullish (get (fst (writeOps headers before row)) (op_field op)) "")
          (op_value op))
       (snd (writeOps headers (before ++ op :: after) row)).
Proof.
  induction before as [|o rest IH]; intros row Hh Hne.
  - cbn [writeOps fst List.app] in *.
    apply arr_includes_In in Hh. rewrite Hh.
    apply strict_neq_true in Hne. rewrite Hne. left. reflexivity.
  - cbn [writeOps List.app] in *.
    destruct (arr_includes headers (op_field o)
              && strict_neq (nullish (get row (op_field o)) "") (op_value o)).
    + cbn [fst snd] in *. right. apply IH; assumption.
    + apply IH; assumption.
Qed.

(** The operations that do not name a field leave its cell alone. *)
Lemma writeOps_other (headers : list string) (ops : list ReplaceOperation)
    (f : string) :
  forall row,
    (forall o, In o ops -> op_field o <> f) ->
    get (fst (writeOps headers ops row)) f = get row f.
Proof.
  induction ops as [|o rest IH]; intros row Hf; [reflexivity|].
  cbn [writeOps].
  assert (Hrest : forall o', In o' rest -> op_field o' <> f)
    by (intros o' Ho'; apply Hf; right; exact Ho').
  destruct (arr_includes headers (op_field o)
            && strict_neq (nullish (get row (op_field o)) "") (op_value o)).
  - cbn [fst]. rewrite (IH _ Hrest). apply get_set_other.
    apply Hf. left. reflexivity.
  - apply IH. exact Hrest.
Qed.

(** The records of a selected row are among those the loop sends, and
    the loop sends no others. *)
Lemma replayEvents_records (operations : list ReplaceOperation)
    (headers : list string) (searchResult : SearchResult) (filePath : string)
    (total : nat) (rows : list Row) :
  forall (i k : nat) (row : Row) (c : RowChange),
    nth_error rows k = Some row ->
    selected searchResult (i + k) = true ->
    In c (snd (writeOps headers operations row)) ->
    In c (changesOf (replayEvents operations headers searchResult filePath
                       total i rows)).
Proof.
  induction rows as [|r rest IH]; intros i k row c Hn Hs Hc;
    [destruct k; discriminate|].
  cbn [replayEvents]. rewrite changesOf_app, changesOf_rowEvent, in_app_iff.
  destruct k as [|k].
  - left. cbn in Hn. injection Hn as ->. unfold rewriteRow.
    rewrite Nat.add_0_r in Hs. rewrite Hs. exact Hc.
  - right. apply (IH (S i) k row); [exact Hn | | exact Hc].
    replace (S i + k) with (i + S k) by lia. exact Hs.
Qed.

Lemma replayEvents_selected (operations : list ReplaceOperation)
    (headers : list string) (searchResult : SearchResult) (filePath : string)
    (total : nat) (rows : list Row) :
  forall (i : nat) (c : RowChange),
    In c (changesOf (replayEvents operations headers searchResult filePath
                       total i rows)) ->
    exists k row,
      nth_error rows k = Some row
      /\ selected searchResult (i + k) = true
      /\ In c (snd (writeOps headers operations row)).
Proof.
  induction rows as [|r rest IH]; intros i c Hc; [destruct Hc|].
  cbn [replayEvents] in Hc.
  rewrite changesOf_app, changesOf_rowEvent, in_app_iff in Hc.
  destruct Hc as [Hc|Hc].
  - unfold rewriteRow in Hc.
    destruct (selected searchResult i) eqn:Hs; [|destruct Hc].
    exists 0, r. rewrite Nat.add_0_r. auto.
  - destruct (IH _ _ Hc) as (k & row & Hn & Hs & Hin).
    exists (S k), row. replace (i + S k) with (S i + k) by lia. auto.
Qed.

(** C7.  In each replace path the row loop never throws, and its
    replacements are counted exactly with the change records it sends:
    the file's count and the request's [totalReplacements] grow by the
    number of change records of the loop's row events, and every change
    record goes from an old value to a different new value; a write of
    the value a field already holds is neither counted nor recorded.
    In the simple path every target field of a matched row that held
    another value is recorded, from that value to the replacement.  In
    the advanced path the count is the number of matched rows whose
    target cell was not the replacement value already (Scenario B).  In
    the replay every record is that of an operation on a header field
    of a selected row, with the operation's value as new value; and
    every operation on a header field of a selected row that finds
    another value than its own in the row, as the operations before it
    left it, is recorded from that value to its own: from the parsed
    row's value when no operation before names the field.  A selected
    row without change records held every operation's value already. *)
Theorem replacement_counted_iff_value_differs
    (env : Env) (file : FileDescriptor) (total : nat) (rows : list Row)
    (i : nat) (acc : ScanAcc) (st : St) :
  (forall (showOnly : bool) (replaceTerm_ : option string)
          (searchFields replaceFields : list string)
          (pattern : string) (insensitive : bool) (re : RegExp),
     isReplaceModeSimple replaceTerm_ = true ->
     compiledAs pattern insensitive re ->
     exists acc' re' st' d,
       Runs (simpleRows env showOnly replaceTerm_ searchFields replaceFields
               file total rows i re acc) st (acc', re') st' d
       /\ fileReplacements acc' = fileReplacements acc + d_repl d
       /\ totalReplacements (stats st') = totalReplacements (stats st) +
           d_repl d
       /\ d_repl d = length (changesOf (d_events d))
       /\ (forall c, In c (changesOf (d_events d)) -> oldValue c <> newValue c)
       /\ (forall row f,
             In row rows ->
             simpleMatched env searchFields pattern insensitive row = true ->
             In f replaceFields ->
             falsy_or (get row f) "" <> nullish replaceTerm_ "" ->
             In (change f (falsy_or (get row f) "") (nullish replaceTerm_ ""))
                (changesOf (d_events d))))
  /\ (forall (adv : AdvancedSearchConfig) (target value_ : option string)
             (showOnly : bool) (headers : list string),
        writesTarget target value_ headers = true ->
        patternError (engine env) (activeOf adv) = None ->
        exists acc' st' d,
          Runs (advancedRows env adv target value_ showOnly headers file total
                  rows i acc) st acc' st' d
          /\ fileReplacements acc' = fileReplacements acc + d_repl d
          /\ totalReplacements (stats st')
             = totalReplacements (stats st) + d_repl d
          /\ d_repl d = length (changesOf (d_events d))
          /\ (forall c, In c (changesOf (d_events d)) ->
                        oldValue c <> newValue c)
          /\ d_repl d =
               length (filter
                         (fun row =>
                            advMatched env adv headers row
                            && strict_neq (nullish value_ "")
                                 (nullish (get row (nullish target "")) ""))
                         rows))
  /\ (forall (operations : list ReplaceOperation) (headers : list string)
             (searchResult : SearchResult) (filePath : string),
        exists acc' st' d,
          Runs (replayRows operations headers searchResult filePath total rows
                  i acc) st acc' st' d
          /\ fileReplacements acc' = fileReplacements acc + d_repl d
          /\ totalReplacements (stats st')
             = totalReplacements (stats st) + d_repl d
          /\ d_repl d = length (changesOf (d_events d))
          /\ (forall c, In c (changesOf (d_events d)) ->
                        oldValue c <> newValue c)
          /\ (forall c,
                In c (changesOf (d_events d)) ->
                In (ch_field c) headers
                /\ exists k row op,
                     nth_error rows k = Some row
                     /\ selected searchResult (i + k) = true
                     /\ In op operations
                     /\ op_field op = ch_field c
                     /\ op_value op = newValue c)
          /\ (forall k row before op after,
                nth_error rows k = Some row ->
                selected searchResult (i + k) = true ->
                operations = before ++ op :: after ->
                In (op_field op) headers ->
                let reached := fst (writeOps headers before row) in
                nullish (get reached (op_field op)) "" <> op_value op ->
                In (change (op_field op)
                      (nullish (get reached (op_field op)) "") (op_value op))
                   (changesOf (d_events d)))
          /\ (forall k row before op after,
                nth_error rows k = Some row ->
                selected searchResult (i + k) = true ->
                operations = before ++ op :: after ->
                (forall o, In o before -> op_field o <> op_field op) ->
                In (op_field op) headers ->
                nullish (get row (op_field op)) "" <> op_value op ->
                In (change (op_field op)
                      (nullish (get row (op_field op)) "") (op_value op))
                   (changesOf (d_events d)))
          /\ (forall row op,
                snd (writeOps headers operations row) = [] ->
                In op operations -> In (op_field op) headers ->
                nullish (get row (op_field op)) "" = op_value op)).
Proof.
  split; [|split].
  - intros showOnly replaceTerm_ searchFields replaceFields pattern insensitive
           re Hmode Hre.
    destruct (simpleRows_runs env showOnly replaceTerm_ searchFields
                replaceFields file total rows i acc st Hre) as [st' Hrun].
    eexists _, _, st', _. split; [exact Hrun|].
    destruct Hrun as [_ Heff].
    destruct Heff as (_ & _ & _ & _ & _ & _ & _ & Hrp & _).
    cbn [fileReplacements grow d_repl d_events] in *.
    split; [reflexivity|]. split; [exact Hrp|].
    split; [symmetry; apply simpleEvents_count; exact Hmode|].
    split.
    + intros c Hc. apply simpleEvents_changes in Hc; [|exact Hmode].
      destruct Hc as (row & _ & _ & Hc).
      apply overwrite_changes in Hc. apply Hc.
    + intros row f Hin Hm Hf Hne.
      destruct (@overwrite_recorded replaceFields (nullish replaceTerm_ "") row
                  f Hf Hne) as (c & Hc & Hcf & Hco).
      destruct (@overwrite_changes _ _ _ _ Hc) as (_ & Hcn & _).
      assert (Heq : c = change f (falsy_or (get row f) "")
                          (nullish replaceTerm_ "")).
      { destruct c; unfold change; simpl in *; subst; reflexivity. }
      rewrite <- Heq.
      eapply simpleEvents_records; eassumption.
  - intros adv target value_ showOnly headers Hw Hok.
    destruct (advancedRows_runs env adv target value_ showOnly headers file
                total Hok rows i acc st) as [st' Hrun].
    eexists _, st', _. split; [exact Hrun|].
    destruct Hrun as [_ Heff].
    destruct Heff as (_ & _ & _ & _ & _ & _ & _ & Hrp & _).
    cbn [fileReplacements grow d_repl d_events] in *.
    split; [reflexivity|]. split; [exact Hrp|].
    split; [symmetry; apply advEvents_count; exact Hw|].
    split.
    + intros c Hc. apply advEvents_changes in Hc; [|exact Hw].
      destruct Hc as (row & _ & Ht & ->). simpl.
      unfold toReplace in Ht. apply andb_true_iff in Ht. destruct Ht as [_ Ht].
      apply strict_neq_true in Ht. congruence.
    + apply advCount_toReplace. exact Hw.
  - intros operations headers searchResult filePath.
    destruct (replayRows_runs operations headers searchResult filePath total
                rows i acc st) as [st' Hrun].
    eexists _, st', _. split; [exact Hrun|].
    destruct Hrun as [_ Heff].
    destruct Heff as (_ & _ & _ & _ & _ & _ & _ & Hrp & _).
    cbn [fileReplacements grow d_repl d_events] in *.
    split; [reflexivity|]. split; [exact Hrp|].
    split; [symmetry; apply replayCount_changes|].
    split.
    { intros c Hc. apply replayEvents_changes in Hc.
      destruct Hc as (row & _ & Hc).
      apply writeOps_changes in Hc. apply Hc. }
    split.
    { intros c Hc. apply replayEvents_selected in Hc.
      destruct Hc as (k & row & Hn & Hs & Hc).
      apply writeOps_changes in Hc.
      destruct Hc as (_ & Hh & op & Hop & Hf & Hv).
      split; [exact Hh|]. exists k, row, op. auto. }
    split.
    { intros k row before op after Hn Hs -> Hh. cbv zeta. intros Hne.
      eapply replayEvents_records; [exact Hn | exact Hs |].
      apply writeOps_records; assumption. }
    split.
    { intros k row before op after Hn Hs -> Hfree Hh Hne.
      eapply replayEvents_records; [exact Hn | exact Hs |].
      rewrite <- (writeOps_other headers before (f := op_field op) row Hfree)
        in Hne |- *.
      apply writeOps_records; assumption. }
    intros row op Hq Hin Hh. eapply writeOps_quiet; eassumption.
Qed.

(** Scenario B on the people file: one row has state NY, and it is the
    one replacement. *)
Lemma replacement_counted_scenario_B :
  writesTarget (Some "state") (Some "New York") ["name"; "state"] = true
  /\ exists acc' st' d,
       Runs (advancedRows (Demo.demoEnv Demo.store)
               {| conditions :=
                    [{| field := "state"; value := "NY"; mode := Some Equals
                        |}];
                  logic := Some AND; caseSensitive := None |}
               (Some "state") (Some "New York") false ["name"; "state"]
               Demo.peopleFile 3 (data (Demo.demoParse Demo.people)) 0
               emptyScan)
         (freshSt (Demo.emptyWorld [])) acc' st' d
       /\ fileReplacements acc' = fileReplacements emptyScan + d_repl d
       /\ totalReplacements (stats st')
          = totalReplacements (stats (freshSt (Demo.emptyWorld []))) + d_repl d
       /\ d_repl d = length (changesOf (d_events d))
       /\ (forall c, In c (changesOf (d_events d)) -> oldValue c <> newValue c)
       /\ d_repl d =
            length (filter
                      (fun row =>
                         advMatched (Demo.demoEnv Demo.store)
                           {| conditions :=
                                [{| field := "state"; value := "NY";
                                    mode := Some Equals |}];
                              logic := Some AND; caseSensitive := None |}
                           ["name"; "state"] row
                         && strict_neq (nullish (Some "New York") "")
                              (nullish (get row (nullish (Some "state") ""))
                                  ""))
                      (data (Demo.demoParse Demo.people))).
Proof.
  split; [reflexivity|].
  apply (proj1 (proj2 (replacement_counted_iff_value_differs
                         (Demo.demoEnv Demo.store) Demo.peopleFile 3
                         (data (Demo.demoParse Demo.people)) 0 emptyScan
                         (freshSt (Demo.emptyWorld [])))));
    reflexivity.
Defined.

End ReplacementFacts.

(* ================================================================== *)
(** * A file in the batch: missing fields, counting, fault isolation *)
(* ================================================================== *)

Module FileFacts.

Import JS Csv Matcher MatcherFacts FileProcessor Pipeline Effects Scan.
Import ReplayFacts AdvancedFacts SimpleFacts.
Import Spec.

Lemma replayFile_total (env : Env) (selected_ : list FileDescriptor)
    (operations : list ReplaceOperation) (entry : string * SearchResult)
    (st : St) :
  exists st', replayFile env selected_ operations entry st = (inr tt, st').
Proof.
  unfold replayFile. destruct entry as [filePath searchResult].
  apply try_catch_total.
Qed.

(** C8 (as amended).  A replacement field a file does not have is
    passed over in the advanced search and fatal to the file in the
    replay.  Advanced search: a parsed file without the target field
    (patterns compiling) is scanned and counted as processed without any
    error event and without any value written: its replacement count is
    0 and its change records keep the old value.  Replay: a parsed file
    lacking the field of some operation is given up with one error event
    that lists the missing fields, before any row is processed: no
    output record, no file written, no counter moved.  The batch is not
    failed by it: the handler of a file never throws, and the loop goes
    on with the remaining files. *)
Theorem absent_field_skipped_in_search_aborts_file_in_replay
    (env : Env) (rows : list Row) (st : St) :
  (forall (adv : AdvancedSearchConfig) (target value_ : option string)
          (showOnly : bool) (file : FileDescriptor),
     ~ In (nullish target "") (headersOf rows) ->
     patternError (engine env) (activeOf adv) = None \/ rows = [] ->
     exists st' evs matchesCount np,
       advancedParsed env adv target value_ showOnly file rows st = (inr tt,
           st')
       /\ events st' = events st ++ evs
       /\ (forall fn msg, ~ In (EvFileError fn msg) evs)
       /\ In (EvFileComplete (name file) matchesCount 0 np) evs
       /\ totalReplacements (stats st') = totalReplacements (stats st)
       /\ Forall (fun c => oldValue c = newValue c) (changesOf evs)
       /\ processedFiles (stats st') = S (processedFiles (stats st)))
  /\ (forall (operations : list ReplaceOperation) (filePath : string)
             (searchResult : SearchResult),
        (exists op, In op operations /\ ~ In (op_field op) (headersOf rows)) ->
        exists st',
          replayParsed env operations filePath searchResult rows st
          = (inr tt, st')
          /\ events st' =
               events st
               ++ [EvFileError (filename searchResult)
                     ("Fields not found in CSV headers: "
                      ++ join ", " (invalidFields operations (headersOf
                          rows)))%string]
          /\ outputFiles st' = outputFiles st
          /\ world st' = world st
          /\ processedFiles (stats st') = processedFiles (stats st)
          /\ processedRows (stats st') = processedRows (stats st)
          /\ totalReplacements (stats st') = totalReplacements (stats st))
  /\ (forall (selected_ : list FileDescriptor)
             (operations : list ReplaceOperation)
             (entry : string * SearchResult)
             (rest : list (string * SearchResult)),
        exists st',
          replayFile env selected_ operations entry st = (inr tt, st')
          /\ forEach (entry :: rest) (replayFile env selected_ operations) st
             = forEach rest (replayFile env selected_ operations) st').
Proof.
  split; [|split].
  - intros adv target value_ showOnly file Habsent Hok.
    destruct (@advancedParsed_absent_target env adv target value_ showOnly file
                rows st Habsent Hok)
      as (st' & evs & m & np & Hrun & Hev & Herr & Hfc & _ & Hrp & Hch & _).
    destruct (@advancedParsed_outcome env adv target value_ showOnly file rows
                st Hok)
      as (st2 & _ & _ & Hrun2 & _ & _ & _ & Hpf & _).
    rewrite Hrun in Hrun2. inversion Hrun2; subst st2.
    exists st', evs, m, np. repeat (split; [assumption|]). exact Hpf.
  - intros operations filePath searchResult Hex.
    destruct (replayParsed_outcome env operations filePath searchResult rows st)
      as (st' & evs & Hrun & Hev & Hbad & _).
    destruct (Hbad Hex) as (Hevs & Ho & Hw & Hpf & Hpr & Hrp).
    subst evs. exists st'. repeat (split; [assumption|]). exact Hrp.
  - intros selected_ operations entry rest.
    destruct (replayFile_total env selected_ operations entry st) as [st' H].
    exists st'. split; [exact H|].
    simpl. erewrite bind_inr by exact H. reflexivity.
Qed.

(** C4.  One parsed file of the replay never throws.  If some operation
    names a field that is not among the file's deduplicated headers, the
    only event is an error listing exactly those fields, and nothing
    else happens: no row is processed, no output record is made, no
    file is written, the file is not counted.  Otherwise the rows are
    scanned and [n], the number of change records sent, decides: with
    [n = 0] the output record has no locator, nothing is written and
    [processedFiles] stays; with [n > 0] the file is saved, recorded
    with its locator and counted once.  The simple and the advanced
    search count every file whose scan completes. *)
Theorem replay_aborts_on_missing_field_and_counts_changed_files
    (env : Env) (rows : list Row) (st : St) :
  (forall (operations : list ReplaceOperation) (filePath : string)
          (searchResult : SearchResult),
     exists st' evs,
       replayParsed env operations filePath searchResult rows st = (inr tt, st')
       /\ events st' = events st ++ evs
       /\ ((exists op, In op operations /\ ~ In (op_field op) (headersOf
           rows)) ->
           evs = [EvFileError (filename searchResult)
                    ("Fields not found in CSV headers: "
                     ++ join ", " (invalidFields operations (headersOf
                         rows)))%string]
           /\ (forall f, In f (invalidFields operations (headersOf rows)) <->
                 exists op, In op operations /\ op_field op = f
                            /\ ~ In f (headersOf rows))
           /\ outputFiles st' = outputFiles st
           /\ world st' = world st
           /\ processedFiles (stats st') = processedFiles (stats st)
           /\ processedRows (stats st') = processedRows (stats st)
           /\ totalReplacements (stats st') = totalReplacements (stats st))
       /\ ((forall op, In op operations -> In (op_field op) (headersOf rows)) ->
           let n := length (changesOf evs) in
           exists np,
             outputFiles st' =
               outputFiles st ++ [{| originalPath := filePath; newPath := np |}]
             /\ In (EvFileComplete (filename searchResult) n n np) evs
             /\ totalReplacements (stats st') = totalReplacements (stats st) + n
             /\ (n = 0 ->
                 np = None /\ world st' = world st
                 /\ processedFiles (stats st') = processedFiles (stats st))
             /\ (0 < n ->
                 processedFiles (stats st') = S (processedFiles (stats st))
                 /\ exists saved content,
                      np = Some (getDownloadUrl (TMP_DIR env) saved)
                      /\ readFile (fs (world st')) saved = Some (Text
                          content))))
  /\ (forall (body : ProcessRequest) (term : string) (file : FileDescriptor),
        re_syntax_error (engine env) (searchPattern body term) = None ->
        exists st',
          simpleParsed env body term file rows st = (inr tt, st')
          /\ processedFiles (stats st') = S (processedFiles (stats st)))
  /\ (forall (adv : AdvancedSearchConfig) (target value_ : option string)
             (showOnly : bool) (file : FileDescriptor),
        patternError (engine env) (activeOf adv) = None \/ rows = [] ->
        exists st',
          advancedParsed env adv target value_ showOnly file rows st
          = (inr tt, st')
          /\ processedFiles (stats st') = S (processedFiles (stats st))).
Proof.
  split; [|split].
  - intros operations filePath searchResult.
    destruct (replayParsed_outcome env operations filePath searchResult rows st)
      as (st' & evs & Hrun & Hev & Hbad & Hgood).
    exists st', evs. split; [exact Hrun|]. split; [exact Hev|].
    split; [|exact Hgood].
    intros Hex. destruct (Hbad Hex) as (H1 & H2).
    split; [exact H1|]. split; [|exact H2].
    intros f. apply invalidFields_In.
  - intros body term file Hok.
    destruct (@simpleParsed_outcome env body term file rows st Hok)
      as (st' & _ & _ & Hrun & _ & _ & _ & Hpf & _).
    exists st'. split; assumption.
  - intros adv target value_ showOnly file Hok.
    destruct (@advancedParsed_outcome env adv target value_ showOnly file rows
                st Hok)
      as (st' & _ & _ & Hrun & _ & _ & _ & Hpf & _).
    exists st'. split; assumption.
Qed.

(** Scenario D: a replay of rows 2 and 5 of the people file with one
    operation on [status], a field the file does not have. *)
Lemma replay_scenario_D :
  (exists op,
     In op [{| op_field := "status"; op_value := "closed" |}]
     /\ ~ In (op_field op) (headersOf (data (Demo.demoParse Demo.people))))
  /\ exists st',
       replayParsed (Demo.demoEnv Demo.store)
         [{| op_field := "status"; op_value := "closed" |}]
         "/srv/app/tmp/1_people.csv" (Demo.peopleResult [2%Z; 5%Z])
         (data (Demo.demoParse Demo.people))
         (freshSt (Demo.emptyWorld [100])) = (inr tt, st')
       /\ events st' =
            [EvFileError "people.csv" "Fields not found in CSV headers: status"]
       /\ outputFiles st' = []
       /\ processedFiles (stats st') = 0.
Proof.
  assert (Hex : exists op,
             In op [{| op_field := "status"; op_value := "closed" |}]
             /\ ~ In (op_field op)
                  (headersOf (data (Demo.demoParse Demo.people)))).
  { eexists. split; [left; reflexivity|].
    vm_compute. intros [H|[H|[]]]; discriminate. }
  split; [exact Hex|].
  destruct (proj1 (replay_aborts_on_missing_field_and_counts_changed_files
                     (Demo.demoEnv Demo.store)
                     (data (Demo.demoParse Demo.people))
                     (freshSt (Demo.emptyWorld [100])))
              [{| op_field := "status"; op_value := "closed" |}]
              "/srv/app/tmp/1_people.csv" (Demo.peopleResult [2%Z; 5%Z]))
    as (st' & evs & Hrun & Hev & Hbad & _).
  destruct (Hbad Hex) as (Hevs & _ & Ho & _ & Hpf & _).
  exists st'. split; [exact Hrun|].
  split; [rewrite Hev, Hevs; reflexivity|].
  split; [rewrite Ho; reflexivity | rewrite Hpf; reflexivity].
Defined.

(** A replay of row 1 of the people file with an operation on [state],
    which the file has, and one on [status], which it has not: the file
    is reported as an error, [state] is not written, nothing is saved. *)
Lemma replay_absent_field_is_not_skipped :
  let req :=
    Demo.replayRequest [Demo.peopleResult [1%Z]]
      [("state", "New York"); ("status", "closed")] in
  let st := handle (POST_replace (Demo.demoEnv Demo.store) req)
              (Demo.emptyWorld [100]) in
  headersOf (data (Demo.demoParse Demo.people)) = ["name"; "state"]
  /\ events st =
       [EvFileStart "people.csv" "/srv/app/tmp/1_people.csv";
        EvFileError "people.csv" "Fields not found in CSV headers: status";
        EvComplete None None false
          {| c_totalFiles := 1; c_processedFiles := 0; c_totalRows := 3;
             c_processedRows := Some 0; c_totalMatches := 0;
             c_totalReplacements := 0 |}]
  /\ outputFiles st = []
  /\ fs (world st) = []
  /\ ~ (forall fn msg, ~ In (EvFileError fn msg) (events st)).
Proof.
  vm_compute. repeat (split; [reflexivity|]).
  intros H. eapply H. right. left. reflexivity.
Qed.

(** The same operations on the advanced path's terms: a target the file
    lacks is passed over and the file completes. *)
Lemma absent_field_witness :
  ~ In (nullish (Some "status") "")
       (headersOf (data (Demo.demoParse Demo.people)))
  /\ exists st' evs matchesCount np,
       advancedParsed (Demo.demoEnv Demo.store)
         {| conditions :=
              [{| field := "state"; value := "NY"; mode := Some Equals |}];
            logic := Some AND; caseSensitive := None |}
         (Some "status") (Some "closed") false Demo.peopleFile
         (data (Demo.demoParse Demo.people))
         (freshSt (Demo.emptyWorld [100])) = (inr tt, st')
       /\ events st' = events (freshSt (Demo.emptyWorld [100])) ++ evs
       /\ (forall fn msg, ~ In (EvFileError fn msg) evs)
       /\ In (EvFileComplete (name Demo.peopleFile) matchesCount 0 np) evs
       /\ totalReplacements (stats st')
          = totalReplacements (stats (freshSt (Demo.emptyWorld [100])))
       /\ Forall (fun c => oldValue c = newValue c) (changesOf evs)
       /\ processedFiles (stats st')
          = S (processedFiles (stats (freshSt (Demo.emptyWorld [100])))).
Proof.
  assert (Habsent : ~ In (nullish (Some "status") "")
                         (headersOf (data (Demo.demoParse Demo.people)))).
  { vm_compute. intros [H|[H|[]]]; discriminate. }
  split; [exact Habsent|].
  apply (proj1 (absent_field_skipped_in_search_aborts_file_in_replay
                  (Demo.demoEnv Demo.store)
                  (data (Demo.demoParse Demo.people))
                  (freshSt (Demo.emptyWorld [100]))));
    [exact Habsent | left; reflexivity].
Defined.


End FileFacts.

(* ================================================================== *)
(** * The rows a scan retains *)
(* ================================================================== *)

Module FilterFacts.

Import JS Csv Matcher MatcherFacts FileProcessor Pipeline Effects Scan.
Import AdvancedFacts SimpleFacts.
Import Spec.

Section Kept.

Variable env : Env.

Lemma simpleOut_showOnly (replaceTerm_ : option string)
    (searchFields replaceFields : list string) (pattern : string)
    (insensitive : bool) (rows : list Row) :
  simpleOut env true replaceTerm_ searchFields replaceFields pattern insensitive
    rows
  = map (fun row => fst (simpleRewrite env replaceTerm_ searchFields
                           replaceFields pattern insensitive row))
      (filter (simpleMatched env searchFields pattern insensitive) rows).
Proof.
  induction rows as [|row rest IH]; simpl; [reflexivity|].
  rewrite IH. unfold simpleKept.
  destruct (simpleMatched env searchFields pattern insensitive row);
      reflexivity.
Qed.

Lemma simpleOut_all (replaceTerm_ : option string)
    (searchFields replaceFields : list string) (pattern : string)
    (insensitive : bool) (rows : list Row) :
  length (simpleOut env false replaceTerm_ searchFields replaceFields pattern
            insensitive rows) = length rows.
Proof.
  induction rows as [|row rest IH]; simpl; [reflexivity|].
  rewrite length_app, IH. unfold simpleKept.
  destruct (simpleMatched env searchFields pattern insensitive row);
      reflexivity.
Qed.

Lemma advOut_all (adv : AdvancedSearchConfig) (target value_ : option string)
    (headers : list string) (rows : list Row) :
  length (advOut env adv target value_ false headers rows) = length rows.
Proof.
  induction rows as [|row rest IH]; simpl; [reflexivity|].
  rewrite length_app, IH. unfold advKept.
  destruct (advMatched env adv headers row); reflexivity.
Qed.

(** With only the matches kept, the advanced scan retains the matched
    rows that have a change record. *)
Lemma advOut_showOnly (adv : AdvancedSearchConfig)
    (target value_ : option string) (headers : list string)
    (rows : list Row) :
  advOut env adv target value_ true headers rows
  = map (fun row => fst (advRewrite env adv target value_ headers row))
      (filter (fun row =>
                 advMatched env adv headers row
                 && (0 <? length (snd (advRewrite env adv target value_
                                         headers row))))
         rows).
Proof.
  induction rows as [|row rest IH]; simpl; [reflexivity|].
  rewrite IH. unfold advKept.
  destruct (advMatched env adv headers row); simpl; [|reflexivity].
  destruct (0 <? length (snd (advRewrite env adv target value_ headers row)));
    reflexivity.
Qed.

End Kept.

(** C5, at the failing input.  People whose state starts with N are to
    be set to New York, only the matches kept.  Ann (NY) and Cy (New
    York) satisfy the predicate, and the file completes with 2 matches;
    the saved file holds Ann's row only: Cy's row, matched but holding
    the value already, has no change record and is dropped. *)
Lemma advanced_showOnlyMatches_drops_unchanged_match :
  let env := Demo.demoEnv Demo.store in
  let rows := data (Demo.demoParse Demo.people) in
  let st := handle (POST_process env Demo.normalizeRequest)
              (Demo.emptyWorld [100]) in
  rows = [[("name", "Ann"); ("state", "NY")];
          [("name", "Bob"); ("state", "CA")];
          [("name", "Cy"); ("state", "New York")]]
  /\ map (fun row => rowMatchesAdvanced (engine env) row (headersOf rows)
                       Demo.startsWithN) rows
     = [inr (true, ["state"]); inr (false, []); inr (true, ["state"])]
  /\ In (EvFileComplete "people.csv" 2 1
           (Some "/api/download?file=100_1_people_replaced.csv")) (events st)
  /\ readFile (fs (world st)) "/srv/app/tmp/100_1_people_replaced.csv"
     = Some (Text (Papa_unparse env [[("name", "Ann"); ("state",
         "New York")]])).
Proof.
  vm_compute. repeat (split; [reflexivity|]).
  split; [|reflexivity]. auto 10.
Qed.

End FilterFacts.

(* ================================================================== *)
(** * Bundling the artifacts *)
(* ================================================================== *)

Module BundleFacts.

Import JS Csv Matcher FileProcessor Pipeline Effects Scan.
Import Spec.

Lemma append_assoc (a b c : string) :
  ((a ++ b) ++ c = a ++ (b ++ c))%string.
Proof. induction a as [|x a IH]; simpl; [reflexivity | rewrite IH;
    reflexivity]. Qed.

Lemma append_length (a b : string) :
  String.length (a ++ b)%string = String.length a + String.length b.
Proof. induction a as [|x a IH]; simpl; [reflexivity | rewrite IH;
    reflexivity]. Qed.

Lemma append_cancel (a b c : string) :
  (a ++ b = a ++ c)%string -> b = c.
Proof.
  induction a as [|x a IH]; simpl; intros H; [exact H|].
  inversion H. apply IH. assumption.
Qed.

Lemma drop_prefix_append (p s : string) : drop_prefix p (p ++ s)%string = Some
    s.
Proof.
  induction p as [|x p IH]; simpl; [destruct s; reflexivity|].
  rewrite Ascii.eqb_refl. exact IH.
Qed.

Lemma path_relative_join (dir leaf : string) :
  path_relative dir (path_join dir leaf) = leaf.
Proof.
  unfold path_relative, path_join.
  rewrite <- append_assoc, drop_prefix_append. reflexivity.
Qed.

Lemma noSlash_append (a b : string) :
  noSlash (a ++ b)%string = noSlash a && noSlash b.
Proof.
  induction a as [|x a IH]; simpl; [reflexivity|].
  rewrite IH, andb_assoc. reflexivity.
Qed.

Lemma split_slash_noSlash (s : string) :
  noSlash s = true -> split_slash s = [s].
Proof.
  induction s as [|c t IH]; simpl; [reflexivity|].
  intros H. apply andb_true_iff in H. destruct H as [Hc Ht].
  apply negb_true_iff in Hc. rewrite Hc, (IH Ht). reflexivity.
Qed.

Lemma encodeChar_noSlash (c : ascii) : noSlash (encodeChar c) = true.
Proof. destruct c as [[] [] [] [] [] [] [] []]; vm_compute; reflexivity. Qed.

Lemma encodeChar_length (c : ascii) : 1 <= String.length (encodeChar c).
Proof. destruct c as [[] [] [] [] [] [] [] []]; vm_compute; lia. Qed.

Lemma encodeURIComponent_noSlash (s : string) :
  noSlash (encodeURIComponent s) = true.
Proof.
  induction s as [|c t IH]; simpl; [reflexivity|].
  rewrite noSlash_append, encodeChar_noSlash, IH. reflexivity.
Qed.

Lemma encodeURIComponent_length (s : string) :
  String.length s <= String.length (encodeURIComponent s).
Proof.
  induction s as [|c t IH]; simpl; [lia|].
  rewrite append_length. pose proof (encodeChar_length c). lia.
Qed.

(** The base name of a download locator is not a file name of the tmp
    directory: it still carries the route's query. *)
Lemma basename_getDownloadUrl (dir filePath : string) :
  basename (getDownloadUrl dir filePath)
  = ("download?file=" ++ encodeURIComponent (path_relative dir
      filePath))%string.
Proof.
  unfold getDownloadUrl, basename.
  set (x := encodeURIComponent (path_relative dir filePath)).
  assert (Hx : noSlash x = true) by apply encodeURIComponent_noSlash.
  cbn [append split_slash Ascii.eqb Bool.eqb].
  rewrite (split_slash_noSlash x Hx). reflexivity.
Qed.

Section Bundle.

Variable env : Env.

(** The path handed to the archive for a saved artifact is never the
    path the artifact was saved under. *)
Lemma zipEntry_misses_artifact (orig leaf : string) :
  snd (zipEntry env
         {| originalPath := orig;
            newPath := Some (getDownloadUrl (TMP_DIR env)
                               (path_join (TMP_DIR env) leaf)) |})
  <> path_join (TMP_DIR env) leaf.
Proof.
  unfold zipEntry. cbn [newPath nullish snd].
  rewrite basename_getDownloadUrl, path_relative_join.
  unfold path_join. intros H.
  apply append_cancel, append_cancel in H.
  apply (f_equal String.length) in H.
  rewrite append_length in H. cbn [String.length] in H.
  pose proof (encodeURIComponent_length leaf). lia.
Qed.

Lemma bundle_none (st : St) :
  filter hasOutput (outputFiles st) = [] ->
  bundle env st = (inr (None, false), st).
Proof.
  intros H. unfold bundle. erewrite bind_inr by reflexivity.
  rewrite H. reflexivity.
Qed.

Lemma bundle_one (st : St) (f : OutputFileRecord) :
  filter hasOutput (outputFiles st) = [f] ->
  bundle env st = (inr (newPath f, false), st).
Proof.
  intros H. unfold bundle. erewrite bind_inr by reflexivity.
  rewrite H. reflexivity.
Qed.

(** Several outputs: the archive is asked for; its failure is swallowed
    and leaves no download. *)
Lemma bundle_many (st : St) :
  1 < length (filter hasOutput (outputFiles st)) ->
  let w1 := snd (Date_now (world st)) in
  let zipPath :=
    path_join (TMP_DIR env)
      ("processed_" ++ decimal (fst (Date_now (world st))) ++ ".zip")%string in
  match archiver env
          (map (fun f => (fst f, readFile (fs w1) (snd f)))
             (map (zipEntry env) (filter hasOutput (outputFiles st)))) with
  | inl _ =>
      bundle env st
      = (inr (None, false),
         {| stats := stats st; events := events st;
            outputFiles := outputFiles st; world := w1 |})
  | inr entries =>
      bundle env st
      = (inr (Some (getDownloadUrl (TMP_DIR env) zipPath), true),
         {| stats := stats st; events := events st;
            outputFiles := outputFiles st;
            world := {| fs := writeFile (fs w1) zipPath (Archive entries);
                        clock := clock w1 |} |})
  end.
Proof.
  intros Hlen w1 zipPath. unfold bundle.
  erewrite bind_inr by reflexivity.
  apply Nat.ltb_lt in Hlen. rewrite Hlen.
  unfold try_catch, bind, onWorld, createZipFile.
  fold w1. cbn [Date_now fst snd] in *.
  destruct (archiver env _) as [err|entries] eqn:Ha; cbn; reflexivity.
Qed.

Lemma bundle_total (st : St) : exists r st', bundle env st = (inr r, st').
Proof.
  destruct (filter hasOutput (outputFiles st)) as [|f [|g l]] eqn:Hf.
  - eexists _, _. apply bundle_none. exact Hf.
  - eexists _, _. apply (bundle_one st Hf).
  - assert (Hlen : 1 < length (filter hasOutput (outputFiles st))).
    { rewrite Hf. simpl. lia. }
    pose proof (bundle_many st Hlen) as H. cbv zeta in H.
    destruct (archiver env _); eexists _, _; exact H.
Qed.

End Bundle.


(** C9, at the failing input.  A replay changes one row in each of two
    files.  Both artifacts are saved and recorded; the [complete] event
    announces an archive; the archive that was written has no entry:
    the entries handed to the archive library are named after the
    locators, and no such files exist. *)
Lemma bundle_of_two_artifacts_is_empty :
  let env := Demo.demoEnv Demo.store in
  let req :=
    Demo.replayRequest [Demo.peopleResult [1%Z]; Demo.ordersResult [2%Z]]
      [("state", "New York")] in
  let st := handle (POST_replace env req) (Demo.emptyWorld [100; 200; 300]) in
  outputFiles st =
    [{| originalPath := "/srv/app/tmp/1_people.csv";
        newPath := Some "/api/download?file=100_1_people_replaced.csv" |};
     {| originalPath := "/srv/app/tmp/2_orders.csv";
        newPath := Some "/api/download?file=200_2_orders_replaced.csv" |}]
  /\ (exists c, readFile (fs (world st))
                  "/srv/app/tmp/100_1_people_replaced.csv" = Some (Text c))
  /\ (exists c, readFile (fs (world st))
                  "/srv/app/tmp/200_2_orders_replaced.csv" = Some (Text c))
  /\ In (EvComplete None (Some "/api/download?file=processed_300.zip") true
           {| c_totalFiles := 2; c_processedFiles := 2; c_totalRows := 5;
              c_processedRows := Some 5; c_totalMatches := 0;
              c_totalReplacements := 2 |}) (events st)
  /\ readFile (fs (world st)) "/srv/app/tmp/processed_300.zip"
     = Some (Archive [])
  /\ map (zipEntry env) (outputFiles st) =
       [("download?file=100_1_people_replaced.csv",
         "/srv/app/tmp/download?file=100_1_people_replaced.csv");
        ("download?file=200_2_orders_replaced.csv",
         "/srv/app/tmp/download?file=200_2_orders_replaced.csv")].
Proof.
  vm_compute.
  split; [reflexivity|].
  split; [eexists; reflexivity|].
  split; [eexists; reflexivity|].
  split; [auto 20|].
  split; reflexivity.
Qed.

End BundleFacts.

(* ================================================================== *)
(** * Search mode and replace mode *)
(* ================================================================== *)

Module SearchModeFacts.

Import JS Csv Matcher MatcherFacts FileProcessor Pipeline Effects Scan.
Import AdvancedFacts SimpleFacts BundleFacts.
Import Spec.

Lemma quiet_refl (st : St) : Quiet st st.
Proof.
  repeat split.
  - exists []. rewrite app_nil_r. split; [reflexivity | constructor].
  - exists []. rewrite app_nil_r. split; [reflexivity | constructor].
Qed.

Lemma quiet_trans (a b c : St) : Quiet a b -> Quiet b c -> Quiet a c.
Proof.
  intros (Hw1 & Hr1 & (o1 & Ho1 & Hn1) & (e1 & He1 & Hq1))
         (Hw2 & Hr2 & (o2 & Ho2 & Hn2) & (e2 & He2 & Hq2)).
  repeat split; try congruence.
  - exists (o1 ++ o2). split; [rewrite Ho2, Ho1, app_assoc; reflexivity|].
    apply Forall_app; auto.
  - exists (e1 ++ e2). split; [rewrite He2, He1, app_assoc; reflexivity|].
    apply Forall_app; auto.
Qed.

(** A step that only touches the counters other than the replacement
    counter and sends quiet events. *)
Lemma quiet_step (st : St) (s : ProcessStats) (evs : list Event) :
  totalReplacements s = totalReplacements (stats st) ->
  Forall quietEvent evs ->
  Quiet st {| stats := s; events := events st ++ evs;
              outputFiles := outputFiles st; world := world st |}.
Proof.
  intros Hs Hq. repeat split; cbn; try assumption.
  - exists []. rewrite app_nil_r. split; [reflexivity | constructor].
  - exists evs. split; [reflexivity | assumption].
Qed.

Lemma quiet_of_signal (evs : list Event) :
  Forall quietEvent (signal evs) -> Forall quietEvent evs.
Proof.
  intros H. apply Forall_forall. intros e He.
  destruct (isStats e) eqn:Hs.
  - destruct e; try discriminate. exact I.
  - rewrite Forall_forall in H. apply H. apply in_signal. auto.
Qed.

Lemma quiet_rowEvent (fname fpath : string) (i total : nat)
    (changes : list RowChange) :
  Forall (fun c => oldValue c = newValue c) changes ->
  Forall quietEvent (rowEvent fname fpath i total changes).
Proof.
  intros H. unfold rowEvent. destruct (0 <? length changes); constructor.
  - exact H.
  - constructor.
Qed.

Section SimpleSearch.

Variable env : Env.
Variable showOnly : bool.
Variable replaceTerm_ : option string.
Variables searchFields replaceFields : list string.
Variable file : FileDescriptor.
Variable total : nat.
Variable pattern : string.
Variable insensitive : bool.

Hypothesis searching : isReplaceModeSimple replaceTerm_ = false.

Lemma attribution_quiet (fields : list string) (row : Row) :
  Forall (fun c => oldValue c = newValue c)
    (attribution env pattern insensitive fields row).
Proof.
  induction fields as [|f rest IH]; simpl; [constructor|].
  destruct (found env pattern insensitive (falsy_or (get row f) ""));
    [constructor; [reflexivity | exact IH] | exact IH].
Qed.

Lemma simpleRewrite_search (row : Row) :
  simpleRewrite env replaceTerm_ searchFields replaceFields pattern insensitive
    row
  = (row, attribution env pattern insensitive searchFields row).
Proof. unfold simpleRewrite. rewrite searching. reflexivity. Qed.

Lemma simpleEvents_quiet (rows : list Row) (i : nat) :
  Forall quietEvent
    (simpleEvents env replaceTerm_ searchFields replaceFields file total
       pattern insensitive i rows).
Proof.
  revert i. induction rows as [|row rest IH]; intros i; simpl; [constructor|].
  apply Forall_app. split; [|apply IH].
  unfold simpleRowEvents.
  destruct (simpleMatched env searchFields pattern insensitive row);
    [|constructor].
  apply quiet_rowEvent. rewrite simpleRewrite_search. apply attribution_quiet.
Qed.

Lemma simpleCount_search (rows : list Row) :
  simpleCount env replaceTerm_ searchFields replaceFields pattern insensitive
    rows = 0.
Proof.
  induction rows as [|row rest IH]; simpl; [reflexivity|].
  rewrite IH. unfold simpleReplaced. rewrite searching, andb_false_r.
  reflexivity.
Qed.

(** The rows a search retains are parsed rows, as they were. *)
Lemma simpleOut_search (rows : list Row) (r : Row) :
  In r (simpleOut env showOnly replaceTerm_ searchFields replaceFields pattern
          insensitive rows) -> In r rows.
Proof.
  induction rows as [|row rest IH]; simpl; [contradiction|].
  rewrite in_app_iff. intros [H|H]; [left | right; apply IH; exact H].
  unfold simpleKept in H. rewrite simpleRewrite_search in H.
  destruct (simpleMatched env searchFields pattern insensitive row).
  - destruct H as [H|[]]. exact H.
  - destruct (negb showOnly); [|contradiction]. destruct H as [H|[]]. exact H.
Qed.

End SimpleSearch.

Section AdvancedSearch.

Variable env : Env.
Variable adv : AdvancedSearchConfig.
Variables target value_ : option string.
Variable headers : list string.
Variable file : FileDescriptor.
Variable total : nat.

Hypothesis searching : isReplaceModeAdvanced target value_ = false.

Lemma writesTarget_search : writesTarget target value_ headers = false.
Proof. unfold writesTarget. rewrite searching. reflexivity. Qed.

Lemma advEvents_quiet (rows : list Row) (i : nat) :
  Forall quietEvent (advEvents env adv target value_ headers file total i rows).
Proof.
  revert i. induction rows as [|row rest IH]; intros i; simpl; [constructor|].
  apply Forall_app. split; [|apply IH].
  unfold advRowEvents. destruct (advMatched env adv headers row);
      [|constructor].
  apply quiet_rowEvent. apply advRewrite_attributes. exact writesTarget_search.
Qed.

End AdvancedSearch.

Section Batch.

Variable env : Env.

Lemma acquire_pure (u : option string) (st : St) :
  exists r, acquire env u st = (r, st).
Proof.
  unfold acquire.
  destruct u as [u|]; [|eexists; reflexivity].
  destruct (truthy u); [|eexists; reflexivity].
  destruct (fetchText env u); eexists; reflexivity.
Qed.

Lemma simpleFile_quiet (body : ProcessRequest) (term : string)
    (file : FileDescriptor) (st : St) :
  isReplaceModeSimple (replaceTerm body) = false ->
  exists st',
    simpleFile env body term file st = (inr tt, st') /\ Quiet st st'.
Proof.
  intros Hmode. unfold simpleFile, try_catch.
  erewrite bind_inr by reflexivity.
  erewrite bind_inr by reflexivity.
  cbn [stats events outputFiles world].
  set (st1 := {| stats := setCurrent (Some (name file)) (Some 0) (Some 0)
                            (stats st);
                 events := events st ++ [EvFileStart (name file) (path file)];
                 outputFiles := outputFiles st; world := world st |}).
  assert (Q1 : Quiet st st1).
  { apply quiet_step; [reflexivity | repeat constructor]. }
  destruct (acquire_pure (url file) st1) as [[e|text] Ha].
  - (* the bytes could not be had *)
    erewrite bind_inl by exact Ha.
    eexists. split; [reflexivity|].
    eapply quiet_trans; [exact Q1|].
    apply quiet_step; [reflexivity | repeat constructor].
  - erewrite bind_inr by exact Ha.
    destruct (0 <? length (errors (Papa_parse env text))).
    + (* the text did not parse *)
      eexists. split; [reflexivity|].
      eapply quiet_trans; [exact Q1|].
      apply quiet_step; [reflexivity | repeat constructor].
    + destruct (re_syntax_error (engine env)
                  (searchPattern body term)) as [msg|] eqn:Hre.
      * (* the pattern did not compile *)
        destruct (@simpleParsed_throws env body term file
                    (data (Papa_parse env text)) st1 msg Hre)
          as (st2 & Hrun & Hev & Ho & Hw & _ & _ & Hrp).
        rewrite Hrun.
        eexists. split; [reflexivity|].
        eapply quiet_trans; [exact Q1|].
        repeat split; cbn.
        -- exact Hw.
        -- exact Hrp.
        -- exists []. rewrite app_nil_r. split; [exact Ho | constructor].
        -- exists [EvFileError (name file) msg]. rewrite Hev.
           split; [reflexivity | repeat constructor].
      * (* the rows were scanned *)
        destruct (@simpleParsed_outcome env body term file
                    (data (Papa_parse env text)) st1 Hre)
          as (st2 & evs & np & Hrun & Hev & Hsig & Ho & _ & _ & Hrp & Hsearch
              & _).
        destruct (Hsearch Hmode) as [Hnp Hw]. subst np.
        rewrite Hrun.
        exists st2. split; [reflexivity|].
        eapply quiet_trans; [exact Q1|].
        rewrite simpleCount_search in Hsig, Hrp by exact Hmode.
        repeat split.
        -- exact Hw.
        -- rewrite Hrp. lia.
        -- eexists. split; [exact Ho | repeat constructor].
        -- exists evs. split; [exact Hev|].
           apply quiet_of_signal. rewrite Hsig.
           constructor; [exact I|].
           apply Forall_app. split.
           ++ apply simpleEvents_quiet. exact Hmode.
           ++ repeat constructor.
Qed.

Lemma advancedFile_quiet (adv : AdvancedSearchConfig)
    (target value_ : option string) (showOnly : bool)
    (file : FileDescriptor) (st : St) :
  isReplaceModeAdvanced target value_ = false ->
  exists st',
    advancedFile env adv target value_ showOnly file st = (inr tt, st')
    /\ Quiet st st'.
Proof.
  intros Hmode. unfold advancedFile, try_catch.
  erewrite bind_inr by reflexivity.
  erewrite bind_inr by reflexivity.
  cbn [stats events outputFiles world].
  set (st1 := {| stats := setCurrent (Some (name file)) (Some 0) (Some 0)
                            (stats st);
                 events := events st ++ [EvFileStart (name file) (path file)];
                 outputFiles := outputFiles st; world := world st |}).
  assert (Q1 : Quiet st st1).
  { apply quiet_step; [reflexivity | repeat constructor]. }
  destruct (acquire_pure (url file) st1) as [[e|text] Ha].
  - erewrite bind_inl by exact Ha.
    eexists. split; [reflexivity|].
    eapply quiet_trans; [exact Q1|].
    apply quiet_step; [reflexivity | repeat constructor].
  - erewrite bind_inr by exact Ha.
    destruct (0 <? length (errors (Papa_parse env text))).
    + eexists. split; [reflexivity|].
      eapply quiet_trans; [exact Q1|].
      apply quiet_step; [reflexivity | repeat constructor].
    + set (rows := data (Papa_parse env text)).
      assert (Hcases :
                (patternError (engine env) (activeOf adv) = None \/ rows = [])
                \/ (exists msg, patternError (engine env) (activeOf adv)
                                = Some msg /\ rows <> [])).
      { destruct (patternError (engine env) (activeOf adv)) as [msg|];
          [|left; left; reflexivity].
        destruct rows as [|r l]; [left; right; reflexivity|].
        right. exists msg. split; [reflexivity | discriminate]. }
      destruct Hcases as [Hok | (msg & Hbad & Hne)].
      * destruct (@advancedParsed_outcome env adv target value_ showOnly file
                    rows st1 Hok)
          as (st2 & evs & np & Hrun & Hev & Hsig & Ho & _ & _ & Hrp & Hsearch
              & _).
        destruct (Hsearch Hmode) as [Hnp Hw]. subst np.
        rewrite Hrun.
        exists st2. split; [reflexivity|].
        eapply quiet_trans; [exact Q1|].
        rewrite advCount_no_write in Hsig, Hrp
          by (apply writesTarget_search; exact Hmode).
        repeat split.
        -- exact Hw.
        -- rewrite Hrp. lia.
        -- eexists. split; [exact Ho | repeat constructor].
        -- exists evs. split; [exact Hev|].
           apply quiet_of_signal. rewrite Hsig.
           constructor; [exact I|].
           apply Forall_app. split.
           ++ apply advEvents_quiet. exact Hmode.
           ++ repeat constructor.
      * destruct (@advancedParsed_throws env adv target value_ showOnly file
                    rows st1 msg Hbad Hne)
          as (st2 & Hrun & Hev & Ho & Hw & _ & _ & Hrp).
        rewrite Hrun.
        eexists. split; [reflexivity|].
        eapply quiet_trans; [exact Q1|].
        repeat split; cbn.
        -- exact Hw.
        -- exact Hrp.
        -- exists []. rewrite app_nil_r. split; [exact Ho | constructor].
        -- eexists. rewrite Hev, <- app_assoc.
           split; [reflexivity | repeat constructor].
Qed.

Lemma forEach_quiet {A} (body : A -> M unit) :
  (forall x st, exists st', body x st = (inr tt, st') /\ Quiet st st') ->
  forall xs st, exists st', forEach xs body st = (inr tt, st') /\ Quiet st st'.
Proof.
  intros Hbody xs. induction xs as [|x rest IH]; intros st; simpl.
  - exists st. split; [reflexivity | apply quiet_refl].
  - destruct (Hbody x st) as (st1 & H1 & Q1).
    destruct (IH st1) as (st2 & H2 & Q2).
    exists st2. split.
    + erewrite bind_inr by exact H1. exact H2.
    + eapply quiet_trans; eassumption.
Qed.

Lemma sendComplete_quiet (withOutputFiles withProcessedRows : bool) (st : St) :
  Forall (fun o => newPath o = None) (outputFiles st) ->
  exists st',
    sendComplete env withOutputFiles withProcessedRows st = (inr tt, st')
    /\ Quiet st st'.
Proof.
  intros Hnone.
  assert (Hf : filter hasOutput (outputFiles st) = []).
  { induction (outputFiles st) as [|o l IH]; simpl; [reflexivity|].
    inversion Hnone as [|? ? Ho Hl]; subst.
    unfold hasOutput at 1. rewrite Ho. apply IH. exact Hl. }
  unfold sendComplete.
  erewrite bind_inr by (apply bundle_none; exact Hf).
  erewrite bind_inr by reflexivity.
  erewrite bind_inr by reflexivity.
  eexists. split; [reflexivity|].
  apply quiet_step; [reflexivity|].
  constructor; [|constructor]. split; reflexivity.
Qed.

End Batch.

Lemma isReplaceModeSimple_iff (rt : option string) :
  isReplaceModeSimple rt = true <-> exists t, rt = Some t /\ t <> "".
Proof.
  unfold isReplaceModeSimple. destruct rt as [t|].
  - rewrite strict_neq_true. split.
    + intros H. exists t. auto.
    + intros (t' & Ht & Hne). inversion Ht; subst. exact Hne.
  - split; [discriminate|]. intros (t & Ht & _). discriminate.
Qed.

Lemma isReplaceModeAdvanced_iff (tf rv : option string) :
  isReplaceModeAdvanced tf rv = true <->
  exists f v, tf = Some f /\ f <> "" /\ rv = Some v.
Proof.
  unfold isReplaceModeAdvanced. destruct tf as [f|].
  - destruct f as [|c f]; simpl.
    + split; [discriminate|]. intros (f & v & Hf & Hne & _).
      inversion Hf; subst. contradiction.
    + destruct rv as [v|].
      * split; [|reflexivity]. intros _. exists (String c f), v.
        repeat split. discriminate.
      * split; [discriminate|]. intros (f' & v & _ & _ & Hv). discriminate.
  - split; [discriminate|]. intros (f & v & Hf & _). discriminate.
Qed.

Lemma quiet_from_fresh (w : World) (n : nat) (st : St) :
  Quiet {| stats := initStats n; events := []; outputFiles := [];
           world := w |} st ->
  world st = w
  /\ totalReplacements (stats st) = 0
  /\ Forall (fun o => newPath o = None) (outputFiles st)
  /\ Forall quietEvent (events st).
Proof.
  intros (Hw & Hr & (outs & Ho & Hn) & (evs & He & Hq)). cbn in *.
  rewrite Ho, He. repeat split; assumption.
Qed.

(** C6 (as amended).  A request is in replace mode exactly when, in
    simple mode, [replaceTerm] is supplied and is not the empty string,
    and, in advanced mode, [replaceTargetField] is a non-empty string
    and [replaceValue] is defined.  A request that is not in replace
    mode runs as a pure search, whatever its files hold and whatever
    fails on the way: the tmp directory is left as it was (nothing is
    serialized or saved, no archive is made), no replacement is counted,
    every output record has a null [newPath], every change record
    reported has its old value as new value, every file completes
    without locator and the batch without download.  The rows its scans
    retain are parsed rows, left as they were. *)
Theorem search_mode_is_pure (env : Env) :
  (forall rt, isReplaceModeSimple rt = true <->
              exists t, rt = Some t /\ t <> "")
  /\ (forall tf rv, isReplaceModeAdvanced tf rv = true <->
                    exists f v, tf = Some f /\ f <> "" /\ rv = Some v)
  /\ (forall (body : ProcessRequest) (w : World),
        requestReplaces body = false ->
        let st := handle (POST_process env body) w in
        world st = w
        /\ totalReplacements (stats st) = 0
        /\ Forall (fun o => newPath o = None) (outputFiles st)
        /\ Forall quietEvent (events st))
  /\ (forall (showOnly : bool) (replaceTerm_ : option string)
             (searchFields replaceFields : list string) (file : FileDescriptor)
             (total : nat) (pattern : string) (insensitive : bool)
             (re : RegExp) (rows : list Row) (i : nat) (st : St),
        isReplaceModeSimple replaceTerm_ = false ->
        compiledAs pattern insensitive re ->
        exists acc' re' st' d,
          Runs (simpleRows env showOnly replaceTerm_ searchFields replaceFields
                  file total rows i re emptyScan) st (acc', re') st' d
          /\ forall r, In r (processedRowsOut acc') -> In r rows)
  /\ (forall (adv : AdvancedSearchConfig) (target value_ : option string)
             (showOnly : bool) (headers : list string) (file : FileDescriptor)
             (total : nat) (rows : list Row) (i : nat) (st : St),
        isReplaceModeAdvanced target value_ = false ->
        patternError (engine env) (activeOf adv) = None ->
        exists acc' st' d,
          Runs (advancedRows env adv target value_ showOnly headers file total
                  rows i emptyScan) st acc' st' d
          /\ forall r, In r (processedRowsOut acc') -> In r rows).
Proof.
  split; [exact isReplaceModeSimple_iff|].
  split; [exact isReplaceModeAdvanced_iff|].
  split; [|split].
  - intros body w Hmode st. subst st.
    unfold handle, POST_process, try_catch.
    destruct (length (files body) =? 0).
    { cbn. repeat split; repeat constructor. }
    erewrite bind_inr by reflexivity.
    cbn [stats events outputFiles world freshSt].
    set (st0 := {| stats := initStats (length (files body)); events := [];
                   outputFiles := []; world := w |}).
    unfold requestReplaces in Hmode.
    destruct (useAdvanced body) as [a|].
    + (* advanced search *)
      unfold processFilesWithAdvancedSearch.
      destruct (forEach_quiet
                  (advancedFile env a (replaceTargetField body)
                     (replaceValue body) (showOnlyMatches body))
                  (fun x s => advancedFile_quiet env a _ _ _ x s Hmode)
                  (files body) st0) as (st1 & H1 & Q1).
      erewrite bind_inr by exact H1.
      destruct (quiet_from_fresh Q1) as (_ & _ & Hn1 & _).
      destruct (sendComplete_quiet env true true st1 Hn1) as (st2 & H2 & Q2).
      rewrite H2. cbn [snd].
      apply (@quiet_from_fresh w (length (files body))).
      eapply quiet_trans; eassumption.
    + destruct (searchTerm body) as [term|].
      2:{ cbn. repeat split; repeat constructor. }
      destruct (truthy term).
      2:{ cbn. repeat split; repeat constructor. }
      destruct (forEach_quiet (simpleFile env body term)
                  (fun x s => simpleFile_quiet env body term x s Hmode)
                  (files body) st0) as (st1 & H1 & Q1).
      erewrite bind_inr by exact H1.
      destruct (quiet_from_fresh Q1) as (_ & _ & Hn1 & _).
      destruct (sendComplete_quiet env true false st1 Hn1) as (st2 & H2 & Q2).
      rewrite H2. cbn [snd].
      apply (@quiet_from_fresh w (length (files body))).
      eapply quiet_trans; eassumption.
  - intros showOnly replaceTerm_ searchFields replaceFields file total pattern
           insensitive re rows i st Hmode Hre.
    destruct (simpleRows_runs env showOnly replaceTerm_ searchFields
                replaceFields file total rows i emptyScan st Hre) as [st' Hrun].
    eexists _, _, st', _. split; [exact Hrun|].
    cbn [processedRowsOut grow emptyScan app].
    intros r Hr. eapply simpleOut_search; eassumption.
  - intros adv target value_ showOnly headers file total rows i st Hmode Hok.
    destruct (advancedRows_runs env adv target value_ showOnly headers file
                total Hok rows i emptyScan st) as [st' Hrun].
    eexists _, st', _. split; [exact Hrun|].
    cbn [processedRowsOut grow emptyScan app].
    intros r Hr. eapply advOut_no_write; [|exact Hr].
    apply writesTarget_search. exact Hmode.
Qed.

(** Scenario A: the search for NY on the people file saves nothing. *)
Lemma search_scenario_A :
  requestReplaces (Demo.searchRequest None) = false
  /\ let st := handle (POST_process (Demo.demoEnv Demo.store)
                         (Demo.searchRequest None)) (Demo.emptyWorld [100]) in
     world st = Demo.emptyWorld [100]
     /\ totalReplacements (stats st) = 0
     /\ Forall (fun o => newPath o = None) (outputFiles st)
     /\ Forall quietEvent (events st).
Proof.
  split; [reflexivity|].
  apply (proj1 (proj2 (proj2 (search_mode_is_pure (Demo.demoEnv Demo.store))))).
  reflexivity.
Defined.

(** An empty [replaceTerm] is a replacement value that was supplied, and
    the request is not in replace mode: the file gets no locator. *)
Lemma empty_replaceTerm_is_search_mode :
  replaceTerm (Demo.searchRequest (Some "")) <> None
  /\ isReplaceModeSimple (replaceTerm (Demo.searchRequest (Some ""))) = false
  /\ outputFiles (handle (POST_process (Demo.demoEnv Demo.store)
                            (Demo.searchRequest (Some "")))
                    (Demo.emptyWorld [100]))
     = [{| originalPath := "/srv/app/tmp/1_people.csv"; newPath := None |}]
  /\ ~ (forall rt, isReplaceModeSimple rt = true <-> rt <> None).
Proof.
  split; [discriminate|]. split; [reflexivity|]. split; [reflexivity|].
  intros H. assert (Hd : isReplaceModeSimple (Some "") = true).
  { apply H. discriminate. }
  discriminate.
Qed.

End SearchModeFacts.

(* ================================================================== *)
(** * The headers of a parsed file *)
(* ================================================================== *)

Module CsvFacts.

Import JS Csv Matcher FileProcessor Pipeline Spec Scan.

Lemma dedup_from_In (a seen : list string) (x : string) :
  In x (dedup_from seen a) <-> In x a /\ ~ In x seen.
Proof.
  revert seen. induction a as [|y a IH]; intros seen; simpl.
  - tauto.
  - destruct (arr_includes seen y) eqn:Hy.
    + apply arr_includes_In in Hy. rewrite IH. split.
      * intros [H1 H2]. auto.
      * intros [[<-|H1] H2]; [contradiction | auto].
    + assert (Hn : ~ In y seen).
      { intros H. apply arr_includes_In in H. congruence. }
      simpl. rewrite IH, in_app_iff. simpl. split.
      * intros [<-|[H1 H2]]; [auto|]. split; [auto|]. tauto.
      * intros [[<-|H1] H2]; [auto|].
        destruct (string_dec y x) as [->|Hne]; [auto|]. right. tauto.
Qed.

Lemma dedup_from_NoDup (a seen : list string) : NoDup (dedup_from seen a).
Proof.
  revert seen. induction a as [|y a IH]; intros seen; simpl.
  - constructor.
  - destruct (arr_includes seen y) eqn:Hy; [apply IH|].
    constructor; [|apply IH].
    rewrite dedup_from_In, in_app_iff. simpl. tauto.
Qed.

(** X1. The header list of a parsed file has no duplicates and holds
    exactly the non-empty trimmed keys of the first row; a file without
    rows has no headers. *)
Theorem headersOf_invariants (rows : list Row) :
  NoDup (headersOf rows)
  /\ (forall h, In h (headersOf rows) <->
                h <> "" /\ exists k, In k (keys (hd [] rows)) /\ trim k = h)
  /\ (rows = [] -> headersOf rows = []).
Proof.
  unfold headersOf, uniq. split; [apply dedup_from_NoDup|]. split.
  - intros h. rewrite dedup_from_In, filter_In, in_map_iff. split.
    + intros [[(k & Hk & Hin) Ht] _]. split.
      * intros ->. discriminate.
      * exists k. auto.
    + intros [Hne (k & Hin & Hk)]. split; [|tauto]. split.
      * exists k. auto.
      * destruct h; [contradiction | reflexivity].
  - intros ->. reflexivity.
Qed.

End CsvFacts.

(* ================================================================== *)
(** * The match modes of the advanced evaluator *)
(* ================================================================== *)

Module ModeFacts.

Import Properties.
Import JS Csv Matcher FileProcessor Pipeline Spec Scan MatcherFacts.

Lemma substring_whole (s : string) : substring 0 (String.length s) s = s.
Proof. induction s as [|c s IH]; simpl; [reflexivity | rewrite IH; reflexivity]. Qed.

Lemma prefix_refl (s : string) : String.prefix s s = true.
Proof. apply prefix_correct. apply substring_whole. Qed.

Lemma includes_prefix (hay needle : string) :
  String.prefix needle hay = true -> includes hay needle = true.
Proof.
  intros H. destruct hay as [|c t]; cbn [includes]; rewrite H; reflexivity.
Qed.

Lemma includes_tail (c : ascii) (hay needle : string) :
  includes hay needle = true -> includes (String c hay) needle = true.
Proof. intros H. cbn [includes]. rewrite H. apply orb_true_r. Qed.

Lemma includes_substring (k : nat) (hay needle : string) :
  substring k (String.length needle) hay = needle ->
  includes hay needle = true.
Proof.
  revert hay. induction k as [|k IH]; intros hay H.
  - apply includes_prefix, prefix_correct. exact H.
  - destruct hay as [|c t].
    + simpl in H. apply includes_prefix, prefix_correct.
      rewrite <- H. reflexivity.
    + apply includes_tail, IH. exact H.
Qed.

Lemma startsWith_refl (s : string) : startsWith s s = true.
Proof. apply prefix_refl. Qed.

Lemma endsWith_refl (s : string) : endsWith s s = true.
Proof.
  unfold endsWith. rewrite Nat.leb_refl, Nat.sub_diag, substring_whole.
  apply String.eqb_refl.
Qed.

Lemma startsWith_includes (hay needle : string) :
  startsWith hay needle = true -> includes hay needle = true.
Proof. apply includes_prefix. Qed.

Lemma endsWith_includes (hay needle : string) :
  endsWith hay needle = true -> includes hay needle = true.
Proof.
  unfold endsWith. intros H. apply andb_true_iff in H. destruct H as [_ H].
  apply String.eqb_eq in H. eapply includes_substring. exact H.
Qed.

(** X2. The matchers of the four literal modes always build, and they
    are nested: a cell the [equals] matcher accepts is accepted by the
    [startsWith] and the [endsWith] matcher, and a cell either of these
    accepts is accepted by the [contains] matcher; a condition without a
    mode is a [contains] condition. *)
Theorem matcher_modes_nest (E : RegExpEngine) (cs : bool)
    (c : FieldSearchCondition) :
  exists eq st en co df,
    buildFieldMatcher E (withMode c (Some Equals)) cs = inr eq
    /\ buildFieldMatcher E (withMode c (Some StartsWith)) cs = inr st
    /\ buildFieldMatcher E (withMode c (Some EndsWith)) cs = inr en
    /\ buildFieldMatcher E (withMode c (Some Contains)) cs = inr co
    /\ buildFieldMatcher E (withMode c None) cs = inr df
    /\ forall raw,
         (eq raw = true -> st raw = true /\ en raw = true)
         /\ (st raw = true -> co raw = true)
         /\ (en raw = true -> co raw = true)
         /\ df raw = co raw.
Proof.
  unfold buildFieldMatcher, withMode. cbn [mode value or_default].
  do 5 eexists. repeat (split; [reflexivity|]).
  intros raw. cbv beta.
  set (hay := if cs then raw else toLowerCase raw).
  set (needle := if cs then value c else toLowerCase (value c)).
  repeat split.
  - apply String.eqb_eq in H. rewrite H. apply startsWith_refl.
  - apply String.eqb_eq in H. rewrite H. apply endsWith_refl.
  - apply startsWith_includes.
  - apply endsWith_includes.
Qed.

Section Frame.
Variable E : RegExpEngine.

Lemma holds_frame (cs : bool) (row1 row2 : Row) (h1 h2 : list string)
    (c : FieldSearchCondition) :
  get row1 (field c) = get row2 (field c) ->
  (In (field c) h1 <-> In (field c) h2) ->
  holds E cs row1 h1 c = holds E cs row2 h2 c.
Proof.
  intros Hg Hh. unfold holds. rewrite Hg. f_equal.
  destruct (arr_includes h1 (field c)) eqn:H1, (arr_includes h2 (field c)) eqn:H2;
    try reflexivity.
  - apply arr_includes_In, Hh, arr_includes_In in H1. congruence.
  - apply arr_includes_In, Hh, arr_includes_In in H2. congruence.
Qed.

Lemma forallb_ext_in {A} (f g : A -> bool) (l : list A) :
  (forall x, In x l -> f x = g x) -> forallb f l = forallb g l.
Proof.
  induction l as [|x l IH]; intros H; simpl; [reflexivity|].
  rewrite H by (left; reflexivity). rewrite IH; [reflexivity|].
  intros y Hy. apply H. right. exact Hy.
Qed.

Lemma existsb_ext_in {A} (f g : A -> bool) (l : list A) :
  (forall x, In x l -> f x = g x) -> existsb f l = existsb g l.
Proof.
  induction l as [|x l IH]; intros H; simpl; [reflexivity|].
  rewrite H by (left; reflexivity). rewrite IH; [reflexivity|].
  intros y Hy. apply H. right. exact Hy.
Qed.

Lemma filter_ext_in_eq {A} (f g : A -> bool) (l : list A) :
  (forall x, In x l -> f x = g x) -> filter f l = filter g l.
Proof.
  induction l as [|x l IH]; intros H; simpl; [reflexivity|].
  rewrite H by (left; reflexivity). rewrite IH; [reflexivity|].
  intros y Hy. apply H. right. exact Hy.
Qed.

(** X3. The advanced evaluator reads a row only through the cells of the
    fields its conditions name, and the headers only through whether
    these fields are among them: two rows that agree there get the same
    verdict, the same matched fields or the same error, whatever else
    they hold. *)
Theorem advanced_verdict_reads_only_condition_cells
    (row1 row2 : Row) (headers1 headers2 : list string)
    (adv : AdvancedSearchConfig) :
  (forall c, In c (conditions adv) ->
             get row1 (field c) = get row2 (field c)) ->
  (forall c, In c (conditions adv) ->
             (In (field c) headers1 <-> In (field c) headers2)) ->
  rowMatchesAdvanced E row1 headers1 adv
  = rowMatchesAdvanced E row2 headers2 adv.
Proof.
  intros Hrow Hhdr. rewrite !rowMatchesAdvanced_eval.
  destruct (patternError E _); [reflexivity|]. f_equal.
  unfold reference.
  set (active := filter (fun c => negb (blank (value c))) (conditions adv)).
  assert (Hact : forall c, In c active ->
            holds E (or_default (caseSensitive adv) false) row1 headers1 c
            = holds E (or_default (caseSensitive adv) false) row2 headers2 c).
  { intros c Hc. apply filter_In in Hc. destruct Hc as [Hc _].
    apply holds_frame; auto. }
  destruct active as [|c0 rest]; [reflexivity|].
  destruct (or_default (logic adv) AND).
  - rewrite (forallb_ext_in _ _ _ Hact). reflexivity.
  - rewrite (existsb_ext_in _ _ _ Hact), (filter_ext_in_eq _ _ _ Hact).
    reflexivity.
Qed.

Lemma filter_all {A} (f : A -> bool) (l : list A) :
  forallb f l = true -> filter f l = l.
Proof.
  induction l as [|x l IH]; simpl; [reflexivity|].
  intros H. apply andb_true_iff in H. destruct H as [Hx Hl].
  rewrite Hx, IH by exact Hl. reflexivity.
Qed.

(** X4. A row that matches under [AND] matches under [OR], with the
    same matched fields; a configuration without a logic is read as
    [AND]. *)
Theorem and_match_is_or_match (row : Row) (headers : list string)
    (adv : AdvancedSearchConfig) (matchedFields : list string) :
  rowMatchesAdvanced E row headers (withLogic adv (Some AND))
    = inr (true, matchedFields) ->
  rowMatchesAdvanced E row headers (withLogic adv (Some OR))
    = inr (true, matchedFields)
  /\ rowMatchesAdvanced E row headers (withLogic adv None)
    = inr (true, matchedFields).
Proof.
  intros H. split; [|exact H].
  rewrite rowMatchesAdvanced_eval in *.
  cbn [withLogic conditions] in *.
  destruct (patternError E _); [discriminate|].
  injection H as H. f_equal. revert H.
  unfold reference. cbn [withLogic conditions logic caseSensitive or_default].
  set (cs := or_default (caseSensitive adv) false).
  destruct (filter _ (conditions adv)) as [|c0 rest]; [auto|].
  destruct (forallb (holds E cs row headers) (c0 :: rest)) eqn:Hall;
    [|intros H; discriminate H].
  intros H. injection H as <-. rewrite (filter_all _ _ Hall).
  simpl in Hall. apply andb_true_iff in Hall. destruct Hall as [H0 _].
  simpl. rewrite H0. reflexivity.
Qed.
End Frame.

(** Ann's row matches the one condition under either logic. *)
Lemma and_match_witness :
  rowMatchesAdvanced Demo.literalEngine
    [("name", "Ann"); ("state", "NY")] ["name"; "state"]
    (withLogic Demo.startsWithN (Some OR)) = inr (true, ["state"])
  /\ rowMatchesAdvanced Demo.literalEngine
       [("name", "Ann"); ("state", "NY")] ["name"; "state"]
       (withLogic Demo.startsWithN None) = inr (true, ["state"]).
Proof.
  apply and_match_is_or_match. reflexivity.
Defined.

(** Two rows with the same state, other names and other columns. *)
Lemma advanced_verdict_witness :
  rowMatchesAdvanced Demo.literalEngine
    [("name", "Ann"); ("state", "NY")] ["name"; "state"] Demo.startsWithN
  = rowMatchesAdvanced Demo.literalEngine
      [("state", "NY"); ("name", "Bob"); ("zip", "10001")]
      ["state"; "zip"] Demo.startsWithN.
Proof.
  apply advanced_verdict_reads_only_condition_cells.
  - intros c [<-|[]]. reflexivity.
  - intros c [<-|[]]. simpl. tauto.
Defined.

End ModeFacts.

(* ================================================================== *)
(** * The replace request: operations and grouping *)
(* ================================================================== *)

Module RequestFacts.

Import Properties.
Import JS Csv Matcher FileProcessor Pipeline Spec Scan MatcherFacts Effects.
Import BundleFacts SimpleFacts.

Lemma truthy_iff (s : string) : truthy s = true <-> s <> "".
Proof. destruct s; simpl; split; congruence. Qed.

Lemma validateOperations_sound (raw : list RawOperation)
    (ops : list ReplaceOperation) :
  validateOperations raw = inr ops ->
  raw = map rawOf ops /\ Forall (fun o => op_field o <> "") ops.
Proof.
  revert ops. induction raw as [|r raw IH]; intros ops; simpl.
  - intros H. injection H as <-. split; [reflexivity | constructor].
  - destruct (truthy (raw_field r)) eqn:Hf; simpl; [|discriminate].
    destruct (raw_value r) as [v|] eqn:Hv; [|discriminate].
    destruct (validateOperations raw) as [msg|ops']; [discriminate|].
    intros H. injection H as <-.
    destruct (IH ops' eq_refl) as [Hr HF]. split.
    + simpl. unfold rawOf at 1. simpl. rewrite <- Hv, <- Hr.
      destruct r; reflexivity.
    + constructor; [|exact HF]. simpl. apply truthy_iff. exact Hf.
Qed.

Lemma validateOperations_complete (ops : list ReplaceOperation) :
  Forall (fun o => op_field o <> "") ops ->
  validateOperations (map rawOf ops) = inr ops.
Proof.
  induction 1 as [|o ops Ho _ IH]; simpl; [reflexivity|].
  apply truthy_iff in Ho. rewrite Ho, IH. simpl. destruct o; reflexivity.
Qed.

(** X5. The replace route accepts the operations of a request exactly
    when there is at least one, every one has a non-empty field, and
    they are the [replaceOperations] array as sent, each with its value,
    or, without such an array, the one operation of the legacy
    [replaceTargetField] and [replaceValue]. *)
Theorem operationsOf_accepts (req : ReplaceRequest)
    (ops : list ReplaceOperation) :
  operationsOf req = inr ops <->
  ops <> []
  /\ Forall (fun o => op_field o <> "") ops
  /\ (replaceOperations req = map rawOf ops
      \/ (replaceOperations req = []
          /\ exists f v,
               rp_replaceTargetField req = Some f
               /\ rp_replaceValue req = Some v
               /\ ops = [{| op_field := f; op_value := v |}])).
Proof.
  unfold operationsOf.
  destruct (replaceOperations req) as [|r raw] eqn:Hraw.
  - change (0 <? length (@nil RawOperation)) with false. cbv iota.
    split.
    + destruct (rp_replaceTargetField req) as [f|]; [|discriminate].
      destruct (truthy f) eqn:Hf; [|discriminate].
      destruct (rp_replaceValue req) as [v|]; [|discriminate].
      simpl. rewrite Hf. simpl. intros H. injection H as <-.
      split; [discriminate|]. split.
      * constructor; [|constructor]. simpl. apply truthy_iff, Hf.
      * right. split; [reflexivity|]. eauto.
    + intros (Hne & HF & [H | [_ (f & v & -> & -> & ->)]]).
      * destruct ops; [contradiction | discriminate].
      * inversion HF as [|? ? Ho _]; subst. simpl in Ho.
        apply truthy_iff in Ho. simpl. rewrite Ho. reflexivity.
  - change (0 <? length (r :: raw)) with true. cbv iota. split.
    + intros H. destruct (validateOperations_sound _ H) as [Hr HF].
      split; [|split; [exact HF | left; exact Hr]].
      intros ->. discriminate.
    + intros (_ & HF & [H | [H _]]); [|discriminate].
      rewrite H. apply validateOperations_complete. exact HF.
Qed.

Lemma hasRows_iff (r : SearchResult) :
  (0 <? length (sr_rows r)) = true <-> hasRows r.
Proof.
  unfold hasRows. destruct (sr_rows r); simpl; split; intros H;
    try discriminate; try reflexivity. contradiction H; reflexivity.
Qed.

Lemma mapSet_In (m : list (string * SearchResult)) (k : string)
    (v : SearchResult) (p : string) (r : SearchResult) :
  NoDup (map fst m) ->
  (In (p, r) (mapSet m k v) <->
   (p = k /\ r = v) \/ (p <> k /\ In (p, r) m)).
Proof.
  induction m as [|[k' v'] m IH]; simpl; intros Hnd.
  - split.
    + intros [H|[]]. injection H as <- <-. auto.
    + intros [[-> ->]|[_ []]]. auto.
  - inversion Hnd as [|? ? Hk' Hnd']; subst.
    destruct (String.eqb k' k) eqn:Hk.
    + apply String.eqb_eq in Hk. subst k'. simpl. split.
      * intros [H|H]; [injection H as <- <-; auto|].
        right. split; [|auto]. intros ->. apply Hk'.
        apply (in_map fst) in H. exact H.
      * intros [[-> ->]|[Hne [H|H]]]; auto.
        injection H as -> _. contradiction.
    + assert (Hne : k' <> k).
      { intros ->. rewrite String.eqb_refl in Hk. discriminate. }
      simpl. rewrite (IH Hnd'). split.
      * intros [H|[H|[H1 H2]]]; auto.
        injection H as <- <-. auto.
      * intros [[-> ->]|[H1 [H|H]]]; auto.
Qed.

Lemma mapSet_keys (m : list (string * SearchResult)) (k : string)
    (v : SearchResult) (p : string) :
  In p (map fst (mapSet m k v)) <-> p = k \/ In p (map fst m).
Proof.
  induction m as [|[k' v'] m IH]; simpl.
  - intuition congruence.
  - destruct (String.eqb k' k) eqn:Hk; simpl.
    + apply String.eqb_eq in Hk. subst k'. intuition congruence.
    + rewrite IH. intuition congruence.
Qed.

Lemma mapSet_NoDup (m : list (string * SearchResult)) (k : string)
    (v : SearchResult) :
  NoDup (map fst m) -> NoDup (map fst (mapSet m k v)).
Proof.
  induction m as [|[k' v'] m IH]; simpl; intros Hnd.
  - constructor; [intros [] | constructor].
  - inversion Hnd as [|? ? Hk' Hnd']; subst.
    destruct (String.eqb k' k) eqn:Hk; simpl.
    + constructor; assumption.
    + constructor; [|apply IH; exact Hnd'].
      rewrite mapSet_keys. intros [->|H]; [|contradiction].
      rewrite String.eqb_refl in Hk. discriminate.
Qed.

Lemma group_fold (results : list SearchResult) :
  forall m, NoDup (map fst m) ->
    let g := fold_left groupStep results m in
    NoDup (map fst g)
    /\ (forall p r, In (p, r) g ->
          In (p, r) m \/ (In r results /\ p = sr_path r /\ hasRows r))
    /\ (forall p, In p (map fst g) <->
          In p (map fst m)
          \/ exists r, In r results /\ hasRows r /\ sr_path r = p)
    /\ (forall p r, In (p, r) m ->
          (forall r', In r' results -> hasRows r' -> sr_path r' <> p) ->
          In (p, r) g).
Proof.
  induction results as [|x results IH]; intros m Hnd; simpl.
  - split; [exact Hnd|]. split; [auto|]. split; [|auto].
    intros p. split; [auto|]. intros [H|(r & [] & _)]. exact H.
  - assert (Hstep : NoDup (map fst (groupStep m x))).
    { unfold groupStep. destruct (0 <? length (sr_rows x)); [|exact Hnd].
      apply mapSet_NoDup. exact Hnd. }
    destruct (IH _ Hstep) as (H1 & H2 & H3 & H4).
    split; [exact H1|]. split; [|split].
    + intros p r Hin. destruct (H2 p r Hin) as [Hm|(Hr & Hp & Hrows)].
      * unfold groupStep in Hm.
        destruct (0 <? length (sr_rows x)) eqn:Hx; [|auto].
        apply (@mapSet_In _ _ _ _ _ Hnd) in Hm.
        destruct Hm as [[-> ->]|[_ Hm]]; [|auto].
        right. split; [auto|]. split; [reflexivity|].
        apply hasRows_iff. exact Hx.
      * right. auto.
    + intros p. rewrite H3. unfold groupStep.
      destruct (0 <? length (sr_rows x)) eqn:Hx.
      * rewrite mapSet_keys. apply hasRows_iff in Hx. split.
        -- intros [[->|H]|(r & Hr & Hrows & Hp)]; eauto 6.
        -- intros [H|(r & [->|Hr] & Hrows & Hp)]; eauto 6.
      * split.
        -- intros [H|(r & Hr & Hrows & Hp)]; eauto 6.
        -- intros [H|(r & [->|Hr] & Hrows & Hp)]; eauto 6.
           apply hasRows_iff in Hrows. congruence.
    + intros p r Hin Hfree. apply H4.
      * unfold groupStep. destruct (0 <? length (sr_rows x)) eqn:Hx; [|auto].
        apply (@mapSet_In _ _ _ _ _ Hnd). right. split; [|exact Hin].
        intros ->. apply (Hfree x); auto. apply hasRows_iff. exact Hx.
      * intros r' Hr'. apply Hfree. auto.
Qed.

(** X6. The replace route groups the search results by path: no path
    comes twice, only results with rows are kept, a path is there
    exactly when a result with rows has it, and of several results with
    rows for one path the last is the one that is replayed. *)
Theorem groupByPath_keeps_last_result_per_path (results : list SearchResult) :
  NoDup (map fst (groupByPath results))
  /\ (forall p r, In (p, r) (groupByPath results) ->
        In r results /\ p = sr_path r /\ hasRows r)
  /\ (forall p, In p (map fst (groupByPath results)) <->
        exists r, In r results /\ hasRows r /\ sr_path r = p)
  /\ (forall before r after,
        results = before ++ r :: after ->
        hasRows r ->
        (forall r', In r' after -> hasRows r' -> sr_path r' <> sr_path r) ->
        In (sr_path r, r) (groupByPath results)).
Proof.
  change (groupByPath results) with (fold_left groupStep results []).
  destruct (@group_fold results [] (NoDup_nil _)) as (H1 & H2 & H3 & _).
  split; [exact H1|]. split; [|split].
  - intros p r Hin. destruct (H2 p r Hin) as [[]|H]. exact H.
  - intros p. rewrite H3. simpl. split; [intros [[]|H]; exact H | auto].
  - intros before r after -> Hrows Hfree.
    rewrite fold_left_app. simpl.
    assert (Hnd : NoDup (map fst (fold_left groupStep before []))).
    { apply (@group_fold before [] (NoDup_nil _)). }
    assert (Hnd' : NoDup (map fst (groupStep (fold_left groupStep before []) r))).
    { unfold groupStep. destruct (0 <? length (sr_rows r)); [|exact Hnd].
      apply mapSet_NoDup. exact Hnd. }
    apply (@group_fold after _ Hnd'); [|exact Hfree].
    unfold groupStep. apply hasRows_iff in Hrows. rewrite Hrows.
    apply (@mapSet_In _ _ _ _ _ Hnd). auto.
Qed.

End RequestFacts.

(* ================================================================== *)
(** * Names of artifacts *)
(* ================================================================== *)

Module NamingFacts.

Import Properties ModeFacts.
Import JS Csv Matcher FileProcessor Pipeline Spec Scan MatcherFacts Effects.
Import BundleFacts SimpleFacts.

Lemma split_slash_nonempty (s : string) : split_slash s <> [].
Proof.
  destruct s as [|c t]; simpl; [discriminate|].
  destruct (Ascii.eqb c "/"); [discriminate|].
  destruct (split_slash t); discriminate.
Qed.

Lemma split_slash_app (a b : string) :
  split_slash (a ++ String "/" b) = split_slash a ++ split_slash b.
Proof.
  induction a as [|c a IH]; cbn [append split_slash].
  - rewrite Ascii.eqb_refl. reflexivity.
  - rewrite IH. destruct (Ascii.eqb c "/"); [reflexivity|].
    pose proof (split_slash_nonempty a) as Hne.
    destruct (split_slash a); [contradiction | reflexivity].
Qed.

Lemma toLowerCase_app (a b : string) :
  toLowerCase (a ++ b) = (toLowerCase a ++ toLowerCase b)%string.
Proof.
  induction a as [|c a IH]; simpl; [reflexivity | rewrite IH; reflexivity].
Qed.

Lemma toLowerCase_length (s : string) :
  String.length (toLowerCase s) = String.length s.
Proof.
  induction s as [|c s IH]; simpl; [reflexivity | rewrite IH; reflexivity].
Qed.

Lemma substring_suffix (a b : string) :
  substring (String.length a) (String.length b) (a ++ b) = b.
Proof.
  induction a as [|c a IH]; simpl; [apply substring_whole | exact IH].
Qed.

Lemma substring_prefix (a b : string) :
  substring 0 (String.length a) (a ++ b) = a.
Proof.
  induction a as [|c a IH]; simpl.
  - destruct b; reflexivity.
  - rewrite IH. reflexivity.
Qed.

Lemma endsWith_app (a b : string) : endsWith (a ++ b) b = true.
Proof.
  unfold endsWith. rewrite append_length.
  replace (String.length a + String.length b - String.length b)
    with (String.length a) by lia.
  rewrite substring_suffix, String.eqb_refl.
  replace (String.length b <=? String.length a + String.length b) with true;
    [reflexivity|]. symmetry. apply Nat.leb_le. lia.
Qed.

Lemma stripCsv_csv (stem ext : string) :
  toLowerCase ext = ".csv" -> stripCsv (stem ++ ext) = stem.
Proof.
  intros Hext. unfold stripCsv.
  rewrite toLowerCase_app, Hext, endsWith_app, append_length.
  assert (Hlen : String.length ext = 4).
  { rewrite <- toLowerCase_length, Hext. reflexivity. }
  rewrite Hlen.
  replace (String.length stem + 4 - 4) with (String.length stem) by lia.
  apply substring_prefix.
Qed.

Lemma toLowerCase_char_slash (c : ascii) :
  Ascii.eqb (toLowerCase_char c) "/" = Ascii.eqb c "/".
Proof.
  destruct c as [[] [] [] [] [] [] [] []]; reflexivity.
Qed.

Lemma noSlash_toLowerCase (s : string) :
  noSlash (toLowerCase s) = noSlash s.
Proof.
  induction s as [|c s IH]; simpl; [reflexivity|].
  rewrite toLowerCase_char_slash, IH. reflexivity.
Qed.

Lemma truthy_app_r (a b : string) : truthy b = true -> truthy (a ++ b) = true.
Proof. destruct a; simpl; auto. Qed.

Lemma replacedFileName_leaf (dir leaf : string) :
  noSlash leaf = true ->
  replacedFileName (dir ++ String "/" leaf)
  = ((if truthy leaf then stripCsv leaf else "file") ++ "_replaced.csv")%string
  /\ replacedFileName leaf
  = ((if truthy leaf then stripCsv leaf else "file") ++ "_replaced.csv")%string.
Proof.
  intros H. unfold replacedFileName.
  rewrite split_slash_app, !(split_slash_noSlash _ H), last_last.
  cbn [last]. destruct (truthy leaf); split; reflexivity.
Qed.

(** X7. The artifact of a file is named after the last segment of its
    path: the directory never shows, an ending [.csv] in any letter case
    is dropped before [_replaced.csv] is added, and an empty last
    segment is read as [file.csv]; the name has no slash. *)
Theorem replacedFileName_of_csv (dir stem ext : string) :
  noSlash stem = true ->
  toLowerCase ext = ".csv" ->
  replacedFileName (dir ++ "/" ++ stem ++ ext)
  = (stem ++ "_replaced.csv")%string
  /\ replacedFileName (stem ++ ext) = (stem ++ "_replaced.csv")%string
  /\ replacedFileName (dir ++ "/" ++ stem)
     = ((if truthy stem then stripCsv stem else "file")
        ++ "_replaced.csv")%string
  /\ noSlash (replacedFileName (dir ++ "/" ++ stem ++ ext)) = true.
Proof.
  intros Hstem Hext.
  assert (Hns : noSlash (stem ++ ext) = true).
  { rewrite noSlash_append, Hstem, <- (noSlash_toLowerCase ext), Hext.
    reflexivity. }
  assert (Ht : truthy (stem ++ ext) = true).
  { apply truthy_app_r. destruct ext; [discriminate | reflexivity]. }
  destruct (@replacedFileName_leaf dir _ Hns) as [H1 H2].
  destruct (@replacedFileName_leaf dir _ Hstem) as [H3 _].
  rewrite Ht, (@stripCsv_csv stem ext Hext) in H1, H2.
  change (dir ++ "/" ++ stem ++ ext)%string
    with (dir ++ String "/" (stem ++ ext))%string.
  change (dir ++ "/" ++ stem)%string with (dir ++ String "/" stem)%string.
  rewrite H1, H2, H3. repeat split.
  rewrite noSlash_append, Hstem. reflexivity.
Qed.

(** An upper-case extension. *)
Lemma replacedFileName_witness :
  replacedFileName "/srv/app/tmp/1_people.CSV" = "1_people_replaced.csv"
  /\ replacedFileName "1_people.CSV" = "1_people_replaced.csv"
  /\ replacedFileName "/srv/app/tmp/1_people" = "1_people_replaced.csv"
  /\ noSlash (replacedFileName "/srv/app/tmp/1_people.CSV") = true.
Proof.
  apply (@replacedFileName_of_csv "/srv/app/tmp" "1_people" ".CSV");
    reflexivity.
Defined.

End NamingFacts.

(* ================================================================== *)
(** * Simple replacement overwrites whole cells *)
(* ================================================================== *)

Module OverwriteFacts.

Import Properties.
Import JS Csv Matcher FileProcessor Pipeline Spec Scan MatcherFacts Effects.
Import BundleFacts SimpleFacts.

Lemma overwrite_untouched (fields : list string) (v : string) (row : Row)
    (g : string) :
  ~ In g fields -> get (fst (overwrite fields v row)) g = get row g.
Proof.
  revert row. induction fields as [|f rest IH]; intros row Hg; simpl;
    [reflexivity|].
  assert (Hfg : f <> g) by (intros ->; apply Hg; left; reflexivity).
  assert (Hrest : ~ In g rest) by (intros H; apply Hg; right; exact H).
  destruct (strict_neq v (falsy_or (get row f) "")); simpl.
  - rewrite IH by exact Hrest. apply get_set_other. exact Hfg.
  - apply IH. exact Hrest.
Qed.

Lemma overwrite_keeps (fields : list string) (v : string) (row : Row)
    (f : string) :
  get row f = Some v -> get (fst (overwrite fields v row)) f = Some v.
Proof.
  revert row. induction fields as [|g rest IH]; intros row Hf; simpl;
    [exact Hf|].
  destruct (strict_neq v (falsy_or (get row g) "")); simpl.
  - apply IH. destruct (string_dec g f) as [->|Hne].
    + apply get_set_same.
    + rewrite get_set_other by exact Hne. exact Hf.
  - apply IH. exact Hf.
Qed.

Lemma overwrite_written (fields : list string) (v : string) (row : Row)
    (f : string) :
  v <> "" -> In f fields -> get (fst (overwrite fields v row)) f = Some v.
Proof.
  intros Hv. revert row. induction fields as [|g rest IH]; intros row Hin;
    simpl in *; [contradiction|].
  destruct (strict_neq v (falsy_or (get row g) "")) eqn:Hs; simpl.
  - destruct Hin as [->|Hin]; [|apply IH; exact Hin].
    apply overwrite_keeps, get_set_same.
  - destruct Hin as [->|Hin]; [|apply IH; exact Hin].
    apply overwrite_keeps. apply strict_neq_false in Hs.
    destruct (get row f) as [[|c s]|]; simpl in Hs; congruence.
Qed.

Lemma simpleOut_flat_map (env : Env) (showOnly : bool) (rt : option string)
    (sf rf : list string) (pattern : string) (ins : bool) (rows : list Row) :
  simpleOut env showOnly rt sf rf pattern ins rows
  = flat_map (simpleKept env showOnly rt sf rf pattern ins) rows.
Proof.
  induction rows as [|r rows IH]; simpl; [reflexivity | rewrite IH; reflexivity].
Qed.

(** X8. A simple replacement with a pattern that compiles and a
    non-empty replace term saves the file; in every matched row each
    target field holds the whole replace term afterwards (the cell is
    overwritten, the found text is not substituted) and every other cell
    is as it was; a row that did not match is written unchanged, or left
    out under [showOnlyMatches]. *)
Theorem simple_replace_overwrites_whole_cells
    (env : Env) (body : ProcessRequest) (term v : string)
    (file : FileDescriptor) (rows : list Row) (st : St) :
  re_syntax_error (engine env) (searchPattern body term) = None ->
  replaceTerm body = Some v ->
  v <> "" ->
  let targets := replaceFieldsOf (selectedFields body) (headersOf rows) in
  let matched :=
    simpleMatched env (headersOf rows) (searchPattern body term)
      (negb (cs body)) in
  exists st' saved (rewritten : Row -> Row),
    simpleParsed env body term file rows st = (inr tt, st')
    /\ readFile (fs (world st')) saved =
         Some (Text (Papa_unparse env
                 (flat_map (fun row =>
                              if matched row then [rewritten row]
                              else if showOnlyMatches body then [] else [row])
                           rows)))
    /\ forall row,
         (forall f, In f targets -> get (rewritten row) f = Some v)
         /\ (forall g, ~ In g targets -> get (rewritten row) g = get row g).
Proof.
  intros Hok Hrt Hv targets matched.
  assert (Hmode : isReplaceModeSimple (replaceTerm body) = true).
  { rewrite Hrt. simpl. apply strict_neq_true. exact Hv. }
  destruct (simpleParsed_outcome env body term file rows st Hok)
    as (st' & evs & np & Hrun & _ & _ & _ & _ & _ & _ & _ & Hsave).
  destruct (Hsave Hmode) as (saved & _ & Hread).
  exists st', saved, (fun row => fst (overwrite targets v row)).
  split; [exact Hrun|]. split.
  - rewrite Hread. do 3 f_equal. rewrite simpleOut_flat_map.
    apply flat_map_ext. intros row. unfold simpleKept, simpleRewrite.
    rewrite Hmode, Hrt. cbn [negb nullish].
    fold matched. unfold fieldsToReplace. fold targets.
    destruct (matched row); [reflexivity|].
    destruct (showOnlyMatches body); reflexivity.
  - intros row. split.
    + intros f Hf. apply overwrite_written; assumption.
    + intros g Hg. apply overwrite_untouched. exact Hg.
Qed.

(** The search for NY on the people file, every match set to New York. *)
Lemma simple_replace_witness :
  let env := Demo.demoEnv Demo.store in
  let body := Demo.searchRequest (Some "New York") in
  let rows := data (Demo.demoParse Demo.people) in
  let targets := replaceFieldsOf (selectedFields body) (headersOf rows) in
  let matched :=
    simpleMatched env (headersOf rows) (searchPattern body "NY")
      (negb (cs body)) in
  exists st' saved (rewritten : Row -> Row),
    simpleParsed env body "NY" Demo.peopleFile rows
      (freshSt (Demo.emptyWorld [7])) = (inr tt, st')
    /\ readFile (fs (world st')) saved =
         Some (Text (Papa_unparse env
                 (flat_map (fun row =>
                              if matched row then [rewritten row]
                              else if showOnlyMatches body then [] else [row])
                           rows)))
    /\ forall row,
         (forall f, In f targets -> get (rewritten row) f = Some "New York")
         /\ (forall g, ~ In g targets -> get (rewritten row) g = get row g).
Proof.
  apply (@simple_replace_overwrites_whole_cells (Demo.demoEnv Demo.store)
           (Demo.searchRequest (Some "New York")) "NY" "New York").
  - reflexivity.
  - reflexivity.
  - discriminate.
Defined.

End OverwriteFacts.

(* ================================================================== *)
(** * Paths built from a file parameter stay in the tmp directory *)
(* ================================================================== *)

Module PathFacts.

Import Properties ModeFacts NamingFacts.
Import JS Csv FileProcessor Pipeline Spec Scan BundleFacts.
Import Path.

Lemma pushSegments_app (a : bool) (xs ys stack : list string) :
  pushSegments a stack (xs ++ ys)
  = pushSegments a (pushSegments a stack xs) ys.
Proof.
  revert stack. induction xs as [|x xs IH]; intros stack; simpl; [reflexivity|].
  destruct (String.eqb x "" || String.eqb x "."); [apply IH|].
  destruct (String.eqb x ".."); [|apply IH].
  destruct stack as [|top below]; [apply IH|].
  destruct (String.eqb top ".."); apply IH.
Qed.

(** Segments without [..] only push names. *)
Lemma pushSegments_noParent (a : bool) (segs stack : list string) :
  forallb notParent segs = true ->
  pushSegments a stack segs = List.rev (filter isName segs) ++ stack.
Proof.
  revert stack. induction segs as [|x xs IH]; intros stack H; simpl;
    [reflexivity|].
  simpl in H. apply andb_true_iff in H. destruct H as [Hx Hxs].
  unfold notParent in Hx. apply negb_true_iff in Hx.
  assert (Hn : isName x = negb (String.eqb x "" || String.eqb x ".")).
  { unfold isName. rewrite Hx, orb_false_r. reflexivity. }
  rewrite Hn.
  destruct (String.eqb x "" || String.eqb x ".") eqn:He; simpl.
  - apply IH. exact Hxs.
  - rewrite Hx. rewrite IH by exact Hxs.
    rewrite <- app_assoc. reflexivity.
Qed.

(** Without climbing, a stack of names stays a stack of names. *)
Lemma pushSegments_names (segs stack : list string) :
  forallb isName stack = true ->
  forallb isName (pushSegments false stack segs) = true.
Proof.
  revert stack. induction segs as [|x xs IH]; intros stack H; simpl; [exact H|].
  destruct (String.eqb x "" || String.eqb x ".") eqn:He; [apply IH; exact H|].
  destruct (String.eqb x "..") eqn:Hp.
  - destruct stack as [|top below]; [apply IH; reflexivity|].
    simpl in H. apply andb_true_iff in H. destruct H as [Ht Hb].
    destruct (String.eqb top ".."); apply IH; simpl; auto.
    rewrite Ht, Hb. reflexivity.
  - apply IH. simpl. rewrite H, andb_true_r. unfold isName.
    apply orb_false_iff in He. destruct He as [-> ->]. rewrite Hp. reflexivity.
Qed.

Lemma pushSegments_climbing (segs stack : list string) :
  Climbing stack -> Climbing (pushSegments true stack segs).
Proof.
  revert stack. induction segs as [|x xs IH]; intros stack H; simpl; [exact H|].
  destruct (String.eqb x "" || String.eqb x ".") eqn:He; [apply IH; exact H|].
  destruct (String.eqb x "..") eqn:Hp.
  - destruct stack as [|top below].
    + apply IH. exists [], 1. split; reflexivity.
    + destruct H as (names & k & Hst & Hn).
      destruct (String.eqb top "..") eqn:Ht.
      * apply IH. apply String.eqb_eq in Ht. subst top.
        destruct names as [|n names].
        -- exists [], (S k). simpl in *. rewrite Hst. split; reflexivity.
        -- simpl in Hst, Hn. injection Hst as <- _.
           discriminate.
      * apply IH. destruct names as [|n names].
        -- simpl in Hst. destruct k; [discriminate|]. simpl in Hst.
           injection Hst as -> _. discriminate.
        -- simpl in Hst, Hn. injection Hst as _ ->.
           apply andb_true_iff in Hn. destruct Hn as [_ Hn].
           exists names, k. auto.
  - apply IH. destruct H as (names & k & -> & Hn).
    exists (x :: names), k. split; [reflexivity|]. simpl. rewrite Hn, andb_true_r.
    unfold isName. apply orb_false_iff in He. destruct He as [-> ->].
    rewrite Hp. reflexivity.
Qed.

(** ** Strings and their segments *)

Lemma append_nil_r (s : string) : (s ++ "")%string = s.
Proof. induction s as [|c s IH]; simpl; [reflexivity | rewrite IH; reflexivity]. Qed.

Lemma split_slash_segments (s : string) :
  forallb noSlash (split_slash s) = true.
Proof.
  induction s as [|c t IH]; simpl; [reflexivity|].
  destruct (Ascii.eqb c "/") eqn:Hc; simpl; [exact IH|].
  destruct (split_slash t) as [|seg segs]; simpl in *.
  - rewrite Hc. reflexivity.
  - rewrite Hc. simpl. exact IH.
Qed.

Lemma split_slash_cons (c : ascii) (t : string) :
  split_slash (String c t)
  = if Ascii.eqb c "/" then "" :: split_slash t
    else String c (hd "" (split_slash t)) :: tl (split_slash t).
Proof.
  simpl. destruct (Ascii.eqb c "/"); [reflexivity|].
  pose proof (split_slash_nonempty t) as Hne.
  destruct (split_slash t); [contradiction | reflexivity].
Qed.

Lemma split_join (segs : list string) :
  segs <> [] -> forallb noSlash segs = true ->
  split_slash (JS.join "/" segs) = segs.
Proof.
  induction segs as [|x [|y ys] IH]; intros Hne H; [contradiction| |].
  - simpl in *. rewrite andb_true_r in H. apply split_slash_noSlash. exact H.
  - change (JS.join "/" (x :: y :: ys))
      with (x ++ String "/" (JS.join "/" (y :: ys)))%string.
    simpl in H. apply andb_true_iff in H. destruct H as [Hx H].
    rewrite split_slash_app, (split_slash_noSlash _ Hx), IH;
      [reflexivity | discriminate | exact H].
Qed.

Lemma join_app (xs ys : list string) :
  xs <> [] -> ys <> [] ->
  JS.join "/" (xs ++ ys)
  = (JS.join "/" xs ++ String "/" (JS.join "/" ys))%string.
Proof.
  induction xs as [|x [|x' xs] IH]; intros Hx Hy; [contradiction| |].
  - destruct ys; [contradiction | reflexivity].
  - change (JS.join "/" ((x :: x' :: xs) ++ ys))
      with (x ++ String "/" (JS.join "/" ((x' :: xs) ++ ys)))%string.
    rewrite IH by (discriminate || exact Hy).
    change (JS.join "/" (x :: x' :: xs))
      with (x ++ String "/" (JS.join "/" (x' :: xs)))%string.
    rewrite append_assoc. reflexivity.
Qed.

Lemma isName_nonempty (s : string) : isName s = true -> s <> "".
Proof. intros H ->. discriminate. Qed.

Lemma join_nonempty (segs : list string) :
  segs <> [] -> (forall s, In s segs -> s <> "") ->
  JS.join "/" segs <> "".
Proof.
  destruct segs as [|x [|y ys]]; intros Hne H; [contradiction| |].
  - simpl. apply H. left. reflexivity.
  - change (JS.join "/" (x :: y :: ys))
      with (x ++ String "/" (JS.join "/" (y :: ys)))%string.
    destruct x; discriminate.
Qed.

Lemma length_zero (s : string) : (String.length s =? 0) = true <-> s = "".
Proof. destruct s; simpl; split; congruence. Qed.

Lemma startsWith_app (a b : string) : startsWith (a ++ b) a = true.
Proof.
  unfold startsWith. apply prefix_correct. apply substring_prefix.
Qed.

Lemma endsWith_slash_app (a x : string) :
  x <> "" -> endsWith (a ++ x) "/" = endsWith x "/".
Proof.
  intros Hx. unfold endsWith. rewrite append_length.
  assert (Hl : 1 <= String.length x) by (destruct x; simpl; [congruence | lia]).
  cbn [String.length].
  replace (1 <=? String.length a + String.length x) with true
    by (symmetry; apply Nat.leb_le; lia).
  replace (1 <=? String.length x) with true
    by (symmetry; apply Nat.leb_le; lia).
  f_equal. f_equal.
  induction a as [|c a IH]; simpl; [reflexivity|].
  replace (String.length a + String.length x - 0)
    with (S (String.length a + String.length x - 1)) by lia.
  exact IH.
Qed.

(** ** Normalizing an absolute path *)

Lemma rev_nonempty {A} (l : list A) : l <> [] -> List.rev l <> [].
Proof.
  destruct l; [contradiction|]. simpl. intros _ H.
  apply app_eq_nil in H. destruct H as [_ H]. discriminate.
Qed.

Lemma names_nonempty (l : list string) (s : string) :
  forallb isName l = true -> In s l -> s <> "".
Proof.
  intros H Hin. apply isName_nonempty.
  rewrite forallb_forall in H. apply H. exact Hin.
Qed.

Lemma normalize_absolute (s : string) :
  startsWith s "/" = true ->
  normalize s
  = render (pushSegments false [] (split_slash s)) (endsWith s "/").
Proof.
  intros Habs. unfold normalize, normalizeString.
  destruct (String.length s =? 0) eqn:Hlen.
  { apply length_zero in Hlen. subst s. discriminate. }
  rewrite Habs. cbn [negb].
  pose proof (@pushSegments_names (split_slash s) [] eq_refl) as Hn.
  set (stack := pushSegments false [] (split_slash s)) in *.
  destruct stack as [|top below] eqn:Hst; [reflexivity|].
  assert (Hj : JS.join "/" (List.rev (top :: below)) <> "").
  { apply join_nonempty; [apply rev_nonempty; discriminate|].
    intros x Hx. apply in_rev in Hx. eapply names_nonempty; eassumption. }
  destruct (String.length (JS.join "/" (List.rev (top :: below))) =? 0) eqn:Hz.
  { apply length_zero in Hz. contradiction. }
  unfold render. destruct (endsWith s "/"); [reflexivity|].
  rewrite append_nil_r. reflexivity.
Qed.

(** ** The tmp directory *)

Lemma startsWith_slash (s : string) :
  startsWith s "/" = true <-> exists t, s = String "/" t.
Proof.
  unfold startsWith. rewrite prefix_correct.
  destruct s as [|c t]; cbn [String.length substring].
  - split; [discriminate | intros [t H]; discriminate].
  - replace (substring 0 0 t) with "" by (destruct t; reflexivity).
    split.
    + intros H. injection H as ->. eauto.
    + intros [t' H]. injection H as -> _. reflexivity.
Qed.

Lemma truthy_absolute (s : string) : startsWith s "/" = true -> truthy s = true.
Proof. intros H. apply startsWith_slash in H. destruct H as [t ->]. reflexivity. Qed.

Lemma startsWith_slash_app (a b : string) :
  startsWith a "/" = true -> startsWith (a ++ b) "/" = true.
Proof.
  intros H. apply startsWith_slash in H. destruct H as [t ->].
  apply startsWith_slash. eexists. reflexivity.
Qed.

Lemma pushSegments_noSlash (a : bool) (segs stack : list string) :
  forallb noSlash stack = true -> forallb noSlash segs = true ->
  forallb noSlash (pushSegments a stack segs) = true.
Proof.
  revert stack. induction segs as [|x xs IH]; intros stack Hs Hx; simpl;
    [exact Hs|].
  simpl in Hx. apply andb_true_iff in Hx. destruct Hx as [Hx Hxs].
  destruct (String.eqb x "" || String.eqb x "."); [apply IH; assumption|].
  destruct (String.eqb x "..").
  - destruct stack as [|top below].
    + apply IH; [destruct a; reflexivity | exact Hxs].
    + simpl in Hs. apply andb_true_iff in Hs. destruct Hs as [Ht Hb].
      destruct (String.eqb top ".."); apply IH; try assumption.
      destruct a; simpl; rewrite Ht, Hb; reflexivity.
  - apply IH; [|exact Hxs]. simpl. rewrite Hx, Hs. reflexivity.
Qed.

Lemma tmpStack_names (cwd : string) : forallb isName (tmpStack cwd) = true.
Proof.
  unfold tmpStack. simpl. apply pushSegments_names. reflexivity.
Qed.

Lemma tmpStack_noSlash (cwd : string) : forallb noSlash (tmpStack cwd) = true.
Proof.
  unfold tmpStack. simpl. apply pushSegments_noSlash; [reflexivity|].
  apply split_slash_segments.
Qed.

Lemma endsWith_tmp (cwd : string) :
  endsWith (cwd ++ String "/" "tmp") "/" = false.
Proof.
  change (cwd ++ String "/" "tmp")%string with (cwd ++ "/tmp")%string.
  rewrite endsWith_slash_app by discriminate. reflexivity.
Qed.

Lemma tmpDir_render (cwd : string) :
  startsWith cwd "/" = true ->
  tmpDir cwd = ("/" ++ JS.join "/" (List.rev (tmpStack cwd)))%string.
Proof.
  intros Habs. unfold tmpDir, join. cbn [filter].
  rewrite (truthy_absolute _ Habs). cbn [truthy filter].
  change (JS.join "/" [cwd; "tmp"]) with (cwd ++ String "/" "tmp")%string.
  rewrite normalize_absolute by (apply startsWith_slash_app; exact Habs).
  rewrite endsWith_tmp, split_slash_app, pushSegments_app.
  change (split_slash "tmp") with ["tmp"].
  change (pushSegments false (pushSegments false [] (split_slash cwd)) ["tmp"])
    with (tmpStack cwd).
  unfold render, tmpStack. rewrite append_nil_r. reflexivity.
Qed.

(** The segments of the tmp directory. *)
Lemma split_tmpDir (cwd : string) :
  startsWith cwd "/" = true ->
  split_slash (tmpDir cwd) = "" :: List.rev (tmpStack cwd).
Proof.
  intros Habs. rewrite (tmpDir_render _ Habs).
  change ("/" ++ JS.join "/" (List.rev (tmpStack cwd)))%string
    with (String "/" (JS.join "/" (List.rev (tmpStack cwd)))).
  rewrite split_slash_cons. cbn [Ascii.eqb Bool.eqb].
  rewrite split_join; [reflexivity| |].
  - apply rev_nonempty. discriminate.
  - rewrite forallb_forall. intros x Hx. apply in_rev in Hx.
    pose proof (tmpStack_noSlash cwd) as H. rewrite forallb_forall in H. auto.
Qed.

Lemma filter_names (l : list string) :
  forallb isName l = true -> filter isName l = l.
Proof.
  induction l as [|x l IH]; simpl; [reflexivity|].
  intros H. apply andb_true_iff in H. destruct H as [Hx Hl].
  rewrite Hx, IH by exact Hl. reflexivity.
Qed.

Lemma names_notParent (l : list string) :
  forallb isName l = true -> forallb notParent l = true.
Proof.
  induction l as [|x l IH]; simpl; [reflexivity|].
  intros H. apply andb_true_iff in H. destruct H as [Hx Hl].
  rewrite IH by exact Hl. rewrite andb_true_r.
  unfold isName in Hx. unfold notParent.
  destruct (String.eqb x ".."); [|reflexivity].
  rewrite !orb_true_r in Hx. discriminate.
Qed.

Lemma forallb_rev {A} (f : A -> bool) (l : list A) :
  forallb f l = true -> forallb f (List.rev l) = true.
Proof.
  rewrite !forallb_forall. intros H x Hx. apply H, in_rev. exact Hx.
Qed.

(** Pushing the tmp directory's own segments gives its stack back. *)
Lemma push_tmpDir (cwd : string) :
  startsWith cwd "/" = true ->
  pushSegments false [] (split_slash (tmpDir cwd)) = tmpStack cwd.
Proof.
  intros Habs. rewrite (split_tmpDir _ Habs).
  change (pushSegments false [] ("" :: List.rev (tmpStack cwd)))
    with (pushSegments false [] (List.rev (tmpStack cwd))).
  pose proof (forallb_rev _ _ (tmpStack_names cwd)) as Hn.
  rewrite pushSegments_noParent by (apply names_notParent; exact Hn).
  rewrite (filter_names _ Hn), rev_involutive, app_nil_r. reflexivity.
Qed.

Lemma endsWith_tmpDir (cwd : string) :
  startsWith cwd "/" = true -> endsWith (tmpDir cwd) "/" = false.
Proof.
  intros Habs. rewrite (tmpDir_render _ Habs). unfold tmpStack.
  cbn [List.rev].
  destruct (List.rev (pushSegments false [] (split_slash cwd))) as [|y ys] eqn:Hr.
  - reflexivity.
  - rewrite join_app by discriminate.
    change (JS.join "/" ["tmp"]) with "tmp".
    rewrite <- append_assoc.
    change (String "/" "tmp") with "/tmp".
    rewrite endsWith_slash_app by discriminate. reflexivity.
Qed.

(** What a path joined to the tmp directory resolves to. *)
Lemma join_tmpDir (cwd x : string) :
  startsWith cwd "/" = true ->
  join [tmpDir cwd; x]
  = render (pushSegments false (tmpStack cwd) (split_slash x))
      (truthy x && endsWith x "/").
Proof.
  intros Habs.
  assert (Ht : startsWith (tmpDir cwd) "/" = true).
  { rewrite (tmpDir_render _ Habs). apply startsWith_slash. eexists.
    reflexivity. }
  unfold join. cbn [filter]. rewrite (truthy_absolute _ Ht).
  destruct (truthy x) eqn:Hx.
  - change (JS.join "/" [tmpDir cwd; x])
      with (tmpDir cwd ++ String "/" x)%string.
    rewrite normalize_absolute by (apply startsWith_slash_app; exact Ht).
    rewrite split_slash_app, pushSegments_app, (push_tmpDir _ Habs).
    change (tmpDir cwd ++ String "/" x)%string
      with (tmpDir cwd ++ ("/" ++ x))%string.
    rewrite <- append_assoc, endsWith_slash_app
      by (destruct x; discriminate).
    reflexivity.
  - destruct x; [|discriminate].
    change (JS.join "/" [tmpDir cwd]) with (tmpDir cwd).
    rewrite normalize_absolute by exact Ht.
    rewrite (push_tmpDir _ Habs), (endsWith_tmpDir _ Habs). reflexivity.
Qed.

(** The three-argument form the search and replace routes use. *)
Lemma join_cwd_tmp (cwd x : string) :
  startsWith cwd "/" = true ->
  join [cwd; "tmp"; x] = join [tmpDir cwd; x].
Proof.
  intros Habs. rewrite (@join_tmpDir cwd x Habs).
  unfold join. cbn [filter]. rewrite (truthy_absolute _ Habs). cbn [truthy].
  destruct (truthy x) eqn:Hx; cbn [filter andb].
  - change (JS.join "/" [cwd; "tmp"; x])
      with (cwd ++ String "/" ("tmp" ++ String "/" x))%string.
    rewrite normalize_absolute by (apply startsWith_slash_app; exact Habs).
    rewrite !split_slash_app, !pushSegments_app.
    change (pushSegments false (pushSegments false [] (split_slash cwd))
              (split_slash "tmp")) with (tmpStack cwd).
    change (cwd ++ String "/" ("tmp" ++ String "/" x))%string
      with (cwd ++ ("/tmp/" ++ x))%string.
    rewrite <- append_assoc, endsWith_slash_app
      by (destruct x; discriminate).
    reflexivity.
  - destruct x; [|discriminate].
    cbn [split_slash pushSegments String.eqb orb].
    transitivity (tmpDir cwd).
    + unfold tmpDir, join. cbn [filter].
      rewrite (truthy_absolute _ Habs). reflexivity.
    + rewrite (tmpDir_render _ Habs). unfold render, tmpStack.
      rewrite append_nil_r. reflexivity.
Qed.

(** ** Inside the tmp directory *)

Lemma within_app (dir rest : string) :
  rest = "" \/ startsWith rest "/" = true -> Within dir (dir ++ rest).
Proof.
  intros [->|H].
  - left. apply append_nil_r.
  - right. apply startsWith_slash in H. destruct H as [t ->].
    change (dir ++ String "/" t)%string with (dir ++ ("/" ++ t))%string.
    rewrite <- append_assoc. apply startsWith_app.
Qed.

Lemma render_within (cwd : string) (segs : list string) (trailing : bool) :
  startsWith cwd "/" = true ->
  forallb notParent segs = true ->
  Within (tmpDir cwd)
    (render (pushSegments false (tmpStack cwd) segs) trailing).
Proof.
  intros Habs Hsegs. rewrite (pushSegments_noParent _ _ _ Hsegs).
  rewrite (tmpDir_render _ Habs).
  set (T := List.rev (tmpStack cwd)).
  assert (HT : T <> []) by (apply rev_nonempty; discriminate).
  unfold render.
  destruct (List.rev (filter isName segs) ++ tmpStack cwd) as [|top below] eqn:Hst.
  { apply app_eq_nil in Hst. destruct Hst as [_ Hst]. discriminate. }
  rewrite <- Hst, rev_app_distr, rev_involutive. fold T.
  destruct (filter isName segs) as [|f fs].
  - rewrite app_nil_r, <- append_assoc. apply within_app.
    destruct trailing; [right; reflexivity | left; reflexivity].
  - rewrite join_app by (assumption || discriminate).
    rewrite append_assoc, <- (append_assoc "/" (JS.join "/" T)).
    apply within_app. right. apply startsWith_slash. eexists. reflexivity.
Qed.

(** ** What [normalize] and the stripping leave *)

Lemma leading_none (segs : list string) :
  forallb notParent segs = true -> LeadingParents segs.
Proof. intros H. exists 0, segs. auto. Qed.

Lemma leading_tail (segs : list string) :
  LeadingParents (".." :: segs) -> LeadingParents segs.
Proof.
  intros (k & rest & Heq & Hr). destruct k as [|k]; simpl in Heq.
  - subst rest. discriminate.
  - injection Heq as ->. exists k, rest. auto.
Qed.

Lemma leading_head (x : string) (segs : list string) :
  x <> ".." -> LeadingParents (x :: segs) ->
  forallb notParent (x :: segs) = true.
Proof.
  intros Hx (k & rest & Heq & Hr). destruct k as [|k]; simpl in Heq.
  - subst rest. exact Hr.
  - injection Heq as -> _. contradiction.
Qed.

Lemma leading_any (x : string) (segs : list string) :
  forallb notParent segs = true -> LeadingParents (x :: segs).
Proof.
  intros H. destruct (String.eqb x "..") eqn:Hx.
  - apply String.eqb_eq in Hx. subst x. exists 1, segs. auto.
  - exists 0, (x :: segs). split; [reflexivity|]. simpl.
    unfold notParent at 1. rewrite Hx. exact H.
Qed.

Lemma split_slash_hd_tl (s : string) :
  split_slash s = hd "" (split_slash s) :: tl (split_slash s).
Proof.
  pose proof (split_slash_nonempty s). destruct (split_slash s);
    [contradiction | reflexivity].
Qed.

Lemma stripParents_leading (n : nat) :
  forall s, String.length s <= n ->
    LeadingParents (split_slash s) ->
    forallb notParent (split_slash (stripParents s)) = true.
Proof.
  induction n as [|n IH]; intros s Hlen Hlead.
  - destruct s; [reflexivity | simpl in Hlen; lia].
  - destruct s as [|a [|b rest]].
    + reflexivity.
    + cbn [stripParents]. simpl in Hlead |- *.
      destruct (Ascii.eqb a "/");
        (apply leading_head in Hlead; [exact Hlead | discriminate]).
    + cbn [stripParents].
      destruct (Ascii.eqb a "." && Ascii.eqb b ".") eqn:Hdots.
      * apply andb_true_iff in Hdots. destruct Hdots as [Ha Hb].
        apply Ascii.eqb_eq in Ha, Hb. subst a b.
        destruct rest as [|c t]; [reflexivity|].
        rewrite !split_slash_cons in Hlead.
        cbn [Ascii.eqb Bool.eqb hd tl] in Hlead.
        destruct (Ascii.eqb c "/") eqn:Hc.
        -- cbn [orb hd tl] in *. apply IH; [simpl in Hlen; lia|].
           apply leading_tail. exact Hlead.
        -- cbn [orb hd tl] in *.
           destruct (Ascii.eqb c (ascii_of_nat 92)) eqn:Hb.
           ++ apply IH; [simpl in Hlen; lia|].
              apply leading_head in Hlead; [|discriminate].
              cbn [forallb] in Hlead. apply andb_true_iff in Hlead.
              destruct Hlead as [_ Htl].
              rewrite (split_slash_hd_tl t). apply leading_any. exact Htl.
           ++ rewrite !split_slash_cons. cbn [Ascii.eqb Bool.eqb hd tl].
              rewrite Hc. cbn [hd tl].
              apply leading_head in Hlead; [exact Hlead | discriminate].
      * rewrite (split_slash_cons a), (split_slash_cons b) in Hlead |- *.
        destruct (Ascii.eqb a "/") eqn:Ha.
        -- apply leading_head in Hlead; [exact Hlead | discriminate].
        -- destruct (Ascii.eqb b "/") eqn:Hb; cbn [hd tl] in Hlead |- *.
           ++ apply leading_head in Hlead; [exact Hlead | discriminate].
           ++ apply leading_head in Hlead; [exact Hlead|].
              intros H. injection H as -> -> _. discriminate.
Qed.

Lemma rev_repeat_same {A} (x : A) (k : nat) :
  List.rev (repeat x k) = repeat x k.
Proof.
  induction k as [|k IH]; simpl; [reflexivity|].
  rewrite IH. clear IH. induction k as [|k IH]; simpl; [reflexivity|].
  rewrite IH. reflexivity.
Qed.

Lemma split_trailing (s : string) :
  split_slash (s ++ "/") = split_slash s ++ [""].
Proof.
  change (s ++ "/")%string with (s ++ String "/" "")%string.
  apply split_slash_app.
Qed.

Lemma forallb_app_true {A} (f : A -> bool) (a b : list A) :
  forallb f a = true -> forallb f b = true -> forallb f (a ++ b) = true.
Proof. intros Ha Hb. rewrite forallb_app, Ha, Hb. reflexivity. Qed.

Lemma normalize_leading (p : string) :
  LeadingParents (split_slash (normalize p)).
Proof.
  destruct (startsWith p "/") eqn:Habs.
  - (* absolute: no parent is left at all *)
    apply leading_none. rewrite (normalize_absolute _ Habs).
    pose proof (@pushSegments_names (split_slash p) [] eq_refl) as Hn.
    pose proof (@pushSegments_noSlash false (split_slash p) [] eq_refl
                  (split_slash_segments p)) as Hs.
    set (stack := pushSegments false [] (split_slash p)) in *.
    unfold render. destruct stack as [|top below] eqn:Hst; [reflexivity|].
    rewrite <- Hst in *.
    change ("/" ++ JS.join "/" (List.rev stack)
            ++ (if endsWith p "/" then "/" else ""))%string
      with (String "/" (JS.join "/" (List.rev stack)
                        ++ (if endsWith p "/" then "/" else ""))).
    rewrite split_slash_cons. cbn [Ascii.eqb Bool.eqb forallb].
    assert (Hsplit : split_slash (JS.join "/" (List.rev stack)) = List.rev stack).
    { apply split_join; [apply rev_nonempty; rewrite Hst; discriminate|].
      apply forallb_rev. exact Hs. }
    assert (Hrev : forallb notParent (List.rev stack) = true).
    { apply names_notParent, forallb_rev. exact Hn. }
    destruct (endsWith p "/").
    + rewrite split_trailing, Hsplit. apply forallb_app_true; auto.
    + rewrite append_nil_r, Hsplit. exact Hrev.
  - (* relative: the parents come first *)
    unfold normalize, normalizeString. rewrite Habs. cbn [negb].
    destruct (String.length p =? 0); [apply leading_none; reflexivity|].
    assert (Hc : Climbing (pushSegments true [] (split_slash p))).
    { apply pushSegments_climbing. exists [], 0. split; reflexivity. }
    pose proof (@pushSegments_noSlash true (split_slash p) [] eq_refl
                  (split_slash_segments p)) as Hs.
    set (stack := pushSegments true [] (split_slash p)) in *.
    destruct (String.length (JS.join "/" (List.rev stack)) =? 0) eqn:Hz.
    { apply leading_none. destruct (endsWith p "/"); reflexivity. }
    assert (Hne : stack <> []).
    { intros H. rewrite H in Hz. discriminate. }
    assert (Hsplit : split_slash (JS.join "/" (List.rev stack)) = List.rev stack).
    { apply split_join; [apply rev_nonempty; exact Hne|].
      apply forallb_rev. exact Hs. }
    destruct Hc as (names & k & Hst & Hn).
    assert (Hrev : List.rev stack = repeat ".." k ++ List.rev names).
    { rewrite Hst, rev_app_distr, rev_repeat_same. reflexivity. }
    assert (Hnp : forallb notParent (List.rev names) = true).
    { apply names_notParent, forallb_rev. exact Hn. }
    destruct (endsWith p "/").
    + rewrite split_trailing, Hsplit, Hrev, <- app_assoc.
      exists k, (List.rev names ++ [""]). split; [reflexivity|].
      apply forallb_app_true; auto.
    + rewrite Hsplit, Hrev. exists k, (List.rev names). auto.
Qed.

Lemma prefix_app_l (a b p : string) :
  String.prefix (a ++ b) p = true -> String.prefix a p = true.
Proof.
  revert p. induction a as [|c a IH]; intros p; cbn [append].
  - intros _. destruct p; reflexivity.
  - destruct p as [|d p]; cbn [String.prefix]; [discriminate|].
    destruct (ascii_dec c d); [apply IH | discriminate].
Qed.

Lemma within_startsWith (dir p : string) :
  Within dir p -> startsWith p dir = true.
Proof.
  intros [-> | H].
  - apply prefix_correct, substring_whole.
  - unfold startsWith in *. eapply prefix_app_l. exact H.
Qed.

Lemma file_parameter_stays_inside_tmp (cwd fileParam : string) :
  startsWith cwd "/" = true ->
  let filePath := join [tmpDir cwd; safePathOf fileParam] in
  Within (tmpDir cwd) filePath
  /\ startsWith filePath (tmpDir cwd) = true
  /\ join [cwd; "tmp"; safePathOf fileParam] = filePath.
Proof.
  intros Habs filePath.
  assert (Hw : Within (tmpDir cwd) filePath).
  { unfold filePath. rewrite (@join_tmpDir cwd _ Habs).
    apply render_within; [exact Habs|].
    apply (stripParents_leading (n := String.length (normalize fileParam)));
      [apply Nat.le_refl | apply normalize_leading]. }
  split; [exact Hw|]. split.
  - apply within_startsWith. exact Hw.
  - apply join_cwd_tmp. exact Habs.
Qed.

(** X9. The path the routes read a local file from,
    [path.join(process.cwd(), 'tmp', safePath)] with [safePath] the
    normalized file parameter without its leading [..] segments, is the
    tmp directory or lies below it, whatever the file parameter is. *)
Theorem local_file_path_stays_inside_tmp (cwd fileParam : string) :
  startsWith cwd "/" = true ->
  let safePath := stripParents (normalize fileParam) in
  let filePath := join [cwd; "tmp"; safePath] in
  Within (join [cwd; "tmp"]) filePath
  /\ startsWith filePath (join [cwd; "tmp"]) = true.
Proof.
  intros Habs safePath filePath.
  destruct (@file_parameter_stays_inside_tmp cwd fileParam Habs)
    as (Hw & Hs & Hj).
  cbv zeta in Hw, Hs, Hj. unfold filePath, safePath.
  fold (safePathOf fileParam). fold (tmpDir cwd). rewrite Hj. auto.
Qed.

(** A parameter that climbs. *)
Lemma local_file_path_witness :
  startsWith "/srv/app" "/" = true
  /\ Within (join ["/srv/app"; "tmp"])
       (join ["/srv/app"; "tmp";
              stripParents (normalize "a/../../../etc/passwd")])
  /\ startsWith
       (join ["/srv/app"; "tmp";
              stripParents (normalize "a/../../../etc/passwd")])
       (join ["/srv/app"; "tmp"]) = true.
Proof.
  split; [reflexivity|].
  apply (@local_file_path_stays_inside_tmp "/srv/app"
           "a/../../../etc/passwd").
  reflexivity.
Defined.

End PathFacts.

(* ================================================================== *)
(** * Saving, uploading and downloading *)
(* ================================================================== *)

Module TransferFacts.

Import Properties ModeFacts NamingFacts PathFacts.
Import JS Csv FileProcessor Pipeline Spec Scan BundleFacts.
Import Path Transfer.

Lemma safeChar_plain (c : ascii) : isPlainChar (safeChar c) = true.
Proof. destruct c as [[] [] [] [] [] [] [] []]; reflexivity. Qed.

Lemma encodeChar_plain (c : ascii) :
  isPlainChar c = true -> encodeChar c = String c "".
Proof.
  destruct c as [[] [] [] [] [] [] [] []]; intros H;
    try reflexivity; discriminate H.
Qed.

Lemma plainChar_noSlash (c : ascii) :
  isPlainChar c = true -> Ascii.eqb c "/" = false.
Proof.
  destruct c as [[] [] [] [] [] [] [] []]; intros H;
    try reflexivity; discriminate H.
Qed.

Lemma isPlain_app (a b : string) :
  isPlain (a ++ b) = isPlain a && isPlain b.
Proof.
  induction a as [|c a IH]; simpl; [reflexivity|].
  rewrite IH, andb_assoc. reflexivity.
Qed.

Lemma isPlain_safeName (s : string) : isPlain (safeName s) = true.
Proof.
  induction s as [|c s IH]; simpl; [reflexivity|].
  rewrite safeChar_plain, IH. reflexivity.
Qed.

Lemma isPlain_digits (d : uint) :
  isPlain (NilEmpty.string_of_uint d) = true.
Proof. induction d; simpl; auto. Qed.

Lemma isPlain_decimal (n : nat) : isPlain (decimal n) = true.
Proof.
  unfold decimal, NilZero.string_of_uint.
  destruct (Nat.to_uint n); try reflexivity; apply isPlain_digits.
Qed.

Lemma isPlain_noSlash (s : string) : isPlain s = true -> noSlash s = true.
Proof.
  induction s as [|c s IH]; simpl; [reflexivity|].
  intros H. apply andb_true_iff in H. destruct H as [Hc Hs].
  rewrite (plainChar_noSlash _ Hc), IH by exact Hs. reflexivity.
Qed.

Lemma encode_plain (s : string) :
  isPlain s = true -> encodeURIComponent s = s.
Proof.
  induction s as [|c s IH]; simpl; [reflexivity|].
  intros H. apply andb_true_iff in H. destruct H as [Hc Hs].
  rewrite (encodeChar_plain _ Hc), IH by exact Hs. reflexivity.
Qed.

Lemma leafOf_plain (ts : nat) (name : string) : isPlain (leafOf ts name) = true.
Proof.
  unfold leafOf. rewrite !isPlain_app, isPlain_decimal, isPlain_safeName.
  reflexivity.
Qed.

Lemma decimal_head (n : nat) :
  exists d rest, decimal n = String d rest /\ isDigit d = true.
Proof.
  unfold decimal, NilZero.string_of_uint.
  destruct (Nat.to_uint n); simpl; eexists _, _; split; reflexivity.
Qed.

Lemma leafOf_head (ts : nat) (name : string) :
  exists d rest, leafOf ts name = String d rest /\ isDigit d = true.
Proof.
  unfold leafOf. destruct (decimal_head ts) as (d & rest & -> & Hd).
  simpl. eauto.
Qed.

Lemma digit_name (d : ascii) (rest : string) :
  isDigit d = true -> isName (String d rest) = true.
Proof.
  destruct d as [[] [] [] [] [] [] [] []]; intros H;
    try discriminate H; reflexivity.
Qed.

Lemma digit_stripParents (d : ascii) (rest : string) :
  isDigit d = true -> stripParents (String d rest) = String d rest.
Proof.
  intros H. destruct rest as [|b rest]; [reflexivity|].
  cbn [stripParents].
  replace (Ascii.eqb d ".") with false; [reflexivity|].
  destruct d as [[] [] [] [] [] [] [] []]; try discriminate H; reflexivity.
Qed.

(** ** A single name below the tmp directory *)

Lemma noSlash_includes (s : string) :
  noSlash s = true -> includes s "/" = false.
Proof.
  induction s as [|c s IH]; [reflexivity|].
  intros H. simpl in H. apply andb_true_iff in H. destruct H as [Hc Hs].
  apply negb_true_iff in Hc.
  cbn [includes]. rewrite (IH Hs), orb_false_r.
  destruct (String.prefix "/" (String c s)) eqn:Hp; [|reflexivity].
  apply (proj1 (startsWith_slash (String c s))) in Hp.
  destruct Hp as [t Hp]. injection Hp as -> _. discriminate.
Qed.

Lemma noSlash_endsWith (s : string) :
  noSlash s = true -> endsWith s "/" = false.
Proof.
  intros H. destruct (endsWith s "/") eqn:He; [|reflexivity].
  apply endsWith_includes in He. rewrite (noSlash_includes _ H) in He.
  discriminate.
Qed.

Lemma noSlash_startsWith (s : string) :
  noSlash s = true -> startsWith s "/" = false.
Proof.
  intros H. destruct (startsWith s "/") eqn:He; [|reflexivity].
  apply startsWith_includes in He. rewrite (noSlash_includes _ H) in He.
  discriminate.
Qed.

Lemma isName_split (leaf : string) :
  isName leaf = true ->
  (String.eqb leaf "" || String.eqb leaf ".") = false
  /\ String.eqb leaf ".." = false.
Proof.
  unfold isName. intros H. apply negb_true_iff in H.
  apply orb_false_iff in H. destruct H as [H ->]. auto.
Qed.

Lemma normalize_name (leaf : string) :
  isName leaf = true -> noSlash leaf = true -> normalize leaf = leaf.
Proof.
  intros Hn Hs. unfold normalize, normalizeString.
  destruct (isName_split _ Hn) as [H1 H2].
  assert (Hne : leaf <> "") by (apply isName_nonempty; exact Hn).
  destruct (String.length leaf =? 0) eqn:Hz.
  { apply length_zero in Hz. contradiction. }
  rewrite (noSlash_startsWith _ Hs), (noSlash_endsWith _ Hs).
  rewrite (split_slash_noSlash _ Hs). cbn [negb pushSegments].
  rewrite H1, H2. cbn [List.rev List.app JS.join]. rewrite Hz. reflexivity.
Qed.

Lemma join_name (cwd leaf : string) :
  startsWith cwd "/" = true ->
  isName leaf = true -> noSlash leaf = true ->
  join [tmpDir cwd; leaf] = (tmpDir cwd ++ "/" ++ leaf)%string.
Proof.
  intros Habs Hn Hs. rewrite (@join_tmpDir cwd leaf Habs).
  destruct (isName_split _ Hn) as [H1 H2].
  rewrite (split_slash_noSlash _ Hs). cbn [pushSegments].
  rewrite H1, H2, (noSlash_endsWith _ Hs), andb_false_r.
  unfold render. rewrite append_nil_r.
  rewrite (tmpDir_render _ Habs). cbn [List.rev].
  rewrite join_app by (try discriminate; apply rev_nonempty; discriminate).
  rewrite append_assoc. reflexivity.
Qed.

Lemma filter_app_last {A} (f : A -> bool) (l : list A) (x : A) :
  f x = true -> filter f (l ++ [x]) = filter f l ++ [x].
Proof. intros H. rewrite filter_app. simpl. rewrite H. reflexivity. Qed.

Lemma basename_leaf (dir leaf : string) :
  noSlash leaf = true -> leaf <> "" ->
  basename (dir ++ "/" ++ leaf) = leaf.
Proof.
  intros Hs Hne. unfold basename.
  change (dir ++ "/" ++ leaf)%string with (dir ++ String "/" leaf)%string.
  rewrite split_slash_app, (split_slash_noSlash _ Hs).
  rewrite filter_app_last by (destruct leaf; [contradiction | reflexivity]).
  apply last_last.
Qed.

(** The locator of a plain leaf is the leaf itself after the
    parameter's name. *)
Lemma getDownloadUrl_plain (dir leaf : string) :
  isPlain leaf = true ->
  getDownloadUrl dir (dir ++ "/" ++ leaf)
  = ("/api/download?file=" ++ leaf)%string.
Proof.
  intros H. unfold getDownloadUrl.
  change (dir ++ "/" ++ leaf)%string with (path_join dir leaf).
  rewrite path_relative_join, (encode_plain _ H). reflexivity.
Qed.

(** ** Serving a leaf *)

Lemma endsWith_tail (a e n : string) :
  String.length e = String.length n ->
  endsWith (a ++ e) n = String.eqb e n.
Proof.
  intros Hl. unfold endsWith. rewrite append_length, Hl.
  replace (String.length n <=? String.length a + String.length n) with true
    by (symmetry; apply Nat.leb_le; lia).
  replace (String.length a + String.length n - String.length n)
    with (String.length a) by lia.
  rewrite <- Hl, substring_suffix. reflexivity.
Qed.

Lemma safeName_app (a b : string) :
  safeName (a ++ b) = (safeName a ++ safeName b)%string.
Proof.
  induction a as [|c a IH]; simpl; [reflexivity | rewrite IH; reflexivity].
Qed.

Lemma safeName_length (s : string) :
  String.length (safeName s) = String.length s.
Proof.
  induction s as [|c s IH]; simpl; [reflexivity | rewrite IH; reflexivity].
Qed.

Lemma endsWith_split (s n : string) :
  endsWith s n = true -> exists a, s = (a ++ n)%string.
Proof.
  unfold endsWith. intros H. apply andb_true_iff in H. destruct H as [Hl He].
  apply Nat.leb_le in Hl. apply String.eqb_eq in He.
  exists (substring 0 (String.length s - String.length n) s).
  rewrite <- He at 2. clear He.
  remember (String.length s - String.length n) as k eqn:Hk.
  assert (Hlen : String.length s = k + String.length n) by lia.
  clear Hk Hl. revert s Hlen. induction k as [|k IH]; intros s Hlen.
  - simpl in Hlen. rewrite <- Hlen, substring_whole.
    destruct s; reflexivity.
  - destruct s as [|c s]; [discriminate|]. simpl in Hlen.
    injection Hlen as Hlen. simpl. rewrite <- (IH s Hlen). reflexivity.
Qed.

Lemma toLowerCase_split (s a b : string) :
  toLowerCase s = (a ++ b)%string ->
  exists s1 s2, s = (s1 ++ s2)%string
                /\ toLowerCase s1 = a /\ toLowerCase s2 = b.
Proof.
  revert s. induction a as [|c a IH]; intros s H.
  - exists "", s. auto.
  - destruct s as [|d s]; [discriminate|]. simpl in H.
    injection H as Hc Hs. destruct (IH s Hs) as (s1 & s2 & -> & H1 & H2).
    exists (String d s1), s2. simpl. rewrite Hc, H1. auto.
Qed.

Lemma lower_c_not_z (c : ascii) :
  toLowerCase_char c = "c"%char -> safeChar c <> "z"%char.
Proof.
  destruct c as [[] [] [] [] [] [] [] []]; intros H; try discriminate H;
    discriminate.
Qed.

(** A stored name that ended in [.csv], in whatever case, does not end
    in [.zip]. *)
Lemma csv_not_zip (pre name : string) :
  endsWith (toLowerCase name) ".csv" = true ->
  endsWith (pre ++ safeName name) ".zip" = false.
Proof.
  intros H. apply endsWith_split in H. destruct H as [a H].
  apply toLowerCase_split in H. destruct H as (stem & ext & -> & _ & Hext).
  rewrite safeName_app, <- append_assoc.
  assert (Hlen : String.length ext = 4).
  { rewrite <- toLowerCase_length, Hext. reflexivity. }
  rewrite endsWith_tail by (rewrite safeName_length; exact Hlen).
  destruct ext as [|c1 [|c2 ext]]; try discriminate.
  simpl in Hext. injection Hext as _ H2 _.
  apply lower_c_not_z in H2.
  destruct (String.eqb (safeName (String c1 (String c2 ext))) ".zip") eqn:He;
    [|reflexivity].
  apply String.eqb_eq in He. simpl in He. injection He as _ He _.
  contradiction.
Qed.

Lemma replaced_not_zip (pre path_ : string) :
  endsWith (pre ++ safeName (replacedFileName path_)) ".zip" = false.
Proof.
  unfold replacedFileName. rewrite safeName_app, <- append_assoc.
  change (safeName "_replaced.csv") with ("_replaced" ++ ".csv")%string.
  rewrite <- append_assoc. apply endsWith_tail. reflexivity.
Qed.

Lemma leaf_csv_not_zip (ts : nat) (name : string) :
  endsWith (toLowerCase name) ".csv" = true ->
  endsWith (leafOf ts name) ".zip" = false.
Proof.
  intros H. unfold leafOf.
  rewrite <- (append_assoc (decimal ts) "_" (safeName name)).
  apply csv_not_zip. exact H.
Qed.

Lemma leaf_replaced_not_zip (ts : nat) (path_ : string) :
  endsWith (leafOf ts (replacedFileName path_)) ".zip" = false.
Proof.
  unfold leafOf.
  rewrite <- (append_assoc (decimal ts) "_" (safeName (replacedFileName path_))).
  apply replaced_not_zip.
Qed.

Section Serving.

Variable cwd : string.
Variable byteLength : FileContent -> nat.
Hypothesis absolute : startsWith cwd "/" = true.

Lemma GET_leaf (disk : Disk) (files : FileSystem) (ts : nat) (name : string)
    (content : FileContent) :
  Reflects byteLength disk files ->
  readFile files (tmpDir cwd ++ "/" ++ leafOf ts name) = Some content ->
  GET cwd disk (Some (leafOf ts name))
  = Attachment content
      (if endsWith (leafOf ts name) ".zip" then "application/zip"
       else "text/csv")
      ("attachment; filename=" ++ quote ++ leafOf ts name ++ quote)
      (decimal (byteLength content)).
Proof.
  intros Hdisk Hread.
  pose proof (leafOf_plain ts name) as Hplain.
  pose proof (isPlain_noSlash _ Hplain) as Hns.
  destruct (leafOf_head ts name) as (d & rest & Hleaf & Hd).
  assert (Hname : isName (leafOf ts name) = true).
  { rewrite Hleaf. apply digit_name. exact Hd. }
  unfold GET.
  replace (truthy (leafOf ts name)) with true by (rewrite Hleaf; reflexivity).
  cbn [negb].
  rewrite (normalize_name _ Hname Hns).
  replace (stripParents (leafOf ts name)) with (leafOf ts name)
    by (rewrite Hleaf; symmetry; apply digit_stripParents; exact Hd).
  rewrite (@join_name cwd _ absolute Hname Hns).
  rewrite startsWith_app. cbn [negb].
  destruct (Hdisk _ _ Hread) as (Ha & Hb & Hsz).
  rewrite Ha, Hb, Hsz. cbn [negb].
  rewrite basename_leaf by (exact Hns || (apply isName_nonempty; exact Hname)).
  reflexivity.
Qed.

End Serving.

(** X10. [saveProcessedFile] writes directly into the tmp directory,
    under the timestamp, an underscore and the file name with every
    character other than a letter, a digit, a dot or a hyphen turned
    into an underscore: a slash of the name cannot leave the directory.
    The text reads back, no other path changes, and the download locator
    is [/api/download?file=] followed by that leaf, with nothing
    escaped. *)
Theorem saveProcessedFile_writes_a_plain_leaf
    (TMP_DIR filename content : string) (w : World) :
  let leaf := leafOf (hd 0 (clock w)) filename in
  let filePath := fst (saveProcessedFile TMP_DIR filename content w) in
  let w' := snd (saveProcessedFile TMP_DIR filename content w) in
  filePath = (TMP_DIR ++ "/" ++ leaf)%string
  /\ noSlash leaf = true
  /\ String.length leaf
     = String.length (decimal (hd 0 (clock w))) + 1 + String.length filename
  /\ readFile (fs w') filePath = Some (Text content)
  /\ (forall q, q <> filePath -> readFile (fs w') q = readFile (fs w) q)
  /\ getDownloadUrl TMP_DIR filePath = ("/api/download?file=" ++ leaf)%string.
Proof.
  cbv zeta. unfold saveProcessedFile, Date_now. cbn [fst snd fs clock].
  fold (leafOf (hd 0 (clock w)) filename).
  pose proof (leafOf_plain (hd 0 (clock w)) filename) as Hplain.
  split; [reflexivity|]. split; [apply isPlain_noSlash; exact Hplain|].
  split.
  { unfold leafOf. rewrite !append_length, safeName_length. simpl. lia. }
  split; [apply readFile_writeFile|]. split.
  - intros q Hq. unfold writeFile. cbn [readFile].
    destruct (String.eqb (path_join TMP_DIR (leafOf (hd 0 (clock w)) filename))
                q) eqn:He; [|reflexivity].
    apply String.eqb_eq in He. subst q. contradiction Hq. reflexivity.
  - apply getDownloadUrl_plain. exact Hplain.
Qed.

(** X11. Upload, then download: a file whose name ends in [.csv], in
    any letter case, is stored where [saveProcessedFile] would store it,
    and the download route, asked for the leaf of the locator the upload
    returned, serves the uploaded text as [text/csv] under that leaf. *)
Theorem upload_then_download (cwd : string) (byteLength : FileContent -> nat)
    (file : UploadedFile) (w : World) :
  startsWith cwd "/" = true ->
  endsWith (toLowerCase (uf_name file)) ".csv" = true ->
  exists leaf w',
    POST_upload cwd (Some file) w
    = (UploadOk (uf_name file) (tmpDir cwd ++ "/" ++ leaf)
         ("/api/download?file=" ++ leaf), w')
    /\ fst (saveProcessedFile (tmpDir cwd) (uf_name file) (uf_text file) w)
       = (tmpDir cwd ++ "/" ++ leaf)%string
    /\ forall disk,
         Reflects byteLength disk (fs w') ->
         GET cwd disk (Some leaf)
         = Attachment (Text (uf_text file)) "text/csv"
             ("attachment; filename=" ++ quote ++ leaf ++ quote)
             (decimal (byteLength (Text (uf_text file)))).
Proof.
  intros Habs Hcsv.
  set (leaf := leafOf (hd 0 (clock w)) (uf_name file)).
  pose proof (leafOf_plain (hd 0 (clock w)) (uf_name file)) as Hplain.
  pose proof (isPlain_noSlash _ Hplain) as Hns.
  destruct (leafOf_head (hd 0 (clock w)) (uf_name file))
    as (d & rest & Hleaf & Hd).
  assert (Hname : isName leaf = true).
  { unfold leaf. rewrite Hleaf. apply digit_name. exact Hd. }
  exists leaf. eexists. split; [|split].
  - unfold POST_upload. rewrite Hcsv. cbn [negb]. unfold Date_now.
    fold (leafOf (hd 0 (clock w)) (uf_name file)). fold leaf.
    rewrite (@join_name cwd leaf Habs Hname Hns).
    rewrite (getDownloadUrl_plain _ _ Hplain). reflexivity.
  - reflexivity.
  - intros disk Hdisk. cbn [fs] in Hdisk.
    unfold leaf.
    rewrite (@GET_leaf cwd byteLength Habs disk _ _ _ (Text (uf_text file))
               Hdisk) by apply readFile_writeFile.
    rewrite (leaf_csv_not_zip _ _ Hcsv). reflexivity.
Qed.

(** The people file, uploaded at time 7 and asked for again. *)
Lemma upload_then_download_witness :
  exists leaf w',
    POST_upload "/srv/app"
      (Some {| uf_name := "people.CSV"; uf_text := Demo.people |})
      (Demo.emptyWorld [7])
    = (UploadOk "people.CSV" (tmpDir "/srv/app" ++ "/" ++ leaf)
         ("/api/download?file=" ++ leaf), w')
    /\ fst (saveProcessedFile (tmpDir "/srv/app") "people.CSV" Demo.people
              (Demo.emptyWorld [7]))
       = (tmpDir "/srv/app" ++ "/" ++ leaf)%string
    /\ forall disk,
         Reflects sizeOf disk (fs w') ->
         GET "/srv/app" disk (Some leaf)
         = Attachment (Text Demo.people) "text/csv"
             ("attachment; filename=" ++ quote ++ leaf ++ quote)
             (decimal (sizeOf (Text Demo.people))).
Proof.
  apply (@upload_then_download "/srv/app" sizeOf
           {| uf_name := "people.CSV"; uf_text := Demo.people |}
           (Demo.emptyWorld [7])); reflexivity.
Defined.

(** X12. [persist] touches nothing but the tmp directory and the clock,
    and the locator it returns is one the download route serves: asked
    for its leaf, the route answers with the serialized rows, as
    [text/csv]. *)
Theorem persisted_artifact_is_downloadable (env : Env) (cwd : string)
    (byteLength : FileContent -> nat) (filePath : string) (rows : list Row)
    (st : St) :
  startsWith cwd "/" = true ->
  TMP_DIR env = tmpDir cwd ->
  exists leaf st',
    persist env filePath rows st
    = (inr ("/api/download?file=" ++ leaf)%string, st')
    /\ events st' = events st
    /\ stats st' = stats st
    /\ outputFiles st' = outputFiles st
    /\ forall disk,
         Reflects byteLength disk (fs (world st')) ->
         GET cwd disk (Some leaf)
         = Attachment (Text (Papa_unparse env rows)) "text/csv"
             ("attachment; filename=" ++ quote ++ leaf ++ quote)
             (decimal (byteLength (Text (Papa_unparse env rows)))).
Proof.
  intros Habs Htmp.
  set (ts := hd 0 (clock (world st))).
  exists (leafOf ts (replacedFileName filePath)). eexists. split; [|split].
  - unfold persist, onWorld, saveProcessedFile, Date_now, bind, ret.
    cbn [fst snd fs clock world].
    fold ts. fold (leafOf ts (replacedFileName filePath)).
    unfold path_join.
    rewrite (getDownloadUrl_plain _ _ (leafOf_plain ts _)). reflexivity.
  - reflexivity.
  - split; [reflexivity|]. split; [reflexivity|].
    intros disk Hdisk. cbn [world fs] in Hdisk.
    rewrite (@GET_leaf cwd byteLength Habs disk _ _ _
               (Text (Papa_unparse env rows)) Hdisk).
    + rewrite leaf_replaced_not_zip. reflexivity.
    + rewrite <- Htmp. apply readFile_writeFile.
Qed.

(** The rows of the people file, persisted at time 7. *)
Lemma persisted_artifact_witness :
  exists leaf st',
    persist (Demo.demoEnv Demo.store) "/srv/app/tmp/1_people.csv"
      (data (Demo.demoParse Demo.people)) (freshSt (Demo.emptyWorld [7]))
    = (inr ("/api/download?file=" ++ leaf)%string, st')
    /\ events st' = events (freshSt (Demo.emptyWorld [7]))
    /\ stats st' = stats (freshSt (Demo.emptyWorld [7]))
    /\ outputFiles st' = outputFiles (freshSt (Demo.emptyWorld [7]))
    /\ forall disk,
         Reflects sizeOf disk (fs (world st')) ->
         GET "/srv/app" disk (Some leaf)
         = Attachment
             (Text (Papa_unparse (Demo.demoEnv Demo.store)
                      (data (Demo.demoParse Demo.people))))
             "text/csv"
             ("attachment; filename=" ++ quote ++ leaf ++ quote)
             (decimal
                (sizeOf
                   (Text (Papa_unparse (Demo.demoEnv Demo.store)
                            (data (Demo.demoParse Demo.people)))))).
Proof.
  apply (@persisted_artifact_is_downloadable (Demo.demoEnv Demo.store)
           "/srv/app" sizeOf); reflexivity.
Defined.

(** X13. The download route answers 400 only to a missing or empty file
    parameter (its [Invalid file path] answer cannot occur), 404 when
    the sanitized path is not there, 500 with the message of the error
    when reading it fails, and otherwise serves a file whose path is
    the tmp directory or lies below it. *)
Theorem download_serves_only_the_tmp_directory (cwd : string) (disk : Disk)
    (fileParam : option string) :
  startsWith cwd "/" = true ->
  match GET cwd disk fileParam with
  | JsonError status error =>
      (status = 400 /\ error = "File parameter is required"
       /\ (fileParam = None \/ fileParam = Some ""))
      \/ exists p,
           fileParam = Some p /\ p <> ""
           /\ let filePath := join [tmpDir cwd; safePathOf p] in
              (status = 404 /\ error = "File not found"
               /\ access disk filePath = false)
              \/ (status = 500 /\ access disk filePath = true
                  /\ (readBuffer disk filePath = inl error
                      \/ statSize disk filePath = inl error))
  | Attachment body _ _ _ =>
      exists p,
        fileParam = Some p /\ p <> ""
        /\ let filePath := join [tmpDir cwd; safePathOf p] in
           Within (tmpDir cwd) filePath
           /\ join [cwd; "tmp"; safePathOf p] = filePath
           /\ access disk filePath = true
           /\ readBuffer disk filePath = inr body
  end.
Proof.
  intros Habs. unfold GET.
  destruct fileParam as [p|]; [|left; auto].
  destruct (truthy p) eqn:Hp; cbn [negb].
  2:{ left. destruct p; [auto | discriminate]. }
  assert (Hne : p <> "") by (intros ->; discriminate).
  destruct (@file_parameter_stays_inside_tmp cwd p Habs) as (Hw & Hs & Hj).
  fold (safePathOf p). cbv zeta in Hs, Hw, Hj. rewrite Hs. cbn [negb].
  destruct (access disk (join [tmpDir cwd; safePathOf p])) eqn:Ha; cbn [negb].
  2:{ right. exists p. cbv zeta. auto 10. }
  destruct (readBuffer disk (join [tmpDir cwd; safePathOf p])) as [msg|buf]
    eqn:Hb.
  { right. exists p. cbv zeta. auto 10. }
  destruct (statSize disk (join [tmpDir cwd; safePathOf p])) as [msg|size]
    eqn:Hsz.
  { right. exists p. cbv zeta. auto 10. }
  exists p. cbv zeta. auto 10.
Qed.

(** A parameter that climbs to a file that exists outside the tmp
    directory: the route looks below the tmp directory and finds
    nothing. *)
Lemma download_witness :
  GET "/srv/app" (diskOf [("/etc/passwd", Text "root")])
    (Some "../../etc/passwd")
  = JsonError 404 "File not found"
  /\ match GET "/srv/app" (diskOf [("/etc/passwd", Text "root")])
             (Some "../../etc/passwd") with
     | JsonError status error =>
         (status = 400 /\ error = "File parameter is required"
          /\ (Some "../../etc/passwd" = None
              \/ Some "../../etc/passwd" = Some ""))
         \/ exists p,
              Some "../../etc/passwd" = Some p /\ p <> ""
              /\ let filePath := join [tmpDir "/srv/app"; safePathOf p] in
                 (status = 404 /\ error = "File not found"
                  /\ access (diskOf [("/etc/passwd", Text "root")]) filePath
                     = false)
                 \/ (status = 500
                     /\ access (diskOf [("/etc/passwd", Text "root")])
                          filePath = true
                     /\ (readBuffer (diskOf [("/etc/passwd", Text "root")])
                           filePath = inl error
                         \/ statSize (diskOf [("/etc/passwd", Text "root")])
                              filePath = inl error))
     | Attachment body _ _ _ =>
         exists p,
           Some "../../etc/passwd" = Some p /\ p <> ""
           /\ let filePath := join [tmpDir "/srv/app"; safePathOf p] in
              Within (tmpDir "/srv/app") filePath
              /\ join ["/srv/app"; "tmp"; safePathOf p] = filePath
              /\ access (diskOf [("/etc/passwd", Text "root")]) filePath
                 = true
              /\ readBuffer (diskOf [("/etc/passwd", Text "root")]) filePath
                 = inr body
     end.
Proof.
  split; [reflexivity|].
  apply (@download_serves_only_the_tmp_directory "/srv/app"
           (diskOf [("/etc/passwd", Text "root")])
           (Some "../../etc/passwd")).
  reflexivity.
Defined.

End TransferFacts.

(* ================================================================== *)
(** * What every step of a handler preserves *)
(* ================================================================== *)

Module InvariantFacts.

Import Properties ModeFacts NamingFacts PathFacts TransferFacts.
Import JS Csv Matcher FileProcessor Pipeline Spec Scan Effects BundleFacts.

Section Invariant.

Variable R : St -> St -> Prop.
Hypothesis R_refl : forall st, R st st.
Hypothesis R_trans : forall a b c, R a b -> R b c -> R a c.

Lemma keeps_ret {A} (a : A) : Keeps R (ret a).
Proof. intros st. apply R_refl. Qed.

Lemma keeps_throw {A} (msg : string) : Keeps R (@throw A msg).
Proof. intros st. apply R_refl. Qed.

Lemma keeps_liftE {A} (r : string + A) : Keeps R (liftE r).
Proof. destruct r; [apply keeps_throw | apply keeps_ret]. Qed.

Lemma keeps_bind {A B} (m : M A) (k : A -> M B) :
  Keeps R m -> (forall a, Keeps R (k a)) -> Keeps R (bind m k).
Proof.
  intros Hm Hk st. unfold bind. specialize (Hm st).
  destruct (m st) as [[e|a] st1]; [exact Hm|].
  eapply R_trans; [exact Hm | apply Hk].
Qed.

Lemma keeps_try_catch {A} (m : M A) (h : string -> M A) :
  Keeps R m -> (forall e, Keeps R (h e)) -> Keeps R (try_catch m h).
Proof.
  intros Hm Hh st. unfold try_catch. specialize (Hm st).
  destruct (m st) as [[e|a] st1]; [|exact Hm].
  eapply R_trans; [exact Hm | apply Hh].
Qed.

Lemma keeps_forEach {A} (xs : list A) (body : A -> M unit) :
  (forall x, Keeps R (body x)) -> Keeps R (forEach xs body).
Proof.
  intros Hb. induction xs as [|x xs IH]; simpl.
  - apply keeps_ret.
  - apply keeps_bind; [apply Hb | intros _; exact IH].
Qed.

Lemma keeps_getStats : Keeps R getStats.
Proof. intros st. apply R_refl. Qed.

Lemma keeps_getOutputFiles : Keeps R getOutputFiles.
Proof. intros st. apply R_refl. Qed.

Lemma keeps_if {A} (b : bool) (m1 m2 : M A) :
  Keeps R m1 -> Keeps R m2 -> Keeps R (if b then m1 else m2).
Proof. destruct b; auto. Qed.

(** What is left to show of a handler: its primitives. *)
Variable env : Env.

Hypothesis R_sendEvent :
  forall e, isStats e = false -> Keeps R (sendEvent e).
Hypothesis R_snapshot : Keeps R (s <- getStats ;; sendEvent (EvStats s)).
Hypothesis R_modStats :
  forall f, (forall s, StatsStep s (f s)) -> Keeps R (modStats f).
Hypothesis R_pushOutput : forall o, Keeps R (pushOutput o).
Hypothesis R_save :
  forall filename content,
    Keeps R (onWorld (saveProcessedFile (TMP_DIR env) filename content)).
Hypothesis R_zip :
  forall files_,
    Keeps R (onWorld (createZipFile (TMP_DIR env) (archiver env) files_)).

Ltac stats_step :=
  let s := fresh "s" in
  intros s; unfold StatsStep; cbn; repeat split; lia.

Ltac keeps :=
  repeat first
    [ progress cbv zeta
    | match goal with
      | H : context [Keeps _ _] |- Keeps _ _ => solve [apply H]
      end
    | apply keeps_ret
    | apply keeps_throw
    | apply keeps_liftE
    | apply keeps_getStats
    | apply keeps_getOutputFiles
    | apply R_snapshot
    | apply R_sendEvent; reflexivity
    | apply R_pushOutput
    | apply R_save
    | apply R_zip
    | apply R_modStats; stats_step
    | apply keeps_bind; [|intros ?]
    | apply keeps_try_catch; [|intros ?]
    | match goal with
      | |- Keeps _ (if ?b then _ else _) => destruct b
      | |- Keeps _ (match ?x with _ => _ end) => destruct x
      end ].

Lemma keeps_progress (i total : nat) : Keeps R (progress i total).
Proof. unfold progress. keeps. Qed.

Lemma keeps_acquire (u : option string) : Keeps R (acquire env u).
Proof. unfold acquire. keeps. Qed.

Lemma keeps_persist (filePath : string) (rows : list Row) :
  Keeps R (persist env filePath rows).
Proof. unfold persist. keeps. Qed.

Lemma keeps_bundle : Keeps R (bundle env).
Proof. unfold bundle. keeps. Qed.

Lemma keeps_sendComplete (a b : bool) : Keeps R (sendComplete env a b).
Proof. pose proof keeps_bundle. unfold sendComplete. keeps. Qed.

Lemma keeps_overwriteFields (fields : list string) (v : string) :
  forall row ms acc, Keeps R (overwriteFields fields v row ms acc).
Proof.
  induction fields as [|f rest IH]; intros row ms acc; simpl; keeps.
Qed.

Lemma keeps_simpleRow (showOnly : bool) (rt : option string)
    (sf rf : list string) (file : FileDescriptor) (total i : nat)
    (row : Row) (re : RegExp) (acc : ScanAcc) :
  Keeps R (simpleRow env showOnly rt sf rf file total i row re acc).
Proof.
  pose proof keeps_progress. pose proof keeps_overwriteFields.
  unfold simpleRow. keeps.
Qed.

Lemma keeps_simpleRows (showOnly : bool) (rt : option string)
    (sf rf : list string) (file : FileDescriptor) (total : nat)
    (rows : list Row) :
  forall i re acc,
    Keeps R (simpleRows env showOnly rt sf rf file total rows i re acc).
Proof.
  pose proof keeps_simpleRow.
  induction rows as [|row rest IH]; intros i re acc; simpl; keeps.
Qed.

Lemma keeps_simpleParsed (body : ProcessRequest) (term : string)
    (file : FileDescriptor) (rows : list Row) :
  Keeps R (simpleParsed env body term file rows).
Proof.
  pose proof keeps_simpleRows. pose proof keeps_persist.
  unfold simpleParsed. keeps.
Qed.

Lemma keeps_simpleFile (body : ProcessRequest) (term : string)
    (file : FileDescriptor) :
  Keeps R (simpleFile env body term file).
Proof.
  pose proof keeps_simpleParsed. pose proof keeps_acquire.
  unfold simpleFile. keeps.
Qed.

Lemma keeps_advancedRow (adv : AdvancedSearchConfig)
    (target value_ : option string) (showOnly : bool) (headers : list string)
    (file : FileDescriptor) (total i : nat) (row : Row) (acc : ScanAcc) :
  Keeps R (advancedRow env adv target value_ showOnly headers file total i
             row acc).
Proof.
  pose proof keeps_progress. unfold advancedRow. keeps.
Qed.

Lemma keeps_advancedRows (adv : AdvancedSearchConfig)
    (target value_ : option string) (showOnly : bool) (headers : list string)
    (file : FileDescriptor) (total : nat) (rows : list Row) :
  forall i acc,
    Keeps R (advancedRows env adv target value_ showOnly headers file total
               rows i acc).
Proof.
  pose proof keeps_advancedRow.
  induction rows as [|row rest IH]; intros i acc; simpl; keeps.
Qed.

Lemma keeps_advancedFile (adv : AdvancedSearchConfig)
    (target value_ : option string) (showOnly : bool)
    (file : FileDescriptor) :
  Keeps R (advancedFile env adv target value_ showOnly file).
Proof.
  pose proof keeps_advancedRows. pose proof keeps_persist.
  pose proof keeps_acquire.
  unfold advancedFile, advancedParsed. keeps.
Qed.

Lemma keeps_applyOperations (headers : list string)
    (ops : list ReplaceOperation) :
  forall row ms acc, Keeps R (applyOperations headers ops row ms acc).
Proof.
  induction ops as [|op rest IH]; intros row ms acc; simpl; keeps.
Qed.

Lemma keeps_replayRows (operations : list ReplaceOperation)
    (headers : list string) (searchResult : SearchResult) (filePath : string)
    (total : nat) (rows : list Row) :
  forall i acc,
    Keeps R (replayRows operations headers searchResult filePath total
               rows i acc).
Proof.
  pose proof keeps_progress. pose proof keeps_applyOperations.
  induction rows as [|row rest IH]; intros i acc; simpl; unfold replayRow;
    keeps.
Qed.

Lemma keeps_replayFile (selected_ : list FileDescriptor)
    (operations : list ReplaceOperation) (entry : string * SearchResult) :
  Keeps R (replayFile env selected_ operations entry).
Proof.
  pose proof keeps_replayRows. pose proof keeps_persist.
  unfold replayFile, replayParsed. destruct entry as [filePath searchResult].
  keeps.
Qed.

End Invariant.

(** ** A request writes inside the tmp directory only *)

Section Writes.

Variable env : Env.

Lemma writesInside_refl (st : St) : WritesInside (TMP_DIR env) st st.
Proof. split; auto. Qed.

Lemma writesInside_trans (a b c : St) :
  WritesInside (TMP_DIR env) a b -> WritesInside (TMP_DIR env) b c ->
  WritesInside (TMP_DIR env) a c.
Proof.
  intros [H1 H2] [H3 H4]. split.
  - intros p Hp. rewrite (H3 p Hp). apply H1. exact Hp.
  - intros p Hp. apply H4, H2. exact Hp.
Qed.

Lemma writesInside_same (st st' : St) :
  fs (world st') = fs (world st) -> WritesInside (TMP_DIR env) st st'.
Proof. intros H. unfold WritesInside. rewrite H. auto. Qed.

Lemma writesInside_write (st : St) (leaf : string) (c : FileContent)
    (w : World) :
  noSlash leaf = true ->
  fs w = writeFile (fs (world st)) (path_join (TMP_DIR env) leaf) c ->
  WritesInside (TMP_DIR env) st
    {| stats := stats st; events := events st;
       outputFiles := outputFiles st; world := w |}.
Proof.
  intros Hleaf Hw. split; intros p Hp; cbn [world]; rewrite Hw;
    unfold writeFile; cbn [readFile];
    destruct (String.eqb (path_join (TMP_DIR env) leaf) p) eqn:He;
    try reflexivity; try exact Hp; try discriminate.
  apply String.eqb_eq in He. subst p. contradiction Hp.
  exists leaf. auto.
Qed.

Lemma zipLeaf_noSlash (ts : nat) :
  noSlash ("processed_" ++ decimal ts ++ ".zip") = true.
Proof.
  apply isPlain_noSlash. rewrite !isPlain_app, isPlain_decimal. reflexivity.
Qed.

Lemma writes_save (filename content : string) :
  Keeps (WritesInside (TMP_DIR env))
    (onWorld (saveProcessedFile (TMP_DIR env) filename content)).
Proof.
  intros st. unfold onWorld, saveProcessedFile, Date_now. cbn [snd].
  apply writesInside_write with (leaf := leafOf (hd 0 (clock (world st)))
                                           filename) (c := Text content).
  - apply isPlain_noSlash, leafOf_plain.
  - reflexivity.
Qed.

Lemma writes_zip (files_ : list (string * string)) :
  Keeps (WritesInside (TMP_DIR env))
    (onWorld (createZipFile (TMP_DIR env) (archiver env) files_)).
Proof.
  intros st. unfold onWorld, createZipFile, Date_now.
  destruct (archiver env _) as [err|entries]; cbn [snd].
  - apply writesInside_same. reflexivity.
  - eapply writesInside_write; [apply zipLeaf_noSlash | reflexivity].
Qed.

Lemma writes_sendEvent (e : Event) :
  Keeps (WritesInside (TMP_DIR env)) (sendEvent e).
Proof. intros st. apply writesInside_same. reflexivity. Qed.

Lemma writes_modStats (f : ProcessStats -> ProcessStats) :
  Keeps (WritesInside (TMP_DIR env)) (modStats f).
Proof. intros st. apply writesInside_same. reflexivity. Qed.

Lemma writes_pushOutput (o : OutputFileRecord) :
  Keeps (WritesInside (TMP_DIR env)) (pushOutput o).
Proof. intros st. apply writesInside_same. reflexivity. Qed.

Lemma writes_snapshot :
  Keeps (WritesInside (TMP_DIR env)) (s <- getStats ;; sendEvent (EvStats s)).
Proof. intros st. apply writesInside_same. reflexivity. Qed.

Ltac writes_with lemma :=
  apply lemma;
  first [ exact writesInside_refl | exact writesInside_trans
        | exact writes_snapshot | exact writes_pushOutput
        | exact writes_save | exact writes_zip
        | intros; apply writes_sendEvent
        | intros; apply writes_modStats ].

(** X14. Whatever the request, and whether its files fail or not, the
    search route and the replace route change no file other than direct
    children of the tmp directory, and remove none. *)
Theorem requests_write_inside_tmp_only (w : World) :
  (forall body,
     WritesInside (TMP_DIR env) (freshSt w) (handle (POST_process env body) w))
  /\ (forall req,
        WritesInside (TMP_DIR env) (freshSt w)
          (handle (POST_replace env req) w)).
Proof.
  pose proof writesInside_refl as Hrefl.
  pose proof writesInside_trans as Htrans.
  assert (Hfile1 : forall body term file,
            Keeps (WritesInside (TMP_DIR env)) (simpleFile env body term file)).
  { intros. writes_with keeps_simpleFile. }
  assert (Hfile2 : forall adv t v so file,
            Keeps (WritesInside (TMP_DIR env))
              (advancedFile env adv t v so file)).
  { intros. writes_with keeps_advancedFile. }
  assert (Hfile3 : forall sel ops entry,
            Keeps (WritesInside (TMP_DIR env)) (replayFile env sel ops entry)).
  { intros. writes_with keeps_replayFile. }
  assert (Hdone : forall a b,
            Keeps (WritesInside (TMP_DIR env)) (sendComplete env a b)).
  { intros. writes_with keeps_sendComplete. }
  split.
  - intros body. unfold handle, POST_process.
    apply keeps_try_catch; auto using writes_sendEvent.
    destruct (length (files body) =? 0); [apply writes_sendEvent|].
    apply keeps_bind; auto using writes_modStats. intros _.
    destruct (useAdvanced body) as [a|].
    + unfold processFilesWithAdvancedSearch.
      apply keeps_bind; auto. apply keeps_forEach; auto.
    + destruct (searchTerm body) as [term|]; [|apply writes_sendEvent].
      destruct (truthy term); [|apply writes_sendEvent].
      apply keeps_bind; auto. apply keeps_forEach; auto.
  - intros req. unfold handle, POST_replace.
    apply keeps_try_catch; auto using writes_sendEvent.
    destruct (length (searchResults req) =? 0); [apply writes_sendEvent|].
    destruct (operationsOf req) as [msg|ops]; [apply writes_sendEvent|].
    destruct (length (groupByPath (searchResults req)) =? 0);
      [apply writes_sendEvent|].
    apply keeps_bind; auto using writes_modStats. intros _.
    apply keeps_bind; auto. apply keeps_forEach; auto.
Qed.

End Writes.

End InvariantFacts.

(* ================================================================== *)
(** * The event stream and the counters of a request *)
(* ================================================================== *)

Module StreamFacts.

Import Properties ModeFacts NamingFacts PathFacts TransferFacts
  InvariantFacts.
Import JS Csv Matcher MatcherFacts FileProcessor Pipeline Spec Scan Effects.
Import ReplayFacts AdvancedFacts SimpleFacts BundleFacts FileFacts.
Import SearchModeFacts.

Lemma rowsStep_refl (s : ProcessStats) : RowsStep s s.
Proof. unfold RowsStep. lia. Qed.

Lemma rowsStep_trans (a b c : ProcessStats) :
  RowsStep a b -> RowsStep b c -> RowsStep a c.
Proof. unfold RowsStep. lia. Qed.

Lemma batch_one (fname fpath : string) (seg : list Event)
    (outs : list OutputFileRecord) :
  Segment fname fpath seg outs -> Batch [(fname, fpath)] seg outs.
Proof.
  intros H. rewrite <- (app_nil_r seg), <- (app_nil_r outs).
  apply (@Batch_cons (fname, fpath)); [exact H | constructor].
Qed.

Lemma batch_app (a b : list (string * string)) (e1 e2 : list Event)
    (o1 o2 : list OutputFileRecord) :
  Batch a e1 o1 -> Batch b e2 o2 -> Batch (a ++ b) (e1 ++ e2) (o1 ++ o2).
Proof.
  induction 1 as [|f rest seg evs outs outs' Hseg _ IH]; intros Hb;
    [exact Hb|].
  simpl. rewrite <- !app_assoc. constructor; auto.
Qed.

Lemma handled_refl (counted : OutputFileRecord -> bool) (st : St) :
  Handled counted [] st st.
Proof.
  exists [], []. rewrite !app_nil_r. simpl.
  repeat split; try lia; constructor.
Qed.

Lemma handled_trans (counted : OutputFileRecord -> bool)
    (f1 f2 : list (string * string)) (a b c : St) :
  Handled counted f1 a b -> Handled counted f2 b c ->
  Handled counted (f1 ++ f2) a c.
Proof.
  intros (e1 & o1 & He1 & Hb1 & Ho1 & Hp1 & Ht1 & Hr1)
         (e2 & o2 & He2 & Hb2 & Ho2 & Hp2 & Ht2 & Hr2).
  exists (e1 ++ e2), (o1 ++ o2).
  split; [rewrite He2, He1, app_assoc; reflexivity|].
  split; [rewrite signal_app; apply batch_app; assumption|].
  split; [rewrite Ho2, Ho1, app_assoc; reflexivity|].
  split; [rewrite filter_app, length_app; lia|].
  split; [congruence|].
  eapply rowsStep_trans; eassumption.
Qed.

Lemma forEach_handled {A} (counted : OutputFileRecord -> bool)
    (nameOf pathOf : A -> string) (body : A -> M unit) (xs : list A) :
  (forall x st, exists st',
      body x st = (inr tt, st')
      /\ Handled counted [(nameOf x, pathOf x)] st st') ->
  forall st, exists st',
    forEach xs body st = (inr tt, st')
    /\ Handled counted (map (fun x => (nameOf x, pathOf x)) xs) st st'.
Proof.
  intros Hbody. induction xs as [|x xs IH]; intros st; simpl.
  - exists st. split; [reflexivity | apply handled_refl].
  - destruct (Hbody x st) as (st1 & Hrun & H1).
    destruct (IH st1) as (st2 & Hrest & H2).
    exists st2. split.
    + erewrite bind_inr by exact Hrun. exact Hrest.
    + apply (handled_trans H1 H2).
Qed.

Section SimpleCounts.

Variable env : Env.
Variable body : ProcessRequest.
Variable term : string.
Variable file : FileDescriptor.
Variable rows : list Row.

Lemma simpleMatches_le (headers : list string) (pattern : string)
    (ins : bool) (rs : list Row) :
  simpleMatches env headers pattern ins rs <= length rs.
Proof.
  induction rs as [|r rs IH]; simpl; [lia|].
  destruct (simpleMatched env headers pattern ins r); simpl; lia.
Qed.

Lemma simpleParsed_counts (st : St) :
  re_syntax_error (engine env) (searchPattern body term) = None ->
  let s' := stats (snd (simpleParsed env body term file rows st)) in
  totalRows s' = totalRows (stats st) + length rows
  /\ processedRows s' = processedRows (stats st) + length rows.
Proof.
  intros Hok. cbv zeta.
  unfold simpleParsed.
  erewrite bind_inr by reflexivity.
  cbn [stats events outputFiles world].
  fold (cs body).
  rewrite (surjective_pairing (buildSearch term _ _ (cs body))).
  rewrite buildSearch_flags. fold (searchPattern body term).
  destruct (RegExp_new_search (engine env) (searchPattern body term) (cs body)
      Hok)
    as (re0 & Hnew & Hsrc & Hic & Hg).
  rewrite Hnew. cbn [liftE].
  erewrite bind_inr by reflexivity.
  erewrite bind_inr by reflexivity.
  cbn [stats events outputFiles world].
  assert (Hre : compiledAs (searchPattern body term) (negb (cs body)) re0) by
      (repeat split; assumption).
  match goal with
  | |- context [bind (simpleRows _ _ _ _ _ _ _ _ _ _ _) _ ?st1] =>
      destruct (simpleRows_runs env (showOnlyMatches body) (replaceTerm body)
                  (headersOf rows) (fieldsToReplace body rows) file (length
                      rows)
                  rows 0 emptyScan st1 Hre) as [st2 [Hrun Heff]]
  end.
  fold (fieldsToReplace body rows).
  erewrite bind_inr by exact Hrun.
  destruct Heff as (_ & _ & _ & _ & Htr & Hpr & _ & _ & _).
  cbn [stats events outputFiles world d_rows addTotalRows
       setCurrent processedRows totalRows]
    in Htr, Hpr.
  cbn [fst fileReplacements fileMatches processedRowsOut grow emptyScan
       Nat.add app].
  destruct (isReplaceModeSimple (replaceTerm body)) eqn:Hmode.
  - unfold persist, onWorld, saveProcessedFile, Date_now.
    erewrite bind_inr by reflexivity. cbn [stats events outputFiles world].
    erewrite bind_inr.
    2:{ erewrite bind_inr.
        2:{ erewrite bind_inr by reflexivity. reflexivity. }
        run_tail. reflexivity. }
    run_tail. unfold sendEvent. cbn. split; assumption.
  - run_tail. unfold sendEvent. cbn. split; assumption.
Qed.

End SimpleCounts.

(** ** Counters never go down, and the file total stays *)

Lemma statsGrow_refl (st : St) : StatsGrow st st.
Proof. unfold StatsGrow, StatsStep. repeat split; lia. Qed.

Lemma statsGrow_trans (a b c : St) :
  StatsGrow a b -> StatsGrow b c -> StatsGrow a c.
Proof. unfold StatsGrow, StatsStep. intuition lia. Qed.

Lemma statsGrow_same (st st' : St) : stats st' = stats st -> StatsGrow st st'.
Proof. intros H. unfold StatsGrow. rewrite H. apply statsGrow_refl. Qed.

Lemma grows_sendEvent (e : Event) : Keeps StatsGrow (sendEvent e).
Proof. intros st. apply statsGrow_same. reflexivity. Qed.

Lemma grows_pushOutput (o : OutputFileRecord) : Keeps StatsGrow (pushOutput o).
Proof. intros st. apply statsGrow_same. reflexivity. Qed.

Lemma grows_onWorld {A} (f : World -> A * World) : Keeps StatsGrow (onWorld f).
Proof.
  intros st. unfold onWorld. destruct (f (world st)).
  apply statsGrow_same. reflexivity.
Qed.

Lemma grows_modStats (f : ProcessStats -> ProcessStats) :
  (forall s, StatsStep s (f s)) -> Keeps StatsGrow (modStats f).
Proof. intros H st. apply H. Qed.

Lemma grows_snapshot :
  Keeps StatsGrow (s <- getStats ;; sendEvent (EvStats s)).
Proof. intros st. apply statsGrow_same. reflexivity. Qed.

Ltac grows_with lemma :=
  apply lemma;
  first [ exact statsGrow_refl | exact statsGrow_trans
        | exact grows_snapshot | exact grows_pushOutput
        | exact grows_modStats
        | intros; apply grows_sendEvent
        | intros; apply grows_onWorld ].

Lemma grows_simpleFile (env : Env) (body : ProcessRequest) (term : string)
    (file : FileDescriptor) :
  Keeps StatsGrow (simpleFile env body term file).
Proof. grows_with keeps_simpleFile. Qed.

Lemma grows_advancedFile (env : Env) (adv : AdvancedSearchConfig)
    (t v : option string) (so : bool) (file : FileDescriptor) :
  Keeps StatsGrow (advancedFile env adv t v so file).
Proof. grows_with keeps_advancedFile. Qed.

Lemma grows_replayFile (env : Env) (sel : list FileDescriptor)
    (ops : list ReplaceOperation) (entry : string * SearchResult) :
  Keeps StatsGrow (replayFile env sel ops entry).
Proof. grows_with keeps_replayFile. Qed.

(** ** The events of a scan *)

Lemma signal_signal (evs : list Event) : signal (signal evs) = signal evs.
Proof.
  unfold signal. induction evs as [|e evs IH]; simpl; [reflexivity|].
  destruct (isStats e) eqn:He; simpl; [exact IH|].
  rewrite He. simpl. rewrite IH. reflexivity.
Qed.

Lemma rowsAfter_weaken (fname fpath : string) (total lo lo' : nat)
    (evs : list Event) :
  lo' <= lo -> rowsAfter fname fpath total lo evs ->
  rowsAfter fname fpath total lo' evs.
Proof.
  intros Hle. destruct evs as [|e rest]; [auto|].
  destruct e; simpl; try tauto.
  intros (H1 & H2 & H3 & H4 & H5 & H6). repeat split; auto; lia.
Qed.

(** The row event of the row at offset [i], before those of the rows
    after it. *)
Lemma rowsAfter_rowEvent (fname fpath : string) (total i : nat)
    (changes : list RowChange) (rest : list Event) :
  i < total ->
  rowsAfter fname fpath total (S i) rest ->
  rowsAfter fname fpath total i (rowEvent fname fpath i total changes ++ rest).
Proof.
  intros Hi Hrest. unfold rowEvent. destruct changes as [|c changes].
  - simpl. eapply rowsAfter_weaken; [|exact Hrest]. lia.
  - cbn [length Nat.ltb Nat.leb List.app rowsAfter].
    repeat split; try lia; [discriminate|].
    rewrite Nat.add_1_r. exact Hrest.
Qed.

Lemma simpleEvents_ascending (env : Env) (rt : option string)
    (sf rf : list string) (file : FileDescriptor) (total : nat)
    (pattern : string) (ins : bool) (rows : list Row) :
  forall i,
    i + length rows <= total ->
    rowsAfter (name file) (path file) total i
      (simpleEvents env rt sf rf file total pattern ins i rows).
Proof.
  induction rows as [|row rest IH]; intros i Hi; simpl; [exact I|].
  simpl in Hi. assert (Hrest : S i + length rest <= total) by lia.
  specialize (IH (S i) Hrest). unfold simpleRowEvents.
  destruct (simpleMatched env sf pattern ins row).
  - apply rowsAfter_rowEvent; [lia | exact IH].
  - simpl. eapply rowsAfter_weaken; [|exact IH]. lia.
Qed.

Lemma advEvents_ascending (env : Env) (adv : AdvancedSearchConfig)
    (t v : option string) (headers : list string) (file : FileDescriptor)
    (total : nat) (rows : list Row) :
  forall i,
    i + length rows <= total ->
    rowsAfter (name file) (path file) total i
      (advEvents env adv t v headers file total i rows).
Proof.
  induction rows as [|row rest IH]; intros i Hi; simpl; [exact I|].
  simpl in Hi. assert (Hrest : S i + length rest <= total) by lia.
  specialize (IH (S i) Hrest). unfold advRowEvents.
  destruct (advMatched env adv headers row).
  - apply rowsAfter_rowEvent; [lia | exact IH].
  - simpl. eapply rowsAfter_weaken; [|exact IH]. lia.
Qed.

Lemma replayEvents_ascending (ops : list ReplaceOperation)
    (headers : list string)
    (sr : SearchResult) (filePath : string) (total : nat) (rows : list Row) :
  forall i,
    i + length rows <= total ->
    rowsAfter (filename sr) filePath total i
      (replayEvents ops headers sr filePath total i rows).
Proof.
  induction rows as [|row rest IH]; intros i Hi; simpl; [exact I|].
  simpl in Hi. assert (Hrest : S i + length rest <= total) by lia.
  apply rowsAfter_rowEvent; [lia | apply IH; exact Hrest].
Qed.

(** The segment of a file that was given up. *)
Lemma segment_error (fname fpath msg : string) (middle : list Event) :
  Scanned fname fpath middle ->
  Segment fname fpath
    (EvFileStart fname fpath :: middle ++ [EvFileError fname msg]) [].
Proof. intros H. exists middle, (EvFileError fname msg). simpl. auto. Qed.

(** The segment of a file that was scanned to its end. *)
Lemma segment_complete (fname fpath : string) (middle : list Event)
    (m r : nat) (np : option string) :
  Scanned fname fpath middle ->
  Segment fname fpath
    (EvFileStart fname fpath :: middle ++ [EvFileComplete fname m r np])
    [{| originalPath := fpath; newPath := np |}].
Proof.
  intros H. exists middle, (EvFileComplete fname m r np). simpl. auto.
Qed.

(** ** One file of the simple search *)

Section SimpleHandled.

Variable env : Env.
Variable body : ProcessRequest.
Variable term : string.
Variable file : FileDescriptor.

Lemma simpleParsed_throws_rows (rows : list Row) (st : St) (msg : string) :
  re_syntax_error (engine env) (searchPattern body term) = Some msg ->
  processedRows (stats (snd (simpleParsed env body term file rows st)))
  = processedRows (stats st)
  /\ totalRows (stats st)
     <= totalRows (stats (snd (simpleParsed env body term file rows st))).
Proof.
  intros Hbad.
  unfold simpleParsed.
  erewrite bind_inr by reflexivity.
  fold (cs body).
  rewrite (surjective_pairing (buildSearch term _ _ (cs body))).
  fold (searchPattern body term).
  unfold RegExp_new. rewrite Hbad. cbn [liftE].
  erewrite bind_inl by reflexivity.
  cbn. lia.
Qed.

Lemma simpleFile_handled (st : St) :
  exists st',
    simpleFile env body term file st = (inr tt, st')
    /\ Handled (fun _ => true) [(name file, path file)] st st'.
Proof.
  pose proof (grows_simpleFile env body term file st) as Hgrow.
  destruct Hgrow as (Htf & _).
  revert Htf.
  unfold simpleFile, try_catch.
  erewrite bind_inr by reflexivity.
  erewrite bind_inr by reflexivity.
  cbn [stats events outputFiles world].
  set (st1 := {| stats := setCurrent (Some (name file)) (Some 0) (Some 0)
                            (stats st);
                 events := events st ++ [EvFileStart (name file) (path file)];
                 outputFiles := outputFiles st; world := world st |}).
  destruct (acquire_pure env (url file) st1) as [[e|text] Ha].
  - (* the bytes could not be had *)
    erewrite bind_inl by exact Ha. intros Htf.
    eexists. split; [reflexivity|].
    exists [EvFileStart (name file) (path file); EvFileError (name file) e], [].
    cbn [stats events outputFiles world st1].
    split; [rewrite <- app_assoc; reflexivity|].
    split; [apply batch_one, (segment_error _ _ _ []); exact I|].
    split; [rewrite app_nil_r; reflexivity|].
    split; [cbn; lia|]. split; [reflexivity|].
    unfold RowsStep. cbn. lia.
  - erewrite bind_inr by exact Ha.
    destruct (0 <? length (errors (Papa_parse env text))).
    + (* the text did not parse *)
      intros Htf. eexists. split; [reflexivity|].
      exists [EvFileStart (name file) (path file);
              EvFileError (name file)
                (parseErrorsMessage (errors (Papa_parse env text)))], [].
      cbn [stats events outputFiles world st1].
      split; [rewrite <- app_assoc; reflexivity|].
      split; [apply batch_one, (segment_error _ _ _ []); exact I|].
      split; [rewrite app_nil_r; reflexivity|].
      split; [cbn; lia|]. split; [reflexivity|].
      unfold RowsStep. cbn. lia.
    + destruct (re_syntax_error (engine env)
                  (searchPattern body term)) as [msg|] eqn:Hre.
      * (* the pattern did not compile *)
        destruct (@simpleParsed_throws env body term file
                    (data (Papa_parse env text)) st1 msg Hre)
          as (st2 & Hrun & Hev & Ho & Hw & Hpf & Hm & Hrp).
        destruct (@simpleParsed_throws_rows (data (Papa_parse env text)) st1
                    msg Hre) as [Hpr Htr].
        rewrite Hrun in *. cbn [snd] in Hpr, Htr. intros Htf.
        eexists. split; [reflexivity|].
        exists [EvFileStart (name file) (path file);
                EvFileError (name file) msg], [].
        cbn [stats events outputFiles world].
        split; [rewrite Hev; unfold st1; cbn [events];
                rewrite <- app_assoc; reflexivity|].
        split; [apply batch_one, (segment_error _ _ _ []); exact I|].
        split; [rewrite app_nil_r; exact Ho|].
        split; [cbn [filter length]; rewrite Hpf; cbn; lia|].
        split; [exact Htf|].
        unfold RowsStep. rewrite Hpr, Hm. cbn in Htr |- *. lia.
      * (* the rows were scanned *)
        destruct (@simpleParsed_outcome env body term file
                    (data (Papa_parse env text)) st1 Hre)
          as (st2 & evs & np & Hrun & Hev & Hsig & Ho & Hpf & Hm & _).
        destruct (@simpleParsed_counts env body term file
                    (data (Papa_parse env text)) st1 Hre) as [Htr Hpr].
        rewrite Hrun in *. cbn [snd] in Htr, Hpr. intros Htf.
        exists st2. split; [reflexivity|].
        exists (EvFileStart (name file) (path file) :: evs),
               [{| originalPath := path file; newPath := np |}].
        split; [rewrite Hev; unfold st1; cbn [events];
                rewrite <- app_assoc; reflexivity|].
        split.
        { apply batch_one. rewrite signal_cons_keep by reflexivity.
          rewrite Hsig.
          apply (segment_complete _ _ (_ :: _)).
          split; [reflexivity|]. apply simpleEvents_ascending. simpl. lia. }
        split; [exact Ho|].
        split; [cbn [filter length]; rewrite Hpf; cbn; lia|].
        split; [exact Htf|].
        unfold RowsStep. rewrite Hpr, Htr, Hm. cbn.
        pose proof (simpleMatches_le env (headersOf (data (Papa_parse env text)))
                      (searchPattern body term) (negb (cs body))
                      (data (Papa_parse env text))).
        lia.
Qed.

End SimpleHandled.

(** ** One file of the advanced search *)

Section AdvancedHandled.

Variable env : Env.
Variable adv : AdvancedSearchConfig.
Variables target value_ : option string.
Variable showOnly : bool.
Variable file : FileDescriptor.

Lemma advMatches_le (headers : list string) (rs : list Row) :
  advMatches env adv headers rs <= length rs.
Proof.
  induction rs as [|r rs IH]; simpl; [lia|].
  destruct (advMatched env adv headers r); simpl; lia.
Qed.

Lemma advancedParsed_counts (rows : list Row) (st : St) :
  patternError (engine env) (activeOf adv) = None \/ rows = [] ->
  let s' :=
    stats (snd (advancedParsed env adv target value_ showOnly file rows st)) in
  totalRows s' = totalRows (stats st) + length rows
  /\ processedRows s' = processedRows (stats st) + length rows.
Proof.
  intros Hok. cbv zeta.
  unfold advancedParsed.
  erewrite bind_inr by reflexivity.
  erewrite bind_inr by reflexivity.
  cbn [stats events outputFiles world].
  assert (Hloop : forall st1, exists st2,
             Runs (advancedRows env adv target value_ showOnly
                     (headersOf rows) file (length rows) rows 0 emptyScan) st1
               (grow emptyScan
                  (advOut env adv target value_ showOnly (headersOf rows) rows)
                  (advMatches env adv (headersOf rows) rows)
                  (advCount env adv target value_ (headersOf rows) rows))
               st2
               {| d_rows := length rows;
                  d_matches := advMatches env adv (headersOf rows) rows;
                  d_repl := advCount env adv target value_ (headersOf rows)
                      rows;
                  d_events := advEvents env adv target value_ (headersOf rows)
                                file (length rows) 0 rows |}).
  { intros st1. destruct Hok as [Hok | Hnil].
    - apply advancedRows_runs. exact Hok.
    - rewrite Hnil. simpl. apply runs_ret_ex; reflexivity. }
  match goal with
  | |- context [bind (advancedRows _ _ _ _ _ _ _ _ _ _ _) _ ?st1] =>
      destruct (Hloop st1) as [st2 [Hrun Heff]]
  end.
  erewrite bind_inr by exact Hrun.
  destruct Heff as (_ & _ & _ & _ & Htr & Hpr & _ & _ & _).
  cbn [stats events outputFiles world d_rows addTotalRows
       setCurrent processedRows totalRows] in Htr, Hpr.
  cbn [fileReplacements fileMatches processedRowsOut grow emptyScan Nat.add
      app].
  destruct (isReplaceModeAdvanced target value_) eqn:Hmode.
  - unfold persist, onWorld, saveProcessedFile, Date_now.
    erewrite bind_inr by reflexivity. cbn [stats events outputFiles world].
    erewrite bind_inr.
    2:{ erewrite bind_inr.
        2:{ erewrite bind_inr by reflexivity. reflexivity. }
        run_tail. reflexivity. }
    run_tail. unfold sendEvent. cbn. split; assumption.
  - run_tail. unfold sendEvent. cbn. split; assumption.
Qed.

Lemma advancedParsed_throws_rows (rows : list Row) (st : St) (msg : string) :
  patternError (engine env) (activeOf adv) = Some msg ->
  rows <> [] ->
  let s' :=
    stats (snd (advancedParsed env adv target value_ showOnly file rows st)) in
  processedRows s' = processedRows (stats st)
  /\ totalRows (stats st) <= totalRows s'.
Proof.
  intros Hp Hne. destruct rows as [|row rest]; [contradiction|].
  cbv zeta. unfold advancedParsed.
  erewrite bind_inr by reflexivity.
  erewrite bind_inr by reflexivity.
  erewrite bind_inl by (apply advancedRows_throws; exact Hp).
  cbn. lia.
Qed.

Lemma advancedFile_handled (st : St) :
  exists st',
    advancedFile env adv target value_ showOnly file st = (inr tt, st')
    /\ Handled (fun _ => true) [(name file, path file)] st st'.
Proof.
  pose proof (grows_advancedFile env adv target value_ showOnly file st)
    as Hgrow.
  destruct Hgrow as (Htf & _).
  revert Htf.
  unfold advancedFile, try_catch.
  erewrite bind_inr by reflexivity.
  erewrite bind_inr by reflexivity.
  cbn [stats events outputFiles world].
  set (st1 := {| stats := setCurrent (Some (name file)) (Some 0) (Some 0)
                            (stats st);
                 events := events st ++ [EvFileStart (name file) (path file)];
                 outputFiles := outputFiles st; world := world st |}).
  destruct (acquire_pure env (url file) st1) as [[e|text] Ha].
  - erewrite bind_inl by exact Ha. intros Htf.
    eexists. split; [reflexivity|].
    exists [EvFileStart (name file) (path file); EvFileError (name file) e], [].
    cbn [stats events outputFiles world st1].
    split; [rewrite <- app_assoc; reflexivity|].
    split; [apply batch_one, (segment_error _ _ _ []); exact I|].
    split; [rewrite app_nil_r; reflexivity|].
    split; [cbn; lia|]. split; [reflexivity|].
    unfold RowsStep. cbn. lia.
  - erewrite bind_inr by exact Ha.
    destruct (0 <? length (errors (Papa_parse env text))).
    + intros Htf. eexists. split; [reflexivity|].
      exists [EvFileStart (name file) (path file);
              EvFileError (name file)
                (parseErrorsMessage (errors (Papa_parse env text)))], [].
      cbn [stats events outputFiles world st1].
      split; [rewrite <- app_assoc; reflexivity|].
      split; [apply batch_one, (segment_error _ _ _ []); exact I|].
      split; [rewrite app_nil_r; reflexivity|].
      split; [cbn; lia|]. split; [reflexivity|].
      unfold RowsStep. cbn. lia.
    + set (rows := data (Papa_parse env text)).
      assert (Hcase :
                (patternError (engine env) (activeOf adv) = None \/ rows = [])
                \/ (exists msg,
                      patternError (engine env) (activeOf adv) = Some msg
                      /\ rows <> [])).
      { destruct (patternError (engine env) (activeOf adv)) as [msg|];
          [|auto].
        destruct rows; [auto|]. right. exists msg. split; [auto | discriminate]. }
      destruct Hcase as [Hok | (msg & Hbad & Hne)].
      * (* the rows were scanned *)
        destruct (@advancedParsed_outcome env adv target value_ showOnly file
                    rows st1 Hok)
          as (st2 & evs & np & Hrun & Hev & Hsig & Ho & Hpf & Hm & _).
        destruct (@advancedParsed_counts rows st1 Hok) as [Htr Hpr].
        rewrite Hrun in *. cbn [snd] in Htr, Hpr. intros Htf.
        exists st2. split; [reflexivity|].
        exists (EvFileStart (name file) (path file) :: evs),
               [{| originalPath := path file; newPath := np |}].
        split; [rewrite Hev; unfold st1; cbn [events];
                rewrite <- app_assoc; reflexivity|].
        split.
        { apply batch_one. rewrite signal_cons_keep by reflexivity.
          rewrite Hsig.
          apply (segment_complete _ _ (_ :: _)).
          split; [reflexivity|]. apply advEvents_ascending. simpl. lia. }
        split; [exact Ho|].
        split; [cbn [filter length]; rewrite Hpf; cbn; lia|].
        split; [exact Htf|].
        unfold RowsStep. rewrite Hpr, Htr, Hm. cbn.
        pose proof (advMatches_le (headersOf rows) rows). lia.
      * (* a pattern did not compile: the first row throws *)
        destruct (@advancedParsed_throws env adv target value_ showOnly file
                    rows st1 msg Hbad Hne)
          as (st2 & Hrun & Hev & Ho & Hw & Hpf & Hm & Hrp).
        destruct (@advancedParsed_throws_rows rows st1 msg Hbad Hne)
          as [Hpr Htr].
        rewrite Hrun in *. cbn [snd] in Hpr, Htr. intros Htf.
        eexists. split; [reflexivity|].
        exists [EvFileStart (name file) (path file);
                EvFileInfo (name file) (length rows)
                  (length (headersOf rows));
                EvFileError (name file) msg], [].
        cbn [stats events outputFiles world].
        split; [rewrite Hev; unfold st1; cbn [events];
                rewrite <- !app_assoc; reflexivity|].
        split.
        { apply batch_one.
          apply (segment_error _ _ _ [EvFileInfo _ _ _]).
          split; [reflexivity | exact I]. }
        split; [rewrite app_nil_r; exact Ho|].
        split; [cbn [filter length]; rewrite Hpf; cbn; lia|].
        split; [exact Htf|].
        unfold RowsStep. rewrite Hpr, Hm. cbn in Htr |- *. lia.
Qed.

End AdvancedHandled.

(** ** One file of the replay *)

Section ReplayHandled.

Variable env : Env.
Variable operations : list ReplaceOperation.

Lemma replayParsed_summary (filePath : string) (searchResult : SearchResult)
    (rows : list Row) (st : St) :
  exists st' evs outs,
    replayParsed env operations filePath searchResult rows st = (inr tt, st')
    /\ events st' = events st ++ evs
    /\ outputFiles st' = outputFiles st ++ outs
    /\ totalRows (stats st') = totalRows (stats st) + length rows
    /\ totalMatches (stats st') = totalMatches (stats st)
    /\ processedRows (stats st') <= processedRows (stats st) + length rows
    /\ processedRows (stats st) <= processedRows (stats st')
    /\ processedFiles (stats st')
       = processedFiles (stats st) + length (filter saved outs)
    /\ exists middle closing,
         signal evs = middle ++ [closing]
         /\ Scanned (filename searchResult) filePath middle
         /\ Closes (filename searchResult) filePath closing outs.
Proof.
  unfold replayParsed.
  erewrite bind_inr by reflexivity.
  destruct (0 <? length (invalidFields operations (headersOf rows))) eqn:Hinv.
  - (* a field is missing: the file is given up *)
    eexists _, _, []. split; [reflexivity|].
    cbn [stats events outputFiles world].
    split; [reflexivity|]. split; [rewrite app_nil_r; reflexivity|].
    cbn. repeat split; try lia.
    eexists [], _. split; [reflexivity|]. split; [reflexivity|].
    cbn. auto.
  - (* every field is there: the rows are scanned *)
    erewrite bind_inr by reflexivity.
    cbn [stats events outputFiles world].
    match goal with
    | |- exists _ _ _, bind (replayRows ?o ?h ?s ?f ?t ?r 0 emptyScan) _ ?st1 =
        _ /\ _ =>
        destruct (replayRows_runs o h s f t r 0 emptyScan st1)
          as [st2 [Hrun Heff]]
    end.
    erewrite bind_inr by exact Hrun.
    destruct Heff as (Ho & Hw & _ & Hpf & Htr & Hpr & Hm & Hrp & evs & Hev
                      & Hsig).
    cbn [stats events outputFiles world d_repl d_events d_rows d_matches
         addTotalRows processedFiles totalReplacements totalRows
         processedRows totalMatches]
      in Ho, Hw, Hpf, Htr, Hpr, Hm, Hrp, Hev, Hsig.
    cbn [fileReplacements processedRowsOut grow emptyScan Nat.add List.app].
    destruct (0 <? replayCount operations (headersOf rows) searchResult 0 rows)
      eqn:Hn.
    + unfold persist, onWorld, saveProcessedFile, Date_now.
      erewrite bind_inr.
      2:{ erewrite bind_inr.
          2:{ erewrite bind_inr by reflexivity. reflexivity. }
          run_tail. reflexivity. }
      run_tail. unfold sendEvent. cbn [stats events outputFiles world].
      eexists _, _, [_]. split; [reflexivity|].
      cbn [stats events outputFiles world].
      split; [rewrite Hev, <- !app_assoc; reflexivity|].
      split; [rewrite Ho; reflexivity|].
      cbn. rewrite Htr, Hpr, Hm, Hpf.
      repeat split; try lia.
      eexists (_ :: _), _. split.
      { rewrite !signal_app, Hsig. cbn [signal filter isStats negb List.app].
        rewrite app_comm_cons. reflexivity. }
      split; [split; [reflexivity|]; apply replayEvents_ascending; simpl; lia|].
      cbn. auto.
    + run_tail. unfold sendEvent. cbn [stats events outputFiles world].
      eexists _, _, [_]. split; [reflexivity|].
      cbn [stats events outputFiles world].
      split; [rewrite Hev, <- !app_assoc; reflexivity|].
      split; [rewrite Ho; reflexivity|].
      cbn. rewrite Htr, Hpr, Hm, Hpf.
      repeat split; try lia.
      eexists (_ :: _), _. split.
      { rewrite !signal_app, Hsig. cbn [signal filter isStats negb List.app].
        rewrite app_comm_cons. reflexivity. }
      split; [split; [reflexivity|]; apply replayEvents_ascending; simpl; lia|].
      cbn. auto.
Qed.

Lemma replayFile_handled (selected_ : list FileDescriptor)
    (entry : string * SearchResult) (st : St) :
  exists st',
    replayFile env selected_ operations entry st = (inr tt, st')
    /\ Handled saved [(filename (snd entry), fst entry)] st st'
    /\ totalMatches (stats st') = totalMatches (stats st).
Proof.
  pose proof (grows_replayFile env selected_ operations entry st) as Hgrow.
  destruct Hgrow as (Htf & _).
  revert Htf.
  destruct entry as [filePath searchResult]. cbn [fst snd].
  unfold replayFile, try_catch.
  erewrite bind_inr by reflexivity.
  erewrite bind_inr by reflexivity.
  cbn [stats events outputFiles world].
  set (st1 := {| stats := _; events := _; outputFiles := _; world := _ |}).
  destruct (fetchText env (actualFilePath selected_ filePath searchResult))
    as [e|text]; cbn [liftE].
  - erewrite bind_inl by reflexivity. intros Htf.
    eexists. split; [reflexivity|]. split; [|reflexivity].
    exists [EvFileStart (filename searchResult) filePath;
            EvFileError (filename searchResult) e], [].
    cbn [stats events outputFiles world st1].
    split; [rewrite <- app_assoc; reflexivity|].
    split; [apply batch_one, (segment_error _ _ _ []); exact I|].
    split; [rewrite app_nil_r; reflexivity|].
    split; [cbn; lia|]. split; [reflexivity|].
    unfold RowsStep. cbn. lia.
  - erewrite bind_inr by reflexivity.
    destruct (0 <? length (errors (Papa_parse env text))).
    + intros Htf. eexists. split; [reflexivity|]. split; [|reflexivity].
      exists [EvFileStart (filename searchResult) filePath;
              EvFileError (filename searchResult)
                (parseErrorsMessage (errors (Papa_parse env text)))], [].
      cbn [stats events outputFiles world st1].
      split; [rewrite <- app_assoc; reflexivity|].
      split; [apply batch_one, (segment_error _ _ _ []); exact I|].
      split; [rewrite app_nil_r; reflexivity|].
      split; [cbn; lia|]. split; [reflexivity|].
      unfold RowsStep. cbn. lia.
    + destruct (replayParsed_summary filePath searchResult
                  (data (Papa_parse env text)) st1)
        as (st2 & evs & outs & Hrun & Hev & Ho & Htr & Hm & Hpr & Hpr' & Hpf
            & middle & closing & Hsig & Hmid & Hclose).
      rewrite Hrun. intros Htf.
      exists st2. split; [reflexivity|]. split; [|exact Hm].
      exists (EvFileStart (filename searchResult) filePath :: evs), outs.
      split; [rewrite Hev; unfold st1; cbn [events];
              rewrite <- app_assoc; reflexivity|].
      split.
      { apply batch_one. rewrite signal_cons_keep by reflexivity.
        rewrite Hsig. exists middle, closing. auto. }
      split; [exact Ho|].
      split; [exact Hpf|].
      split; [exact Htf|].
      unfold RowsStep. rewrite Hm, Htr. cbn in Hpr, Hpr' |- *. lia.
Qed.

End ReplayHandled.

(** ** The closing stage *)

Section Closing.

Variable env : Env.

Lemma bundle_frame (st : St) :
  exists r st',
    bundle env st = (inr r, st')
    /\ events st' = events st
    /\ stats st' = stats st
    /\ outputFiles st' = outputFiles st.
Proof.
  destruct (filter hasOutput (outputFiles st)) as [|f [|g l]] eqn:Hf.
  - eexists _, _. split; [apply bundle_none; exact Hf | auto].
  - eexists _, _. split; [apply (bundle_one env st Hf) | auto].
  - assert (Hlen : 1 < length (filter hasOutput (outputFiles st))).
    { rewrite Hf. simpl. lia. }
    pose proof (bundle_many env st Hlen) as H. cbv zeta in H.
    destruct (archiver env _); eexists _, _; (split; [exact H | auto]).
Qed.

Lemma sendComplete_event (withOutputFiles withProcessedRows : bool) (st : St) :
  exists url zip st',
    sendComplete env withOutputFiles withProcessedRows st = (inr tt, st')
    /\ events st'
       = events st
         ++ [EvComplete
               (if withOutputFiles then Some (outputFiles st) else None)
               url zip (completeStats withProcessedRows (stats st))]
    /\ stats st' = stats st
    /\ outputFiles st' = outputFiles st.
Proof.
  destruct (bundle_frame st) as (r & st1 & Hb & He & Hs & Ho).
  unfold sendComplete. erewrite bind_inr by exact Hb.
  unfold getStats, getOutputFiles, bind, sendEvent.
  exists (fst r), (snd r). eexists. split; [reflexivity|].
  cbn [events stats outputFiles]. rewrite He, Hs, Ho. auto.
Qed.

End Closing.

(** ** The search route *)

Lemma POST_process_taken (env : Env) (body : ProcessRequest) (w : World) :
  (length (files body) =? 0) = false ->
  searchable body = true ->
  exists stB url zip,
    Handled (fun _ => true) (fileKeys (files body))
      (started (length (files body)) w) stB
    /\ events (handle (POST_process env body) w)
       = events stB
         ++ [EvComplete (Some (outputFiles stB)) url zip
               (completeStats
                  (match useAdvanced body with Some _ => true | None => false
                   end) (stats stB))]
    /\ stats (handle (POST_process env body) w) = stats stB
    /\ outputFiles (handle (POST_process env body) w) = outputFiles stB.
Proof.
  intros Hfiles Hok. unfold handle, POST_process, try_catch.
  rewrite Hfiles. erewrite bind_inr by reflexivity.
  change {| stats := initStats (length (files body));
            events := events (freshSt w);
            outputFiles := outputFiles (freshSt w);
            world := world (freshSt w) |}
    with (started (length (files body)) w).
  unfold searchable in Hok.
  destruct (useAdvanced body) as [adv|].
  - unfold processFilesWithAdvancedSearch.
    destruct (@forEach_handled _ (fun _ => true) name path
                (advancedFile env adv (replaceTargetField body)
                   (replaceValue body) (showOnlyMatches body))
                (files body)
                (advancedFile_handled env adv _ _ _)
                (started (length (files body)) w)) as (stB & Hrun & HB).
    erewrite bind_inr by exact Hrun.
    destruct (sendComplete_event env true true stB)
      as (url & zip & st' & Hc & He & Hs & Ho).
    rewrite Hc. cbn [snd]. exists stB, url, zip. auto.
  - destruct (searchTerm body) as [term|]; [|discriminate].
    cbn [nullish] in Hok. rewrite Hok.
    destruct (@forEach_handled _ (fun _ => true) name path
                (simpleFile env body term) (files body)
                (simpleFile_handled env body term)
                (started (length (files body)) w)) as (stB & Hrun & HB).
    erewrite bind_inr by exact Hrun.
    destruct (sendComplete_event env true false stB)
      as (url & zip & st' & Hc & He & Hs & Ho).
    rewrite Hc. cbn [snd]. exists stB, url, zip. auto.
Qed.

Lemma batch_outs_le (fs_ : list (string * string)) (evs : list Event)
    (outs : list OutputFileRecord) :
  Batch fs_ evs outs -> length outs <= length fs_.
Proof.
  induction 1 as [|f rest seg evs outs outs' Hseg _ IH]; simpl; [lia|].
  rewrite length_app.
  destruct Hseg as (middle & closing & _ & _ & Hc).
  destruct closing; try contradiction; destruct Hc as [_ ->]; simpl; lia.
Qed.

Lemma filter_length_le {A} (f : A -> bool) (l : list A) :
  length (filter f l) <= length l.
Proof.
  induction l as [|x l IH]; simpl; [lia|]. destruct (f x); simpl; lia.
Qed.

Lemma handled_consistent (counted : OutputFileRecord -> bool)
    (fs_ : list (string * string)) (w : World) (st : St) :
  Handled counted fs_ (started (length fs_) w) st -> Consistent (stats st).
Proof.
  intros (evs & outs & _ & Hb & _ & Hpf & Htf & Hr1 & Hr2).
  cbn in Hpf, Htf, Hr1, Hr2. unfold Consistent.
  pose proof (batch_outs_le Hb). pose proof (filter_length_le counted outs).
  lia.
Qed.

Lemma reports_complete (evs : list Event)
    (outs : option (list OutputFileRecord))
    (url : option string) (zip b : bool) (s : ProcessStats) :
  Reports (evs ++ [EvComplete outs url zip (completeStats b s)]) s.
Proof.
  unfold Reports. rewrite last_last. cbn. repeat split.
  intros p. destruct b; [|discriminate]. intros H. injection H as <-.
  reflexivity.
Qed.

(** X15. The event stream of the search route.  Without files, or in
    simple mode without a search term, the stream is one request error
    and nothing is written.  Otherwise, snapshots left out, it is one
    segment per file in the order of the request, followed by a single
    [complete] event that carries the output records.  A segment is the
    file's start, then its info and its row events, then its completion
    with one output record or its error with none; the row events name
    the file, come in ascending order of their row numbers, which start
    at 1 and stay within the total the info announced, and each has a
    change record.  The summary counts every file of the request and,
    as processed, the files that completed. *)
Theorem search_stream_protocol (env : Env) (body : ProcessRequest)
    (w : World) :
  let st := handle (POST_process env body) w in
  if length (files body) =? 0 then
    events st = [EvRequestError "Files are required"]
    /\ outputFiles st = [] /\ world st = w
  else if searchable body then
    exists evs outs url zip summary,
      events st = evs ++ [EvComplete (Some outs) url zip summary]
      /\ Batch (fileKeys (files body)) (signal evs) outs
      /\ outputFiles st = outs
      /\ c_totalFiles summary = length (files body)
      /\ c_processedFiles summary = length outs
  else
    events st = [EvRequestError "Search term is required in simple mode"]
    /\ outputFiles st = [] /\ world st = w.
Proof.
  cbv zeta.
  destruct (length (files body) =? 0) eqn:Hfiles.
  { unfold handle, POST_process, try_catch. rewrite Hfiles. cbn. auto. }
  destruct (searchable body) eqn:Hok.
  - destruct (POST_process_taken env body w Hfiles Hok)
      as (stB & url & zip & (evs & outs & He & Hb & Ho & Hpf & Htf & _)
          & Hev & Hst & Hout).
    cbn [started events outputFiles stats] in He, Ho, Hpf, Htf.
    rewrite app_nil_l in He, Ho.
    exists evs, outs, url, zip. eexists.
    split; [rewrite Hev, He, Ho; reflexivity|].
    split; [exact Hb|]. split; [rewrite Hout; exact Ho|].
    cbn [completeStats c_totalFiles c_processedFiles].
    split; [exact Htf|]. rewrite Hpf. cbn.
    clear. induction outs; simpl; auto.
  - unfold handle, POST_process, try_catch. rewrite Hfiles.
    erewrite bind_inr by reflexivity.
    unfold searchable in Hok.
    destruct (useAdvanced body); [discriminate|].
    destruct (searchTerm body) as [term|]; cbn [nullish] in Hok.
    + rewrite Hok. cbn. auto.
    + cbn. auto.
Qed.

(** ** The replace route *)

Lemma forEach_totalMatches {A} (body : A -> M unit) (xs : list A) :
  (forall x st,
     totalMatches (stats (snd (body x st))) = totalMatches (stats st)) ->
  forall st,
    totalMatches (stats (snd (forEach xs body st))) = totalMatches (stats st).
Proof.
  intros Hb.
  apply (@keeps_forEach
           (fun st st' => totalMatches (stats st') = totalMatches (stats st)));
    [reflexivity | intros a b c H1 H2; congruence | exact Hb].
Qed.

Lemma POST_replace_taken (env : Env) (req : ReplaceRequest)
    (ops : list ReplaceOperation) (w : World) :
  (length (searchResults req) =? 0) = false ->
  operationsOf req = inr ops ->
  (length (groupByPath (searchResults req)) =? 0) = false ->
  let filesMap := groupByPath (searchResults req) in
  exists stB url zip,
    Handled saved (replayKeys filesMap) (started (length filesMap) w) stB
    /\ totalMatches (stats stB) = 0
    /\ events (handle (POST_replace env req) w)
       = events stB
         ++ [EvComplete None url zip (completeStats true (stats stB))]
    /\ stats (handle (POST_replace env req) w) = stats stB
    /\ outputFiles (handle (POST_replace env req) w) = outputFiles stB.
Proof.
  intros Hres Hops Hmap. cbv zeta. unfold handle, POST_replace, try_catch.
  rewrite Hres, Hops, Hmap.
  set (filesMap := groupByPath (searchResults req)).
  erewrite bind_inr by reflexivity.
  change {| stats := initStats (length filesMap);
            events := events (freshSt w);
            outputFiles := outputFiles (freshSt w);
            world := world (freshSt w) |}
    with (started (length filesMap) w).
  assert (Hbody : forall x st, exists st',
             replayFile env (selectedFiles req) ops x st = (inr tt, st')
             /\ Handled saved [(filename (snd x), fst x)] st st').
  { intros x st.
    destruct (replayFile_handled env ops (selectedFiles req) x st)
      as (st' & H1 & H2 & _). eauto. }
  assert (Hmatch : forall x st,
             totalMatches
               (stats (snd (replayFile env (selectedFiles req) ops x st)))
             = totalMatches (stats st)).
  { intros x st.
    destruct (replayFile_handled env ops (selectedFiles req) x st)
      as (st' & H1 & _ & H3). rewrite H1. exact H3. }
  destruct (@forEach_handled _ saved (fun e => filename (snd e)) fst
              (replayFile env (selectedFiles req) ops) filesMap Hbody
              (started (length filesMap) w)) as (stB & Hrun & HB).
  pose proof (@forEach_totalMatches _
                (replayFile env (selectedFiles req) ops) filesMap Hmatch
                (started (length filesMap) w)) as Hm.
  rewrite Hrun in Hm. cbn [snd started stats initStats totalMatches] in Hm.
  erewrite bind_inr by exact Hrun.
  destruct (sendComplete_event env false true stB)
    as (url & zip & st' & Hc & He & Hs & Ho).
  rewrite Hc. cbn [snd]. exists stB, url, zip. auto.
Qed.

(** X16. The event stream of the replace route.  A request without
    search results, with operations that are refused, or without a
    result that has rows is answered with one request error and nothing
    is written.  Otherwise the stream is one segment per grouped path,
    in the order of the groups and of the same shape as in the search
    route, followed by a single [complete] event without output
    records; the summary counts the groups as files, as processed the
    files that were saved, and no matches. *)
Theorem replace_stream_protocol (env : Env) (req : ReplaceRequest)
    (w : World) :
  let st := handle (POST_replace env req) w in
  if length (searchResults req) =? 0 then
    events st = [EvRequestError "No search results provided"]
    /\ outputFiles st = [] /\ world st = w
  else
    match operationsOf req with
    | inl msg =>
        events st = [EvRequestError msg]
        /\ outputFiles st = [] /\ world st = w
    | inr _ =>
        let filesMap := groupByPath (searchResults req) in
        if length filesMap =? 0 then
          events st = [EvRequestError "No files with matching rows found"]
          /\ outputFiles st = [] /\ world st = w
        else
          exists evs outs url zip summary,
            events st = evs ++ [EvComplete None url zip summary]
            /\ Batch (replayKeys filesMap) (signal evs) outs
            /\ outputFiles st = outs
            /\ c_totalFiles summary = length filesMap
            /\ c_processedFiles summary = length (filter saved outs)
            /\ c_totalMatches summary = 0
    end.
Proof.
  cbv zeta.
  destruct (length (searchResults req) =? 0) eqn:Hres.
  { unfold handle, POST_replace, try_catch. rewrite Hres. cbn. auto. }
  destruct (operationsOf req) as [msg|ops] eqn:Hops.
  { unfold handle, POST_replace, try_catch. rewrite Hres, Hops. cbn. auto. }
  destruct (length (groupByPath (searchResults req)) =? 0) eqn:Hmap.
  { unfold handle, POST_replace, try_catch. rewrite Hres, Hops, Hmap. cbn.
    auto. }
  destruct (POST_replace_taken env req w Hres Hops Hmap)
    as (stB & url & zip & (evs & outs & He & Hb & Ho & Hpf & Htf & _)
        & Hm & Hev & Hst & Hout).
  cbn [started events outputFiles stats] in He, Ho, Hpf, Htf.
  rewrite app_nil_l in He, Ho.
  exists evs, outs, url, zip. eexists.
  split; [rewrite Hev, He; reflexivity|].
  split; [exact Hb|]. split; [rewrite Hout; exact Ho|].
  cbn [completeStats c_totalFiles c_processedFiles c_totalMatches].
  split; [exact Htf|]. split; [rewrite Hpf; reflexivity | exact Hm].
Qed.

(** X17. At the end of every request of the search route and of the
    replace route the counters agree: processed files do not exceed the
    files, processed rows do not exceed the rows, matches do not exceed
    the processed rows; the summary of the closing event is that of the
    counters, and the replace route counts no matches. *)
Theorem counters_are_consistent (env : Env) (w : World) :
  (forall body,
     let st := handle (POST_process env body) w in
     Consistent (stats st) /\ Reports (events st) (stats st))
  /\ (forall req,
        let st := handle (POST_replace env req) w in
        Consistent (stats st) /\ Reports (events st) (stats st)
        /\ totalMatches (stats st) = 0).
Proof.
  split.
  - intros body. cbv zeta.
    destruct (length (files body) =? 0) eqn:Hfiles.
    { unfold handle, POST_process, try_catch. rewrite Hfiles. cbn.
      unfold Consistent. cbn. auto. }
    destruct (searchable body) eqn:Hok.
    + destruct (POST_process_taken env body w Hfiles Hok)
        as (stB & url & zip & HB & Hev & Hst & Hout).
      rewrite Hst, Hev. split.
      * unfold fileKeys in HB.
        rewrite <- (length_map (fun f => (name f, path f)) (files body)) in HB.
        apply (handled_consistent HB).
      * apply reports_complete.
    + unfold handle, POST_process, try_catch. rewrite Hfiles.
      erewrite bind_inr by reflexivity.
      unfold searchable in Hok.
      destruct (useAdvanced body); [discriminate|].
      destruct (searchTerm body) as [term|]; cbn [nullish] in Hok.
      * rewrite Hok. cbn. unfold Consistent. cbn. split; [lia | exact I].
      * cbn. unfold Consistent. cbn. split; [lia | exact I].
  - intros req. cbv zeta.
    destruct (length (searchResults req) =? 0) eqn:Hres.
    { unfold handle, POST_replace, try_catch. rewrite Hres. cbn.
      unfold Consistent. cbn. auto. }
    destruct (operationsOf req) as [msg|ops] eqn:Hops.
    { unfold handle, POST_replace, try_catch. rewrite Hres, Hops. cbn.
      unfold Consistent. cbn. auto. }
    destruct (length (groupByPath (searchResults req)) =? 0) eqn:Hmap.
    { unfold handle, POST_replace, try_catch. rewrite Hres, Hops, Hmap. cbn.
      unfold Consistent. cbn. auto. }
    destruct (POST_replace_taken env req w Hres Hops Hmap)
      as (stB & url & zip & HB & Hm & Hev & Hst & Hout).
    rewrite Hst, Hev. split; [|split; [apply reports_complete | exact Hm]].
    unfold replayKeys in HB.
    rewrite <- (length_map (fun e => (filename (snd e), fst e))
                  (groupByPath (searchResults req))) in HB.
    apply (handled_consistent HB).
Qed.

End StreamFacts.

(* ================================================================== *)
(** * The snapshots of a request never go back *)
(* ================================================================== *)

Module ProgressFacts.

Import JS Csv Matcher FileProcessor Pipeline Spec Scan Effects BundleFacts.
Import Properties InvariantFacts.

Lemma statsStep_refl (s : ProcessStats) : StatsStep s s.
Proof. unfold StatsStep. repeat split; lia. Qed.

Lemma statsStep_trans (a b c : ProcessStats) :
  StatsStep a b -> StatsStep b c -> StatsStep a c.
Proof. unfold StatsStep. intuition lia. Qed.

Lemma snapshots_app (a b : list Event) :
  snapshots (a ++ b) = snapshots a ++ snapshots b.
Proof.
  induction a as [|e a IH]; simpl; [reflexivity|].
  destruct e; simpl; rewrite IH; reflexivity.
Qed.

Lemma chain_app (a b c : ProcessStats) (l1 l2 : list ProcessStats) :
  Chain a l1 b -> Chain b l2 c -> Chain a (l1 ++ l2) c.
Proof.
  revert a. induction l1 as [|s l1 IH]; intros a H1 H2; simpl in *.
  - destruct l2 as [|t l2]; simpl in *.
    + eapply statsStep_trans; eassumption.
    + destruct H2 as [H2 H3]. split; [|exact H3].
      eapply statsStep_trans; eassumption.
  - destruct H1 as [H1 H3]. split; [exact H1|]. apply IH; assumption.
Qed.

(** The ends of a chain are a step apart, and so is every snapshot from
    either end. *)
Lemma chain_ends (a b : ProcessStats) (l : list ProcessStats) :
  Chain a l b ->
  StatsStep a b /\ forall s, In s l -> StatsStep a s /\ StatsStep s b.
Proof.
  revert a. induction l as [|t l IH]; intros a H; simpl in *.
  - split; [exact H | intros s []].
  - destruct H as [H1 H2]. destruct (IH t H2) as [H3 H4]. split.
    + eapply statsStep_trans; eassumption.
    + intros s [<-|Hs]; [auto|].
      destruct (H4 s Hs) as [H5 H6]. split; [|exact H6].
      eapply statsStep_trans; eassumption.
Qed.

Lemma progress_refl (st : St) : Progress st st.
Proof.
  exists []. rewrite app_nil_r. split; [reflexivity | apply statsStep_refl].
Qed.

Lemma progress_trans (a b c : St) :
  Progress a b -> Progress b c -> Progress a c.
Proof.
  intros (e1 & H1 & C1) (e2 & H2 & C2). exists (e1 ++ e2). split.
  - rewrite H2, H1, app_assoc. reflexivity.
  - rewrite snapshots_app. eapply chain_app; eassumption.
Qed.

Lemma progress_quiet (st st' : St) :
  events st' = events st -> StatsStep (stats st) (stats st') ->
  Progress st st'.
Proof.
  intros He Hs. exists []. rewrite app_nil_r. split; [exact He | exact Hs].
Qed.

Lemma progress_sendEvent (e : Event) :
  isStats e = false -> Keeps Progress (sendEvent e).
Proof.
  intros He st. exists [e]. split; [reflexivity|].
  destruct e; try discriminate He; apply statsStep_refl.
Qed.

Lemma progress_snapshot :
  Keeps Progress (s <- getStats ;; sendEvent (EvStats s)).
Proof.
  intros st. exists [EvStats (stats st)]. split; [reflexivity|].
  split; apply statsStep_refl.
Qed.

Lemma progress_modStats (f : ProcessStats -> ProcessStats) :
  (forall s, StatsStep s (f s)) -> Keeps Progress (modStats f).
Proof. intros H st. apply progress_quiet; [reflexivity | apply H]. Qed.

Lemma progress_pushOutput (o : OutputFileRecord) :
  Keeps Progress (pushOutput o).
Proof.
  intros st. apply progress_quiet; [reflexivity | apply statsStep_refl].
Qed.

Lemma progress_onWorld {A} (f : World -> A * World) :
  Keeps Progress (onWorld f).
Proof.
  intros st. unfold onWorld. destruct (f (world st)).
  apply progress_quiet; [reflexivity | apply statsStep_refl].
Qed.

Ltac progress_with lemma :=
  apply lemma;
  first [ exact progress_refl | exact progress_trans
        | exact progress_snapshot | exact progress_pushOutput
        | exact progress_modStats
        | intros; apply progress_sendEvent; assumption
        | intros; apply progress_onWorld ].

Section Requests.

Variable env : Env.

Lemma progress_simpleFile (body : ProcessRequest) (term : string)
    (file : FileDescriptor) :
  Keeps Progress (simpleFile env body term file).
Proof. progress_with keeps_simpleFile. Qed.

Lemma progress_advancedFile (adv : AdvancedSearchConfig)
    (target value_ : option string) (showOnly : bool)
    (file : FileDescriptor) :
  Keeps Progress (advancedFile env adv target value_ showOnly file).
Proof. progress_with keeps_advancedFile. Qed.

Lemma progress_replayFile (sel : list FileDescriptor)
    (ops : list ReplaceOperation) (entry : string * SearchResult) :
  Keeps Progress (replayFile env sel ops entry).
Proof. progress_with keeps_replayFile. Qed.

Lemma progress_sendComplete (a b : bool) :
  Keeps Progress (sendComplete env a b).
Proof. progress_with keeps_sendComplete. Qed.

(** A request that is refused: one event, no snapshot, counters at
    zero or as they were set. *)
Lemma chain_refused (e : Event) (st : St) :
  isStats e = false -> events st = [] ->
  let st' := snd (sendEvent e st) in
  Chain (stats st) (snapshots (events st')) (stats st').
Proof.
  intros He Hev. cbn. rewrite Hev. cbn.
  destruct e; try discriminate He; apply statsStep_refl.
Qed.

(** From the state in which the files are taken up, whatever is run
    under [Progress] leaves a chain from the zeroed counters. *)
Lemma chain_started (n : nat) (w : World) (m : M unit) :
  Keeps Progress m ->
  let st := snd (m (started n w)) in
  Chain (initStats n) (snapshots (events st)) (stats st).
Proof.
  intros H. destruct (H (started n w)) as (evs & He & Hc).
  cbn [started events stats] in He, Hc. cbn zeta. rewrite He. exact Hc.
Qed.

End Requests.

Lemma handle_started (n : nat) (w : World) (rest : M unit)
    (h : string -> M unit) :
  handle (try_catch (modStats (fun _ => initStats n) ;; rest) h) w
  = snd (try_catch rest h (started n w)).
Proof. reflexivity. Qed.

(** X18. The [stats] snapshots of a request never go back: in the
    stream of the search route and of the replace route, from the zeroed
    counters to the first snapshot, from each snapshot to the next and
    from the last one to the counters at the end, no counter decreases,
    and [totalFiles] is what it is at the end. *)
Theorem snapshots_never_go_back (env : Env) (w : World) :
  (forall body,
     let st := handle (POST_process env body) w in
     Chain (initStats (totalFiles (stats st))) (snapshots (events st))
       (stats st))
  /\ (forall req,
        let st := handle (POST_replace env req) w in
        Chain (initStats (totalFiles (stats st))) (snapshots (events st))
          (stats st)).
Proof.
  pose proof progress_refl as Hrefl.
  pose proof progress_trans as Htrans.
  pose proof (progress_simpleFile env) as Hfile1.
  pose proof (progress_advancedFile env) as Hfile2.
  pose proof (progress_replayFile env) as Hfile3.
  pose proof (progress_sendComplete env) as Hdone.
  assert (Herr : forall msg, Keeps Progress (sendEvent (EvTopError msg))).
  { intros msg. apply progress_sendEvent. reflexivity. }
  assert (Hreq : forall msg, Keeps Progress (sendEvent (EvRequestError msg))).
  { intros msg. apply progress_sendEvent. reflexivity. }
  assert (Hfrom : forall n (m : M unit),
            Keeps Progress m ->
            let st := snd (m (started n w)) in
            Chain (initStats (totalFiles (stats st))) (snapshots (events st))
              (stats st)).
  { intros n m Hm. pose proof (chain_started n w Hm) as Hc. cbv zeta in *.
    destruct (@chain_ends _ _ _ Hc) as [[Htf _] _]. cbn in Htf.
    rewrite Htf. exact Hc. }
  split.
  - intros body. cbv zeta. unfold POST_process.
    destruct (length (files body) =? 0) eqn:Hf.
    { cbn. apply statsStep_refl. }
    rewrite handle_started. apply Hfrom.
    apply keeps_try_catch; auto.
    destruct (useAdvanced body) as [a|].
    + unfold processFilesWithAdvancedSearch.
      apply keeps_bind; auto. apply keeps_forEach; auto.
    + destruct (searchTerm body) as [term|]; [|apply Hreq].
      destruct (truthy term); [|apply Hreq].
      apply keeps_bind; auto. apply keeps_forEach; auto.
  - intros req. cbv zeta. unfold POST_replace.
    destruct (length (searchResults req) =? 0) eqn:Hr.
    { cbn. apply statsStep_refl. }
    destruct (operationsOf req) as [msg|ops].
    { cbn. apply statsStep_refl. }
    destruct (length (groupByPath (searchResults req)) =? 0) eqn:Hg.
    { cbn. apply statsStep_refl. }
    rewrite handle_started. apply Hfrom.
    apply keeps_try_catch; auto.
    apply keeps_bind; auto. apply keeps_forEach; auto.
Qed.

End ProgressFacts.

(* ================================================================== *)
(** * The headers route *)
(* ================================================================== *)

Module HeadersFacts.

Import CsvFacts.
Import JS Pipeline Headers Scan.

Lemma compare_lt_trans (a b c : string) :
  String.compare a b = Lt -> String.compare b c = Lt ->
  String.compare a c = Lt.
Proof.
  revert b c. induction a as [|x a IH]; intros [|y b] [|z c]; simpl;
    try discriminate; try reflexivity.
  unfold Ascii.compare.
  destruct (N.compare_spec (N_of_ascii x) (N_of_ascii y)) as [Hxy|Hxy|Hxy];
    try discriminate;
    destruct (N.compare_spec (N_of_ascii y) (N_of_ascii z)) as [Hyz|Hyz|Hyz];
    try discriminate; intros H1 H2.
  - rewrite Hxy, Hyz, N.compare_refl. eapply IH; eassumption.
  - rewrite Hxy. apply N.compare_lt_iff in Hyz. rewrite Hyz. reflexivity.
  - rewrite <- Hyz. apply N.compare_lt_iff in Hxy. rewrite Hxy. reflexivity.
  - assert (H : (N_of_ascii x < N_of_ascii z)%N) by lia.
    apply N.compare_lt_iff in H. rewrite H. reflexivity.
Qed.

Lemma compare_refl (a : string) : String.compare a a = Eq.
Proof.
  induction a as [|x a IH]; simpl; [reflexivity|].
  unfold Ascii.compare. rewrite N.compare_refl. exact IH.
Qed.

Lemma ltb_lt (a b : string) :
  String.ltb a b = true <-> String.compare a b = Lt.
Proof.
  unfold String.ltb. destruct (String.compare a b); split; congruence.
Qed.

Lemma ltb_irrefl (a : string) : String.ltb a a = false.
Proof. unfold String.ltb. rewrite compare_refl. reflexivity. Qed.

Lemma ltb_trans (a b c : string) :
  String.ltb a b = true -> String.ltb b c = true -> String.ltb a c = true.
Proof. rewrite !ltb_lt. apply compare_lt_trans. Qed.

Lemma ltb_asym (a b : string) :
  String.ltb a b = true -> String.ltb b a = true -> False.
Proof.
  intros H1 H2. pose proof (ltb_trans _ _ _ H1 H2) as H.
  rewrite ltb_irrefl in H. discriminate.
Qed.

Lemma leb_cases (a b : string) :
  String.leb a b = true <-> String.ltb a b = true \/ a = b.
Proof.
  unfold String.leb, String.ltb.
  destruct (String.compare a b) eqn:E; split; try tauto; try congruence.
  - intros _. right. apply String.compare_eq_iff. exact E.
  - intros [H| ->]; [discriminate|]. rewrite compare_refl in E. discriminate.
Qed.

Lemma leb_false (a b : string) :
  String.leb a b = false -> String.ltb b a = true.
Proof.
  unfold String.leb, String.ltb. rewrite (String.compare_antisym b a).
  destruct (String.compare a b); simpl; congruence.
Qed.

(** The head of an ascending list is below everything after it. *)
Lemma ascending_head (x : string) (l : list string) :
  ascending (x :: l) = true ->
  ascending l = true /\ forall y, In y l -> String.ltb x y = true.
Proof.
  revert x. induction l as [|z l IH]; intros x H.
  - split; [reflexivity | intros y []].
  - cbn [ascending] in H. apply andb_true_iff in H. destruct H as [Hxz Hl].
    split; [exact Hl|]. intros y [<-|Hy]; [exact Hxz|].
    destruct (IH z Hl) as [_ Hz]. eapply ltb_trans; [exact Hxz|]. auto.
Qed.

Lemma ascending_cons (x : string) (l : list string) :
  ascending l = true -> (forall y, In y l -> String.ltb x y = true) ->
  ascending (x :: l) = true.
Proof.
  intros Hl Hx. destruct l as [|z l]; [reflexivity|].
  cbn [ascending]. rewrite (Hx z (or_introl eq_refl)). exact Hl.
Qed.

Lemma insertSorted_In (x y : string) (l : list string) :
  In y (insertSorted x l) <-> y = x \/ In y l.
Proof.
  induction l as [|z l IH]; simpl.
  - intuition congruence.
  - destruct (String.leb x z); simpl; [intuition congruence|].
    rewrite IH. intuition congruence.
Qed.

Lemma sort_In (y : string) (l : list string) : In y (sort l) <-> In y l.
Proof.
  induction l as [|x l IH]; simpl; [tauto|].
  rewrite insertSorted_In, IH. intuition congruence.
Qed.

Lemma insertSorted_ascending (x : string) (l : list string) :
  ascending l = true -> ~ In x l -> ascending (insertSorted x l) = true.
Proof.
  induction l as [|z l IH]; intros Hl Hx; [reflexivity|].
  cbn [insertSorted]. destruct (String.leb x z) eqn:E.
  - apply leb_cases in E. destruct E as [E| ->].
    + cbn [ascending]. rewrite E. exact Hl.
    + exfalso. apply Hx. left. reflexivity.
  - apply leb_false in E. destruct (ascending_head _ _ Hl) as [Hl' Hz].
    apply ascending_cons.
    + apply IH; [exact Hl'|]. intros H. apply Hx. right. exact H.
    + intros y Hy. apply insertSorted_In in Hy. destruct Hy as [->|Hy]; auto.
Qed.

Lemma sort_ascending (l : list string) :
  NoDup l -> ascending (sort l) = true.
Proof.
  induction 1 as [|x l Hx Hl IH]; [reflexivity|].
  simpl. apply insertSorted_ascending; [exact IH|].
  rewrite sort_In. exact Hx.
Qed.

(** An ascending list is determined by its elements. *)
Lemma ascending_unique (l1 l2 : list string) :
  ascending l1 = true -> ascending l2 = true ->
  (forall h, In h l1 <-> In h l2) -> l1 = l2.
Proof.
  revert l2. induction l1 as [|x l1 IH]; intros [|y l2] H1 H2 Hs.
  - reflexivity.
  - exfalso. apply (Hs y). left. reflexivity.
  - exfalso. apply (Hs x). left. reflexivity.
  - destruct (ascending_head _ _ H1) as [H1' Hx].
    destruct (ascending_head _ _ H2) as [H2' Hy].
    assert (Exy : x = y).
    { destruct (proj1 (Hs x) (or_introl eq_refl)) as [E|Hin]; [auto|].
      destruct (proj2 (Hs y) (or_introl eq_refl)) as [E|Hin']; [auto|].
      exfalso. exact (ltb_asym _ _ (Hy _ Hin) (Hx _ Hin')). }
    subst y. f_equal. apply IH; [exact H1' | exact H2' |].
    intros h. split; intros Hh.
    + destruct (proj1 (Hs h) (or_intror Hh)) as [<-|Hin]; [|exact Hin].
      apply Hx in Hh. rewrite ltb_irrefl in Hh. discriminate.
    + destruct (proj2 (Hs h) (or_intror Hh)) as [<-|Hin]; [|exact Hin].
      apply Hy in Hh. rewrite ltb_irrefl in Hh. discriminate.
Qed.

Section Route.

Variable fetchText : string -> string + string.
Variable Papa_fields : string -> option (list string).

Lemma addAll_NoDup (set items : list string) :
  NoDup set -> NoDup (addAll set items).
Proof.
  intros Hs. unfold addAll. apply NoDup_app.
  - exact Hs.
  - apply dedup_from_NoDup.
  - intros x Hx Hd. apply dedup_from_In in Hd. tauto.
Qed.

Lemma addAll_In (set items : list string) (h : string) :
  In h (addAll set items) <-> In h set \/ In h items.
Proof.
  unfold addAll. rewrite in_app_iff, dedup_from_In.
  destruct (in_dec string_dec h set); tauto.
Qed.

Lemma uniqueFields_In (fields : list string) (h : string) :
  In h (uniqueFields fields) <->
  exists field, In field fields /\ trim field = h /\ h <> "".
Proof.
  unfold uniqueFields, uniq. rewrite dedup_from_In, in_map_iff. split.
  - intros [(f & Ht & Hf) _]. apply filter_In in Hf. destruct Hf as [Hf Hb].
    exists f. split; [exact Hf|]. split; [exact Ht|].
    apply andb_true_iff in Hb. destruct Hb as [_ Hb]. rewrite Ht in Hb.
    intros ->. discriminate.
  - intros (f & Hf & Ht & Hne). split; [|intros []].
    exists f. split; [exact Ht|]. apply filter_In. split; [exact Hf|].
    rewrite Ht. destruct h; [contradiction|].
    destruct f; [discriminate Ht | reflexivity].
Qed.

Lemma extract_NoDup (set : list string) (file : FileDescriptor) :
  NoDup set -> NoDup (extractHeaders fetchText Papa_fields set file).
Proof.
  intros H. unfold extractHeaders. destruct (textOf fetchText file); [auto|].
  destruct (Papa_fields _); [|auto]. destruct (0 <? _); [|auto].
  apply addAll_NoDup. exact H.
Qed.

Lemma extract_In (set : list string) (file : FileDescriptor) (h : string) :
  In h (extractHeaders fetchText Papa_fields set file) <->
  In h set \/ Offers fetchText Papa_fields file h.
Proof.
  unfold extractHeaders, Offers.
  destruct (textOf fetchText file) as [e|text].
  - split; [auto|]. intros [H|(t & fs & f & H & _)]; [auto | discriminate].
  - destruct (Papa_fields (sampleText text)) as [fields|] eqn:Ef.
    + destruct (0 <? length fields) eqn:El.
      * rewrite addAll_In, uniqueFields_In. split.
        -- intros [H|(f & Hf & Ht & Hne)]; [auto|]. right.
           exists text, fields, f. auto.
        -- intros [H|(t & fs & f & Et & Efs & Hf & Ht & Hne)]; [auto|].
           right. injection Et as <-. rewrite Ef in Efs.
           injection Efs as <-. exists f. auto.
      * split; [auto|].
        intros [H|(t & fs & f & Et & Efs & Hf & _)]; [auto|].
        injection Et as <-. rewrite Ef in Efs. injection Efs as <-.
        apply Nat.ltb_ge in El. destruct fields; [destruct Hf|].
        simpl in El. lia.
    + split; [auto|].
      intros [H|(t & fs & f & Et & Efs & _)]; [auto|].
      injection Et as <-. rewrite Ef in Efs. discriminate.
Qed.

Lemma collect_NoDup (files : list FileDescriptor) (set : list string) :
  NoDup set ->
  NoDup (fold_left (extractHeaders fetchText Papa_fields) files set).
Proof.
  revert set. induction files as [|f files IH]; intros set H; simpl; [auto|].
  apply IH. apply extract_NoDup. exact H.
Qed.

Lemma collect_In (files : list FileDescriptor) (set : list string)
    (h : string) :
  In h (fold_left (extractHeaders fetchText Papa_fields) files set) <->
  In h set
  \/ exists file, In file files /\ Offers fetchText Papa_fields file h.
Proof.
  revert set. induction files as [|f files IH]; intros set; simpl.
  - split; [auto|]. intros [H|(x & [] & _)]. exact H.
  - rewrite IH, extract_In. split.
    + intros [[H|H]|(x & Hx & Ho)]; [auto| |].
      * right. exists f. auto.
      * right. exists x. auto.
    + intros [H|(x & [<-|Hx] & Ho)]; [auto|auto|].
      right. exists x. auto.
Qed.

(** X19. The headers route answers 400 [No files provided] to an empty
    list and to nothing else.  Otherwise its list is in strictly
    ascending order, so without duplicates, and holds exactly the
    non-blank trimmed first-line fields of the files that could be read;
    it is the same for any other list of files that offers the same
    columns: the order of the files, repeated files and files that fail
    make no difference. *)
Theorem headers_are_the_sorted_union (files : list FileDescriptor) :
  match POST fetchText Papa_fields files with
  | HeadersError status error =>
      files = [] /\ status = 400 /\ error = "No files provided"
  | HeadersOk headers =>
      files <> []
      /\ ascending headers = true
      /\ NoDup headers
      /\ (forall h,
            In h headers <->
            exists file,
              In file files /\ Offers fetchText Papa_fields file h)
      /\ (forall others,
            others <> [] ->
            (forall h,
               (exists file,
                  In file others /\ Offers fetchText Papa_fields file h)
               <->
               (exists file,
                  In file files /\ Offers fetchText Papa_fields file h)) ->
            POST fetchText Papa_fields others = HeadersOk headers)
  end.
Proof.
  unfold POST. destruct files as [|f files]; [simpl; auto|].
  cbn [length Nat.eqb]. set (fs := f :: files).
  set (collect := fold_left (extractHeaders fetchText Papa_fields)).
  assert (Hasc : forall l, ascending (sort (collect l [])) = true).
  { intros l. apply sort_ascending, collect_NoDup. constructor. }
  assert (Hin : forall l h,
            In h (sort (collect l [])) <->
            exists file, In file l /\ Offers fetchText Papa_fields file h).
  { intros l h. unfold collect. rewrite sort_In, collect_In. simpl. tauto. }
  split; [discriminate|]. split; [apply Hasc|]. split.
  - pose proof (Hasc fs) as H. revert H.
    generalize (sort (collect fs [])). intros l.
    induction l as [|x l IH]; intros H; constructor.
    + destruct (ascending_head _ _ H) as [_ Hx]. intros Hi.
      apply Hx in Hi. rewrite ltb_irrefl in Hi. discriminate.
    + apply IH. apply (ascending_head _ _ H).
  - split; [apply Hin|]. intros others Hne Hsame.
    destruct others as [|o others]; [contradiction|].
    cbn [length Nat.eqb]. f_equal. apply ascending_unique; try apply Hasc.
    intros h. rewrite !Hin. apply Hsame.
Qed.

End Route.

End HeadersFacts.

(* ================================================================== *)
(** * Row events report the matched rows *)
(* ================================================================== *)

Module RowEventFacts.

Import JS Csv Matcher MatcherFacts FileProcessor Pipeline Spec Scan Effects.
Import AdvancedFacts SimpleFacts.

Lemma in_rowEvent (fname fpath : string) (i total : nat)
    (changes : list RowChange) (f p : string) (k t : nat)
    (c : list RowChange) :
  In (EvRowProcessed f p k t c) (rowEvent fname fpath i total changes) <->
  f = fname /\ p = fpath /\ k = i + 1 /\ t = total /\ c = changes
  /\ changes <> [].
Proof.
  unfold rowEvent. destruct changes as [|x changes]; simpl.
  - split; [intros [] | intros (_ & _ & _ & _ & _ & H); apply H; reflexivity].
  - split.
    + intros [H|[]]. injection H as <- <- <- <- <-.
      repeat split; try reflexivity. discriminate.
    + intros (-> & -> & -> & -> & -> & _). left. reflexivity.
Qed.

(** The row events of a loop that reports the rows [matched] accepts,
    each with the change records [changes] gives. *)
Section Reported.

Variables fname fpath : string.
Variable total : nat.
Variable matched : Row -> bool.
Variable changes : Row -> list RowChange.
Variable eventsOf : nat -> list Row -> list Event.

Hypothesis eventsOf_nil : forall i, eventsOf i [] = [].
Hypothesis eventsOf_cons :
  forall i row rest,
    eventsOf i (row :: rest)
    = (if matched row then rowEvent fname fpath i total (changes row) else [])
      ++ eventsOf (S i) rest.

Lemma reported_rows (rows : list Row) :
  forall i f p k t c,
    In (EvRowProcessed f p k t c) (eventsOf i rows) <->
    f = fname /\ p = fpath /\ t = total
    /\ exists row,
         i < k /\ nth_error rows (k - 1 - i) = Some row
         /\ matched row = true /\ c = changes row /\ c <> [].
Proof.
  induction rows as [|row rest IH]; intros i f p k t c.
  - rewrite eventsOf_nil. split; [intros []|].
    intros (_ & _ & _ & r & _ & H & _). destruct (k - 1 - i); discriminate.
  - rewrite eventsOf_cons, in_app_iff, IH. split.
    + intros [H|(Hf & Hp & Ht & r & Hk & Hn & Hm & Hc & Hne)].
      * destruct (matched row) eqn:Hm; [|destruct H].
        apply in_rowEvent in H.
        destruct H as (Hf & Hp & Hk & Ht & Hc & Hne).
        split; [exact Hf|]. split; [exact Hp|]. split; [exact Ht|].
        exists row. subst k.
        replace (i + 1 - 1 - i) with 0 by lia.
        split; [lia|]. split; [reflexivity|]. split; [exact Hm|].
        split; [exact Hc|]. rewrite Hc. exact Hne.
      * split; [exact Hf|]. split; [exact Hp|]. split; [exact Ht|].
        exists r. replace (k - 1 - i) with (S (k - 1 - S i)) by lia.
        split; [lia|]. auto.
    + intros (Hf & Hp & Ht & r & Hk & Hn & Hm & Hc & Hne).
      destruct (k - 1 - i) as [|j] eqn:Hj.
      * left. simpl in Hn. injection Hn as ->. rewrite Hm.
        apply in_rowEvent.
        split; [exact Hf|]. split; [exact Hp|]. split; [lia|].
        split; [exact Ht|]. split; [exact Hc|]. rewrite <- Hc. exact Hne.
      * right. split; [exact Hf|]. split; [exact Hp|]. split; [exact Ht|].
        exists r. replace (k - 1 - S i) with j by lia.
        simpl in Hn. split; [lia|]. auto.
Qed.

End Reported.

Lemma in_framed (e info closing : Event) (middle : list Event) :
  isRowEvent e -> ~ isRowEvent info -> ~ isRowEvent closing ->
  In e (info :: middle ++ [closing]) <-> In e middle.
Proof.
  intros He Hi Hc. simpl. rewrite in_app_iff. simpl. split.
  - intros [<-|[H|[<-|[]]]]; [contradiction | exact H | contradiction].
  - auto.
Qed.

(** X20. In the simple mode, for a pattern that compiles, the
    [row-processed] events of a file are exactly those of the rows
    that match and have a change record: the event of such a row names
    the file, carries the row's 1-based position as [rowIndex], the
    number of rows as [totalRows] and the row's change records, and
    there is no other.  So a row that matches without a change record
    (in a search, a match that no single cell holds; in a replacement,
    a row that already holds the replace term) has no event. *)
Theorem simple_row_events_report_matched_rows
    (env : Env) (body : ProcessRequest) (term : string)
    (file : FileDescriptor) (rows : list Row) (st : St) :
  re_syntax_error (engine env) (searchPattern body term) = None ->
  let headers := headersOf rows in
  let matched :=
    simpleMatched env headers (searchPattern body term) (negb (cs body)) in
  let reported :=
    fun row =>
      snd (simpleRewrite env (replaceTerm body) headers
             (fieldsToReplace body rows) (searchPattern body term)
             (negb (cs body)) row) in
  exists evs,
    events (snd (simpleParsed env body term file rows st)) = events st ++ evs
    /\ forall f p k t changes,
         In (EvRowProcessed f p k t changes) evs <->
         f = name file /\ p = path file /\ t = length rows
         /\ exists row,
              1 <= k /\ nth_error rows (k - 1) = Some row
              /\ matched row = true
              /\ changes = reported row /\ changes <> [].
Proof.
  intros Hok headers matched reported.
  destruct (@simpleParsed_outcome env body term file rows st Hok)
    as (st' & evs & np & Hrun & Hev & Hsig & _).
  exists evs. rewrite Hrun. split; [exact Hev|].
  intros f p k t changes.
  assert (Hin : In (EvRowProcessed f p k t changes) evs
                <-> In (EvRowProcessed f p k t changes) (signal evs)).
  { rewrite in_signal. simpl. tauto. }
  rewrite Hin, Hsig, in_framed by (simpl; tauto).
  etransitivity.
  { apply (@reported_rows (name file) (path file) (length rows) matched
             reported
             (simpleEvents env (replaceTerm body) headers
                (fieldsToReplace body rows) file (length rows)
                (searchPattern body term) (negb (cs body))));
      reflexivity. }
  rewrite Nat.sub_0_r. reflexivity.
Qed.

(** The search for NY on the people file. *)
Lemma simple_row_events_witness :
  let env := Demo.demoEnv Demo.store in
  let body := Demo.searchRequest None in
  let rows := data (Demo.demoParse Demo.people) in
  let st := freshSt (Demo.emptyWorld []) in
  let headers := headersOf rows in
  let matched :=
    simpleMatched env headers (searchPattern body "NY") (negb (cs body)) in
  let reported :=
    fun row =>
      snd (simpleRewrite env (replaceTerm body) headers
             (fieldsToReplace body rows) (searchPattern body "NY")
             (negb (cs body)) row) in
  exists evs,
    events (snd (simpleParsed env body "NY" Demo.peopleFile rows st))
    = events st ++ evs
    /\ forall f p k t changes,
         In (EvRowProcessed f p k t changes) evs <->
         f = name Demo.peopleFile /\ p = path Demo.peopleFile
         /\ t = length rows
         /\ exists row,
              1 <= k /\ nth_error rows (k - 1) = Some row
              /\ matched row = true
              /\ changes = reported row /\ changes <> [].
Proof.
  apply (@simple_row_events_report_matched_rows (Demo.demoEnv Demo.store)
           (Demo.searchRequest None) "NY" Demo.peopleFile).
  reflexivity.
Defined.

(** X21. In the advanced mode, when the patterns of the active
    conditions compile (or the file has no rows), the [row-processed]
    events of a file are exactly those of the rows that satisfy the
    conditions and have a change record, each under the row's 1-based
    position, with the number of rows and the row's change records. *)
Theorem advanced_row_events_report_matched_rows
    (env : Env) (adv : AdvancedSearchConfig) (target value_ : option string)
    (showOnly : bool) (file : FileDescriptor) (rows : list Row) (st : St) :
  patternError (engine env) (activeOf adv) = None \/ rows = [] ->
  let headers := headersOf rows in
  let matched := advMatched env adv headers in
  let reported :=
    fun row => snd (advRewrite env adv target value_ headers row) in
  exists evs,
    events (snd (advancedParsed env adv target value_ showOnly file rows st))
    = events st ++ evs
    /\ forall f p k t changes,
         In (EvRowProcessed f p k t changes) evs <->
         f = name file /\ p = path file /\ t = length rows
         /\ exists row,
              1 <= k /\ nth_error rows (k - 1) = Some row
              /\ matched row = true
              /\ changes = reported row /\ changes <> [].
Proof.
  intros Hok headers matched reported.
  destruct (@advancedParsed_outcome env adv target value_ showOnly file rows
              st Hok)
    as (st' & evs & np & Hrun & Hev & Hsig & _).
  exists evs. rewrite Hrun. split; [exact Hev|].
  intros f p k t changes.
  assert (Hin : In (EvRowProcessed f p k t changes) evs
                <-> In (EvRowProcessed f p k t changes) (signal evs)).
  { rewrite in_signal. simpl. tauto. }
  rewrite Hin, Hsig, in_framed by (simpl; tauto).
  etransitivity.
  { apply (@reported_rows (name file) (path file) (length rows) matched
             reported
             (advEvents env adv target value_ headers file (length rows)));
      reflexivity. }
  rewrite Nat.sub_0_r. reflexivity.
Qed.

(** The rows of the people file whose state starts with N. *)
Lemma advanced_row_events_witness :
  let env := Demo.demoEnv Demo.store in
  let rows := data (Demo.demoParse Demo.people) in
  let st := freshSt (Demo.emptyWorld []) in
  let headers := headersOf rows in
  let matched := advMatched env Demo.startsWithN headers in
  let reported :=
    fun row => snd (advRewrite env Demo.startsWithN None None headers row) in
  exists evs,
    events (snd (advancedParsed env Demo.startsWithN None None false
                   Demo.peopleFile rows st))
    = events st ++ evs
    /\ forall f p k t changes,
         In (EvRowProcessed f p k t changes) evs <->
         f = name Demo.peopleFile /\ p = path Demo.peopleFile
         /\ t = length rows
         /\ exists row,
              1 <= k /\ nth_error rows (k - 1) = Some row
              /\ matched row = true
              /\ changes = reported row /\ changes <> [].
Proof.
  apply (@advanced_row_events_report_matched_rows (Demo.demoEnv Demo.store)
           Demo.startsWithN None None false Demo.peopleFile).
  left. reflexivity.
Defined.

End RowEventFacts.

(* ================================================================== *)
(** * Replaying a replay *)
(* ================================================================== *)

Module ReplayTwiceFacts.

Import JS Csv Matcher MatcherFacts FileProcessor Pipeline Spec Scan Effects.
Import ReplayFacts.

Lemma lastValue_named (ops : list ReplaceOperation) (f v : string) :
  lastValue ops f = Some v -> In f (map op_field ops).
Proof.
  revert v. induction ops as [|r rest IH]; intros v Hl; simpl in Hl;
    [discriminate|].
  destruct (lastValue rest f) as [w|] eqn:Hr.
  - right. apply (IH w). reflexivity.
  - destruct (String.eqb (op_field r) f) eqn:He; [|discriminate].
    apply String.eqb_eq in He. left. exact He.
Qed.

(** With distinct fields, the last value for the field of an operation
    is the value of that operation. *)
Lemma lastValue_distinct (ops : list ReplaceOperation) (op : ReplaceOperation) :
  NoDup (map op_field ops) -> In op ops ->
  lastValue ops (op_field op) = Some (op_value op).
Proof.
  induction ops as [|o rest IH]; intros Hnd Hin; [destruct Hin|].
  simpl in Hnd. inversion Hnd as [|? ? Hfresh Hrest]; subst.
  simpl. destruct Hin as [->|Hin].
  - destruct (lastValue rest (op_field op)) as [v|] eqn:Hl.
    + exfalso. apply Hfresh. apply (lastValue_named _ _ Hl).
    + rewrite String.eqb_refl. reflexivity.
  - rewrite (IH Hrest Hin). reflexivity.
Qed.

(** A row that already holds the value of every operation is left as it
    is, without a change record. *)
Lemma writeOps_settled (headers : list string) (ops : list ReplaceOperation)
    (row : Row) :
  (forall op, In op ops -> In (op_field op) headers ->
              nullish (get row (op_field op)) "" = op_value op) ->
  writeOps headers ops row = (row, []).
Proof.
  induction ops as [|op rest IH]; intros H; simpl; [reflexivity|].
  destruct (arr_includes headers (op_field op)) eqn:Hh; simpl.
  - apply arr_includes_In in Hh.
    rewrite (H op (or_introl eq_refl) Hh).
    rewrite (proj2 (strict_neq_false (op_value op) (op_value op)) eq_refl).
    apply IH. intros o Ho. apply H. right. exact Ho.
  - apply IH. intros o Ho. apply H. right. exact Ho.
Qed.

Lemma writeOps_twice (headers : list string) (ops : list ReplaceOperation)
    (row : Row) :
  NoDup (map op_field ops) ->
  writeOps headers ops (fst (writeOps headers ops row))
  = (fst (writeOps headers ops row), []).
Proof.
  intros Hnd. apply writeOps_settled. intros op Hin Hh.
  apply writeOps_named; [exact Hh|].
  apply lastValue_distinct; assumption.
Qed.

Section Twice.

Variable operations : list ReplaceOperation.
Variable headers : list string.
Variable searchResult : SearchResult.
Variable filePath : string.
Variable total : nat.

Hypothesis distinct : NoDup (map op_field operations).

Lemma rewriteRow_twice (i : nat) (row : Row) :
  rewriteRow operations headers searchResult i
    (fst (rewriteRow operations headers searchResult i row))
  = (fst (rewriteRow operations headers searchResult i row), []).
Proof.
  unfold rewriteRow. destruct (selected searchResult i) eqn:Hs.
  - apply writeOps_twice. exact distinct.
  - reflexivity.
Qed.

Lemma replayOut_twice (rows : list Row) (i : nat) :
  replayOut operations headers searchResult i
    (replayOut operations headers searchResult i rows)
  = replayOut operations headers searchResult i rows.
Proof.
  revert i. induction rows as [|row rest IH]; intros i; simpl; [reflexivity|].
  rewrite rewriteRow_twice, IH. reflexivity.
Qed.

Lemma replayCount_twice (rows : list Row) (i : nat) :
  replayCount operations headers searchResult i
    (replayOut operations headers searchResult i rows) = 0.
Proof.
  revert i. induction rows as [|row rest IH]; intros i; simpl; [reflexivity|].
  rewrite rewriteRow_twice, IH. reflexivity.
Qed.

Lemma replayEvents_twice (rows : list Row) (i : nat) :
  replayEvents operations headers searchResult filePath total i
    (replayOut operations headers searchResult i rows) = [].
Proof.
  revert i. induction rows as [|row rest IH]; intros i; simpl; [reflexivity|].
  rewrite rewriteRow_twice, IH. reflexivity.
Qed.

End Twice.

(** X22. Replaying twice: when no two operations name the same field,
    the row loop of the replay, run again on the rows it produced, gives
    back the same rows, counts no replacement and sends no
    [row-processed] event. *)
Theorem replay_twice_changes_nothing
    (operations : list ReplaceOperation) (headers : list string)
    (searchResult : SearchResult) (filePath : string) (total : nat)
    (rows : list Row) (st1 st2 : St) :
  NoDup (map op_field operations) ->
  exists first st1' second st2' evs,
    replayRows operations headers searchResult filePath total rows 0
      emptyScan st1 = (inr first, st1')
    /\ replayRows operations headers searchResult filePath total
         (processedRowsOut first) 0 emptyScan st2 = (inr second, st2')
    /\ processedRowsOut second = processedRowsOut first
    /\ fileReplacements second = 0
    /\ totalReplacements (stats st2') = totalReplacements (stats st2)
    /\ events st2' = events st2 ++ evs
    /\ signal evs = [].
Proof.
  intros Hnd.
  destruct (replayRows_runs operations headers searchResult filePath total
              rows 0 emptyScan st1) as [st1' [Hrun1 _]].
  set (out := replayOut operations headers searchResult 0 rows) in *.
  destruct (replayRows_runs operations headers searchResult filePath total
              out 0 emptyScan st2)
    as [st2' [Hrun2 (_ & _ & _ & _ & _ & _ & _ & Hrepl & evs & Hev & Hsig)]].
  cbn [d_repl d_events] in Hrepl, Hsig.
  unfold out in Hrun2, Hrepl, Hsig.
  rewrite (@replayOut_twice operations headers searchResult Hnd) in Hrun2.
  rewrite (@replayCount_twice operations headers searchResult Hnd)
    in Hrun2, Hrepl.
  rewrite (@replayEvents_twice operations headers searchResult filePath
             total Hnd) in Hsig.
  do 4 eexists. exists evs.
  split; [exact Hrun1|]. cbn [grow emptyScan processedRowsOut List.app].
  split; [exact Hrun2|].
  cbn [grow emptyScan processedRowsOut fileReplacements List.app Nat.add].
  split; [reflexivity|]. split; [reflexivity|].
  split; [rewrite Hrepl; lia|]. split; [exact Hev | exact Hsig].
Qed.

(** The states of rows 1 and 3 of the people file set to New York,
    twice. *)
Lemma replay_twice_witness :
  let operations := [{| op_field := "state"; op_value := "New York" |}] in
  let rows := data (Demo.demoParse Demo.people) in
  let st := freshSt (Demo.emptyWorld []) in
  exists first st1' second st2' evs,
    replayRows operations ["name"; "state"] (Demo.peopleResult [1%Z; 3%Z])
      "/srv/app/tmp/1_people.csv" 3 rows 0 emptyScan st = (inr first, st1')
    /\ replayRows operations ["name"; "state"]
         (Demo.peopleResult [1%Z; 3%Z]) "/srv/app/tmp/1_people.csv" 3
         (processedRowsOut first) 0 emptyScan st = (inr second, st2')
    /\ processedRowsOut second = processedRowsOut first
    /\ fileReplacements second = 0
    /\ totalReplacements (stats st2') = totalReplacements (stats st)
    /\ events st2' = events st ++ evs
    /\ signal evs = [].
Proof.
  apply (@replay_twice_changes_nothing
           [{| op_field := "state"; op_value := "New York" |}]).
  simpl. constructor; [intros [] | constructor].
Defined.

End ReplayTwiceFacts.

(* ================================================================== *)
(** * The escaped search term *)
(* ================================================================== *)

Module EscapeFacts.

Import JS Csv Matcher FileProcessor Pipeline Spec Scan SimpleFacts.

Lemma backslash_special : isRegexSpecial (ascii_of_nat 92) = true.
Proof. reflexivity. Qed.

Lemma plain_not_backslash (c : ascii) :
  isRegexSpecial c = false -> Nat.eqb (nat_of_ascii c) 92 = false.
Proof.
  intros H. destruct (Nat.eqb (nat_of_ascii c) 92) eqn:E; [|reflexivity].
  apply Nat.eqb_eq in E.
  assert (Hc : c = ascii_of_nat 92).
  { rewrite <- E. symmetry. apply ascii_nat_embedding. }
  rewrite Hc, backslash_special in H. discriminate.
Qed.

Lemma unescape_escapeRegExp (s : string) :
  Demo.unescape (escapeRegExp s) = Some s.
Proof.
  induction s as [|c t IH]; [reflexivity|].
  cbn [escapeRegExp]. destruct (isRegexSpecial c) eqn:Hc.
  - cbn [Demo.unescape]. rewrite nat_ascii_embedding by lia.
    cbn [Nat.eqb]. rewrite IH. reflexivity.
  - cbn [Demo.unescape]. rewrite (plain_not_backslash _ Hc), Hc, IH.
    reflexivity.
Qed.

(** The characters the route escapes, one by one. *)
Lemma isRegexSpecial_listed (c : ascii) :
  isRegexSpecial c = true <->
  In c ["\"; "^"; "$"; "."; "|"; "?"; "*"; "+"; "("; ")"; "["; "]"; "{";
        "}"]%char.
Proof.
  rewrite isRegexSpecial_isSpecial. unfold isSpecial.
  rewrite existsb_exists. split.
  - intros (x & Hx & He). apply Ascii.eqb_eq in He. subst x. exact Hx.
  - intros H. exists c. split; [exact H | apply Ascii.eqb_refl].
Qed.

Lemma plain_eqb_backslash (c : ascii) :
  isRegexSpecial c = false -> Ascii.eqb c "\"%char = false.
Proof.
  intros H. destruct (Ascii.eqb c "\"%char) eqn:E; [|reflexivity].
  apply Ascii.eqb_eq in E. subst c. discriminate H.
Qed.

Lemma dropEscapes_escapeRegExp (s : string) :
  dropEscapes (escapeRegExp s) = s.
Proof.
  induction s as [|c t IH]; [reflexivity|].
  cbn [escapeRegExp]. destruct (isRegexSpecial c) eqn:Hc.
  - change (ascii_of_nat 92) with "\"%char. cbn [dropEscapes].
    rewrite Ascii.eqb_refl, IH. reflexivity.
  - cbn [dropEscapes]. rewrite (plain_eqb_backslash _ Hc), IH. reflexivity.
Qed.

Lemma escapeRegExp_length (s : string) :
  String.length (escapeRegExp s)
  = String.length s
    + length (filter isRegexSpecial (list_ascii_of_string s)).
Proof.
  induction s as [|c t IH]; [reflexivity|].
  cbn [escapeRegExp list_ascii_of_string filter].
  destruct (isRegexSpecial c); cbn [String.length length]; rewrite IH; lia.
Qed.

(** X23. [escapeRegExp] puts a backslash before each of the fourteen
    characters \ ^ $ . | ? * + ( ) [ ] { } and leaves every other
    character as it is: its result is the term written character by
    character, a listed character after a backslash and any other
    alone.  So the pattern, read back with each backslash dropped and
    the character after it kept, is the term; terms that differ have
    patterns that differ; the pattern is longer than the term by the
    number of listed characters in the term; and the engine of literal
    patterns compiles it. *)
Theorem escapeRegExp_reads_back (term : string) :
  (forall c,
     isRegexSpecial c = true <->
     In c ["\"; "^"; "$"; "."; "|"; "?"; "*"; "+"; "("; ")"; "["; "]"; "{";
           "}"]%char)
  /\ escapeRegExp term
     = String.concat ""
         (map (fun c =>
                 if isRegexSpecial c
                 then String "\"%char (String c EmptyString)
                 else String c EmptyString)
            (list_ascii_of_string term))
  /\ dropEscapes (escapeRegExp term) = term
  /\ (forall other, escapeRegExp term = escapeRegExp other -> term = other)
  /\ String.length (escapeRegExp term)
     = String.length term
       + length (filter isRegexSpecial (list_ascii_of_string term))
  /\ Demo.unescape (escapeRegExp term) = Some term
  /\ re_syntax_error Demo.literalEngine (escapeRegExp term) = None.
Proof.
  split; [apply isRegexSpecial_listed|]. split.
  { rewrite escapeRegExp_escaped. unfold escaped. f_equal.
    apply map_ext. intros c. unfold escapedChar.
    rewrite isRegexSpecial_isSpecial. reflexivity. }
  split; [apply dropEscapes_escapeRegExp|]. split.
  { intros other H.
    rewrite <- (dropEscapes_escapeRegExp term), H.
    apply dropEscapes_escapeRegExp. }
  split; [apply escapeRegExp_length|].
  split; [apply unescape_escapeRegExp|].
  cbn [Demo.literalEngine re_syntax_error].
  rewrite unescape_escapeRegExp. reflexivity.
Qed.

End EscapeFacts.

(* ================================================================== *)
(** * An advanced replacement on a file without the target field *)
(* ================================================================== *)

Module AbsentTargetFacts.

Import JS Csv Matcher MatcherFacts FileProcessor Pipeline Spec Scan Effects.
Import AdvancedFacts Properties RowEventFacts.

Section Unwritten.

Variable env : Env.
Variable adv : AdvancedSearchConfig.
Variables target value_ : option string.
Variable showOnly : bool.
Variable headers : list string.

Hypothesis compiles : patternError (engine env) (activeOf adv) = None.
Hypothesis no_write : writesTarget target value_ headers = false.

Lemma verdict_reference (row : Row) :
  rowMatchesAdvanced (engine env) row headers adv
  = inr (reference (engine env) row headers adv).
Proof.
  rewrite rowMatchesAdvanced_eval. fold (activeOf adv). rewrite compiles.
  reflexivity.
Qed.

Lemma saysMatch_advMatched (row : Row) :
  saysMatch (rowMatchesAdvanced (engine env) row headers adv)
  = advMatched env adv headers row.
Proof.
  rewrite verdict_reference. unfold advMatched.
  destruct (reference (engine env) row headers adv) as [[] fields];
    reflexivity.
Qed.

Lemma advRewrite_attribution (row : Row) :
  advRewrite env adv target value_ headers row
  = (row, attributionOf row (snd (reference (engine env) row headers adv))).
Proof. unfold advRewrite. rewrite no_write. reflexivity. Qed.

Lemma advMatches_verdicts (rows : list Row) :
  advMatches env adv headers rows
  = length (filter
              (fun row =>
                 saysMatch (rowMatchesAdvanced (engine env) row headers adv))
              rows).
Proof.
  induction rows as [|row rest IH]; simpl; [reflexivity|].
  rewrite IH, saysMatch_advMatched.
  destruct (advMatched env adv headers row); reflexivity.
Qed.

Lemma advOut_retained (rows : list Row) :
  advOut env adv target value_ showOnly headers rows
  = flat_map
      (fun row =>
         retainedUnwritten showOnly
           (rowMatchesAdvanced (engine env) row headers adv) row)
      rows.
Proof.
  induction rows as [|row rest IH]; simpl; [reflexivity|].
  rewrite IH. f_equal. unfold advKept.
  rewrite advRewrite_attribution, verdict_reference. unfold advMatched.
  cbn [fst snd]. unfold attributionOf. rewrite length_map.
  destruct (reference (engine env) row headers adv) as [[] fields];
    cbn [fst snd retainedUnwritten]; destruct showOnly; try reflexivity.
  destruct fields; reflexivity.
Qed.

(** A matched row with a record, in the words of the evaluator's
    verdict. *)
Lemma reported_verdict (row : Row) (changes : list RowChange) :
  (advMatched env adv headers row = true
   /\ changes = snd (advRewrite env adv target value_ headers row)
   /\ changes <> [])
  <->
  exists fields,
    rowMatchesAdvanced (engine env) row headers adv = inr (true, fields)
    /\ fields <> []
    /\ changes = attributionOf row fields.
Proof.
  rewrite verdict_reference, advRewrite_attribution. unfold advMatched.
  cbn [snd].
  destruct (reference (engine env) row headers adv) as [flag fields].
  cbn [fst snd]. split.
  - intros (-> & -> & Hne). exists fields. split; [reflexivity|].
    split; [|reflexivity]. intros ->. apply Hne. reflexivity.
  - intros (fs & H & Hne & ->). injection H as -> ->.
    split; [reflexivity|]. split; [reflexivity|].
    destruct fs; [contradiction | discriminate].
Qed.

End Unwritten.

(** C10.  In advanced mode with a replacement requested
    ([replaceTargetField] non-empty, [replaceValue] defined), a parsed
    file whose headers do not contain the target field, scanned with
    conditions whose patterns compile.  No error event is sent and
    nothing is replaced: the file's replacement count is 0, the counter
    of replacements does not move, and every change record sent has its
    old value as new value.  The match count of the [file-complete]
    event is the number of rows the evaluator accepts.  A row event is
    sent exactly for each row the evaluator accepts with a non-empty
    list of matched fields, under the row's 1-based index and the
    number of rows, and its change records are one per matched field,
    holding the field's cell as old and as new value.  And yet the file
    is saved: the text written is the serialization of the retained
    rows, which are the parsed rows, unchanged and in order, all of them
    without [showOnlyMatches] and under it those that matched with a
    field attributed; the [file-complete] event and the output record
    carry the locator of the saved file. *)
Theorem advanced_replace_absent_target_still_persists
    (env : Env) (adv : AdvancedSearchConfig) (target value_ : option string)
    (showOnly : bool) (file : FileDescriptor) (rows : list Row) (st : St)
    (Hmode : isReplaceModeAdvanced target value_ = true)
    (Habsent : ~ In (nullish target "") (headersOf rows))
    (Hok : patternError (engine env) (activeOf adv) = None) :
  let verdict :=
    fun row => rowMatchesAdvanced (engine env) row (headersOf rows) adv in
  exists st' evs p saved,
    advancedParsed env adv target value_ showOnly file rows st = (inr tt, st')
    /\ events st' = events st ++ evs
    /\ (forall fn msg, ~ In (EvFileError fn msg) evs)
    /\ In (EvFileComplete (name file)
             (length (filter (fun row => saysMatch (verdict row)) rows))
             0 (Some p)) evs
    /\ (forall fn m r np, In (EvFileComplete fn m r np) evs ->
                          r = 0 /\ np = Some p)
    /\ totalReplacements (stats st') = totalReplacements (stats st)
    /\ Forall (fun c => oldValue c = newValue c) (changesOf evs)
    /\ (forall f q k t changes,
          In (EvRowProcessed f q k t changes) evs <->
          f = name file /\ q = path file /\ t = length rows
          /\ exists row fields,
               1 <= k /\ nth_error rows (k - 1) = Some row
               /\ verdict row = inr (true, fields)
               /\ fields <> []
               /\ changes = attributionOf row fields)
    /\ p = getDownloadUrl (TMP_DIR env) saved
    /\ readFile (fs (world st')) saved
       = Some (Text (Papa_unparse env
                       (flat_map
                          (fun row =>
                             retainedUnwritten showOnly (verdict row) row)
                          rows)))
    /\ outputFiles st' =
         outputFiles st ++ [{| originalPath := path file; newPath := Some p |}].
Proof.
  intros verdict.
  pose proof (writesTarget_absent target value_ (headersOf rows) Habsent)
    as Hnw.
  destruct (@advancedParsed_outcome env adv target value_ showOnly file rows
              st (or_introl Hok))
    as (st' & evs & np & Hrun & Hev & Hsig & Hout & _ & _ & Hrp & _ & Hsave).
  destruct (Hsave Hmode) as (saved & Hnp & Hfile). subst np.
  rewrite advCount_no_write in Hsig, Hrp by exact Hnw.
  rewrite (@advMatches_verdicts env adv (headersOf rows) Hok) in Hsig.
  rewrite (@advOut_retained env adv target value_ showOnly (headersOf rows)
             Hok Hnw) in Hfile.
  assert (Hin : forall e, isStats e = false ->
            (In e evs <->
             e = EvFileInfo (name file) (length rows) (length (headersOf rows))
             \/ In e (advEvents env adv target value_ (headersOf rows) file
                        (length rows) 0 rows)
             \/ e = EvFileComplete (name file)
                      (length (filter (fun row => saysMatch (verdict row))
                                 rows))
                      0 (Some (getDownloadUrl (TMP_DIR env) saved)))).
  { intros e Hs.
    assert (H : In e evs <-> In e (signal evs)).
    { rewrite in_signal. tauto. }
    rewrite H, Hsig. cbn [In]. rewrite in_app_iff. cbn [In].
    split; [intros [E|[E|[E|[]]]] | intros [E|[E|E]]]; auto. }
  exists st', evs, (getDownloadUrl (TMP_DIR env) saved), saved.
  split; [exact Hrun|]. split; [exact Hev|].
  split.
  { intros fn msg He. apply Hin in He; [|reflexivity].
    destruct He as [H|[H|H]]; try discriminate H.
    apply advEvents_rows in H. exact H. }
  split; [apply Hin; [reflexivity | auto]|].
  split.
  { intros fn m r np He. apply Hin in He; [|reflexivity].
    destruct He as [H|[H|H]]; try discriminate H.
    - apply advEvents_rows in H. contradiction.
    - injection H as _ _ <- <-. auto. }
  split; [rewrite Hrp; lia|].
  split.
  { rewrite <- changesOf_signal, Hsig.
    change (EvFileInfo ?a ?b ?c :: ?l) with ([EvFileInfo a b c] ++ l).
    apply Forall_changesOf_app; [constructor|].
    apply Forall_changesOf_app; [|constructor].
    apply advEvents_no_write. exact Hnw. }
  split.
  { intros f q k t changes.
    rewrite Hin by reflexivity.
    assert (Hmid :
      In (EvRowProcessed f q k t changes)
         (advEvents env adv target value_ (headersOf rows) file
            (length rows) 0 rows)
      <-> f = name file /\ q = path file /\ t = length rows
          /\ exists row,
               0 < k /\ nth_error rows (k - 1 - 0) = Some row
               /\ advMatched env adv (headersOf rows) row = true
               /\ changes
                  = snd (advRewrite env adv target value_ (headersOf rows)
                           row)
               /\ changes <> []).
    { apply (@reported_rows (name file) (path file) (length rows)
               (advMatched env adv (headersOf rows))
               (fun row =>
                  snd (advRewrite env adv target value_ (headersOf rows) row))
               (advEvents env adv target value_ (headersOf rows) file
                  (length rows))); reflexivity. }
    rewrite Nat.sub_0_r in Hmid. split.
    - intros [H|[H|H]]; try discriminate H.
      apply Hmid in H. destruct H as (-> & -> & -> & row & Hk & Hn & Hrest).
      repeat (split; [reflexivity|]).
      apply (@reported_verdict env adv target value_ (headersOf rows) Hok Hnw)
        in Hrest.
      destruct Hrest as (fields & Hv & Hne & Hc).
      exists row, fields. auto.
    - intros (-> & -> & -> & row & fields & Hk & Hn & Hv & Hne & Hc).
      right. left. apply Hmid.
      repeat (split; [reflexivity|]). exists row.
      split; [lia|]. split; [exact Hn|].
      apply (@reported_verdict env adv target value_ (headersOf rows) Hok Hnw).
      exists fields. auto. }
  split; [reflexivity|]. split; [exact Hfile | exact Hout].
Qed.

(** The statement above, on the people file with a target it lacks. *)
Lemma advanced_replace_absent_target_witness :
  isReplaceModeAdvanced (Some "status") (Some "closed") = true
  /\ ~ In "status" (headersOf (data (Demo.demoParse Demo.people)))
  /\ let verdict :=
       fun row =>
         rowMatchesAdvanced (engine (Demo.demoEnv Demo.store)) row
           (headersOf (data (Demo.demoParse Demo.people)))
           {| conditions :=
              [{| field := "state"; value := "NY"; mode := Some Equals |}];
            logic := Some AND; caseSensitive := None |} in
     exists st' evs p saved,
       advancedParsed (Demo.demoEnv Demo.store)
         {| conditions :=
              [{| field := "state"; value := "NY"; mode := Some Equals |}];
            logic := Some AND; caseSensitive := None |}
         (Some "status") (Some "closed") false Demo.peopleFile
         (data (Demo.demoParse Demo.people))
         (freshSt (Demo.emptyWorld [100])) = (inr tt, st')
       /\ events st' = events (freshSt (Demo.emptyWorld [100])) ++ evs
       /\ (forall fn msg, ~ In (EvFileError fn msg) evs)
       /\ In (EvFileComplete (name Demo.peopleFile)
                (length (filter (fun row => saysMatch (verdict row))
                           (data (Demo.demoParse Demo.people))))
                0 (Some p)) evs
       /\ (forall fn m r np, In (EvFileComplete fn m r np) evs ->
                             r = 0 /\ np = Some p)
       /\ totalReplacements (stats st')
          = totalReplacements (stats (freshSt (Demo.emptyWorld [100])))
       /\ Forall (fun c => oldValue c = newValue c) (changesOf evs)
       /\ (forall f q k t changes,
             In (EvRowProcessed f q k t changes) evs <->
             f = name Demo.peopleFile /\ q = path Demo.peopleFile
             /\ t = length (data (Demo.demoParse Demo.people))
             /\ exists row fields,
                  1 <= k
                  /\ nth_error (data (Demo.demoParse Demo.people)) (k - 1)
                     = Some row
                  /\ verdict row = inr (true, fields)
                  /\ fields <> []
                  /\ changes = attributionOf row fields)
       /\ p = getDownloadUrl (TMP_DIR (Demo.demoEnv Demo.store)) saved
       /\ readFile (fs (world st')) saved
          = Some (Text (Papa_unparse (Demo.demoEnv Demo.store)
                          (flat_map
                             (fun row =>
                                retainedUnwritten false (verdict row) row)
                             (data (Demo.demoParse Demo.people)))))
       /\ outputFiles st' =
            outputFiles (freshSt (Demo.emptyWorld [100]))
            ++ [{| originalPath := path Demo.peopleFile; newPath := Some p |}].
Proof.
  assert (Habsent :
            ~ In "status" (headersOf (data (Demo.demoParse Demo.people)))).
  { vm_compute. intros [H|[H|[]]]; discriminate. }
  split; [reflexivity|]. split; [exact Habsent|].
  apply advanced_replace_absent_target_still_persists;
    [reflexivity | exact Habsent | reflexivity].
Defined.

End AbsentTargetFacts.
